(* ===== verification/_CoqProject ===== *)
-Q . S2P
Prelude.v
GoFloat.v
GoText.v
Sha256.v
GoStrings.v
Json.v
JsonProofs.v
Monitor.v
Model.v
Ema.v
MarketZones.v
MarketStructure.v
ZonesProofs.v
StructureProofs.v
MarketReducer.v
MarketProofs.v
StoreSpec.v
Memory.v
MemoryProofs.v
Migrations.v
Postgres.v
PostgresProofs.v
PostgresRuns.v
PostgresEffects.v
Lane.v
LaneReducers.v
LaneProofs.v
LaneRefinement.v
LaneRecovery.v
LaneResume.v
LaneHistory.v
LaneAccept.v
LaneCursor.v
Outbox.v
OutboxRun.v
PostgresOutbox.v
StoreMirror.v
Registry.v
Config.v
ConfigProofs.v
Input.v
Contract.v
ContractProofs.v
Broker.v
BrokerOpen.v
BrokerProofs.v
Hub.v
HubProofs.v
Server.v
Main.v
MainProofs.v
Run.v
EndToEnd.v
Engine.v
Session.v
WsRequest.v
WebSocket.v
SessionProofs.v
Dispatch.v
WebSocketProofs.v
WebSocketDelivery.v
ServerProofs.v
Fixtures.v
IndicatorTheorems.v
LaneTheorems.v
DeliveryTheorems.v
StoreTheorems.v
ServiceTheorems.v
SocketTheorems.v
StreamTheorems.v
ProcessTheorems.v
