(* ===== verification/Prelude.v ===== *)
(** * signald: verification of the signal service

    signald reads OHLC candles from an upstream WebSocket, reduces every
    configured series to EMA values and market facts (structure, zones,
    patterns, liquidity), stores the resulting events with their cursors in one
    transaction per closed candle, and delivers them from an outbox to
    WebSocket and REST clients and to a JetStream evaluation stream.  This
    library models that program, the Go code under src/, and proves what makes
    it correct.  Definitions are executable and keep the names of the source.

    ** The program and its model

    One lane per series owns the state of that series and handles its inputs
    one at a time; a registry routes inputs to lanes; a store keeps events,
    reducer snapshots and series cursors; a dispatcher publishes the outbox; a
    hub hands published events to subscribers; the server authenticates
    clients and replays history to them.

    - Prelude, GoFloat, GoText, GoStrings, Sha256, Json: Go itself.  Outcomes
      (value, error, panic), slices with bounds checks, sorting, machine
      integers, binary64 arithmetic, number and duration texts, strings,
      base64, SHA-256; the scanner of encoding/json as a machine over bytes
      and its decoding into structs, with the lemmas of JsonProofs.
    - Model (internal/model): bars, events, market states, snapshots; the
      timeframe parser with its 64-bit arithmetic.
    - Ema (internal/indicator/ema.go): the EMA reducer and its snapshots.
    - MarketZones, MarketStructure (internal/indicator/market.go): candle
      features, fair value gaps, order blocks, patterns, liquidity; ATR,
      zigzag, pullback merging, breakouts, breaks of structure, labels, levels,
      range, trend.  ZonesProofs and StructureProofs are their lemmas.
    - MarketReducer (internal/indicator/market_reducer.go): the market reducer
      and zone transitions; MarketProofs.
    - StoreSpec (engine.Store): the store interface as a class with its laws.
      Memory (internal/store/memory.go) and Postgres
      (internal/store/postgres.go and its migrations) are its instances;
      MemoryProofs, PostgresProofs, PostgresRuns and PostgresOutbox, and the
      simulation between the two in StoreMirror.  PostgresEffects: the rows a
      commit or a rebuild writes, as functions of the tables.  Migrations (the
      first part of postgres.go): the pool, its settings and the migrations.
    - Lane (internal/engine/lane.go): the series state machine in a state and
      error monad over lane, store and publications: seed, rebuild, recovery,
      catch-up, closed and forming bars.  LaneReducers, LaneProofs,
      LaneRefinement, LaneRecovery, LaneResume, LaneHistory, LaneAccept and
      LaneCursor.
    - Registry (internal/engine/registry.go): construction and routing.
    - Outbox (internal/outbox/dispatcher.go): flushing in batches over any
      outbox (class OutboxLaws) and any publisher.  OutboxRun: the loop of the
      dispatcher and the health it reports.
    - Config (internal/config/config.go): the loader; ConfigProofs.
    - Input (internal/input/ohlc.go): dispatch of messages, one connection, the
      reconnect loop.  Monitor (internal/monitor/metrics.go): the metrics.
    - Contract (internal/api/contract.go): the public CloudEvents;
      ContractProofs.
    - Hub (internal/api/hub.go): subscribers, filters, the replay barrier;
      HubProofs.  Server (internal/api/server.go): credentials, origins,
      routing and REST; ServerProofs.
    - The WebSocket half of server.go.  Session: what a request asks for, the
      opening messages, history, replay.  SessionProofs and Dispatch interleave
      a replay with commits and publications as step relations.  WsRequest: the
      request, from the bytes of its message.  WebSocket: the handler and its
      writer goroutine as one state machine, a step per call on the socket,
      the hub or the store, over any socket (class Socket and its laws).
      WebSocketProofs has its invariant and its end, WebSocketDelivery joins
      it to the session and the dispatcher.
    - Broker (internal/broker/jetstream.go): both publishing paths;
      BrokerProofs.  BrokerOpen: connecting, the reconciliation of the two
      streams and closing, over any server (class StreamAdmin and its laws),
      what the server does with a message (class MessageLaws), and a scripted
      server that satisfies both.
    - Main (cmd/signald/main.go): the publishers and the start of the service;
      MainProofs.  Run: the whole of run, what it opens, starts and closes, the
      group of components with Server.Run, and the exit status.
    - Two compositions.  Engine: the client feeds the registry, whose lanes
      share one store.  EndToEnd: the path of a bar through lane, store,
      outbox, broker and hub.
    - Fixtures: concrete data.  The theorems are in IndicatorTheorems,
      LaneTheorems, DeliveryTheorems, StoreTheorems, ServiceTheorems,
      SocketTheorems, StreamTheorems and ProcessTheorems, each with an
      application at concrete inputs.

    ** What the theorems show

    - Indicators: the EMA is the textbook recurrence; the market evaluation
      never panics and is well formed; swings are extremes that alternate;
      breaks, gaps, order blocks and zone transitions are what their
      definitions say; merging settles; seeding agrees with replaying live
      up to the order of a bar's zone transitions, and snapshots restore the
      state.
    - Lanes: whatever the sequence of commands, on an empty store or on the
      checkpoint an earlier lane left, the state of a lane is the reduction of
      one history of bars; recovery resumes exactly the history of the
      checkpoint;
      a bar that continues the history is accepted, a failed one leaves no
      trace; corrections reset consumers; forming bars change nothing durable.
      With the client and the store: whatever the upstream sends, every series
      keeps its lane, and the store's cursor is the last bar of its history.
    - Stores: a commit to Postgres fails and changes nothing, or writes
      exactly the rows of its events, snapshots and cursor, and a rebuild
      replaces the points and snapshots of its series, in the same way; a
      recovery reads what a commit wrote; the Postgres store
      simulates the memory store.  Lane theorems are proved against the
      interface, so they hold for both stores.
    - Delivery: a flush ends and loses nothing; the outbox reaches the streams,
      which drop only messages of an id they have, and the hub, in cursor order; a closed bar reaches the streams and every
      client being served; a subscriber that stays connected finds on its
      socket every matching event from its resume cursor on, in order and
      without gaps, under every interleaving of commits, publications, replay,
      activation and writing; REST pages follow each other exactly.
    - Connections: a request is read as it was written and nothing else is
      accepted; whatever fails, the messages of a connection follow the
      protocol, its client leaves the hub and the socket is closed.
    - Service: the input client applies messages up to the first error, and
      waits exactly as its doubling backoff says; nothing below /v1 answers
      without credentials; forming frames are coalesced and others,
      once acknowledged, are in their stream; the health of the outbox is that of its last flush.
    - Process: a configuration that loads starts; a database is opened with
      its migrations, each applied once, or is left as it was; the streams of
      the broker are reconciled and no other is touched; a run closes what it
      opened, the last first, and returns the first error.

    ** Choices and bounds

    - Times are instants in nanoseconds, 64-bit integers are Z with explicit
      wrap-around, floats are binary64 without fused multiply-add.  A nil and
      an empty slice are the same list.  Texts are valid UTF-8.
    - What Go leaves open (the order of a map, the order in which sort.Slice
      leaves equal elements) is the class Runtime: theorems hold for every
      choice.  A range over a map may differ at every iteration, so theorems
      that compare two executions give each its own Runtime, one per bar where
      bars follow each other, and claim nothing about the order.
    - Code outside the repository is a parameter: the database columns (class
      Codec), what a migration script does, the NATS client (classes
      Connection, StreamAdmin and MessageLaws), the WebSocket upgrade and its connection
      (class Socket).  Laws state what is documented of each, and a scripted
      instance satisfies them.  Faults are scripts of which call fails, and
      theorems quantify over them.  JSON documents are trees or stand for
      their text, except for the WebSocket request, which is read from bytes.
    - Mutexes and transactions are single steps; goroutines are step relations.
    - Fuel: merge_loop gets one turn per swing and each turn removes one;
      Flush gets one turn per 250 pending events and each full turn removes
      250; replay gets one per 5000 events above its cursor; the theorems
      prove these amounts are enough.

    ** Not modelled

    What happens inside the libraries: the framing of the sockets and their
    timers (a deadline is a call that fails), net/http's parsing and listening,
    the NATS and PostgreSQL protocols, the delivery of signals, and logging.
    The messages of the upstream socket are taken as decoded.  A lost
    acknowledgement of a database commit, where the client is told of a
    failure that did not happen, is not modelled either. *)

From stdpp Require Import prelude gmap strings list sorting.
From Stdlib Require Import ZArith Lia.

#[global] Open Scope Z_scope.

(** ** Outcomes of Go code

    A Go function either returns normally, returns a non-nil [error], or
    panics (index out of range, nil map or pointer).  Pure code that can only
    panic is written in stdpp's [option] monad, [None] being the panic; code
    that can also return an error uses [outcome]. *)

Inductive outcome (E A : Type) : Type :=
  | Ok (a : A)
  | Fail (e : E)
  | Panic.
Arguments Ok {E A} a.
Arguments Fail {E A} e.
Arguments Panic {E A}.

#[global] Instance outcome_ret {E} : MRet (outcome E) := fun A a => Ok a.
#[global] Instance outcome_bind {E} : MBind (outcome E) := fun A B f m =>
  match m with
  | Ok a => f a
  | Fail e => Fail e
  | Panic => Panic
  end.
#[global] Instance outcome_fmap {E} : FMap (outcome E) := fun A B f m =>
  match m with
  | Ok a => Ok (f a)
  | Fail e => Fail e
  | Panic => Panic
  end.

(** A panicking computation used inside code that can also fail. *)
Definition lift_panic {E A} (m : option A) : outcome E A :=
  match m with Some a => Ok a | None => Panic end.

(** [if err != nil { return wrap(err) }] around a call. *)
Definition wrap_err {E F A} (f : E -> F) (m : outcome E A) : outcome F A :=
  match m with Ok a => Ok a | Fail e => Fail (f e) | Panic => Panic end.

Definition is_ok {E A} (m : outcome E A) : bool :=
  match m with Ok _ => true | _ => false end.
Definition is_panic {E A} (m : outcome E A) : bool :=
  match m with Panic => true | _ => false end.

(** ** Machine integers

    [int] and [int64] are 64 bits wide on the supported platforms. *)
Definition uint64_max : Z := 18446744073709551615.
Definition wrap_u64 (z : Z) : Z := z `mod` 2 ^ 64.
Definition wrap_i64 (z : Z) : Z := (z + 2 ^ 63) `mod` 2 ^ 64 - 2 ^ 63.
Definition in_u64 (z : Z) : Prop := 0 <= z < 2 ^ 64.
Definition in_i64 (z : Z) : Prop := - 2 ^ 63 <= z < 2 ^ 63.

(** ** Go slices

    Indices are [Z]; reading or slicing outside the bounds is the runtime
    panic [None]. *)
Definition len {A} (l : list A) : Z := Z.of_nat (length l).

Definition idx {A} (l : list A) (i : Z) : option A :=
  if i <? 0 then None else l !! Z.to_nat i.

(** [l[i:]] *)
Definition slice_from {A} (l : list A) (i : Z) : option (list A) :=
  if (0 <=? i) && (i <=? len l) then Some (drop (Z.to_nat i) l) else None.

(** [l[:i]] (with [i] checked against the length: the code never slices
    beyond it up to the capacity). *)
Definition slice_to {A} (l : list A) (i : Z) : option (list A) :=
  if (0 <=? i) && (i <=? len l) then Some (take (Z.to_nat i) l) else None.

(** [if len(l) > n { l = l[len(l)-n:] }] *)
Definition keep_last {A} (n : Z) (l : list A) : option (list A) :=
  if n <? len l then slice_from l (len l - n) else Some l.

(** The last element, [l[len(l)-1]]. *)
Definition idx_last {A} (l : list A) : option A := idx l (len l - 1).

(** [for i := lo; i < hi; i++] as the list of the values of [i]. *)
Definition range (lo hi : Z) : list Z := seqZ lo (hi - lo).

(** [for i := hi; i >= lo; i--]. *)
Definition range_down (hi lo : Z) : list Z := rev (range lo (hi + 1)).

(** A loop whose body updates a state and may panic. *)
Fixpoint loop {S A} (body : S -> A -> option S) (l : list A) (s : S) : option S :=
  match l with
  | [] => Some s
  | a :: l' => s' ← body s a; loop body l' s'
  end.

(** A loop that stops at the first element satisfying a test that may panic
    ([for ... { if test { found = x; break } }]). *)
Fixpoint find_first {A} (test : A -> option bool) (l : list A) : option (option A) :=
  match l with
  | [] => Some None
  | a :: l' => b ← test a; if (b : bool) then Some (Some a) else find_first test l'
  end.

(** The position of the first element satisfying [p]; [-1] if there is none. *)
Fixpoint index_of_from {A} (p : A -> bool) (l : list A) (i : Z) : Z :=
  match l with
  | [] => -1
  | a :: l' => if p a then i else index_of_from p l' (i + 1)
  end.
Definition index_of {A} (p : A -> bool) (l : list A) : Z := index_of_from p l 0.

(** ** Sorting

    Insertion after the elements that are not greater: the stable sort, whose
    result [sort.SliceStable] is specified to return. *)
Fixpoint insert_stable {A} (less : A -> A -> bool) (x : A) (l : list A) : list A :=
  match l with
  | [] => [x]
  | y :: l' => if less x y then x :: y :: l' else y :: insert_stable less x l'
  end.
Definition sort_stable {A} (less : A -> A -> bool) (l : list A) : list A :=
  fold_left (fun acc x => insert_stable less x acc) l [].

(** [less] is a strict weak order. *)
Record StrictWeak {A} (less : A -> A -> bool) : Prop := {
  sw_irrefl : forall x, less x x = false;
  sw_trans : forall x y z, less x y = true -> less y z = true -> less x z = true;
  sw_negtrans : forall x y z, less x y = false -> less y z = false -> less x z = false
}.

Definition sorted_by {A} (less : A -> A -> bool) (l : list A) : Prop :=
  StronglySorted (fun x y => less y x = false) l.

(** ** Choices left to the Go runtime

    The language leaves the iteration order of a map and the order in which
    [sort.Slice] leaves equal elements unspecified.  The development is
    parameterised over both, so that its theorems hold for every choice.  A map
    may be ranged over in another order each time, so an instance speaks for
    one execution of the code it is given to, and a statement that compares
    executions quantifies over an instance for each of them. *)
Class Runtime := {
  map_range : forall {K : Type} `{Countable K} {V : Type}, gmap K V -> list (K * V);
  map_range_perm : forall K `{Countable K} V (m : gmap K V), map_range m ≡ₚ map_to_list m;
  sort_slice : forall {A : Type}, (A -> A -> bool) -> list A -> list A;
  sort_slice_perm : forall A (less : A -> A -> bool) l, sort_slice less l ≡ₚ l;
  sort_slice_sorted : forall A (less : A -> A -> bool) l,
    StrictWeak less -> sorted_by less (sort_slice less l)
}.

(** Two executions of one build of the program: the order of a map may differ,
    but [sort.Slice], which depends on nothing but its input, sorts alike. *)
Definition same_sort (R1 R2 : Runtime) : Prop :=
  forall (A : Type) (less : A -> A -> bool) l, @sort_slice R1 A less l = @sort_slice R2 A less l.

#[global] Arguments len {A} l : simpl never.
#[global] Arguments idx {A} l i : simpl never.
#[global] Arguments idx_last {A} l : simpl never.
#[global] Arguments slice_from {A} l i : simpl never.
#[global] Arguments slice_to {A} l i : simpl never.
#[global] Arguments keep_last {A} n l : simpl never.
#[global] Arguments range lo hi : simpl never.
#[global] Arguments range_down hi lo : simpl never.
#[global] Arguments wrap_u64 z : simpl never.
#[global] Arguments wrap_i64 z : simpl never.
#[global] Arguments sort_stable {A} less l : simpl never.

(** ** Lemmas shared by the components *)

Create HintDb go.

Lemma len_nonneg {A} (l : list A) : 0 <= len l.
Proof. unfold len. lia. Qed.

Lemma len_nil {A} : len (@nil A) = 0.
Proof. done. Qed.

Lemma len_cons {A} (x : A) l : len (x :: l) = 1 + len l.
Proof. unfold len. cbn [length]. lia. Qed.

Lemma len_app {A} (l k : list A) : len (l ++ k) = len l + len k.
Proof. unfold len. rewrite length_app. lia. Qed.

Lemma len_snoc {A} (l : list A) x : len (l ++ [x]) = len l + 1.
Proof. rewrite len_app. done. Qed.

Lemma idx_Some {A} (l : list A) i x :
  idx l i = Some x <-> 0 <= i /\ l !! Z.to_nat i = Some x.
Proof.
  unfold idx. destruct (Z.ltb_spec i 0); [split; [done | lia] |].
  split; [auto | by intros [_ ?]].
Qed.

Lemma idx_bound {A} (l : list A) i x : idx l i = Some x -> 0 <= i < len l.
Proof.
  rewrite idx_Some. intros [? ?%lookup_lt_Some]. unfold len. lia.
Qed.

Lemma idx_is_Some {A} (l : list A) i : 0 <= i < len l -> exists x, idx l i = Some x.
Proof.
  unfold len. intros [??]. destruct (lookup_lt_is_Some_2 l (Z.to_nat i)) as [x Hx]; [lia|].
  exists x. by apply idx_Some.
Qed.

Lemma idx_last_snoc {A} (l : list A) x : idx_last (l ++ [x]) = Some x.
Proof.
  unfold idx_last. apply idx_Some. rewrite len_snoc.
  pose proof (len_nonneg l). split; [lia|].
  replace (Z.to_nat _) with (length l) by (unfold len; lia).
  by rewrite lookup_app_r, Nat.sub_diag by lia.
Qed.

Lemma idx_elem_of {A} (l : list A) i x : idx l i = Some x -> x ∈ l.
Proof. intros [_ ?]%idx_Some. by eapply list_elem_of_lookup_2. Qed.

Lemma keep_last_Some {A} n (l : list A) :
  0 <= n -> exists k, keep_last n l = Some k /\ len k <= n /\ k `suffix_of` l.
Proof.
  intros Hn. unfold keep_last. destruct (Z.ltb_spec n (len l)) as [Hlt|Hle].
  - unfold slice_from. pose proof (len_nonneg l).
    replace ((0 <=? len l - n) && (len l - n <=? len l)) with true
      by (symmetry; apply andb_true_iff; lia).
    eexists; split_and!; [done| |apply suffix_drop].
    unfold len in *. rewrite length_drop. lia.
  - exists l. split_and!; [done|lia|done].
Qed.

(** What [keep_last] returns, as a total function. *)
Definition last_n {A} (n : Z) (l : list A) : list A :=
  drop (Z.to_nat (len l - n)) l.

Lemma keep_last_last_n {A} n (l : list A) :
  0 <= n -> keep_last n l = Some (last_n n l).
Proof.
  intros Hn. unfold keep_last, last_n, slice_from. pose proof (len_nonneg l).
  destruct (Z.ltb_spec n (len l)).
  - by rewrite (proj2 (andb_true_iff _ _)) by lia.
  - by replace (Z.to_nat (len l - n)) with 0%nat by lia.
Qed.

Lemma len_last_n {A} n (l : list A) : 0 <= n -> len (last_n n l) = Z.min n (len l).
Proof. intros. unfold last_n, len. rewrite length_drop. lia. Qed.

Lemma last_n_suffix {A} n (l : list A) : last_n n l `suffix_of` l.
Proof. apply suffix_drop. Qed.

Lemma last_n_all {A} n (l : list A) : len l <= n -> last_n n l = l.
Proof. intros. unfold last_n. by replace (Z.to_nat _) with 0%nat by lia. Qed.

(** Trimming as elements are appended is trimming once at the end. *)
Lemma last_n_app {A} n (l k : list A) :
  0 <= n -> last_n n (last_n n l ++ k) = last_n n (l ++ k).
Proof.
  intros Hn. unfold last_n. unfold len. rewrite !length_app, length_drop.
  destruct (decide (Z.of_nat (length l) <= n)) as [Hle|Hgt].
  { by replace (Z.to_nat (Z.of_nat (length l) - n)) with 0%nat by lia; rewrite Nat.sub_0_r. }
  set (i := Z.to_nat (Z.of_nat (length l) - n)).
  transitivity (drop (length k) (drop i (l ++ k))).
  - rewrite (drop_app_le l) by lia. f_equal. lia.
  - rewrite drop_drop. f_equal. lia.
Qed.

Lemma last_n_snoc_last {A} n (l : list A) x :
  1 <= n -> exists k, last_n n (l ++ [x]) = k ++ [x].
Proof.
  intros Hn. unfold last_n. rewrite len_snoc.
  rewrite drop_app_le by (unfold len; lia). by eexists.
Qed.

Lemma suffix_elem_of {A} (l k : list A) x : l `suffix_of` k -> x ∈ l -> x ∈ k.
Proof. intros [r ->] ?. apply elem_of_app. auto. Qed.

Lemma suffix_Forall {A} (P : A -> Prop) l k : l `suffix_of` k -> Forall P k -> Forall P l.
Proof. rewrite !Forall_forall. eauto using suffix_elem_of. Qed.

Lemma elem_of_range lo hi i : i ∈ range lo hi <-> lo <= i < hi.
Proof. unfold range. rewrite elem_of_seqZ. lia. Qed.

Lemma elem_of_range_down hi lo i : i ∈ range_down hi lo <-> lo <= i <= hi.
Proof. unfold range_down. rewrite list_elem_of_In, <-in_rev, <-list_elem_of_In, elem_of_range. lia. Qed.

Lemma range_nil lo hi : hi <= lo -> range lo hi = [].
Proof. intros. apply seqZ_nil. lia. Qed.

Lemma range_cons lo hi : lo < hi -> range lo hi = lo :: range (lo + 1) hi.
Proof.
  intros. unfold range. rewrite seqZ_cons by lia. f_equal. f_equal; lia.
Qed.

Lemma loop_invariant {S A} (P : S -> Prop) (body : S -> A -> option S) l s :
  P s ->
  (forall s a, a ∈ l -> P s -> exists s', body s a = Some s' /\ P s') ->
  exists s', loop body l s = Some s' /\ P s'.
Proof.
  revert s. induction l as [|a l IH]; intros s Hs Hb; [by exists s|]. cbn.
  destruct (Hb s a) as (s' & -> & Hs'); [by left|done|]. cbn.
  apply IH; [done|]. intros; apply Hb; [by right|done].
Qed.

Lemma loop_inv_elim {S A} (P : S -> Prop) (body : S -> A -> option S) l s s' :
  loop body l s = Some s' -> P s ->
  (forall s a s', a ∈ l -> P s -> body s a = Some s' -> P s') -> P s'.
Proof.
  revert s. induction l as [|a l IH]; intros s Hl Hs Hb; cbn in Hl; [by simplify_eq|].
  apply bind_Some in Hl as (s1 & Hs1 & Hl).
  eapply IH; [done| |]; [eapply Hb; [by left|done..]|].
  intros; eapply Hb; [by right|done..].
Qed.

(** Invariants of a counting loop, indexed by the counter. *)
Lemma loop_range {S} (P : Z -> S -> Prop) (body : S -> Z -> option S) lo hi s :
  lo <= hi -> P lo s ->
  (forall i s, lo <= i < hi -> P i s -> exists s', body s i = Some s' /\ P (i + 1) s') ->
  exists s', loop body (range lo hi) s = Some s' /\ P hi s'.
Proof.
  remember (Z.to_nat (hi - lo)) as k eqn:Hk. revert lo s Hk.
  induction k as [|k IH]; intros lo s Hk Hle Hs Hb.
  - replace hi with lo in * by lia. rewrite range_nil by lia. by exists s.
  - rewrite range_cons by lia. cbn. destruct (Hb lo s) as (s' & -> & Hs'); [lia|done|]. cbn.
    apply IH; [lia|lia|done|]. intros; apply Hb; [lia|done].
Qed.

Lemma loop_app {S A} (body : S -> A -> option S) l k s :
  loop body (l ++ k) s = loop body l s ≫= loop body k.
Proof.
  revert s. induction l as [|a l IH]; intros s; [done|]. cbn.
  destruct (body s a); cbn; auto.
Qed.

(** A loop whose body never panics is the fold of its total version. *)
Lemma loop_fold {S A} (body : S -> A -> option S) (f : S -> A -> S) l s :
  (forall s a, body s a = Some (f s a)) -> loop body l s = Some (foldl f s l).
Proof.
  intros Hf. revert s. induction l as [|a l IH]; intros s; [done|]. cbn.
  rewrite Hf. cbn. auto.
Qed.

Lemma find_first_total {A} (test : A -> option bool) l :
  (forall a, a ∈ l -> is_Some (test a)) -> is_Some (find_first test l).
Proof.
  induction l as [|a l IH]; intros Ht; cbn; [done|].
  destruct (Ht a) as [b ->]; [by left|]. cbn. destruct b; [done|].
  apply IH. intros; apply Ht. by right.
Qed.

Lemma find_first_Some {A} (test : A -> option bool) l a :
  find_first test l = Some (Some a) -> a ∈ l /\ test a = Some true.
Proof.
  induction l as [|b l IH]; cbn; [done|]. intros (t & Ht & Hl)%bind_Some.
  destruct t; simplify_eq; [split; [by left|done]|].
  apply IH in Hl as [??]. split; [by right|done].
Qed.

Lemma find_first_None {A} (test : A -> option bool) l :
  find_first test l = Some None -> forall a, a ∈ l -> test a = Some false.
Proof.
  induction l as [|b l IH]; cbn; [set_solver|]. intros (t & Ht & Hl)%bind_Some a.
  destruct t; simplify_eq. intros [->|?]%elem_of_cons; auto.
Qed.

(** ** Facts about the stable sort *)

Lemma insert_stable_perm {A} (less : A -> A -> bool) x l :
  insert_stable less x l ≡ₚ x :: l.
Proof.
  induction l as [|y l IH]; cbn; [done|]. destruct (less x y); [done|].
  rewrite IH. apply Permutation_swap.
Qed.

Lemma sort_stable_perm {A} (less : A -> A -> bool) l : sort_stable less l ≡ₚ l.
Proof.
  unfold sort_stable. change l with ([] ++ l) at 2. generalize (@nil A).
  induction l as [|x l IH]; intros acc; cbn; [by rewrite app_nil_r|].
  rewrite IH, insert_stable_perm. by rewrite <-Permutation_middle.
Qed.

Lemma insert_stable_sorted {A} (less : A -> A -> bool) x l :
  StrictWeak less -> sorted_by less l -> sorted_by less (insert_stable less x l).
Proof.
  intros HW. unfold sorted_by.
  induction l as [|y l IH]; cbn; intros Hs; [by repeat constructor|].
  apply StronglySorted_inv in Hs as [Hs Hy].
  destruct (less x y) eqn:Hxy.
  - assert (Hx : forall z, less z y = false -> less z x = false).
    { intros z Hz. destruct (less z x) eqn:?; [|done].
      by rewrite (sw_trans _ HW z x y) in Hz. }
    repeat (constructor; try done).
    + apply Hx, HW.
    + eapply Forall_impl; [exact Hy|]. cbn. auto.
  - constructor; [auto|]. rewrite insert_stable_perm. constructor; done.
Qed.

Lemma sort_stable_sorted {A} (less : A -> A -> bool) l :
  StrictWeak less -> sorted_by less (sort_stable less l).
Proof.
  intros HW. unfold sort_stable.
  assert (Hn : sorted_by less (@nil A)) by constructor.
  revert Hn. generalize (@nil A).
  induction l as [|x l IH]; intros acc Hacc; cbn; [done|].
  apply IH. by apply insert_stable_sorted.
Qed.

Lemma insert_stable_last {A} (less : A -> A -> bool) x l :
  Forall (fun y => less x y = false) l -> insert_stable less x l = l ++ [x].
Proof. induction 1 as [|y l Hy _ IH]; cbn; [done|]. by rewrite Hy, IH. Qed.

(** Sorting a sorted slice leaves it as it is. *)
Lemma sort_stable_id {A} (less : A -> A -> bool) l :
  sorted_by less l -> sort_stable less l = l.
Proof.
  unfold sort_stable. change l with ([] ++ l) at 1 3. generalize (@nil A).
  induction l as [|x l IH]; intros acc Hs; cbn; [by rewrite app_nil_r|].
  rewrite insert_stable_last.
  - rewrite IH by (by rewrite <-app_assoc). by rewrite <-app_assoc.
  - apply Forall_forall. intros y Hy.
    apply list_elem_of_split in Hy as (l1 & l2 & ->).
    rewrite <-app_assoc in Hs.
    apply StronglySorted_app in Hs as (_ & _ & Hs). cbn in Hs.
    apply StronglySorted_inv in Hs as [_ Hs].
    rewrite Forall_forall in Hs. apply Hs. set_solver.
Qed.

Lemma sort_stable_elem {A} (less : A -> A -> bool) l x :
  x ∈ sort_stable less l <-> x ∈ l.
Proof. by rewrite sort_stable_perm. Qed.

Lemma sort_stable_length {A} (less : A -> A -> bool) l :
  length (sort_stable less l) = length l.
Proof. by rewrite sort_stable_perm. Qed.

(** A strict weak order induced by an integer key. *)
Lemma strict_weak_key {A} (key : A -> Z) : StrictWeak (fun x y => key x <? key y).
Proof. split; intros *; rewrite ?Z.ltb_lt, ?Z.ltb_ge; lia. Qed.

(** The choices the reference runtime makes: the finite map's own order and
    the stable order. *)
#[export] Instance reference_runtime : Runtime := {|
  map_range K _ _ V m := map_to_list m;
  map_range_perm K _ _ V m := reflexivity _;
  sort_slice A less l := sort_stable less l;
  sort_slice_perm A less l := sort_stable_perm less l;
  sort_slice_sorted A less l := sort_stable_sorted less l
|}.

(** [sort.Ints] *)
Definition sort_ints (l : list Z) : list Z := sort_stable Z.ltb l.

Lemma strict_weak_ltb : StrictWeak Z.ltb.
Proof. exact (strict_weak_key (fun x => x)). Qed.

(** The sorted form of what a Go map or set is ranged over is determined by
    its content. *)
Lemma sort_ints_perm_eq l k : l ≡ₚ k -> sort_ints l = sort_ints k.
Proof.
  intros Hp. eapply StronglySorted_unique_strong.
  2-3: apply (sort_stable_sorted Z.ltb _ strict_weak_ltb).
  - cbn. intros; lia.
  - unfold sort_ints. by rewrite !sort_stable_perm.
Qed.
