(* ===== verification/GoFloat.v ===== *)
(** * [float64]

    Go's [float64] is IEEE 754 binary64 with round-to-nearest-even.  It is
    modelled by the Standard Library's bit-exact specification [spec_float]
    at precision 53 and maximal exponent 1024; every operation below evaluates
    to the value the processor computes (NaN payloads apart, and without the
    fused multiply-add a compiler may use on some architectures: the model is
    that of amd64).  The file ends with the order theory of the comparison
    operators, which the components rely on. *)

From stdpp Require Import prelude.
From Stdlib Require Import ZArith Lia SpecFloat.
From S2P Require Import Prelude.

#[global] Open Scope Z_scope.

Abbreviation float64 := spec_float.

Definition fadd : float64 -> float64 -> float64 := SFadd 53 1024.
Definition fsub : float64 -> float64 -> float64 := SFsub 53 1024.
Definition fmul : float64 -> float64 -> float64 := SFmul 53 1024.
Definition fdiv : float64 -> float64 -> float64 := SFdiv 53 1024.
Definition fabs : float64 -> float64 := SFabs.

Definition flt (x y : float64) : bool := SFltb x y.
Definition fle (x y : float64) : bool := SFleb x y.
Definition fgt (x y : float64) : bool := SFltb y x.
Definition fge (x y : float64) : bool := SFleb y x.
Definition feq (x y : float64) : bool := SFeqb x y.
Definition fne (x y : float64) : bool := negb (SFeqb x y).

Declare Scope float_scope.
Delimit Scope float_scope with F.
Infix "+" := fadd : float_scope.
Infix "-" := fsub : float_scope.
Infix "*" := fmul : float_scope.
Infix "/" := fdiv : float_scope.
Infix "<?" := flt (at level 70) : float_scope.
Infix "<=?" := fle (at level 70) : float_scope.
Infix ">?" := fgt (at level 70) : float_scope.
Infix ">=?" := fge (at level 70) : float_scope.
Infix "=?" := feq (at level 70) : float_scope.

(** [float64(n)] for an integer [n]. *)
Definition of_int (n : Z) : float64 := binary_normalize 53 1024 n 0 false.

(** A decimal constant [n/d] of the source, [n] and [d] exactly
    representable: one rounding of the exact quotient, as the compiler does. *)
Definition lit (n d : Z) : float64 := fdiv (of_int n) (of_int d).

Definition f0 : float64 := S754_zero false.
Definition nan : float64 := S754_nan.

(** [math.IsNaN(x)], [math.IsInf(x, 0)] *)
Definition is_nan (x : float64) : bool := match x with S754_nan => true | _ => false end.
Definition is_inf (x : float64) : bool := match x with S754_infinity _ => true | _ => false end.
Definition is_finite (x : float64) : bool := negb (is_nan x) && negb (is_inf x).

Definition sign_bit (x : float64) : bool :=
  match x with
  | S754_zero s | S754_infinity s | S754_finite s _ _ => s
  | S754_nan => false
  end.

(** The builtins [max] and [min]: NaN if an argument is, and [-0 < +0]. *)
Definition fmax (x y : float64) : float64 :=
  if is_nan x || is_nan y then S754_nan
  else if flt x y then y
  else if flt y x then x
  else if sign_bit x then y else x.
Definition fmin (x y : float64) : float64 :=
  if is_nan x || is_nan y then S754_nan
  else if flt x y then x
  else if flt y x then y
  else if sign_bit x then x else y.

(** [math.Float64bits] *)
Definition float64_bits (x : float64) : Z :=
  match x with
  | S754_zero s => if s then 2 ^ 63 else 0
  | S754_infinity s => (if s then 2 ^ 63 else 0) + 2047 * 2 ^ 52
  | S754_nan => 2047 * 2 ^ 52 + 2 ^ 51 + 1
  | S754_finite s m e =>
      (if s then 2 ^ 63 else 0) +
      (if (2 ^ 52 <=? Z.pos m) then (e + 1075) * 2 ^ 52 + (Z.pos m - 2 ^ 52) else Z.pos m)
  end.

(** Spot checks: [0.1], [1/3] and [-2.5] have the bit patterns IEEE 754 gives
    them, and [0.1 + 0.2] is not [0.3]. *)
Example bits_tenth : float64_bits (lit 1 10) = 0x3FB999999999999A.
Proof. vm_compute. reflexivity. Qed.
Example bits_third : float64_bits (lit 1 3) = 0x3FD5555555555555.
Proof. vm_compute. reflexivity. Qed.
Example bits_neg : float64_bits (lit (-5) 2) = 0xC004000000000000.
Proof. vm_compute. reflexivity. Qed.
Example tenth_plus_fifth : (lit 1 10 + lit 2 10 =? lit 3 10)%F = false.
Proof. vm_compute. reflexivity. Qed.

(** ** Order theory

    A number that is not a NaN is compared by a lexicographic integer key. *)
Definition fkey (x : float64) : option (Z * Z * Z) :=
  match x with
  | S754_nan => None
  | S754_infinity true => Some (-2, 0, 0)
  | S754_finite true m e => Some (-1, - e, - Z.pos m)
  | S754_zero _ => Some (0, 0, 0)
  | S754_finite false m e => Some (1, e, Z.pos m)
  | S754_infinity false => Some (2, 0, 0)
  end.

Definition key_lt (a b : Z * Z * Z) : Prop :=
  match a, b with
  | (a1, a2, a3), (b1, b2, b3) => a1 < b1 \/ (a1 = b1 /\ (a2 < b2 \/ (a2 = b2 /\ a3 < b3)))
  end.

Lemma SFcompare_key x y :
  match fkey x, fkey y with
  | Some a, Some b =>
      match SFcompare x y with
      | Some Lt => key_lt a b
      | Some Gt => key_lt b a
      | Some Eq => a = b
      | None => False
      end
  | _, _ => SFcompare x y = None
  end.
Proof.
  destruct x as [ [] | [] | | [] m e ], y as [ [] | [] | | [] m' e' ]; cbn; try done; try lia;
    destruct (Z.compare_spec e e'); subst; cbn; try lia;
    change (Pos.compare_cont Eq m m') with (Pos.compare m m');
    destruct (Pos.compare_spec m m'); subst; cbn; lia || (repeat f_equal; lia).
Qed.

Lemma key_lt_irrefl a : ~ key_lt a a.
Proof. destruct a as [[]]; cbn. lia. Qed.
Lemma key_lt_trans a b c : key_lt a b -> key_lt b c -> key_lt a c.
Proof. destruct a as [[]], b as [[]], c as [[]]; cbn. lia. Qed.
Lemma key_trichotomy a b : key_lt a b \/ a = b \/ key_lt b a.
Proof.
  destruct a as [[a1 a2] a3], b as [[b1 b2] b3]; cbn.
  destruct (Z.lt_trichotomy a1 b1) as [?|[->|?]]; [lia| |lia].
  destruct (Z.lt_trichotomy a2 b2) as [?|[->|?]]; [lia| |lia].
  destruct (Z.lt_trichotomy a3 b3) as [?|[->|?]]; [lia|auto|lia].
Qed.

(** The three tests decided by the keys: a comparison holds only between
    numbers. *)
Lemma SFcompare_cases x y :
  (SFcompare x y = None /\ (fkey x = None \/ fkey y = None)) \/
  exists a b, fkey x = Some a /\ fkey y = Some b /\
    ((SFcompare x y = Some Lt /\ key_lt a b) \/
     (SFcompare x y = Some Eq /\ a = b) \/
     (SFcompare x y = Some Gt /\ key_lt b a)).
Proof.
  pose proof (SFcompare_key x y) as H.
  destruct (fkey x) as [a|], (fkey y) as [b|]; [|by auto..].
  right. exists a, b. destruct (SFcompare x y) as [[]|]; naive_solver.
Qed.

Ltac fcompare x y :=
  let a := fresh "a" in let b := fresh "b" in
  let Hx := fresh "Hx" in let Hy := fresh "Hy" in
  destruct (SFcompare_cases x y)
    as [[-> ?] | (a & b & Hx & Hy & [[-> ?] | [[-> ?] | [-> ?]]])].

Lemma key_lt_asym a b : key_lt a b -> key_lt b a -> False.
Proof. intros H1 H2. exact (key_lt_irrefl a (key_lt_trans a b a H1 H2)). Qed.

Ltac key_cases :=
  destruct_or?; simplify_eq; try done; exfalso;
  match goal with
  | H : key_lt ?a ?a |- _ => exact (key_lt_irrefl a H)
  | H : key_lt ?a ?b, K : key_lt ?b ?a |- _ => exact (key_lt_asym a b H K)
  end.

Lemma flt_key x y :
  flt x y = true <-> exists a b, fkey x = Some a /\ fkey y = Some b /\ key_lt a b.
Proof.
  unfold flt, SFltb. split.
  - fcompare x y; intros H'; try discriminate H'. exists a, b. auto.
  - intros (a' & b' & ? & ? & ?). fcompare x y; [key_cases|reflexivity|key_cases|key_cases].
Qed.

Lemma fle_key x y :
  fle x y = true <->
  exists a b, fkey x = Some a /\ fkey y = Some b /\ (key_lt a b \/ a = b).
Proof.
  unfold fle, SFleb. split.
  - fcompare x y; intros H'; try discriminate H'; exists a, b; auto.
  - intros (a' & b' & ? & ? & ?). fcompare x y; [|reflexivity|reflexivity|]; key_cases.
Qed.

Lemma fkey_not_nan x : is_nan x = false <-> is_Some (fkey x).
Proof. destruct x as [ | [] | | [] ]; cbn; split; intros; try done; naive_solver. Qed.

Lemma flt_irrefl x : flt x x = false.
Proof.
  destruct (flt x x) eqn:H; [|done].
  apply flt_key in H as (a & b & ? & ? & ?); simplify_eq. by apply key_lt_irrefl in H1.
Qed.

Lemma flt_trans x y z : flt x y = true -> flt y z = true -> flt x z = true.
Proof.
  rewrite !flt_key. intros (a & b & ? & ? & ?) (b' & c & ? & ? & ?);
    simplify_eq; eauto 10 using key_lt_trans.
Qed.

Lemma fle_trans x y z : fle x y = true -> fle y z = true -> fle x z = true.
Proof.
  rewrite !fle_key. intros (a & b & ? & ? & [?| ->]) (b' & c & ? & ? & [?| ->]);
    simplify_eq; eauto 10 using key_lt_trans.
Qed.

Lemma flt_le x y : flt x y = true -> fle x y = true.
Proof. rewrite flt_key, fle_key. intros (a & b & ? & ? & ?). eauto 10. Qed.

Lemma flt_le_trans x y z : flt x y = true -> fle y z = true -> flt x z = true.
Proof.
  rewrite !flt_key, !fle_key. intros (a & b & ? & ? & ?) (b' & c & ? & ? & [?| ->]);
    simplify_eq; eauto 10 using key_lt_trans.
Qed.

Lemma fle_lt_trans x y z : fle x y = true -> flt y z = true -> flt x z = true.
Proof.
  rewrite !flt_key, !fle_key. intros (a & b & ? & ? & [?| ->]) (b' & c & ? & ? & ?);
    simplify_eq; eauto 10 using key_lt_trans.
Qed.

Lemma flt_asym x y : flt x y = true -> fle y x = false.
Proof.
  intros H. destruct (fle y x) eqn:E; [|done].
  pose proof (flt_le_trans x y x H E) as H'. by rewrite flt_irrefl in H'.
Qed.

Lemma fle_refl x : is_nan x = false -> fle x x = true.
Proof. rewrite fkey_not_nan, fle_key. intros [a ?]. eauto 10. Qed.

Lemma fle_total x y :
  is_nan x = false -> is_nan y = false -> flt x y = false -> fle y x = true.
Proof.
  rewrite !fkey_not_nan. intros [a Ha] [b Hb] H. apply fle_key. exists b, a. split_and!; [done..|].
  destruct (key_trichotomy a b) as [?|[->|?]]; auto.
  assert (flt x y = true) by (apply flt_key; eauto). congruence.
Qed.

Lemma flt_not_nan x y : flt x y = true -> is_nan x = false /\ is_nan y = false.
Proof. rewrite !fkey_not_nan, flt_key. intros (a & b & -> & -> & _). eauto. Qed.

Lemma fle_not_nan x y : fle x y = true -> is_nan x = false /\ is_nan y = false.
Proof. rewrite !fkey_not_nan, fle_key. intros (a & b & -> & -> & _). eauto. Qed.

Lemma is_finite_not_nan x : is_finite x = true -> is_nan x = false.
Proof. by destruct x. Qed.

(** The builtins bound their arguments. *)
Lemma fmax_ub x y :
  is_nan x = false -> is_nan y = false -> fle x (fmax x y) = true /\ fle y (fmax x y) = true.
Proof.
  intros Hx Hy. unfold fmax. rewrite Hx, Hy. cbn.
  destruct (flt x y) eqn:E1; [auto using flt_le, fle_refl|].
  destruct (flt y x) eqn:E2; [auto using flt_le, fle_refl|].
  destruct (sign_bit x); auto using fle_refl, fle_total.
Qed.

Lemma fmin_lb x y :
  is_nan x = false -> is_nan y = false -> fle (fmin x y) x = true /\ fle (fmin x y) y = true.
Proof.
  intros Hx Hy. unfold fmin. rewrite Hx, Hy. cbn.
  destruct (flt x y) eqn:E1; [auto using flt_le, fle_refl|].
  destruct (flt y x) eqn:E2; [auto using flt_le, fle_refl|].
  destruct (sign_bit x); auto using fle_refl, fle_total.
Qed.

Lemma fmin_le_fmax x y :
  is_nan x = false -> is_nan y = false -> fle (fmin x y) (fmax x y) = true.
Proof. intros. eapply fle_trans; [by apply fmin_lb|by apply fmax_ub]. Qed.

#[global] Instance float64_eq_dec : EqDecision float64.
Proof. solve_decision. Defined.

#[export] Hint Resolve flt_le fle_refl is_finite_not_nan : go.
