(* ===== verification/GoText.v ===== *)
(** * Text: the parts of [strconv], [fmt], [time] and [strings] the code uses

    Go strings are byte strings; they are Rocq [string]s.  Numbers are
    formatted exactly as the library formats them, so that every identity the
    code hashes is computed by the model. *)

From stdpp Require Import prelude strings.
From Stdlib Require Import ZArith Lia SpecFloat Ascii String.
From S2P Require Import Prelude GoFloat.

#[local] Open Scope string_scope.
#[local] Open Scope list_scope.
#[local] Open Scope Z_scope.

(** ** Integers *)

Definition digit (d : Z) : ascii := ascii_of_nat (48 + Z.to_nat d).

(** Decimal digits of [n], most significant first; [fuel] bounds the count. *)
Fixpoint digits_aux (fuel : nat) (n : Z) (acc : string) : string :=
  match fuel with
  | O => acc
  | S fuel' =>
      let acc' := String (digit (n `mod` 10)) acc in
      if n <? 10 then acc' else digits_aux fuel' (n / 10) acc'
  end.

(** [strconv.FormatUint(n, 10)]; a number has at most as many decimal digits
    as bits. *)
Definition format_uint (n : Z) : string :=
  digits_aux (S (Z.to_nat (Z.log2 n))) n "".

(** [strconv.Itoa], [strconv.FormatInt(_, 10)] and the verb [%d]. *)
Definition itoa (n : Z) : string :=
  if n <? 0 then "-" +:+ format_uint (- n) else format_uint n.

Definition format_bool (b : bool) : string := if b then "true" else "false".

(** Left padding with zeros to a minimal width ([%02d] of a non-negative
    number). *)
Fixpoint zeros (n : nat) : string :=
  match n with O => "" | S n' => String "0" (zeros n') end.
Definition pad (w : nat) (s : string) : string :=
  zeros (w - String.length s) +:+ s.

(** [strconv.Atoi] and [strconv.ParseInt(_, 10, 64)]: an optional sign, at
    least one digit, and a value in the [int64] range. *)
Fixpoint parse_digits (s : string) (acc : Z) : option Z :=
  match s with
  | "" => Some acc
  | String c s' =>
      let d := Z.of_nat (nat_of_ascii c) - 48 in
      if (0 <=? d) && (d <=? 9) then parse_digits s' (10 * acc + d) else None
  end.
Definition parse_unsigned (s : string) : option Z :=
  match s with "" => None | _ => parse_digits s 0 end.
Definition atoi (s : string) : option Z :=
  let v := match s with
           | String "-" s' => Z.opp <$> parse_unsigned s'
           | String "+" s' => parse_unsigned s'
           | _ => parse_unsigned s
           end in
  n ← v; if (- 2 ^ 63 <=? n) && (n <? 2 ^ 63) then Some n else None.

(** ** Hexadecimal *)
Definition hex_digit (d : Z) : ascii :=
  if d <? 10 then ascii_of_nat (48 + Z.to_nat d) else ascii_of_nat (87 + Z.to_nat d).
(** [hex.EncodeToString] *)
Fixpoint hex_encode (bytes : list Z) : string :=
  match bytes with
  | [] => ""
  | b :: bs => String (hex_digit (b / 16)) (String (hex_digit (b `mod` 16)) (hex_encode bs))
  end.

(** ** Floating-point formatting

    [v = m * 2^e] is written as a decimal [0.d1 d2 ... * 10^dp]. *)
Definition pow10 (n : Z) : Z := 10 ^ n.

(** [num/den * 10^k] as a quotient and an exact comparison of the remainder
    with one half. *)
Definition scale10 (num den k : Z) : Z * Z :=
  if 0 <=? k then (num * pow10 k, den) else (num, den * pow10 (- k)).

(** The decimal point position: [10^(dp-1) <= num/den < 10^dp].  The search
    starts from an estimate by the binary logarithms that is below it by less
    than [8]. *)
Fixpoint find_dp (fuel : nat) (num den dp : Z) : Z :=
  match fuel with
  | O => dp
  | S fuel' =>
      let '(n, d) := scale10 num den (- dp) in
      if d <=? n then find_dp fuel' num den (dp + 1) else dp
  end.
Definition decimal_point (num den : Z) : Z :=
  find_dp 8 num den ((Z.log2 num - Z.log2 den - 1) * 30103 / 100000 - 1).

Definition float_ratio (m : positive) (e : Z) : Z * Z :=
  if 0 <=? e then (Z.pos m * 2 ^ e, 1) else (Z.pos m, 2 ^ (- e)).

(** [decimal.Round]: to [n] digits, half to even. *)
Definition round_digits (num den dp n : Z) : Z :=
  let '(a, b) := scale10 num den (n - dp) in
  let q := a / b in
  let r := a `mod` b in
  match Z.compare (2 * r) b with
  | Lt => q
  | Gt => q + 1
  | Eq => if Z.even q then q else q + 1
  end.

(** Digits with trailing zeros trimmed, and the decimal point. *)
Fixpoint trim_zeros (fuel : nat) (q : Z) : Z :=
  match fuel with
  | O => q
  | S fuel' => if (0 <? q) && (q `mod` 10 =? 0) then trim_zeros fuel' (q / 10) else q
  end.
Definition decimal_slice (q dp n : Z) : string * Z :=
  let dp' := if pow10 n <=? q then dp + 1 else dp in
  (format_uint (trim_zeros 32 q), dp').

(** The digits of a precise format with [n] significant digits. *)
Definition fixed_digits (m : positive) (e n : Z) : string * Z :=
  let '(num, den) := float_ratio m e in
  let dp := decimal_point num den in
  decimal_slice (round_digits num den dp n) dp n.

(** The shortest digits that round back to the same number: the first length
    at which rounding down or up stays between the midpoints to the
    neighbouring floats (the midpoints included for an even mantissa). *)
Fixpoint shortest_aux (fuel : nat) (num den lnum lden unum uden dp n : Z) (incl : bool)
  : string * Z :=
  let '(a, b) := scale10 num den (n - dp) in
  let down := a / b in
  let up := down + 1 in
  let cmp (x vn vd : Z) : comparison :=
    let '(s, t) := scale10 vn vd (n - dp) in Z.compare (x * t) s in
  let okdown := match cmp down lnum lden with Gt => true | Eq => incl | Lt => false end in
  let okup := match cmp up unum uden with Lt => true | Eq => incl | Gt => false end in
  match fuel with
  | O => decimal_slice (round_digits num den dp n) dp n
  | S fuel' =>
      if okdown && okup then decimal_slice (round_digits num den dp n) dp n
      else if okdown then decimal_slice down dp n
      else if okup then decimal_slice up dp n
      else shortest_aux fuel' num den lnum lden unum uden dp (n + 1) incl
  end.
Definition shortest_digits (m : positive) (e : Z) : string * Z :=
  let '(num, den) := float_ratio m e in
  let '(unum, uden) := float_ratio (2 * m + 1) (e - 1) in
  let '(lnum, lden) :=
    if (Z.pos m =? 2 ^ 52) && (-1074 <? e)
    then float_ratio (4 * m - 1) (e - 2) else float_ratio (2 * m - 1) (e - 1) in
  shortest_aux 17 num den lnum lden unum uden (decimal_point num den) 1 (Z.even (Z.pos m)).

Fixpoint substring_pad (digits : string) (n : nat) : string :=
  match n with
  | O => ""
  | S n' => match digits with
            | "" => String "0" (substring_pad "" n')
            | String c s => String c (substring_pad s n')
            end
  end.
Fixpoint drop_string (n : nat) (s : string) : string :=
  match n, s with
  | O, _ => s
  | S n', String _ s' => drop_string n' s'
  | S _, "" => ""
  end.

(** [%e] with all the digits. *)
Definition fmt_e (digits : string) (dp : Z) : string :=
  let exp := if (String.length digits =? 0)%nat then 0 else dp - 1 in
  let first := substring_pad digits 1 in
  let rest := drop_string 1 digits in
  first +:+ (if (String.length rest =? 0)%nat then "" else "." +:+ rest) +:+ "e" +:+
  (if exp <? 0 then "-" else "+") +:+ pad 2 (format_uint (Z.abs exp)).

(** [%f] with [max(nd - dp, 0)] digits after the point. *)
Definition fmt_f (digits : string) (dp : Z) : string :=
  let nd := Z.of_nat (String.length digits) in
  let int_part := if 0 <? dp then substring_pad digits (Z.to_nat dp) else "0" in
  let prec := Z.max (nd - dp) 0 in
  let frac := if 0 <? dp then drop_string (Z.to_nat dp) digits
              else zeros (Z.to_nat (- dp)) +:+ digits in
  if 0 <? prec then int_part +:+ "." +:+ frac else int_part.

(** [%g]: [eprec] is the exponent from which the [%e] form is used. *)
Definition fmt_g (digits : string) (dp eprec : Z) : string :=
  let exp := dp - 1 in
  if (exp <? -4) || (eprec <=? exp) then fmt_e digits dp else fmt_f digits dp.

Definition fmt_special (x : float64) (body : positive -> Z -> string) : string :=
  match x with
  | S754_nan => "NaN"
  | S754_infinity s => if s then "-Inf" else "+Inf"
  | S754_zero s => if s then "-0" else "0"
  | S754_finite s m e => (if s then "-" else "") +:+ body m e
  end.

(** The verb [%.12g]. *)
Definition format_g12 (x : float64) : string :=
  fmt_special x (fun m e =>
    let '(d, dp) := fixed_digits m e 12 in
    let nd := Z.of_nat (String.length d) in
    fmt_g d dp (if (nd <? 12) && (dp <=? nd) then nd else 12)).

(** [strconv.FormatFloat(x, 'g', -1, 64)], the verb [%v] of a float. *)
Definition format_g (x : float64) : string :=
  fmt_special x (fun m e => let '(d, dp) := shortest_digits m e in fmt_g d dp 6).

Example format_g12_price : format_g12 (lit 6412345 100) = "64123.45".
Proof. vm_compute. reflexivity. Qed.
Example format_g12_small : format_g12 (lit 1 300000) = "3.33333333333e-06".
Proof. vm_compute. reflexivity. Qed.
Example format_g12_big : format_g12 (of_int 123456789012345) = "1.23456789012e+14".
Proof. vm_compute. reflexivity. Qed.
Example format_g_tenth : format_g (lit 1 10 + lit 2 10)%F = "0.30000000000000004".
Proof. vm_compute. reflexivity. Qed.
Example format_g_million : format_g (of_int 1000000) = "1e+06".
Proof. vm_compute. reflexivity. Qed.
Example format_g_min : format_g (S754_finite false 1 (-1074)) = "5e-324".
Proof. vm_compute. reflexivity. Qed.

(** ** Instants

    A [time.Time] is the number of nanoseconds since the Unix epoch; the code
    only uses instants, and always formats them in UTC. *)
Definition second : Z := 1000000000.
Definition minute : Z := 60 * second.
Definition hour : Z := 60 * minute.
Definition millisecond : Z := 1000000.

(** [time.Time{}]: midnight, January 1 of year 1. *)
Definition zero_time : Z := -62135596800 * second.

(** [t.UnixNano()] *)
Definition unix_nano (t : Z) : Z := wrap_i64 t.

(** Proleptic Gregorian date of a day number counted from the epoch. *)
Definition civil_from_days (days : Z) : Z * Z * Z :=
  let z := days + 719468 in
  let era := z / 146097 in
  let doe := z - era * 146097 in
  let yoe := (doe - doe / 1460 + doe / 36524 - doe / 146096) / 365 in
  let doy := doe - (365 * yoe + yoe / 4 - yoe / 100) in
  let mp := (5 * doy + 2) / 153 in
  let d := doy - (153 * mp + 2) / 5 + 1 in
  let m := if mp <? 10 then mp + 3 else mp - 9 in
  (yoe + era * 400 + (if m <=? 2 then 1 else 0), m, d).

(** Fraction of a second with trailing zeros removed. *)
Definition format_frac (nanos : Z) : string :=
  if nanos =? 0 then ""
  else "." +:+ (fix trim (fuel : nat) (w : nat) (q : Z) : string :=
                  match fuel with
                  | O => pad w (format_uint q)
                  | S fuel' => if q `mod` 10 =? 0 then trim fuel' (w - 1)%nat (q / 10)
                               else pad w (format_uint q)
                  end) 9%nat 9%nat nanos.

(** [t.UTC().Format(time.RFC3339Nano)] *)
Definition format_rfc3339 (t : Z) : string :=
  let secs := t / second in
  let nanos := t `mod` second in
  let days := secs / 86400 in
  let sod := secs `mod` 86400 in
  let '(y, m, d) := civil_from_days days in
  (if y <? 0 then "-" else "") +:+ pad 4 (format_uint (Z.abs y)) +:+ "-" +:+
  pad 2 (format_uint m) +:+ "-" +:+ pad 2 (format_uint d) +:+ "T" +:+
  pad 2 (format_uint (sod / 3600)) +:+ ":" +:+ pad 2 (format_uint ((sod / 60) `mod` 60)) +:+ ":" +:+
  pad 2 (format_uint (sod `mod` 60)) +:+ format_frac nanos +:+ "Z".

Example rfc3339_seconds : format_rfc3339 (1700000000 * second) = "2023-11-14T22:13:20Z".
Proof. vm_compute. reflexivity. Qed.
Example rfc3339_frac : format_rfc3339 (1709210096 * second + 120000000) = "2024-02-29T12:34:56.12Z".
Proof. vm_compute. reflexivity. Qed.
Example rfc3339_zero : format_rfc3339 zero_time = "0001-01-01T00:00:00Z".
Proof. vm_compute. reflexivity. Qed.
