(* ===== verification/Sha256.v ===== *)
(** * SHA-256

    [crypto/sha256.Sum256] (FIPS 180-4), executable, over bytes represented as
    integers below 256.  The identities of events, zones, configurations and
    bars are hexadecimal SHA-256 digests, so they are computed by the model
    rather than left abstract. *)

From stdpp Require Import prelude strings.
From Stdlib Require Import ZArith Lia Ascii String.
From S2P Require Import Prelude GoText.

#[local] Open Scope string_scope.
#[local] Open Scope list_scope.
#[local] Open Scope Z_scope.

Module Word.
Definition mask : Z := 0xFFFFFFFF.
Definition add (x y : Z) : Z := Z.land (x + y) mask.
Definition rotr (n x : Z) : Z :=
  Z.land (Z.lor (Z.shiftr x n) (Z.shiftl x (32 - n))) mask.
Definition not (x : Z) : Z := Z.lxor x mask.
End Word.

(** The constants of the standard are the first 32 fractional bits of the cube
    and square roots of the first primes. *)
Definition is_prime (n : Z) : bool :=
  forallb (fun d => negb (n mod d =? 0)) (range 2 n).

Definition primes : list Z := List.filter is_prime (range 2 312).

(** The largest integer below [hi] that satisfies [ok], between [lo], which
    does, and [hi]; each round halves the distance. *)
Fixpoint bisect (rounds : nat) (ok : Z -> bool) (lo hi : Z) : Z :=
  match rounds with
  | O => lo
  | S rounds' => let mid := (lo + hi) / 2 in
                 if ok mid then bisect rounds' ok mid hi else bisect rounds' ok lo mid
  end.

Definition sqrt_bits (p : Z) : Z := Z.sqrt (p * 2 ^ 64) mod 2 ^ 32.
Definition cbrt_bits (p : Z) : Z := bisect 36 (fun x => x * x * x <=? p * 2 ^ 96) 0 (2 ^ 36) mod 2 ^ 32.

Definition K256 : list Z := Eval vm_compute in map cbrt_bits primes.

Definition sigma0 (x : Z) : Z := Z.lxor (Z.lxor (Word.rotr 7 x) (Word.rotr 18 x)) (Z.shiftr x 3).
Definition sigma1 (x : Z) : Z := Z.lxor (Z.lxor (Word.rotr 17 x) (Word.rotr 19 x)) (Z.shiftr x 10).
Definition Sigma0 (x : Z) : Z := Z.lxor (Z.lxor (Word.rotr 2 x) (Word.rotr 13 x)) (Word.rotr 22 x).
Definition Sigma1 (x : Z) : Z := Z.lxor (Z.lxor (Word.rotr 6 x) (Word.rotr 11 x)) (Word.rotr 25 x).
Definition Ch (x y z : Z) : Z := Z.lxor (Z.land x y) (Z.land (Word.not x) z).
Definition Maj (x y z : Z) : Z := Z.lxor (Z.lxor (Z.land x y) (Z.land x z)) (Z.land y z).

(** The message schedule, kept newest first. *)
Fixpoint schedule (n : nat) (w : list Z) : list Z :=
  match n with
  | O => w
  | S n' =>
      let at_ i := nth i w 0 in
      let t := Word.add (Word.add (sigma1 (at_ 1%nat)) (at_ 6%nat))
                        (Word.add (sigma0 (at_ 14%nat)) (at_ 15%nat)) in
      schedule n' (t :: w)
  end.

Definition digest_state : Type := Z * Z * Z * Z * Z * Z * Z * Z.

Definition round (st : digest_state) (kw : Z * Z) : digest_state :=
  let '(a, b, c, d, e, f, g, h) := st in
  let t1 := Word.add (Word.add h (Sigma1 e)) (Word.add (Ch e f g) (Word.add (fst kw) (snd kw))) in
  let t2 := Word.add (Sigma0 a) (Maj a b c) in
  (Word.add t1 t2, a, b, c, Word.add d t1, e, f, g).

Definition block (st : digest_state) (words : list Z) : digest_state :=
  let w := rev (schedule 48 (rev words)) in
  let '(a, b, c, d, e, f, g, h) := fold_left round (combine K256 w) st in
  let '(a0, b0, c0, d0, e0, f0, g0, h0) := st in
  (Word.add a a0, Word.add b b0, Word.add c c0, Word.add d d0,
   Word.add e e0, Word.add f f0, Word.add g g0, Word.add h h0).

(** Big-endian bytes of an integer. *)
Fixpoint be_bytes (n : nat) (x : Z) (acc : list Z) : list Z :=
  match n with
  | O => acc
  | S n' => be_bytes n' (x / 256) (x `mod` 256 :: acc)
  end.

(** Padding to a multiple of 64 bytes with the bit length in the last eight. *)
Definition padding (n : Z) : list Z :=
  0x80 :: replicate (Z.to_nat ((55 - n) `mod` 64)) 0 ++ be_bytes 8 (8 * n) [].

Fixpoint words_of (bytes : list Z) : list Z :=
  match bytes with
  | a :: b :: c :: d :: rest => ((a * 256 + b) * 256 + c) * 256 + d :: words_of rest
  | _ => []
  end.

Fixpoint blocks (fuel : nat) (words : list Z) (st : digest_state) : digest_state :=
  match fuel, words with
  | S fuel', _ :: _ => blocks fuel' (skipn 16 words) (block st (firstn 16 words))
  | _, _ => st
  end.

Definition initial_state : digest_state := Eval vm_compute in
  match map sqrt_bits (firstn 8 primes) with
  | [a; b; c; d; e; f; g; h] => (a, b, c, d, e, f, g, h)
  | _ => (0, 0, 0, 0, 0, 0, 0, 0)
  end.

(** [sha256.Sum256(data)] *)
Definition sum256 (data : list Z) : list Z :=
  let words := words_of (data ++ padding (len data)) in
  let '(a, b, c, d, e, f, g, h) := blocks (List.length words) words initial_state in
  flat_map (fun w => be_bytes 4 w []) [a; b; c; d; e; f; g; h].

(** [[]byte(s)] *)
Fixpoint bytes_of (s : string) : list Z :=
  match s with
  | "" => []
  | String c s' => Z.of_nat (nat_of_ascii c) :: bytes_of s'
  end.

(** [hex.EncodeToString(sum[:])] of the digest of a string. *)
Definition sha256_hex (s : string) : string := hex_encode (sum256 (bytes_of s)).

(** The FIPS 180-4 test vectors. *)
Example sha256_empty :
  sha256_hex "" = "e3b0c44298fc1c149afbf4c8996fb92427ae41e4649b934ca495991b7852b855".
Proof. vm_compute. reflexivity. Qed.
Example sha256_abc :
  sha256_hex "abc" = "ba7816bf8f01cfea414140de5dae2223b00361a396177a9cb410ff61f20015ad".
Proof. vm_compute. reflexivity. Qed.
Example sha256_two_blocks :
  sha256_hex "abcdbcdecdefdefgefghfghighijhijkijkljklmklmnlmnomnopnopq"
  = "248d6a61d20638b8e5c026930c3e6039a33ce45964ff2167f6ecedd419db06c1".
Proof. vm_compute. reflexivity. Qed.
