(* ===== verification/GoStrings.v ===== *)
(** * More text: the parts of [strings], [encoding/base64], [strconv] and [time]
    that requests and settings are read with

    Splitting, trimming and prefixes of byte strings, the decoder of raw URL
    base64, [ParseBool] and durations. *)

From stdpp Require Import prelude strings list.
From Stdlib Require Import ZArith Lia SpecFloat Ascii String.
From S2P Require Import Prelude GoFloat GoText Sha256.

#[local] Open Scope string_scope.
#[local] Open Scope list_scope.
#[local] Open Scope Z_scope.

(** ** Bytes *)

Definition byte_char (b : Z) : ascii := ascii_of_nat (Z.to_nat b).

Fixpoint string_of_bytes (l : list Z) : string :=
  match l with
  | [] => ""
  | b :: l' => String (byte_char b) (string_of_bytes l')
  end.

Definition char_byte (c : ascii) : Z := Z.of_nat (nat_of_ascii c).

(** ** [strings.TrimSpace]

    The white space of Unicode, by its UTF-8 encoding: how many bytes of white
    space a string starts with, [0] for none. *)
Definition space1 (a : Z) : bool := ((9 <=? a) && (a <=? 13)) || (a =? 32).
Definition space2 (a b : Z) : bool := (a =? 0xC2) && ((b =? 0x85) || (b =? 0xA0)).
Definition space3 (a b c : Z) : bool :=
  ((a =? 0xE1) && (b =? 0x9A) && (c =? 0x80)) ||
  ((a =? 0xE2) && (b =? 0x80) &&
     (((0x80 <=? c) && (c <=? 0x8A)) || (c =? 0xA8) || (c =? 0xA9) || (c =? 0xAF))) ||
  ((a =? 0xE2) && (b =? 0x81) && (c =? 0x9F)) || ((a =? 0xE3) && (b =? 0x80) && (c =? 0x80)).

Definition space_width (l : list Z) : nat :=
  match l with
  | [] => 0
  | a :: l1 =>
      if space1 a then 1
      else match l1 with
           | [] => 0
           | b :: l2 =>
               if space2 a b then 2
               else match l2 with [] => 0 | c :: _ => if space3 a b c then 3 else 0 end
           end
  end.

(** The same from the end, over the reversed bytes. *)
Definition space_width_back (l : list Z) : nat :=
  match l with
  | [] => 0
  | c :: l1 =>
      if space1 c then 1
      else match l1 with
           | [] => 0
           | b :: l2 =>
               if space2 b c then 2
               else match l2 with [] => 0 | a :: _ => if space3 a b c then 3 else 0 end
           end
  end.

(** Each round drops at least one byte, so the length is fuel enough. *)
Fixpoint drop_spaces (width : list Z -> nat) (fuel : nat) (l : list Z) : list Z :=
  match fuel with
  | O => l
  | S fuel' => match width l with
               | O => l
               | n => drop_spaces width fuel' (drop n l)
               end
  end.

Definition trim_bytes (l : list Z) : list Z :=
  let front := drop_spaces space_width (List.length l) l in
  rev (drop_spaces space_width_back (List.length front) (rev front)).

Definition trim_space (s : string) : string := string_of_bytes (trim_bytes (bytes_of s)).

Example trim_space_both : trim_space (String "009" " a b  ") = "a b".
Proof. vm_compute. reflexivity. Qed.
Example trim_space_wide : trim_space (string_of_bytes ([0xE3; 0x80; 0x80; 65; 0xC2; 0xA0])) = "A".
Proof. vm_compute. reflexivity. Qed.
Example trim_space_empty : trim_space "   " = "".
Proof. vm_compute. reflexivity. Qed.

(** ** Splitting and prefixes *)

(** [strings.Split(s, sep)] at a one-byte separator. *)
Fixpoint split_on (sep : ascii) (s : string) : list string :=
  match s with
  | "" => [""]
  | String c s' =>
      if Ascii.eqb c sep then "" :: split_on sep s'
      else match split_on sep s' with
           | part :: parts => String c part :: parts
           | [] => [String c ""]
           end
  end.

(** [strings.LastIndexByte]: the parts before and after the last [sep]. *)
Fixpoint cut_last (sep : ascii) (s : string) : option (string * string) :=
  match s with
  | "" => None
  | String c s' =>
      match cut_last sep s' with
      | Some (before, after) => Some (String c before, after)
      | None => if Ascii.eqb c sep then Some ("", s') else None
      end
  end.

(** [strings.HasPrefix] and [strings.TrimPrefix] in one: the rest after the
    prefix. *)
Fixpoint strip_prefix (prefix s : string) : option string :=
  match prefix, s with
  | "", _ => Some s
  | String a prefix', String b s' => if Ascii.eqb a b then strip_prefix prefix' s' else None
  | _, "" => None
  end.

(** [strings.ToLower] as far as ASCII results go: ASCII letters, and the two
    other letters whose lower case is one (U+0130 and U+212A).  Any other rune
    stays outside ASCII. *)
Definition lower_char (c : ascii) : ascii :=
  let n := char_byte c in if (65 <=? n) && (n <=? 90) then byte_char (n + 32) else c.
Fixpoint to_lower (s : string) : string :=
  match s with
  | "" => ""
  | String "196" (String "176" s') => String "i" (to_lower s')
  | String "226" (String "132" (String "170" s')) => String "k" (to_lower s')
  | String c s' => String (lower_char c) (to_lower s')
  end.

Lemma strip_prefix_app prefix s : strip_prefix prefix (prefix +:+ s) = Some s.
Proof.
  induction prefix as [|c prefix IH]; [done|].
  change (String c prefix +:+ s) with (String c (prefix +:+ s)). cbn [strip_prefix]. by rewrite Ascii.eqb_refl.
Qed.

(** [strconv.ParseBool] *)
Definition parse_bool (s : string) : option bool :=
  if bool_decide (s ∈ ["1"; "t"; "T"; "true"; "TRUE"; "True"]) then Some true
  else if bool_decide (s ∈ ["0"; "f"; "F"; "false"; "FALSE"; "False"]) then Some false
  else None.

(** ** Raw URL base64 *)

Definition base64_digit (n : Z) : ascii :=
  byte_char (if n <? 26 then 65 + n else if n <? 52 then 71 + n else if n <? 62 then n - 4
             else if n =? 62 then 45 else 95).

(** [base64.RawURLEncoding.EncodeToString] *)
Fixpoint base64_url (bytes : list Z) : string :=
  match bytes with
  | [] => ""
  | [a] => String (base64_digit (a / 4)) (String (base64_digit (a `mod` 4 * 16)) "")
  | [a; b] => String (base64_digit (a / 4)) (String (base64_digit (a `mod` 4 * 16 + b / 16))
                (String (base64_digit (b `mod` 16 * 4)) ""))
  | a :: b :: c :: rest =>
      String (base64_digit (a / 4)) (String (base64_digit (a `mod` 4 * 16 + b / 16))
        (String (base64_digit (b `mod` 16 * 4 + c / 64)) (String (base64_digit (c `mod` 64)) (base64_url rest))))
  end.

Example base64_live : base64_url (bytes_of "live") = "bGl2ZQ".
Proof. vm_compute. reflexivity. Qed.

Definition base64_value (c : Z) : option Z :=
  if (65 <=? c) && (c <=? 90) then Some (c - 65)
  else if (97 <=? c) && (c <=? 122) then Some (c - 71)
  else if (48 <=? c) && (c <=? 57) then Some (c + 4)
  else if c =? 45 then Some 62
  else if c =? 95 then Some 63
  else None.

(** Groups of four digits; a group cut short stands for fewer bytes, and one
    digit alone is an error. *)
Fixpoint base64_groups (digits : list Z) : option (list Z) :=
  match digits with
  | [] => Some []
  | [_] => None
  | [a; b] => Some [a * 4 + b / 16]
  | [a; b; c] => Some [a * 4 + b / 16; b `mod` 16 * 16 + c / 4]
  | a :: b :: c :: d :: rest =>
      bytes ← base64_groups rest;
      Some (a * 4 + b / 16 :: b `mod` 16 * 16 + c / 4 :: c `mod` 4 * 64 + d :: bytes)
  end.

(** [base64.RawURLEncoding.DecodeString]: line ends are skipped, any other
    byte outside the alphabet is an error. *)
Definition base64_decode (s : string) : option (list Z) :=
  digits ← mapM base64_value (List.filter (fun c => negb ((c =? 10) || (c =? 13))) (bytes_of s));
  base64_groups digits.

(** ** Durations *)

(** [uint64(x)] of a finite number that is not negative. *)
Definition float_to_uint (x : float64) : Z :=
  match x with
  | S754_finite _ m e => if 0 <=? e then Z.pos m * 2 ^ e else Z.pos m / 2 ^ (- e)
  | _ => 0
  end.

Definition is_digit (c : ascii) : bool := (48 <=? char_byte c) && (char_byte c <=? 57).

(** [leadingInt]: [None] on overflow. *)
Fixpoint leading_int (s : string) (x : Z) : option (Z * string) :=
  match s with
  | String c s' =>
      if is_digit c then
        if 2 ^ 63 / 10 <? x then None
        else let x' := x * 10 + (char_byte c - 48) in
             if 2 ^ 63 <? x' then None else leading_int s' x'
      else Some (x, s)
  | "" => Some (x, s)
  end.

(** [leadingFraction]: digits past the precision are skipped. *)
Fixpoint leading_fraction (s : string) (x : Z) (scale : float64) (overflow : bool)
  : Z * float64 * string :=
  match s with
  | String c s' =>
      if is_digit c then
        if overflow then leading_fraction s' x scale true
        else if (2 ^ 63 - 1) / 10 <? x then leading_fraction s' x scale true
        else let y := x * 10 + (char_byte c - 48) in
             if 2 ^ 63 <? y then leading_fraction s' x scale true
             else leading_fraction s' y (scale * of_int 10)%F false
      else (x, scale, s)
  | "" => (x, scale, s)
  end.

(** The unit: everything up to the next digit or point. *)
Fixpoint leading_unit (s : string) : string * string :=
  match s with
  | String c s' =>
      if is_digit c || Ascii.eqb c "." then ("", s)
      else let '(u, rest) := leading_unit s' in (String c u, rest)
  | "" => ("", "")
  end.

Definition unit_of (u : string) : option Z :=
  if (u =? "ns")%string then Some 1
  else if (u =? "us")%string || (u =? string_of_bytes [0xC2; 0xB5; 115])%string ||
          (u =? string_of_bytes [0xCE; 0xBC; 115])%string then Some 1000
  else if (u =? "ms")%string then Some millisecond
  else if (u =? "s")%string then Some second
  else if (u =? "m")%string then Some minute
  else if (u =? "h")%string then Some hour
  else None.

(** One number with its unit: its nanoseconds and the rest. *)
Definition duration_part (s : string) : option (Z * string) :=
  match s with
  | "" => None
  | String c _ =>
      if negb (Ascii.eqb c "." || is_digit c) then None
      else
        '(v, s1) ← leading_int s 0;
        let pre := negb (String.length s1 =? String.length s)%nat in
        let '(f, scale, s2, post) :=
          match s1 with
          | String "." s1' =>
              let '(f, scale, s2) := leading_fraction s1' 0 (of_int 1) false in
              (f, scale, s2, negb (String.length s2 =? String.length s1')%nat)
          | _ => (0, of_int 1, s1, false)
          end in
        if negb pre && negb post then None
        else
          let '(u, s3) := leading_unit s2 in
          if (u =? "")%string then None
          else
            unit ← unit_of u;
            if 2 ^ 63 / unit <? v then None
            else
              let v := v * unit in
              if 0 <? f then
                let v := wrap_u64 (v + float_to_uint (of_int f * (of_int unit / scale))%F) in
                if 2 ^ 63 <? v then None else Some (v, s3)
              else Some (v, s3)
  end.

(** The loop of [time.ParseDuration]; every part takes at least a byte. *)
Fixpoint duration_parts (fuel : nat) (s : string) (d : Z) : option Z :=
  match fuel with
  | O => None
  | S fuel' =>
      match s with
      | "" => Some d
      | _ => '(v, rest) ← duration_part s;
             let d := wrap_u64 (d + v) in
             if 2 ^ 63 <? d then None else duration_parts fuel' rest d
      end
  end.

Definition parse_duration (s : string) : option Z :=
  let '(neg, s) := match s with
                   | String "-" s' => (true, s')
                   | String "+" s' => (false, s')
                   | _ => (false, s)
                   end in
  if (s =? "0")%string then Some 0
  else if (s =? "")%string then None
  else
    d ← duration_parts (S (String.length s)) s 0;
    if neg then Some (- d) else if 2 ^ 63 - 1 <? d then None else Some d.

(** [fmtFrac]: the fraction [v / 10^prec] without trailing zeros. *)
Fixpoint fmt_frac (prec : nat) (v : Z) : string :=
  match prec with
  | O => ""
  | S prec' => if v `mod` 10 =? 0 then fmt_frac prec' (v / 10) else "." +:+ pad prec (format_uint v)
  end.

(** [Duration.String] *)
Definition duration_string (d : Z) : string :=
  let u := Z.abs d in
  (if d <? 0 then "-" else "") +:+
  if u =? 0 then "0s"
  else if u <? 1000 then format_uint u +:+ "ns"
  else if u <? millisecond then
    format_uint (u / 1000) +:+ fmt_frac 3 (u `mod` 1000) +:+ string_of_bytes [0xC2; 0xB5; 115]
  else if u <? second then format_uint (u / millisecond) +:+ fmt_frac 6 (u `mod` millisecond) +:+ "ms"
  else
    let secs := u / second in
    let mins := secs / 60 in
    (if 0 <? mins / 60 then format_uint (mins / 60) +:+ "h" else "") +:+
    (if 0 <? mins then format_uint (mins `mod` 60) +:+ "m" else "") +:+
    format_uint (secs `mod` 60) +:+ fmt_frac 9 (u `mod` second) +:+ "s".

Example duration_string_hours : duration_string (90 * minute + 1500 * millisecond) = "1h30m1.5s".
Proof. vm_compute. reflexivity. Qed.
Example parse_duration_hours : parse_duration "1h30m1.5s" = Some (90 * minute + 1500 * millisecond).
Proof. vm_compute. reflexivity. Qed.
Example parse_duration_bare : parse_duration "15" = None.
Proof. vm_compute. reflexivity. Qed.
Example parse_duration_seconds : parse_duration (duration_string (15 * second)) = Some (15 * second).
Proof. vm_compute. reflexivity. Qed.
Example parse_duration_millis : parse_duration (duration_string (250 * millisecond)) = Some (250 * millisecond).
Proof. vm_compute. reflexivity. Qed.

(** ** Proofs *)

Definition is_byte (b : Z) : Prop := 0 <= b < 256.

Lemma char_byte_range c : is_byte (char_byte c).
Proof. unfold is_byte, char_byte. pose proof (Ascii.nat_ascii_bounded c). lia. Qed.

Lemma char_byte_char b : is_byte b -> char_byte (byte_char b) = b.
Proof.
  intros Hb. unfold char_byte, byte_char, is_byte in *. rewrite Ascii.nat_ascii_embedding by lia. lia.
Qed.

Lemma bytes_of_range s : Forall is_byte (bytes_of s).
Proof. induction s as [|c s IH]; cbn; constructor; [apply char_byte_range|done]. Qed.

Lemma bytes_of_string l : Forall is_byte l -> bytes_of (string_of_bytes l) = l.
Proof.
  induction 1 as [|b l Hb _ IH]; cbn; [done|]. f_equal; [|done]. by apply char_byte_char.
Qed.

Lemma string_of_bytes_of s : string_of_bytes (bytes_of s) = s.
Proof.
  induction s as [|c s IH]; cbn; [done|]. rewrite IH. f_equal. unfold byte_char.
  rewrite Nat2Z.id. apply Ascii.ascii_nat_embedding.
Qed.

Lemma bytes_of_app s t : bytes_of (s +:+ t) = bytes_of s ++ bytes_of t.
Proof.
  induction s as [|c s IH]; [done|]. change (String c s +:+ t) with (String c (s +:+ t)). cbn. by rewrite IH.
Qed.

(** A base64 digit stands for its value. *)
Lemma base64_value_digit n : 0 <= n < 64 ->
  base64_value (char_byte (base64_digit n)) = Some n /\
  negb ((char_byte (base64_digit n) =? 10) || (char_byte (base64_digit n) =? 13)) = true.
Proof.
  intros Hn.
  assert (Hall : forallb (fun n => bool_decide (base64_value (char_byte (base64_digit n)) = Some n) &&
    negb ((char_byte (base64_digit n) =? 10) || (char_byte (base64_digit n) =? 13))) (range 0 64) = true)
    by (vm_compute; reflexivity).
  rewrite forallb_forall in Hall. specialize (Hall n). rewrite <-list_elem_of_In, elem_of_range in Hall.
  apply andb_true_iff in Hall as [H1 H2]; [|lia]. by apply bool_decide_eq_true in H1.
Qed.

(** The values of the digits of an encoding. *)
Fixpoint base64_codes (bytes : list Z) : list Z :=
  match bytes with
  | [] => []
  | [a] => [a / 4; a `mod` 4 * 16]
  | [a; b] => [a / 4; a `mod` 4 * 16 + b / 16; b `mod` 16 * 4]
  | a :: b :: c :: rest =>
      a / 4 :: a `mod` 4 * 16 + b / 16 :: b `mod` 16 * 4 + c / 64 :: c `mod` 64 :: base64_codes rest
  end.

(** Induction three bytes at a time. *)
Lemma triple_ind (P : list Z -> Prop) :
  P [] -> (forall a, P [a]) -> (forall a b, P [a; b]) ->
  (forall a b c l, P l -> P (a :: b :: c :: l)) -> forall l, P l.
Proof.
  intros H0 H1 H2 H3. assert (forall n l, (List.length l <= n)%nat -> P l) as H.
  { induction n as [|n IH]; intros [|a [|b [|c l]]] Hl; cbn in Hl; auto; try lia.
    apply H3, IH. lia. }
  intros l. by apply (H (List.length l)).
Qed.

Ltac div_lia := Z.to_euclidean_division_equations; lia.

Lemma base64_codes_range l : Forall is_byte l -> Forall (fun n => 0 <= n < 64) (base64_codes l).
Proof.
  induction l as [|a|a b|a b c l IH] using triple_ind; intros Hl; cbn; decompose_Forall_hyps;
    unfold is_byte in *; repeat (constructor; [div_lia|]); auto.
Qed.

Lemma base64_url_codes l : bytes_of (base64_url l) = map (fun n => char_byte (base64_digit n)) (base64_codes l).
Proof. induction l as [|a|a b|a b c l IH] using triple_ind; cbn; rewrite ?IH; done. Qed.

Lemma base64_groups_codes l : Forall is_byte l -> base64_groups (base64_codes l) = Some l.
Proof.
  induction l as [|a|a b|a b c l IH] using triple_ind; intros Hl; decompose_Forall_hyps; [done|..];
    unfold is_byte in *; cbn -[Z.div Z.modulo Z.mul Z.add].
  - do 2 f_equal. div_lia.
  - repeat f_equal; div_lia.
  - rewrite IH by done. cbn -[Z.div Z.modulo Z.mul Z.add]. repeat f_equal; div_lia.
Qed.

Lemma base64_decode_url l : Forall is_byte l -> base64_decode (base64_url l) = Some l.
Proof.
  intros Hl. unfold base64_decode. rewrite base64_url_codes.
  assert (Hc : Forall (fun n => 0 <= n < 64) (base64_codes l)) by (by apply base64_codes_range).
  assert (forall codes, Forall (fun n => 0 <= n < 64) codes ->
    mapM base64_value (List.filter (fun c => negb ((c =? 10) || (c =? 13)))
      (map (fun n => char_byte (base64_digit n)) codes)) = Some codes) as ->.
  { induction 1 as [|n codes Hn _ IH]; [done|]. cbn [map List.filter].
    destruct (base64_value_digit n Hn) as [Hv ->]. cbn [mapM]. by rewrite Hv, IH. }
  - cbn. by apply base64_groups_codes.
  - done.
Qed.

(** Decimal text reads back. *)

Lemma digit_value d : 0 <= d < 10 -> Z.of_nat (nat_of_ascii (digit d)) - 48 = d.
Proof. intros Hd. unfold digit. rewrite Ascii.nat_ascii_embedding by lia. lia. Qed.

Lemma parse_digit d s acc : 0 <= d < 10 -> parse_digits (String (digit d) s) acc = parse_digits s (10 * acc + d).
Proof.
  intros Hd. cbn [parse_digits]. rewrite digit_value by done.
  by rewrite (proj2 (Z.leb_le 0 d)), (proj2 (Z.leb_le d 9)) by lia.
Qed.

Lemma parse_digits_aux fuel n acc :
  0 <= n < 10 ^ Z.of_nat fuel -> parse_digits (digits_aux fuel n acc) 0 = parse_digits acc n.
Proof.
  revert n acc. induction fuel as [|fuel IH]; intros n acc Hn; cbn [digits_aux].
  { change (10 ^ Z.of_nat 0) with 1 in Hn. by replace n with 0 by lia. }
  pose proof (Z.mod_pos_bound n 10 ltac:(lia)). destruct (Z.ltb_spec n 10).
  - rewrite parse_digit by done. f_equal. rewrite Z.mod_small by lia. lia.
  - rewrite IH.
    + rewrite parse_digit by done. f_equal. pose proof (Z.div_mod n 10). lia.
    + rewrite Nat2Z.inj_succ, Z.pow_succ_r in Hn by lia. split; [apply Z.div_pos; lia|].
      apply Z.div_lt_upper_bound; lia.
Qed.

Lemma digits_aux_head fuel n acc :
  (fuel <> O)%nat -> 0 <= n -> exists d s, digits_aux fuel n acc = String (digit d) s /\ 0 <= d < 10.
Proof.
  revert n acc. induction fuel as [|fuel IH]; intros n acc Hf Hn; [done|]. cbn [digits_aux].
  pose proof (Z.mod_pos_bound n 10 ltac:(lia)). destruct (Z.ltb_spec n 10); [eauto|].
  destruct fuel as [|fuel]; [cbn; eauto|]. apply IH; [done|]. apply Z.div_pos; lia.
Qed.

Lemma format_uint_parses n : 0 <= n -> parse_unsigned (format_uint n) = Some n.
Proof.
  intros Hn. unfold format_uint. set (fuel := S (Z.to_nat (Z.log2 n))).
  destruct (digits_aux_head fuel n "") as (d & s & Hd & _); [done|done|].
  assert (Hp : parse_digits (digits_aux fuel n "") 0 = Some n).
  { rewrite parse_digits_aux; [done|]. split; [done|]. unfold fuel.
    rewrite Nat2Z.inj_succ, Z2Nat.id by apply Z.log2_nonneg. destruct (Z.eq_dec n 0) as [->|Hne]; [done|].
    apply Z.lt_le_trans with (2 ^ Z.succ (Z.log2 n)); [apply Z.log2_spec; lia|].
    apply Z.pow_le_mono_l. lia. }
  rewrite Hd in Hp |- *. exact Hp.
Qed.

(** A cursor written in decimal is read back. *)
Lemma atoi_itoa n : 0 <= n < 2 ^ 63 -> atoi (itoa n) = Some n.
Proof.
  intros Hn. unfold itoa. rewrite (proj2 (Z.ltb_ge n 0)) by lia.
  pose proof (format_uint_parses n ltac:(lia)) as Hp. revert Hp. unfold format_uint.
  destruct (digits_aux_head (S (Z.to_nat (Z.log2 n))) n "") as (d & s & -> & Hd); [done|lia|].
  intros Hp. unfold atoi.
  assert (match String (digit d) s with
          | String "-" s' => Z.opp <$> parse_unsigned s'
          | String "+" s' => parse_unsigned s'
          | _ => parse_unsigned (String (digit d) s)
          end = Some n) as ->.
  { rewrite <-Hp. assert (d = 0 \/ d = 1 \/ d = 2 \/ d = 3 \/ d = 4 \/ d = 5 \/ d = 6 \/ d = 7 \/ d = 8 \/ d = 9) as Hc by lia.
    by destruct Hc as [->|[->|[->|[->|[->|[->|[->|[->|[->| ->]]]]]]]]]. }
  cbn [mbind option_bind]. by rewrite (proj2 (Z.leb_le _ n)), (proj2 (Z.ltb_lt n _)) by lia.
Qed.

Lemma itoa_nonempty n : 0 <= n -> itoa n <> "".
Proof.
  intros Hn. unfold itoa. rewrite (proj2 (Z.ltb_ge n 0)) by lia. unfold format_uint.
  destruct (digits_aux_head (S (Z.to_nat (Z.log2 n))) n "") as (d & s & -> & _); [done|lia|done].
Qed.

(** ** White space *)

Lemma space_width_app l k n : space_width l = S n -> space_width (l ++ k) = S n.
Proof.
  destruct l as [|a [|b [|c l]]]; cbn; try done; [by destruct (space1 a)|].
  destruct (space1 a); [done|]. by destruct (space2 a b).
Qed.

(** White space at the end is white space. *)
Lemma space_width_back_split r n :
  space_width_back r = S n ->
  exists sp, rev r = rev (drop (S n) r) ++ sp /\ space_width sp = S n.
Proof.
  destruct r as [|c [|b [|a r]]]; cbn; try done.
  - destruct (space1 c) eqn:E; [|done]. intros [= <-]. exists [c]. cbn. by rewrite E.
  - destruct (space1 c) eqn:E1; [intros [= <-]; exists [c]; cbn; by rewrite E1|].
    destruct (space2 b c) eqn:E2; [|done]. intros [= <-]. exists [b; c]. cbn. rewrite E2.
    assert (space1 b = false) as -> by (unfold space1, space2 in *; lia). done.
  - destruct (space1 c) eqn:E1; [intros [= <-]; exists [c]; cbn; by rewrite E1|].
    destruct (space2 b c) eqn:E2.
    + intros [= <-]. exists [b; c]. cbn. rewrite E2.
      assert (space1 b = false) as -> by (unfold space1, space2 in *; lia). by rewrite <-!app_assoc.
    + destruct (space3 a b c) eqn:E3; [|done]. intros [= <-]. exists [a; b; c]. cbn. rewrite E3.
      assert (space1 a = false) as -> by (unfold space1, space3 in *; lia).
      assert (space2 a b = false) as -> by (unfold space2, space3 in *; lia). by rewrite <-!app_assoc.
Qed.

Lemma drop_back_nil fuel r : r <> [] -> drop_spaces space_width_back fuel r = [] -> space_width (rev r) <> O.
Proof.
  revert r. induction fuel as [|fuel IH]; intros r Hr; cbn [drop_spaces]; [done|].
  destruct (space_width_back r) as [|n] eqn:E; [done|]. intros Hd.
  destruct (space_width_back_split r n E) as (sp & Hsplit & Hsp). rewrite Hsplit.
  destruct (decide (drop (S n) r = [])) as [->|Hne]; [cbn [rev app]; by rewrite Hsp|].
  specialize (IH _ Hne Hd). destruct (space_width (rev (drop (S n) r))) as [|m] eqn:Em; [done|].
  by rewrite (space_width_app _ sp m Em).
Qed.

(** After trimming in front, no white space is left there. *)
Lemma drop_front_width fuel l : (List.length l <= fuel)%nat -> space_width (drop_spaces space_width fuel l) = O.
Proof.
  revert l. induction fuel as [|fuel IH]; intros l Hl; cbn [drop_spaces].
  - by destruct l; [|cbn in Hl; lia].
  - destruct (space_width l) as [|n] eqn:E; [done|]. apply IH. rewrite length_drop. lia.
Qed.

Lemma drop_back_prefix fuel r : exists k, rev r = rev (drop_spaces space_width_back fuel r) ++ k.
Proof.
  revert r. induction fuel as [|fuel IH]; intros r; cbn [drop_spaces]; [exists []; by rewrite app_nil_r|].
  destruct (space_width_back r) as [|n]; [exists []; by rewrite app_nil_r|].
  destruct (IH (drop (S n) r)) as [k Hk]. exists (k ++ rev (take (S n) r)).
  rewrite app_assoc, <-Hk, <-rev_app_distr. by rewrite take_drop.
Qed.

Lemma trim_bytes_front l : space_width (trim_bytes l) = O.
Proof.
  unfold trim_bytes. set (front := drop_spaces space_width (List.length l) l).
  destruct (drop_back_prefix (List.length front) (rev front)) as [k Hk]. rewrite rev_involutive in Hk.
  pose proof (drop_front_width (List.length l) l ltac:(lia)) as Hf. fold front in Hf. rewrite Hk in Hf.
  destruct (space_width (rev _)) as [|n] eqn:E; [done|]. by rewrite (space_width_app _ k n E) in Hf.
Qed.

Lemma trim_bytes_range l : Forall is_byte l -> Forall is_byte (trim_bytes l).
Proof.
  intros Hl. assert (Hd : forall w fuel k, Forall is_byte k -> Forall is_byte (drop_spaces w fuel k)).
  { intros w fuel. induction fuel as [|fuel IH]; intros k Hk; cbn; [done|].
    destruct (w k); [done|]. by apply IH, Forall_drop. }
  unfold trim_bytes. apply Forall_rev, Hd, Forall_rev, Hd, Hl.
Qed.

(** A part of trimmed text that starts where the text does is not blank. *)
Lemma trim_space_prefix x before after :
  trim_space x = before +:+ after -> before <> "" -> trim_space before <> "".
Proof.
  intros Hx Hne Ht. assert (Hb : bytes_of before <> []) by (by destruct before).
  assert (Hw : space_width (bytes_of before) = O).
  { assert (Hall : bytes_of before ++ bytes_of after = trim_bytes (bytes_of x)).
    { rewrite <-bytes_of_app, <-Hx. apply bytes_of_string, trim_bytes_range, bytes_of_range. }
    pose proof (trim_bytes_front (bytes_of x)) as Hf. rewrite <-Hall in Hf.
    destruct (space_width (bytes_of before)) as [|n] eqn:E; [done|].
    by rewrite (space_width_app _ (bytes_of after) n E) in Hf. }
  assert (Hnil : trim_bytes (bytes_of before) = []).
  { unfold trim_space in Ht. by destruct (trim_bytes (bytes_of before)). }
  unfold trim_bytes in Hnil. assert (Hfront : drop_spaces space_width (List.length (bytes_of before)) (bytes_of before) = bytes_of before).
  { destruct (List.length (bytes_of before)); cbn [drop_spaces]; by rewrite ?Hw. }
  rewrite Hfront in Hnil. apply (f_equal (@rev Z)) in Hnil. rewrite rev_involutive in Hnil. cbn in Hnil.
  apply drop_back_nil in Hnil; [by rewrite rev_involutive in Hnil|].
  intros Hr. apply Hb. rewrite <-(rev_involutive (bytes_of before)), Hr. done.
Qed.

Lemma cut_last_spec sep s before after : cut_last sep s = Some (before, after) -> s = before +:+ String sep after.
Proof.
  revert before. induction s as [|c s IH]; intros before; cbn [cut_last]; [done|].
  destruct (cut_last sep s) as [[b a]|].
  - intros [= <- <-]. by rewrite (IH b eq_refl).
  - destruct (Ascii.eqb_spec c sep) as [->|]; [|done]. by intros [= <- <-].
Qed.
