(* ===== verification/Json.v ===== *)
(** * Reading JSON the way encoding/json does

    The scanner of the Go library as a machine over bytes, the strings it
    unquotes, and the decoding of a value into the fields of a struct: names
    match without regard to case, a null changes nothing, an element that does
    not fit is skipped and reported at the end, and so is a name that is not
    known. *)

From stdpp Require Import prelude strings list.
From Stdlib Require Import ZArith Lia Ascii String.
From S2P Require Import Prelude GoFloat GoText Sha256 GoStrings.

#[local] Open Scope string_scope.
#[local] Open Scope list_scope.
#[local] Open Scope Z_scope.

(** ** Values *)

(** A number keeps its text; a member list its order and its duplicates. *)
Inductive jtext :=
  | XNull
  | XBool (b : bool)
  | XNumber (text : string)
  | XString (text : string)
  | XArray (items : list jtext)
  | XObject (members : list (string * jtext)).

(** ** Strings *)

Definition replacement : list Z := [0xEF; 0xBF; 0xBD].

Definition in_range (lo hi b : Z) : bool := (lo <=? b) && (b <=? hi).
Definition continuation (b : Z) : bool := in_range 0x80 0xBF b.

(** The second byte that may follow [c] in an encoding of three or four
    bytes. *)
Definition second3 (c b : Z) : bool :=
  if c =? 0xE0 then in_range 0xA0 0xBF b else if c =? 0xED then in_range 0x80 0x9F b else continuation b.
Definition second4 (c b : Z) : bool :=
  if c =? 0xF0 then in_range 0x90 0xBF b else if c =? 0xF4 then in_range 0x80 0x8F b else continuation b.

(** [utf8.EncodeRune] *)
Definition encode_rune (r : Z) : list Z :=
  if r <? 0x80 then [r]
  else if r <? 0x800 then [0xC0 + r / 0x40; 0x80 + r `mod` 0x40]
  else if r <? 0x10000 then [0xE0 + r / 0x1000; 0x80 + (r / 0x40) `mod` 0x40; 0x80 + r `mod` 0x40]
  else [0xF0 + r / 0x40000; 0x80 + (r / 0x1000) `mod` 0x40; 0x80 + (r / 0x40) `mod` 0x40; 0x80 + r `mod` 0x40].

Definition hex_value (c : Z) : option Z :=
  if in_range 48 57 c then Some (c - 48)
  else if in_range 97 102 c then Some (c - 87)
  else if in_range 65 70 c then Some (c - 55) else None.

Definition hex4 (a b c d : Z) : option Z :=
  a ← hex_value a; b ← hex_value b; c ← hex_value c; d ← hex_value d;
  Some (4096 * a + 256 * b + 16 * c + d).

Definition is_surrogate (r : Z) : bool := in_range 0xD800 0xDFFF r.

(** [utf16.DecodeRune] *)
Definition decode_pair (hi lo : Z) : option Z :=
  if in_range 0xD800 0xDBFF hi && in_range 0xDC00 0xDFFF lo
  then Some ((hi - 0xD800) * 1024 + (lo - 0xDC00) + 0x10000) else None.

Definition unescape (e : Z) : Z :=
  if e =? 98 then 8 else if e =? 102 then 12 else if e =? 110 then 10 else if e =? 114 then 13
  else if e =? 116 then 9 else e.

(** [unquoteBytes] of the bytes between the quotes, which the scanner has
    seen. *)
Fixpoint unquote (l : list Z) : list Z :=
  match l with
  | [] => []
  | c :: rest =>
      if c =? 92 then
        match rest with
        | [] => []
        | e :: rest1 =>
            if e =? 117 then
              match rest1 with
              | a :: b :: x :: y :: rest2 =>
                  match hex4 a b x y with
                  | None => []
                  | Some r =>
                      if is_surrogate r then
                        match rest2 with
                        | s1 :: s2 :: a2 :: b2 :: x2 :: y2 :: rest3 =>
                            match (if (s1 =? 92) && (s2 =? 117)
                                   then lo ← hex4 a2 b2 x2 y2; decode_pair r lo else None) with
                            | Some full => encode_rune full ++ unquote rest3
                            | None => replacement ++ unquote rest2
                            end
                        | _ => replacement ++ unquote rest2
                        end
                      else encode_rune r ++ unquote rest2
                  end
              | _ => []
              end
            else unescape e :: unquote rest1
        end
      else if c <? 0x80 then c :: unquote rest
      else if in_range 0xC2 0xDF c then
        match rest with
        | b :: rest1 => if continuation b then c :: b :: unquote rest1 else replacement ++ unquote rest
        | [] => replacement
        end
      else if in_range 0xE0 0xEF c then
        match rest with
        | b :: d :: rest2 => if second3 c b && continuation d then c :: b :: d :: unquote rest2
                             else replacement ++ unquote rest
        | _ => replacement ++ unquote rest
        end
      else if in_range 0xF0 0xF4 c then
        match rest with
        | b :: d :: e :: rest3 => if second4 c b && continuation d && continuation e
                                  then c :: b :: d :: e :: unquote rest3 else replacement ++ unquote rest
        | _ => replacement ++ unquote rest
        end
      else replacement ++ unquote rest
  end.

Example unquote_escape : string_of_bytes (unquote (bytes_of "a\u0041\n\\b")) =
  "aA" +:+ String "010" "\b".
Proof. vm_compute. reflexivity. Qed.
Example unquote_pair : unquote (bytes_of "\ud83d\ude00") = [0xF0; 0x9F; 0x98; 0x80].
Proof. vm_compute. reflexivity. Qed.
Example unquote_half : unquote (bytes_of "\ud83dx") = replacement ++ [120].
Proof. vm_compute. reflexivity. Qed.

(** ** The scanner *)

Inductive numberState := NNeg | NZero | NInt | NDot | NFrac | NExp0 | NExpSign | NExp.

(** What the next byte may be; a text under way is kept last byte first. *)
Inductive mode :=
  | MBegin (orEmpty : bool)
  | MKey (orEmpty : bool)
  | MString (raw : list Z)
  | MEsc (raw : list Z)
  | MEscU (digits : nat) (raw : list Z)
  | MNumber (st : numberState) (raw : list Z)
  | MLiteral (rest : list Z) (value : jtext)
  | MColon
  | MEnd.

(** An array or object under way, last element first; an object with the key
    whose value is next. *)
Inductive frame :=
  | FArray (items : list jtext)
  | FObject (members : list (string * jtext)) (key : option string).

Inductive stepped :=
  | Next (m : mode) (stack : list frame)
  | Finished (value : jtext)
  | FinishedBefore (value : jtext)
  | Bad.

Definition maxNestingDepth : Z := 10000.

Definition push (f : frame) (m : mode) (stack : list frame) : stepped :=
  if len (f :: stack) <=? maxNestingDepth then Next m (f :: stack) else Bad.

(** A value is complete. *)
Definition finish (value : jtext) (stack : list frame) : stepped :=
  match stack with
  | [] => Finished value
  | FArray items :: rest => Next MEnd (FArray (value :: items) :: rest)
  | FObject members (Some key) :: rest => Next MEnd (FObject ((key, value) :: members) None :: rest)
  | FObject members None :: rest =>
      match value with
      | XString key => Next MColon (FObject members (Some key) :: rest)
      | _ => Bad
      end
  end.

Definition is_space (c : Z) : bool := (c =? 32) || (c =? 9) || (c =? 13) || (c =? 10).
Definition is_digit_byte (c : Z) : bool := in_range 48 57 c.

Definition begin_value (c : Z) (stack : list frame) : stepped :=
  if c =? 123 then push (FObject [] None) (MKey true) stack
  else if c =? 91 then push (FArray []) (MBegin true) stack
  else if c =? 34 then Next (MString []) stack
  else if c =? 45 then Next (MNumber NNeg [c]) stack
  else if c =? 48 then Next (MNumber NZero [c]) stack
  else if is_digit_byte c then Next (MNumber NInt [c]) stack
  else if c =? 116 then Next (MLiteral (bytes_of "rue") (XBool true)) stack
  else if c =? 102 then Next (MLiteral (bytes_of "alse") (XBool false)) stack
  else if c =? 110 then Next (MLiteral (bytes_of "ull") XNull) stack
  else Bad.

(** After an element: a comma, or the end of what holds it. *)
Definition end_value (c : Z) (stack : list frame) : stepped :=
  if is_space c then Next MEnd stack
  else match stack with
  | FArray items :: rest =>
      if c =? 44 then Next (MBegin false) stack
      else if c =? 93 then finish (XArray (rev items)) rest else Bad
  | FObject members None :: rest =>
      if c =? 44 then Next (MKey false) stack
      else if c =? 125 then finish (XObject (rev members)) rest else Bad
  | _ => Bad
  end.

(** The state after one more byte of a number: [inr true] when the number ends
    before the byte, [inr false] when the byte cannot be. *)
Definition number_step (st : numberState) (c : Z) : numberState + bool :=
  let exponent := (c =? 101) || (c =? 69) in
  match st with
  | NNeg => if c =? 48 then inl NZero else if is_digit_byte c then inl NInt else inr false
  | NZero => if c =? 46 then inl NDot else if exponent then inl NExp0 else inr true
  | NInt => if is_digit_byte c then inl NInt
            else if c =? 46 then inl NDot else if exponent then inl NExp0 else inr true
  | NDot => if is_digit_byte c then inl NFrac else inr false
  | NFrac => if is_digit_byte c then inl NFrac else if exponent then inl NExp0 else inr true
  | NExp0 => if (c =? 43) || (c =? 45) then inl NExpSign else if is_digit_byte c then inl NExp else inr false
  | NExpSign => if is_digit_byte c then inl NExp else inr false
  | NExp => if is_digit_byte c then inl NExp else inr true
  end.

Definition number_complete (st : numberState) : bool :=
  match st with NZero | NInt | NFrac | NExp => true | _ => false end.

Definition text_of (raw : list Z) : string := string_of_bytes (rev raw).

Definition escapable (c : Z) : bool :=
  existsb (Z.eqb c) [98; 102; 110; 114; 116; 92; 47; 34].

Definition step (m : mode) (stack : list frame) (c : Z) : stepped :=
  match m with
  | MBegin orEmpty =>
      if is_space c then Next m stack
      else if orEmpty && (c =? 93) then
        match stack with FArray _ :: rest => finish (XArray []) rest | _ => Bad end
      else begin_value c stack
  | MKey orEmpty =>
      if is_space c then Next m stack
      else if orEmpty && (c =? 125) then
        match stack with FObject _ _ :: rest => finish (XObject []) rest | _ => Bad end
      else if c =? 34 then Next (MString []) stack else Bad
  | MString raw =>
      if c =? 34 then finish (XString (string_of_bytes (unquote (rev raw)))) stack
      else if c =? 92 then Next (MEsc (c :: raw)) stack
      else if c <? 32 then Bad else Next (MString (c :: raw)) stack
  | MEsc raw =>
      if escapable c then Next (MString (c :: raw)) stack
      else if c =? 117 then Next (MEscU 4 (c :: raw)) stack else Bad
  | MEscU digits raw =>
      match hex_value c with
      | None => Bad
      | Some _ => match digits with
                  | Datatypes.S (Datatypes.S more) => Next (MEscU (Datatypes.S more) (c :: raw)) stack
                  | _ => Next (MString (c :: raw)) stack
                  end
      end
  | MNumber st raw =>
      match number_step st c with
      | inl st' => Next (MNumber st' (c :: raw)) stack
      | inr false => Bad
      | inr true =>
          match stack with
          | [] => FinishedBefore (XNumber (text_of raw))
          | _ => match finish (XNumber (text_of raw)) stack with
                 | Next MEnd stack' => end_value c stack'
                 | _ => Bad
                 end
          end
      end
  | MLiteral rest value =>
      match rest with
      | [] => Bad
      | e :: more => if negb (c =? e) then Bad
                     else match more with [] => finish value stack | _ => Next (MLiteral more value) stack end
      end
  | MColon => if is_space c then Next m stack else if c =? 58 then Next (MBegin false) stack else Bad
  | MEnd => end_value c stack
  end.

(** What [Decode] finds at the front of the input: a value and the bytes after
    it, nothing but space, or an error. *)
Inductive scanned :=
  | ScanValue (value : jtext) (rest : list Z)
  | ScanEOF
  | ScanError.

Fixpoint scan (m : mode) (stack : list frame) (l : list Z) : scanned :=
  match l with
  | [] => match m, stack with
          | MNumber st raw, [] => if number_complete st then ScanValue (XNumber (text_of raw)) [] else ScanError
          | MBegin _, [] => ScanEOF
          | _, _ => ScanError
          end
  | c :: rest =>
      match step m stack c with
      | Next m' stack' => scan m' stack' rest
      | Finished value => ScanValue value rest
      | FinishedBefore value => ScanValue value (c :: rest)
      | Bad => ScanError
      end
  end.

Definition next_value (l : list Z) : scanned := scan (MBegin false) [] l.

(** Text written with single quotes for double ones. *)
Definition double_quoted (s : string) : list Z := map (fun c => if c =? 39 then 34 else c) (bytes_of s).

Example next_object : next_value (double_quoted " {'a': [1, -2.5e3, true], 'b': null} x") =
  ScanValue (XObject [("a", XArray [XNumber "1"; XNumber "-2.5e3"; XBool true]); ("b", XNull)]) [32; 120].
Proof. vm_compute. reflexivity. Qed.
Example next_number : next_value (bytes_of "012") = ScanValue (XNumber "0") (bytes_of "12").
Proof. vm_compute. reflexivity. Qed.
Example next_open : next_value (bytes_of "[1,]") = ScanError.
Proof. vm_compute. reflexivity. Qed.

(** ** Decoding into Go values *)

(** What a value makes of a variable, and whether nothing had to be reported. *)
Definition decoder (T : Type) : Type := T -> jtext -> T * bool.

Definition into_string : decoder string := fun t j =>
  match j with XString s => (s, true) | XNull => (t, true) | _ => (t, false) end.

Definition into_int : decoder Z := fun t j =>
  match j with
  | XNumber text => match atoi text with Some n => (n, true) | None => (t, false) end
  | XNull => (t, true)
  | _ => (t, false)
  end.

(** A slice: its length, and the array behind it, whose elements past the
    length keep what was written to them. *)
Record slice (T : Type) := mkSlice {
  gsBacking : list T;
  gsLen : nat
}.
Arguments mkSlice {T}.
Arguments gsBacking {T}.
Arguments gsLen {T}.

Definition nil_slice {T} : slice T := mkSlice [] 0.
Definition elements_of {T} (s : slice T) : list T := take (gsLen s) (gsBacking s).

Section Containers.
Context {T : Type}.

Fixpoint into_items (zero : T) (dec : decoder T) (backing : list T) (items : list jtext) : list T * bool :=
  match items with
  | [] => (backing, true)
  | item :: rest =>
      let '(e, ok) := dec (default zero (head backing)) item in
      let '(more, ok') := into_items zero dec (tail backing) rest in
      (e :: more, ok && ok')
  end.

(** An element is decoded into the one that is there. *)
Definition into_slice (zero : T) (dec : decoder T) : decoder (slice T) := fun s j =>
  match j with
  | XNull | XArray [] => (nil_slice, true)
  | XArray items =>
      let '(backing, ok) := into_items zero dec (gsBacking s) items in
      (mkSlice backing (List.length items), ok)
  | _ => (s, false)
  end.

(** [foldName]: letters in upper case, with the two letters outside ASCII that
    fold to one of ASCII. *)
Fixpoint fold_name (l : list Z) : list Z :=
  match l with
  | [] => []
  | c :: rest =>
      if in_range 97 122 c then (c - 32) :: fold_name rest
      else if c =? 0xC5 then
        match rest with
        | b :: rest1 => if b =? 0xBF then 83 :: fold_name rest1 else c :: fold_name rest
        | [] => [c]
        end
      else if c =? 0xE2 then
        match rest with
        | b :: d :: rest2 => if (b =? 0x84) && (d =? 0xAA) then 75 :: fold_name rest2 else c :: fold_name rest
        | _ => c :: fold_name rest
        end
      else c :: fold_name rest
  end.

(** The field of a name: the one spelled so, or else the first that folds to
    the same. *)
Definition find_field (fields : list (string * decoder T)) (key : string) : option (decoder T) :=
  match List.find (fun f => (f.1 =? key)%string) fields with
  | Some f => Some f.2
  | None => snd <$> List.find (fun f => bool_decide (fold_name (bytes_of f.1) = fold_name (bytes_of key))) fields
  end.

(** One member of an object; a name without a field is reported. *)
Definition into_member (fields : list (string * decoder T)) (st : T * bool) (member : string * jtext) : T * bool :=
  match find_field fields member.1 with
  | Some dec => let '(t, ok) := dec st.1 member.2 in (t, st.2 && ok)
  | None => (st.1, false)
  end.

Definition into_struct (fields : list (string * decoder T)) : decoder T := fun t j =>
  match j with
  | XObject members => foldl (into_member fields) (t, true) members
  | XNull => (t, true)
  | _ => (t, false)
  end.
End Containers.

(** A decoder of one field. *)
Definition on_field {T A} (get : T -> A) (set : T -> A -> T) (dec : decoder A) : decoder T := fun t j =>
  let '(a, ok) := dec (get t) j in (set t a, ok).

(** ** Writing

    One way to write a value, with the escapes JSON requires. *)

Definition hex_byte (d : Z) : Z := char_byte (hex_digit d).

Definition quote_byte (c : Z) : list Z :=
  if (c =? 34) || (c =? 92) then [92; c]
  else if c <? 32 then [92; 117; 48; 48; hex_byte (c / 16); hex_byte (c `mod` 16)] else [c].

Definition quote (s : string) : list Z := 34 :: flat_map quote_byte (bytes_of s) ++ [34].

Fixpoint joined {A} (show : A -> list Z) (l : list A) : list Z :=
  match l with
  | [] => []
  | [a] => show a
  | a :: rest => show a ++ 44 :: joined show rest
  end.

Fixpoint print_json (j : jtext) : list Z :=
  match j with
  | XNull => bytes_of "null"
  | XBool true => bytes_of "true"
  | XBool false => bytes_of "false"
  | XNumber text => bytes_of text
  | XString s => quote s
  | XArray items => 91 :: joined print_json items ++ [93]
  | XObject members => 123 :: joined (fun '(key, value) => quote key ++ 58 :: print_json value) members ++ [125]
  end.

Example print_nested : print_json (XObject [("a", XArray [XNumber "1"; XString "x"]); ("b", XBool true)]) =
  double_quoted "{'a':[1,'x'],'b':true}".
Proof. vm_compute. reflexivity. Qed.
