(* ===== verification/JsonProofs.v ===== *)
(** * What is written is what is read

    Reading back a written value: strings survive their escapes, the scanner
    accepts what was written and stops right behind it. *)

From stdpp Require Import prelude strings list.
From Stdlib Require Import ZArith Lia Ascii String.
From S2P Require Import Prelude GoFloat GoText Sha256 GoStrings Json.

#[local] Open Scope string_scope.
#[local] Open Scope list_scope.
#[local] Open Scope Z_scope.

(** ** Strings *)

(** Well-formed UTF-8. *)
Inductive utf8 : list Z -> Prop :=
  | utf8_nil : utf8 []
  | utf8_1 c l : 0 <= c < 0x80 -> utf8 l -> utf8 (c :: l)
  | utf8_2 c b l : in_range 0xC2 0xDF c = true -> continuation b = true -> utf8 l -> utf8 (c :: b :: l)
  | utf8_3 c b d l : in_range 0xE0 0xEF c = true -> second3 c b = true -> continuation d = true -> utf8 l ->
      utf8 (c :: b :: d :: l)
  | utf8_4 c b d e l : in_range 0xF0 0xF4 c = true -> second4 c b = true -> continuation d = true ->
      continuation e = true -> utf8 l -> utf8 (c :: b :: d :: e :: l).

Definition utf8_text (s : string) : Prop := utf8 (bytes_of s).

Lemma utf8_ascii l : Forall (fun c => 0 <= c < 0x80) l -> utf8 l.
Proof. induction 1; by constructor. Qed.

Lemma utf8_app l k : utf8 l -> utf8 k -> utf8 (l ++ k).
Proof. intros Hl Hk. induction Hl; cbn; [done|by constructor..]. Qed.

(** A check of every number below a bound. *)
Lemma checked_below (p : Z -> bool) n c :
  forallb (fun k => p (Z.of_nat k)) (seq 0 n) = true -> 0 <= c < Z.of_nat n -> p c = true.
Proof.
  intros Hall Hc. rewrite forallb_forall in Hall. specialize (Hall (Z.to_nat c)). rewrite Z2Nat.id in Hall by lia.
  apply Hall, in_seq. lia.
Qed.

Lemma control_escape c : 0 <= c < 32 -> hex4 48 48 (hex_byte (c / 16)) (hex_byte (c `mod` 16)) = Some c.
Proof.
  intros Hc. pose proof (checked_below (fun c => bool_decide
    (hex4 48 48 (hex_byte (c / 16)) (hex_byte (c `mod` 16)) = Some c)) 32 c) as H.
  apply bool_decide_eq_true in H; [done|vm_compute; reflexivity|done].
Qed.

Lemma hex_byte_digit c : 0 <= c < 16 -> is_Some (hex_value (hex_byte c)).
Proof.
  intros Hc. pose proof (checked_below (fun c => bool_decide (is_Some (hex_value (hex_byte c)))) 16 c) as H.
  apply bool_decide_eq_true in H; [done|vm_compute; reflexivity|done].
Qed.

(** Decides the comparisons of bytes whose range is known. *)
Ltac byte_cases :=
  unfold in_range, continuation, second3, second4, is_surrogate in *;
  repeat match goal with
         | H : context [(?a <=? ?b) && _ = true] |- _ => apply andb_true_iff in H as [? ?]
         | H : (_ && _) = true |- _ => apply andb_true_iff in H as [? ?]
         end;
  repeat match goal with
         | |- context [?a =? ?b] => destruct (Z.eqb_spec a b); try lia
         | |- context [?a <? ?b] => destruct (Z.ltb_spec a b); try lia
         | |- context [?a <=? ?b] => destruct (Z.leb_spec a b); try lia
         end.

Lemma quote_high c : 0x80 <= c -> quote_byte c = [c].
Proof. intros. unfold quote_byte. by byte_cases. Qed.

Lemma in_range_low lo hi c : in_range lo hi c = true -> lo <= c <= hi.
Proof. unfold in_range. lia. Qed.

Lemma second3_high c b : second3 c b = true -> 0x80 <= b.
Proof. unfold second3. repeat case_match; intros ?%in_range_low; lia. Qed.

Lemma second4_high c b : second4 c b = true -> 0x80 <= b.
Proof. unfold second4. repeat case_match; intros ?%in_range_low; lia. Qed.

Lemma unquote_low c l : 0 <= c < 0x80 -> unquote (quote_byte c ++ l) = c :: unquote l.
Proof.
  intros Hc. unfold quote_byte. destruct ((c =? 34) || (c =? 92)) eqn:Hq.
  { apply orb_true_iff in Hq as [->%Z.eqb_eq| ->%Z.eqb_eq]; reflexivity. }
  destruct (Z.ltb_spec c 32).
  - cbn [app unquote]. change (92 =? 92) with true. change (117 =? 117) with true. cbn iota.
    rewrite control_escape by lia. unfold is_surrogate, encode_rune. by byte_cases.
  - cbn [app unquote]. by byte_cases.
Qed.

Lemma unquote_quote l : utf8 l -> unquote (flat_map quote_byte l) = l.
Proof.
  induction 1 as [|c l Hc Hl IH|c b l Hc Hb Hl IH|c b d l Hc Hb Hd Hl IH|c b d e l Hc Hb Hd He Hl IH];
    cbn [flat_map].
  - done.
  - rewrite unquote_low by done. by rewrite IH.
  - pose proof (in_range_low _ _ _ Hc). pose proof (in_range_low _ _ _ Hb).
    rewrite !quote_high by lia. cbn [app unquote]. rewrite Hc, Hb, IH. by byte_cases.
  - pose proof (in_range_low _ _ _ Hc). pose proof (second3_high _ _ Hb). pose proof (in_range_low _ _ _ Hd).
    rewrite !quote_high by lia. cbn [app unquote]. rewrite Hc, Hb, Hd, IH. clear Hb Hd. by byte_cases.
  - pose proof (in_range_low _ _ _ Hc). pose proof (second4_high _ _ Hb). pose proof (in_range_low _ _ _ Hd).
    pose proof (in_range_low _ _ _ He).
    rewrite !quote_high by lia. cbn [app unquote]. rewrite Hc, Hb, Hd, He, IH. clear Hb Hd He. by byte_cases.
Qed.

(** ** The scanner *)

(** Reading on after a complete value. *)
Definition resume (st : stepped) (rest : list Z) : scanned :=
  match st with
  | Next m stack => scan m stack rest
  | Finished value => ScanValue value rest
  | _ => ScanError
  end.

Lemma scan_byte_step m stack m' stack' c rest :
  step m stack c = Next m' stack' -> scan m stack (c :: rest) = scan m' stack' rest.
Proof. intros Hs. cbn [scan]. by rewrite Hs. Qed.

Lemma finish_resume value stack m stack0 c rest :
  step m stack0 c = finish value stack -> scan m stack0 (c :: rest) = resume (finish value stack) rest.
Proof.
  intros Hs. cbn [scan]. rewrite Hs. unfold finish. destruct stack as [|[items|members [key|]] stack]; [done..|].
  by destruct value.
Qed.

Lemma scan_quoted_byte raw stack c rest :
  0 <= c -> scan (MString raw) stack (quote_byte c ++ rest) = scan (MString (rev (quote_byte c) ++ raw)) stack rest.
Proof.
  intros Hc. unfold quote_byte. destruct ((c =? 34) || (c =? 92)) eqn:Hq.
  { apply orb_true_iff in Hq as [->%Z.eqb_eq| ->%Z.eqb_eq]; reflexivity. }
  apply orb_false_iff in Hq as [H34%Z.eqb_neq H92%Z.eqb_neq].
  destruct (Z.ltb_spec c 32).
  - destruct (hex_byte_digit (c / 16)) as [h1 Hh1]; [Z.to_euclidean_division_equations; lia|].
    destruct (hex_byte_digit (c `mod` 16)) as [h2 Hh2]; [apply Z.mod_pos_bound; lia|].
    cbn [app rev]. do 4 (erewrite scan_byte_step by reflexivity).
    erewrite scan_byte_step by (cbn [step]; by rewrite Hh1). erewrite scan_byte_step by (cbn [step]; by rewrite Hh2).
    done.
  - cbn [app rev]. apply scan_byte_step. cbn [step]. by byte_cases.
Qed.

Lemma scan_quoted raw stack l rest :
  Forall is_byte l ->
  scan (MString raw) stack (flat_map quote_byte l ++ 34 :: rest) =
    resume (finish (XString (string_of_bytes (unquote (rev raw ++ flat_map quote_byte l)))) stack) rest.
Proof.
  intros Hl. revert raw. induction Hl as [|c l Hc Hl IH]; intros raw; cbn [flat_map app].
  - rewrite app_nil_r. by apply finish_resume.
  - rewrite <-app_assoc, scan_quoted_byte by (unfold is_byte in Hc; lia).
    rewrite IH, rev_app_distr, rev_involutive. by rewrite <-app_assoc.
Qed.

Lemma scan_quote m stack s rest :
  utf8_text s -> step m stack 34 = Next (MString []) stack ->
  scan m stack (quote s ++ rest) = resume (finish (XString s) stack) rest.
Proof.
  intros Hs Hm. unfold quote. cbn [app]. rewrite (scan_byte_step _ _ _ _ _ _ Hm), <-app_assoc. cbn [app].
  rewrite scan_quoted by apply bytes_of_range. cbn [rev app].
  by rewrite unquote_quote, string_of_bytes_of.
Qed.

(** ** Numbers *)

Fixpoint number_run (st : numberState) (l : list Z) : option numberState :=
  match l with
  | [] => Some st
  | c :: rest => match number_step st c with inl st' => number_run st' rest | inr _ => None end
  end.

Definition number_start (c : Z) : option numberState :=
  if c =? 45 then Some NNeg else if c =? 48 then Some NZero
  else if is_digit_byte c then Some NInt else None.

(** The text of a number. *)
Definition number_text (text : string) : Prop :=
  exists c rest st st', bytes_of text = c :: rest /\ number_start c = Some st /\
    number_run st rest = Some st' /\ number_complete st' = true.

(** What may stand behind a number. *)
Definition ends_number (rest : list Z) : Prop :=
  match rest with
  | [] => True
  | c :: _ => is_digit_byte c = false /\ c <> 46 /\ c <> 101 /\ c <> 69
  end.

Lemma scan_number_run st raw stack l st' rest :
  number_run st l = Some st' ->
  scan (MNumber st raw) stack (l ++ rest) = scan (MNumber st' (rev l ++ raw)) stack rest.
Proof.
  revert st raw. induction l as [|c l IH]; intros st raw; cbn [number_run app rev].
  - by intros [= ->].
  - destruct (number_step st c) as [st1|] eqn:E; [|done]. intros Hrun.
    rewrite (scan_byte_step _ _ (MNumber st1 (c :: raw)) stack) by (cbn [step]; by rewrite E).
    rewrite (IH _ _ Hrun). by rewrite <-app_assoc.
Qed.

Lemma number_ends st c rest : number_complete st = true -> ends_number (c :: rest) -> number_step st c = inr true.
Proof.
  intros Hst (Hd & H1 & H2 & H3). unfold number_step. rewrite Hd.
  apply Z.eqb_neq in H1, H2, H3. rewrite H1, H2, H3. by destruct st.
Qed.

Lemma scan_number_end st raw stack rest :
  number_complete st = true -> ends_number rest ->
  scan (MNumber st raw) stack rest = resume (finish (XNumber (text_of raw)) stack) rest.
Proof.
  intros Hst Hend. destruct rest as [|c rest].
  - cbn [scan]. rewrite Hst. by destruct stack as [|[items|members [key|]] stack].
  - cbn [scan step]. rewrite (number_ends st c rest) by done.
    by destruct stack as [|[items|members [key|]] stack].
Qed.

Lemma is_digit_not_space c : is_digit_byte c = true -> is_space c = false /\ 48 <= c <= 57.
Proof. intros Hc%in_range_low. unfold is_space. lia. Qed.

Lemma number_start_begin c st b stack :
  number_start c = Some st -> step (MBegin b) stack c = Next (MNumber st [c]) stack.
Proof.
  unfold number_start. cbn [step]. unfold begin_value, is_space.
  destruct (Z.eqb_spec c 45) as [->|]; [intros [= <-]; by destruct b|].
  destruct (Z.eqb_spec c 48) as [->|]; [intros [= <-]; by destruct b|].
  destruct (is_digit_byte c) eqn:Hd; [|done]. intros [= <-]. apply is_digit_not_space in Hd as [_ Hd].
  destruct b; by byte_cases.
Qed.

Lemma scan_number b stack text rest :
  number_text text -> ends_number rest ->
  scan (MBegin b) stack (bytes_of text ++ rest) = resume (finish (XNumber text) stack) rest.
Proof.
  intros (c & l & st & st' & Hb & Hst & Hrun & Hc) Hend. rewrite Hb. cbn [app].
  rewrite (scan_byte_step _ _ _ _ _ _ (number_start_begin c st b stack Hst)), (scan_number_run _ _ _ _ _ _ Hrun).
  rewrite scan_number_end by done. unfold text_of. rewrite rev_app_distr, rev_involutive. cbn [rev app].
  by rewrite <-Hb, string_of_bytes_of.
Qed.

(** Decimal integers are such texts. *)
Definition all_digits (s : string) : Prop := Forall (fun c => is_digit_byte c = true) (bytes_of s).

Lemma digit_byte d : 0 <= d < 10 -> char_byte (digit d) = 48 + d.
Proof. intros Hd. unfold char_byte, digit. rewrite Ascii.nat_ascii_embedding by lia. lia. Qed.

Lemma digits_aux_shape fuel n acc :
  0 < n < 10 ^ Z.of_nat fuel -> all_digits acc ->
  exists d s, digits_aux fuel n acc = String (digit d) s /\ 1 <= d < 10 /\ all_digits s.
Proof.
  revert n acc. induction fuel as [|fuel IH]; intros n acc Hn Hacc; cbn [digits_aux].
  { change (10 ^ Z.of_nat 0) with 1 in Hn. lia. }
  pose proof (Z.mod_pos_bound n 10 ltac:(lia)) as Hmod. destruct (Z.ltb_spec n 10).
  - exists (n `mod` 10), acc. split_and!; [done|rewrite Z.mod_small; lia|lia|done].
  - apply IH.
    + rewrite Nat2Z.inj_succ, Z.pow_succ_r in Hn by lia. split; [apply Z.div_str_pos; lia|].
      apply Z.div_lt_upper_bound; lia.
    + constructor; [|done]. change (Z.of_nat (nat_of_ascii (digit (n `mod` 10)))) with (char_byte (digit (n `mod` 10))).
      rewrite digit_byte by done. unfold is_digit_byte, in_range. lia.
Qed.

Lemma number_run_digits l : Forall (fun c => is_digit_byte c = true) l -> number_run NInt l = Some NInt.
Proof. induction 1 as [|c l Hc _ IH]; cbn [number_run number_step]; [done|]. by rewrite Hc. Qed.

Lemma itoa_number n : 0 <= n -> number_text (itoa n).
Proof.
  intros Hn. unfold itoa. rewrite (proj2 (Z.ltb_ge n 0)) by lia. destruct (Z.eq_dec n 0) as [->|Hne].
  { exists 48, [], NZero, NZero. by split_and!. }
  unfold format_uint. destruct (digits_aux_shape (S (Z.to_nat (Z.log2 n))) n "") as (d & s & -> & Hd & Hs).
  - split; [lia|]. rewrite Nat2Z.inj_succ, Z2Nat.id by apply Z.log2_nonneg.
    apply Z.lt_le_trans with (2 ^ Z.succ (Z.log2 n)); [apply Z.log2_spec; lia|]. apply Z.pow_le_mono_l. lia.
  - constructor.
  - exists (48 + d), (bytes_of s), NInt, NInt. cbn [bytes_of].
    change (Z.of_nat (nat_of_ascii (digit d))) with (char_byte (digit d)). rewrite digit_byte by lia.
    split_and!; [done| |by apply number_run_digits|done].
    unfold number_start, is_digit_byte. by byte_cases.
Qed.

(** ** Values *)

Lemma json_nested_ind (P : jtext -> Prop) :
  P XNull -> (forall b, P (XBool b)) -> (forall text, P (XNumber text)) -> (forall text, P (XString text)) ->
  (forall items, Forall P items -> P (XArray items)) ->
  (forall members, Forall (fun m => P m.2) members -> P (XObject members)) -> forall j, P j.
Proof.
  intros Hn Hb Hnum Hs Ha Ho. fix IH 1. intros [|b|text|text|items|members]; [done|apply Hb|apply Hnum|apply Hs|..].
  - apply Ha. induction items; constructor; [apply IH|done].
  - apply Ho. induction members as [|[k v] members]; constructor; [apply IH|done].
Qed.

(** Values that can be written: texts in UTF-8, numbers as JSON has them. *)
Fixpoint printable (j : jtext) : Prop :=
  match j with
  | XNull | XBool _ => True
  | XNumber text => number_text text
  | XString s => utf8_text s
  | XArray items => (fix all l := match l with [] => True | i :: r => printable i /\ all r end) items
  | XObject members =>
      (fix all l := match l with [] => True | m :: r => (utf8_text m.1 /\ printable m.2) /\ all r end) members
  end.

Fixpoint depth (j : jtext) : Z :=
  match j with
  | XArray items => 1 + (fix deepest l := match l with [] => 0 | i :: r => Z.max (depth i) (deepest r) end) items
  | XObject members =>
      1 + (fix deepest l := match l with [] => 0 | m :: r => Z.max (depth m.2) (deepest r) end) members
  | _ => 0
  end.

(** Only a number needs to be told apart from what follows it. *)
Definition set_off (j : jtext) (rest : list Z) : Prop :=
  match j with XNumber _ => ends_number rest | _ => True end.

Lemma ends_set_off j rest : ends_number rest -> set_off j rest.
Proof. by destruct j. Qed.

(** Reading a written value in any context. *)
Definition reads (j : jtext) : Prop := forall b stack rest,
  printable j -> len stack + depth j <= maxNestingDepth -> set_off j rest ->
  scan (MBegin b) stack (print_json j ++ rest) = resume (finish j stack) rest.

Lemma push_ok f m stack : len stack + 1 <= maxNestingDepth -> push f m stack = Next m (f :: stack).
Proof. intros Hd. unfold push. rewrite len_cons. by rewrite (proj2 (Z.leb_le _ _)) by lia. Qed.

Lemma ends_comma c rest : c = 44 \/ c = 93 \/ c = 125 -> ends_number (c :: rest).
Proof. intros [-> | [-> | ->]]; by split_and!. Qed.

Lemma depth_nonneg j : 0 <= depth j.
Proof.
  induction j as [| | | |items IH|members IH] using json_nested_ind; cbn [depth]; try lia.
  - induction IH as [|i l Hi Hl IHl]; lia.
  - induction IH as [|i l Hi Hl IHl]; lia.
Qed.

Lemma reads_items items acc b stack rest :
  Forall reads items -> items <> [] -> printable (XArray items) -> len stack + depth (XArray items) <= maxNestingDepth ->
  scan (MBegin b) (FArray acc :: stack) (joined print_json items ++ 93 :: rest) =
    resume (finish (XArray (rev acc ++ items)) stack) rest.
Proof.
  intros Hr. revert acc b. induction Hr as [|i items Hi Hr IH]; intros acc b Hne Hp Hd; [done|].
  cbn [printable] in Hp. destruct Hp as [Hpi Hp]. cbn [depth] in Hd.
  assert (Hdi : len (FArray acc :: stack) + depth i <= maxNestingDepth) by (rewrite len_cons; lia).
  destruct items as [|i2 items].
  - cbn [joined]. rewrite Hi by (done || apply ends_set_off, ends_comma; auto). cbn [finish resume].
    rewrite (finish_resume (XArray (rev (i :: acc))) stack) by done. by cbn [rev].
  - change (joined print_json (i :: i2 :: items)) with (print_json i ++ 44 :: joined print_json (i2 :: items)).
    rewrite <-app_assoc. cbn [app]. rewrite Hi by (done || apply ends_set_off, ends_comma; auto). cbn [finish resume].
    rewrite (scan_byte_step _ _ (MBegin false) (FArray (i :: acc) :: stack)) by done.
    rewrite IH; [|done|exact Hp|cbn [depth]; lia]. cbn [rev]. by rewrite <-app_assoc.
Qed.

Definition print_member (m : string * jtext) : list Z := let '(key, value) := m in quote key ++ 58 :: print_json value.

Lemma scan_member key value acc b stack rest :
  utf8_text key -> printable value -> reads value -> len stack + 1 + depth value <= maxNestingDepth -> ends_number rest ->
  scan (MKey b) (FObject acc None :: stack) (print_member (key, value) ++ rest) =
    scan MEnd (FObject ((key, value) :: acc) None :: stack) rest.
Proof.
  intros Hk Hp Hr Hd He. cbn [print_member]. rewrite <-app_assoc. cbn [app].
  rewrite scan_quote by (done || by destruct b). cbn [finish resume].
  rewrite (scan_byte_step _ _ (MBegin false) (FObject acc (Some key) :: stack)) by done.
  rewrite Hr; [done|done|rewrite len_cons; lia|by apply ends_set_off].
Qed.

Lemma reads_members members acc b stack rest :
  Forall (fun m => reads m.2) members -> members <> [] -> printable (XObject members) ->
  len stack + depth (XObject members) <= maxNestingDepth ->
  scan (MKey b) (FObject acc None :: stack) (joined print_member members ++ 125 :: rest) =
    resume (finish (XObject (rev acc ++ members)) stack) rest.
Proof.
  intros Hr. revert acc b. induction Hr as [|[key value] members Hi Hr IH]; intros acc b Hne Hp Hd; [done|].
  cbn [printable fst snd] in Hp, Hi. destruct Hp as [[Hk Hpv] Hp]. cbn [depth snd] in Hd.
  destruct members as [|m2 members].
  - cbn [joined]. rewrite scan_member by (done || lia || apply ends_comma; auto).
    rewrite (finish_resume (XObject (rev ((key, value) :: acc))) stack) by done. by cbn [rev].
  - change (joined print_member ((key, value) :: m2 :: members))
      with (print_member (key, value) ++ 44 :: joined print_member (m2 :: members)).
    rewrite <-app_assoc. cbn [app]. rewrite scan_member by (done || lia || apply ends_comma; auto).
    rewrite (scan_byte_step _ _ (MKey false) (FObject ((key, value) :: acc) None :: stack)) by done.
    rewrite IH; [|done|exact Hp|cbn [depth]; lia]. cbn [rev]. by rewrite <-app_assoc.
Qed.

Lemma print_object members : print_json (XObject members) = 123 :: joined print_member members ++ [125].
Proof. reflexivity. Qed.

Lemma scan_literal b stack c word value rest :
  step (MBegin b) stack c = Next (MLiteral word value) stack -> word <> [] ->
  scan (MBegin b) stack ((c :: word) ++ rest) = resume (finish value stack) rest.
Proof.
  intros Hs Hw. cbn [app]. rewrite (scan_byte_step _ _ _ _ _ _ Hs). clear Hs.
  induction word as [|w word IH]; [done|]. destruct word as [|w2 word].
  - apply finish_resume. cbn [step]. by rewrite Z.eqb_refl.
  - cbn [app]. rewrite (scan_byte_step _ _ (MLiteral (w2 :: word) value) stack); [by apply IH|].
    cbn [step]. by rewrite Z.eqb_refl.
Qed.

Lemma printed_reads j : reads j.
Proof.
  induction j as [|b|text|text|items IH|members IH] using json_nested_ind; intros b' stack rest Hp Hd He;
    cbn [printable] in Hp.
  - apply (scan_literal _ _ 110 (bytes_of "ull")); [by destruct b'|done].
  - destruct b; [apply (scan_literal _ _ 116 (bytes_of "rue"))|apply (scan_literal _ _ 102 (bytes_of "alse"))];
      (done || by destruct b').
  - by apply scan_number.
  - apply scan_quote; [done|by destruct b'].
  - pose proof (depth_nonneg (XArray items)). cbn [print_json app].
    assert (Hd1 : len stack + 1 <= maxNestingDepth).
    { destruct items as [|i items]; cbn [depth] in Hd; [lia|]. pose proof (depth_nonneg i). lia. }
    rewrite (scan_byte_step _ _ (MBegin true) (FArray [] :: stack))
      by (destruct b'; cbn [step andb]; unfold begin_value; cbn; by apply push_ok).
    rewrite <-app_assoc. cbn [app]. destruct items as [|i items]; [by apply finish_resume|].
    by apply (reads_items (i :: items) []).
  - rewrite print_object. cbn [app].
    assert (Hd1 : len stack + 1 <= maxNestingDepth).
    { destruct members as [|m members]; cbn [depth] in Hd; [lia|]. pose proof (depth_nonneg m.2). lia. }
    rewrite (scan_byte_step _ _ (MKey true) (FObject [] None :: stack))
      by (destruct b'; cbn [step andb]; unfold begin_value; cbn; by apply push_ok).
    rewrite <-app_assoc. cbn [app]. destruct members as [|m members]; [by apply finish_resume|].
    by apply (reads_members (m :: members) []).
Qed.

(** A written value is the next one, and the rest follows it. *)
Lemma next_printed j rest :
  printable j -> depth j <= maxNestingDepth -> set_off j rest -> next_value (print_json j ++ rest) = ScanValue j rest.
Proof. intros Hp Hd He. unfold next_value. by rewrite printed_reads. Qed.

Lemma scan_spaces l : forallb is_space l = true -> next_value l = ScanEOF.
Proof.
  unfold next_value. induction l as [|c l IH]; cbn [forallb]; [done|].
  intros [Hc Hl]%andb_true_iff. rewrite (scan_byte_step _ _ (MBegin false) []); [by apply IH|].
  cbn [step]. by rewrite Hc.
Qed.

(** Inside a value. *)
Definition busy (m : mode) (stack : list frame) : Prop :=
  match m with MBegin _ | MKey _ | MColon | MEnd => stack <> [] | _ => True end.

Lemma finish_busy value stack m' stack' : finish value stack = Next m' stack' -> busy m' stack'.
Proof.
  unfold finish. destruct stack as [|[items|members [key|]] stack]; [done|by intros [= <- <-]..|].
  destruct value; try done. by intros [= <- <-].
Qed.

Lemma end_busy c stack m' stack' : stack <> [] -> end_value c stack = Next m' stack' -> busy m' stack'.
Proof.
  unfold end_value. intros Hne. destruct (is_space c); [by intros [= <- <-]|].
  destruct stack as [|[items|members [key|]] stack]; try done.
  - destruct (c =? 44); [by intros [= <- <-]|]. destruct (c =? 93); [apply finish_busy|done].
  - destruct (c =? 44); [by intros [= <- <-]|]. destruct (c =? 125); [apply finish_busy|done].
Qed.

Lemma begin_busy c stack m' stack' : begin_value c stack = Next m' stack' -> busy m' stack'.
Proof.
  unfold begin_value, push. repeat case_match; try done; by intros [= <- <-].
Qed.

Lemma step_busy m stack c m' stack' : busy m stack -> step m stack c = Next m' stack' -> busy m' stack'.
Proof.
  destruct m as [b|b|raw|raw|digits raw|st raw|word value| |]; cbn [step]; intros Hb.
  - destruct (is_space c); [by intros [= <- <-]|]. destruct (b && _); [|apply begin_busy].
    destruct stack as [|[]]; [done|apply finish_busy|done].
  - destruct (is_space c); [by intros [= <- <-]|]. destruct (b && _).
    + destruct stack as [|[]]; [done|done|apply finish_busy].
    + by destruct (c =? 34); [intros [= <- <-]|].
  - destruct (c =? 34); [apply finish_busy|]. destruct (c =? 92); [by intros [= <- <-]|].
    by destruct (c <? 32); [|intros [= <- <-]].
  - destruct (escapable c); [by intros [= <- <-]|]. by destruct (c =? 117); [intros [= <- <-]|].
  - destruct (hex_value c); [|done]. by destruct digits as [|[|digits]]; intros [= <- <-].
  - destruct (number_step st c) as [st'|[]]; [by intros [= <- <-]| |done].
    destruct stack as [|f stack]; [done|]. destruct (finish _ _) as [[] stack1| | |] eqn:Hf; try done.
    apply end_busy. by apply finish_busy in Hf.
  - destruct word as [|w [|w2 word]]; [done|..]; (destruct (negb _); [done|]); [apply finish_busy|by intros [= <- <-]].
  - destruct (is_space c); [by intros [= <- <-]|]. by destruct (c =? 58); [intros [= <- <-]|].
  - by apply end_busy.
Qed.

Lemma busy_not_eof l m stack : busy m stack -> scan m stack l <> ScanEOF.
Proof.
  revert m stack. induction l as [|c l IH]; intros m stack Hb; cbn [scan].
  - destruct m, stack; try done. by case_match.
  - destruct (step m stack c) as [m' stack'| | |] eqn:Hs; [|done..]. apply IH. by eapply step_busy.
Qed.

(** Input with a byte that is no space is not at its end. *)
Lemma scan_not_eof l : forallb is_space l = false -> next_value l <> ScanEOF.
Proof.
  unfold next_value. induction l as [|c l IH]; cbn [forallb]; [done|].
  destruct (is_space c) eqn:Hc; cbn [andb].
  { intros Hl. rewrite (scan_byte_step _ _ (MBegin false) []); [by apply IH|]. cbn [step]. by rewrite Hc. }
  intros _. cbn [scan step]. rewrite Hc. cbn [andb].
  destruct (begin_value c []) as [m' stack'| | |] eqn:Hs; [|done..]. by apply busy_not_eof, (begin_busy c []).
Qed.
