(* ===== verification/Monitor.v ===== *)
(** * Service metrics (internal/monitor/metrics.go)

    The counters and flags the components report to, and the text they are
    served as.  Each field is an atomic of the source, so each operation is one
    step. *)

From stdpp Require Import prelude strings list.
From Stdlib Require Import ZArith Lia SpecFloat Ascii String.
From S2P Require Import Prelude GoFloat GoText.

#[local] Open Scope string_scope.
#[local] Open Scope list_scope.
#[local] Open Scope Z_scope.

Record Metrics := mkMetrics {
  mtStartedAt : Z;
  mtConnected : bool;
  mtOutboxHealthy : bool;
  mtLastInput : Z;
  mtSeed : Z;
  mtClosed : Z;
  mtForming : Z;
  mtReconnects : Z;
  mtInputErrors : Z;
  mtOutboxErrors : Z
}.

(** [now] is [time.Now()]. *)
Definition NewMetrics (now : Z) : Metrics := mkMetrics now false false 0 0 0 0 0 0 0.

Definition SetConnected (m : Metrics) (value : bool) : Metrics :=
  mkMetrics (mtStartedAt m) value (mtOutboxHealthy m) (mtLastInput m) (mtSeed m) (mtClosed m) (mtForming m)
    (mtReconnects m) (mtInputErrors m) (mtOutboxErrors m).

Definition Connected (m : Metrics) : bool := mtConnected m.

Definition SetOutboxHealthy (m : Metrics) (value : bool) : Metrics :=
  mkMetrics (mtStartedAt m) (mtConnected m) value (mtLastInput m) (mtSeed m) (mtClosed m) (mtForming m)
    (mtReconnects m) (mtInputErrors m) (mtOutboxErrors m).

Definition OutboxHealthy (m : Metrics) : bool := mtOutboxHealthy m.

Definition RecordOutboxError (m : Metrics) : Metrics :=
  mkMetrics (mtStartedAt m) (mtConnected m) (mtOutboxHealthy m) (mtLastInput m) (mtSeed m) (mtClosed m)
    (mtForming m) (mtReconnects m) (mtInputErrors m) (wrap_u64 (mtOutboxErrors m + 1)).

Definition RecordInput (m : Metrics) (now : Z) (kind : string) : Metrics :=
  mkMetrics (mtStartedAt m) (mtConnected m) (mtOutboxHealthy m) (unix_nano now)
    (if (kind =? "seed")%string then wrap_u64 (mtSeed m + 1) else mtSeed m)
    (if (kind =? "closed")%string then wrap_u64 (mtClosed m + 1) else mtClosed m)
    (if (kind =? "forming")%string then wrap_u64 (mtForming m + 1) else mtForming m)
    (mtReconnects m) (mtInputErrors m) (mtOutboxErrors m).

Definition RecordReconnect (m : Metrics) : Metrics :=
  mkMetrics (mtStartedAt m) (mtConnected m) (mtOutboxHealthy m) (mtLastInput m) (mtSeed m) (mtClosed m)
    (mtForming m) (wrap_u64 (mtReconnects m + 1)) (mtInputErrors m) (mtOutboxErrors m).

Definition RecordInputError (m : Metrics) : Metrics :=
  mkMetrics (mtStartedAt m) (mtConnected m) (mtOutboxHealthy m) (mtLastInput m) (mtSeed m) (mtClosed m)
    (mtForming m) (mtReconnects m) (wrap_u64 (mtInputErrors m + 1)) (mtOutboxErrors m).

(** ** The Prometheus text *)

(** The verb [%.<prec>f]: the exact value rounded half to even. *)
Definition format_fixed (prec : nat) (x : float64) : string :=
  let body (q : Z) :=
    format_uint (q / pow10 (Z.of_nat prec)) +:+
    match prec with O => "" | _ => "." +:+ pad prec (format_uint (q `mod` pow10 (Z.of_nat prec))) end in
  match x with
  | S754_nan => "NaN"
  | S754_infinity s => if s then "-Inf" else "+Inf"
  | S754_zero s => (if s then "-" else "") +:+ body 0
  | S754_finite s m e =>
      let '(num, den) := float_ratio m e in (if s then "-" else "") +:+ body (round_digits num den 0 (Z.of_nat prec))
  end.

Example format_fixed_millis : format_fixed 3 (lit 12345678 10000) = "1234.568".
Proof. vm_compute. reflexivity. Qed.
Example format_fixed_zero : format_fixed 6 f0 = "0.000000".
Proof. vm_compute. reflexivity. Qed.

(** [Duration.Seconds] *)
Definition duration_seconds (d : Z) : float64 :=
  (of_int (Z.quot d second) + of_int (Z.rem d second) / of_int 1000000000)%F.

Definition newline : string := String "010" "".
Definition quoted (s : string) : string := String "034" s +:+ String "034" "".

Definition gauge (name value : string) : string :=
  "# TYPE " +:+ name +:+ " gauge" +:+ newline +:+ name +:+ " " +:+ value +:+ newline.
Definition counter (name value : string) : string :=
  "# TYPE " +:+ name +:+ " counter" +:+ newline +:+ name +:+ " " +:+ value +:+ newline.
Definition bit (b : bool) : string := if b then "1" else "0".
Definition input_messages (kind : string) (n : Z) : string :=
  "signald_input_messages_total{type=" +:+ quoted kind +:+ "} " +:+ format_uint n +:+ newline.

Definition WritePrometheus (m : Metrics) (now : Z) (ready : bool) (laneCount readyLaneCount : Z) : string :=
  gauge "signald_up" "1" +:+
  gauge "signald_ready" (bit ready) +:+
  gauge "signald_upstream_connected" (bit (Connected m)) +:+
  gauge "signald_outbox_healthy" (bit (OutboxHealthy m)) +:+
  gauge "signald_uptime_seconds" (format_fixed 3 (duration_seconds (now - mtStartedAt m))) +:+
  gauge "signald_last_input_timestamp_seconds"
    (format_fixed 6 (of_int (mtLastInput m) / of_int 1000000000)%F) +:+
  "# TYPE signald_input_messages_total counter" +:+ newline +:+
  input_messages "seed" (mtSeed m) +:+ input_messages "closed" (mtClosed m) +:+
  input_messages "forming" (mtForming m) +:+
  counter "signald_upstream_reconnects_total" (format_uint (mtReconnects m)) +:+
  counter "signald_input_errors_total" (format_uint (mtInputErrors m)) +:+
  counter "signald_outbox_errors_total" (format_uint (mtOutboxErrors m)) +:+
  gauge "signald_lanes" (itoa laneCount) +:+
  gauge "signald_ready_lanes" (itoa readyLaneCount).
