(* ===== verification/Model.v ===== *)
(** * Data model (internal/model)

    The records the components exchange, field by field, and
    [TimeframeDuration].  Instants are nanoseconds since the Unix epoch
    (GoText), so [t.UTC()] is the identity; pointers that may be nil are
    [option]s.  A reducer snapshot's [State] is JSON text in the code; it is
    represented by the JSON value it denotes. *)

From stdpp Require Import prelude strings.
From Stdlib Require Import ZArith Lia SpecFloat Ascii String.
From S2P Require Import Prelude GoFloat GoText.

#[local] Open Scope string_scope.
#[local] Open Scope list_scope.
#[local] Open Scope Z_scope.

(** ** bar.go *)

Record Bar := mkBar {
  bSymbol : string;
  bTimeframe : string;
  bOpenTime : Z;
  bOpen : float64;
  bHigh : float64;
  bLow : float64;
  bClose : float64;
  bVolume : float64;
  bTrades : Z;
  bClosed : bool
}.

Record SeriesKey := mkKey {
  kDataset : string;
  kSymbol : string;
  kTimeframe : string
}.

(** [SeriesKey.String] *)
Definition SeriesKey_String (k : SeriesKey) : string :=
  kDataset k +:+ "|" +:+ kSymbol k +:+ "|" +:+ kTimeframe k.

(** ** market.go *)

Record AlgorithmRef := mkAlgorithm {
  aName : string;
  aVersion : string;
  aConfigHash : string
}.

Record PriceZone := mkZone {
  zID : string;
  zKind : string;
  zSide : string;
  zGrade : string;
  zFromTime : Z;
  zToTime : Z;
  zTop : float64;
  zBottom : float64;
  zState : string
}.

Record ZoneTransition := mkTransition {
  ztZone : PriceZone;
  ztTransition : string;
  ztAt : Z
}.

Record Swing := mkSwing {
  swType : string;
  swLabel : string;
  swPrice : float64;
  swTime : Z;
  swConfirmTime : Z
}.

Record StructureEvent := mkStructure {
  seKind : string;
  seSide : string;
  sePrice : float64;
  seTime : Z;
  seZone : option PriceZone
}.

Record PriceLevel := mkLevel {
  plKind : string;
  plSide : string;
  plPrice : float64;
  plTouches : Z
}.

Record PatternEvent := mkPattern {
  peKind : string;
  peSide : string;
  peTime : Z
}.

Record PremiumDiscount := mkPremium {
  pdFromTime : Z;
  pdToTime : Z;
  pdTrend : string;
  pdHigh : float64;
  pdLow : float64;
  pdEquilibrium : float64;
  pdPOITop : float64;
  pdPOIBottom : float64
}.

Record MarketState := mkMarketState {
  msSchema : string;
  msAlgorithm : AlgorithmRef;
  msAsOf : Z;
  msTrend : string;
  msSwings : list Swing;
  msStructure : list StructureEvent;
  msRanges : list PriceZone;
  msKeyLevels : list PriceLevel;
  msFVGs : list PriceZone;
  msOrderBlocks : list PriceZone;
  msLiquidity : list PriceLevel;
  msLiquiditySweeps : list PatternEvent;
  msPatterns : list PatternEvent;
  msPatternOccurrences : list PatternEvent;
  msZoneTransitions : list ZoneTransition;
  msPremiumDiscount : option PremiumDiscount
}.

(** [state.PatternOccurrences, state.ZoneTransitions = occ, trans] *)
Definition set_occurrences (s : MarketState) (occ : list PatternEvent)
    (trans : list ZoneTransition) : MarketState :=
  mkMarketState (msSchema s) (msAlgorithm s) (msAsOf s) (msTrend s) (msSwings s)
    (msStructure s) (msRanges s) (msKeyLevels s) (msFVGs s) (msOrderBlocks s)
    (msLiquidity s) (msLiquiditySweeps s) (msPatterns s) occ trans (msPremiumDiscount s).

(** The zero value [model.MarketState{}]. *)
Definition zero_market_state : MarketState :=
  mkMarketState "" (mkAlgorithm "" "" "") zero_time "" [] [] [] [] [] [] [] [] [] [] [] None.

(** ** signal.go *)

Record IndicatorPayload := mkPayload {
  ipPeriod : Z;
  ipValue : float64;
  ipSamples : Z;
  ipReady : bool
}.

Record IndicatorState := mkIndicator {
  isAlgorithm : AlgorithmRef;
  isPeriod : Z;
  isValue : option float64;
  isSamples : Z;
  isReady : bool;
  isAnalysisRevision : Z
}.

Record SignalEvent := mkEvent {
  evSchema : string;
  evCursor : Z;
  evEventID : string;
  evEventType : string;
  evDataset : string;
  evSymbol : string;
  evTimeframe : string;
  evBarOpenTime : Z;
  evSourceBar : option Bar;
  evBarRevision : Z;
  evAnalysisRevision : Z;
  evProvisional : bool;
  evReset : bool;
  evResetHistory : list Bar;
  evAlgorithm : AlgorithmRef;
  evIndicator : option IndicatorPayload;
  evMarket : option MarketState;
  evIndicators : list IndicatorState
}.

(** [event.Cursor = c] *)
Definition set_cursor (e : SignalEvent) (c : Z) : SignalEvent :=
  mkEvent (evSchema e) c (evEventID e) (evEventType e) (evDataset e) (evSymbol e)
    (evTimeframe e) (evBarOpenTime e) (evSourceBar e) (evBarRevision e) (evAnalysisRevision e)
    (evProvisional e) (evReset e) (evResetHistory e) (evAlgorithm e) (evIndicator e)
    (evMarket e) (evIndicators e).

(** ** JSON values

    [encoding/json] prints a finite float with the shortest digits that read
    back as the same float and an instant in RFC 3339 with nanoseconds, so
    leaves are carried as the values they denote. *)
Inductive json :=
  | JBool (b : bool)
  | JInt (z : Z)
  | JFloat (f : float64)
  | JString (s : string)
  | JTime (t : Z)
  | JArray (l : list json)
  | JObject (fields : list (string * json)).

Record ReducerSnapshot := mkSnapshot {
  rsAlgorithm : AlgorithmRef;
  rsPeriod : Z;
  rsLastOpenTime : Z;
  rsState : json
}.

Record SeriesRecovery := mkRecovery {
  srSnapshots : list ReducerSnapshot;
  srCursorOpenTime : Z;
  srCursorHash : string;
  srHasCursor : bool
}.

Record SeriesSnapshot := mkSeriesSnapshot {
  ssSchema : string;
  ssSeries : SeriesKey;
  ssLastClosedTime : option Z;
  ssLastClosedBar : option Bar;
  ssLastClosedRevision : Z;
  ssFormingOpenTime : option Z;
  ssFormingBar : option Bar;
  ssFormingRevision : Z;
  ssReady : bool;
  ssIndicators : list IndicatorState;
  ssProvisional : list IndicatorState;
  ssMarket : option MarketState
}.

(** ** timeframe.go *)

Fixpoint string_init (s : string) : string :=
  match s with
  | "" => ""
  | String _ "" => ""
  | String c s' => String c (string_init s')
  end.
Fixpoint string_last (s : string) : option ascii :=
  match s with
  | "" => None
  | String c "" => Some c
  | String _ s' => string_last s'
  end.

(** [TimeframeDuration]; [None] is the "invalid timeframe" error.  The final
    product is computed in the 64-bit [time.Duration]. *)
Definition TimeframeDuration (value : string) : option Z :=
  if (value =? "1d")%string then Some (24 * hour)
  else if (value =? "1w")%string then Some (7 * 24 * hour)
  else if (String.length value <? 2)%nat then None
  else
    amount ← atoi (string_init value);
    if amount <=? 0 then None
    else
      unit ← match string_last value with
             | Some "s"%char => Some second
             | Some "m"%char => Some minute
             | Some "h"%char => Some hour
             | _ => None
             end;
      Some (wrap_i64 (amount * unit)).

#[global] Instance algorithm_eq_dec : EqDecision AlgorithmRef.
Proof. solve_decision. Defined.
#[global] Instance key_eq_dec : EqDecision SeriesKey.
Proof. solve_decision. Defined.
#[global] Instance bar_eq_dec : EqDecision Bar.
Proof. solve_decision. Defined.
