(* ===== verification/Ema.v ===== *)
(** * The EMA reducer (internal/indicator/ema.go)

    State, operations and snapshots of one exponential moving average, the
    reference definition it is compared with, and the round trip through a
    snapshot. *)

From stdpp Require Import prelude strings list.
From Stdlib Require Import ZArith Lia SpecFloat String.
From S2P Require Import Prelude GoFloat GoText Model.

#[local] Open Scope string_scope.
#[local] Open Scope list_scope.
#[local] Open Scope Z_scope.

Definition EMAAlgorithmVersion : string := "1.0.0".

Record EMA := mkEMA {
  emaPeriod : Z;
  emaSamples : Z;
  emaSeedSum : float64;
  emaValue : float64
}.

Record EMASnapshot := mkEMASnapshot {
  esPeriod : Z;
  esSamples : Z;
  esSeedSum : float64;
  esValue : float64
}.

Inductive EMAError :=
  | EMAPeriodNotPositive
  | EMACloseNotFinite
  | EMAEncode
  | EMADecode
  | EMAPeriodMismatch
  | EMAValueBeforeReady
  | EMASnapshotNotFinite.

(** ** Operations *)

Definition NewEMA (period : Z) : outcome EMAError EMA :=
  if period <? 1 then Fail EMAPeriodNotPositive
  else Ok (mkEMA period 0 f0 f0).

Definition EMA_Samples (e : EMA) : Z := emaSamples e.

Definition EMA_Ready (e : EMA) : bool := wrap_u64 (emaPeriod e) <=? emaSamples e.

Definition EMA_Value (e : EMA) : float64 * bool := (emaValue e, EMA_Ready e).

(** [EMA_OnClosed] updates the receiver and returns the value and readiness; the
    error is raised before anything changes. *)
Definition EMA_OnClosed (e : EMA) (close : float64) : EMA * outcome EMAError (float64 * bool) :=
  if is_nan close || is_inf close then (e, Fail EMACloseNotFinite)
  else
    let samples := wrap_u64 (emaSamples e + 1) in
    let period := wrap_u64 (emaPeriod e) in
    if samples <=? period then
      let seedSum := (emaSeedSum e + close)%F in
      if samples =? period then
        let value := (seedSum / of_int (emaPeriod e))%F in
        (mkEMA (emaPeriod e) samples seedSum value, Ok (value, true))
      else (mkEMA (emaPeriod e) samples seedSum (emaValue e), Ok (f0, false))
    else
      let multiplier := (of_int 2 / of_int (wrap_i64 (emaPeriod e + 1)))%F in
      let value := (close * multiplier + emaValue e * (of_int 1 - multiplier))%F in
      (mkEMA (emaPeriod e) samples (emaSeedSum e) value, Ok (value, true)).

(** [EMA_Project] runs [EMA_OnClosed] on a copy. *)
Definition EMA_Project (e : EMA) (close : float64) : outcome EMAError (float64 * bool) :=
  snd (EMA_OnClosed e close).

(** ** Snapshots *)

(** A float field: [encoding/json] refuses NaN and infinities. *)
Definition marshal_float (f : float64) : option json :=
  if is_finite f then Some (JFloat f) else None.

Fixpoint jfield (name : string) (fields : list (string * json)) : option json :=
  match fields with
  | [] => None
  | (k, v) :: rest => if (k =? name)%string then Some v else jfield name rest
  end.

(** Fields of an object being decoded: an absent field keeps the zero value, a
    value of another JSON type or out of the field's range is an error. *)
Definition decode_int (lo hi : Z) (name : string) (fields : list (string * json)) : option Z :=
  match jfield name fields with
  | None => Some 0
  | Some (JInt z) => if (lo <=? z) && (z <=? hi) then Some z else None
  | Some _ => None
  end.
Definition decode_i64 := decode_int (- 2 ^ 63) (2 ^ 63 - 1).
Definition decode_u64 := decode_int 0 (2 ^ 64 - 1).
Definition decode_float (name : string) (fields : list (string * json)) : option float64 :=
  match jfield name fields with
  | None => Some f0
  | Some (JFloat f) => Some f
  | Some (JInt z) => Some (of_int z)
  | Some _ => None
  end.

Definition marshal_EMASnapshot (s : EMASnapshot) : option json :=
  sum ← marshal_float (esSeedSum s);
  value ← marshal_float (esValue s);
  Some (JObject [("period", JInt (esPeriod s)); ("samples", JInt (esSamples s));
                 ("seed_sum", sum); ("value", value)]).

Definition unmarshal_EMASnapshot (data : json) : option EMASnapshot :=
  match data with
  | JObject fields =>
      period ← decode_i64 "period" fields;
      samples ← decode_u64 "samples" fields;
      sum ← decode_float "seed_sum" fields;
      value ← decode_float "value" fields;
      Some (mkEMASnapshot period samples sum value)
  | _ => None
  end.

Definition EMA_Snapshot (e : EMA) : outcome EMAError json :=
  match marshal_EMASnapshot
          (mkEMASnapshot (emaPeriod e) (emaSamples e) (emaSeedSum e) (emaValue e)) with
  | Some j => Ok j
  | None => Fail EMAEncode
  end.

Definition EMA_Restore (e : EMA) (data : json) : outcome EMAError EMA :=
  match unmarshal_EMASnapshot data with
  | None => Fail EMADecode
  | Some s =>
      if negb (esPeriod s =? emaPeriod e) then Fail EMAPeriodMismatch
      else if (esSamples s <? wrap_u64 (emaPeriod e)) && fne (esValue s) f0
      then Fail EMAValueBeforeReady
      else if negb (is_finite (esSeedSum s)) || negb (is_finite (esValue s))
      then Fail EMASnapshotNotFinite
      else Ok (mkEMA (emaPeriod e) (esSamples s) (esSeedSum s) (esValue s))
  end.

(** ** Reference definition

    The average of the first [period] closes, then the usual recursion. *)
Definition ema_step (period : Z) (value close : float64) : float64 :=
  let k := (of_int 2 / of_int (period + 1))%F in
  (close * k + value * (of_int 1 - k))%F.

Definition ema_reference (period : Z) (closes : list float64) : option float64 :=
  if len closes <? period then None
  else
    let seed := (foldl fadd f0 (take (Z.to_nat period) closes) / of_int period)%F in
    Some (foldl (ema_step period) seed (drop (Z.to_nat period) closes)).

(** A run of the reducer over closes, with the last result. *)
Definition run_closes (e : EMA) (closes : list float64) : EMA :=
  foldl (fun e c => fst (EMA_OnClosed e c)) e closes.

(** What a reducer with a given period looks like after [closes]. *)
Definition ema_after (period : Z) (closes : list float64) : EMA :=
  mkEMA period (len closes)
    (foldl fadd f0 (take (Z.to_nat period) closes))
    (default f0 (ema_reference period closes)).

(** The periods a reducer is built with: positive [int]s short of the last. *)
Definition valid_period (period : Z) : Prop := 1 <= period < 2 ^ 63 - 1.

Definition new_ema (period : Z) : EMA := mkEMA period 0 f0 f0.

(** The invariant of a reducer: its counters are in range and its value is a
    zero until the seed is complete. *)
Record ema_wf (e : EMA) : Prop := {
  wf_period : valid_period (emaPeriod e);
  wf_samples : 0 <= emaSamples e < 2 ^ 64;
  wf_value : emaSamples e < emaPeriod e -> feq (emaValue e) f0 = true
}.

(** ** Lemmas *)

Lemma wrap_u64_id z : 0 <= z < 2 ^ 64 -> wrap_u64 z = z.
Proof. intros. unfold wrap_u64. by apply Z.mod_small. Qed.

Lemma wrap_i64_id z : - 2 ^ 63 <= z < 2 ^ 63 -> wrap_i64 z = z.
Proof. intros. unfold wrap_i64. rewrite Z.mod_small; lia. Qed.

Lemma wrap_u64_range z : 0 <= wrap_u64 z < 2 ^ 64.
Proof. unfold wrap_u64. apply Z.mod_pos_bound. lia. Qed.

Lemma ema_reference_None period closes :
  len closes < period -> ema_reference period closes = None.
Proof. intros. unfold ema_reference. by rewrite (proj2 (Z.ltb_lt _ _)). Qed.

Lemma ema_reference_seed period closes :
  1 <= period -> len closes = period ->
  ema_reference period closes = Some (foldl fadd f0 closes / of_int period)%F.
Proof.
  intros ? Hl. unfold ema_reference. rewrite (proj2 (Z.ltb_ge _ _)) by lia.
  unfold len in Hl. rewrite take_ge, drop_ge by lia. done.
Qed.

Lemma ema_reference_snoc period closes c v :
  1 <= period -> ema_reference period closes = Some v ->
  ema_reference period (closes ++ [c]) = Some (ema_step period v c).
Proof.
  unfold ema_reference. intros Hp. pose proof (len_nonneg closes) as Hl. rewrite len_snoc.
  destruct (Z.ltb_spec (len closes) period) as [|Hge]; [done|]. intros [= <-].
  rewrite (proj2 (Z.ltb_ge _ _)) by lia. unfold len in Hge.
  rewrite take_app_le, drop_app_le, foldl_app by lia. done.
Qed.

(** One step from the state after [closes] is the state after one more. *)
Lemma EMA_OnClosed_after period closes c :
  valid_period period -> len closes < 2 ^ 64 - 1 -> is_finite c = true ->
  fst (EMA_OnClosed (ema_after period closes) c) = ema_after period (closes ++ [c]) /\
  snd (EMA_OnClosed (ema_after period closes) c) =
    Ok (default f0 (ema_reference period (closes ++ [c])), period <=? len closes + 1).
Proof.
  intros [Hp1 Hp2] Hl Hc. pose proof (len_nonneg closes).
  assert (Hfin : is_nan c || is_inf c = false) by (by destruct c).
  unfold EMA_OnClosed, ema_after. rewrite Hfin. cbn [emaPeriod emaSamples emaSeedSum emaValue].
  rewrite !len_snoc, (wrap_u64_id (len closes + 1)), (wrap_u64_id period) by lia.
  destruct (Z.leb_spec (len closes + 1) period) as [Hle|Hgt].
  - assert (Htake : forall k : list float64, len k <= period -> take (Z.to_nat period) k = k).
    { intros k Hk. apply take_ge. unfold len in Hk. lia. }
    rewrite !Htake by (rewrite ?len_snoc; lia). rewrite foldl_app. cbn [foldl].
    destruct (Z.eqb_spec (len closes + 1) period) as [Heq|Hne].
    + rewrite ema_reference_seed by (rewrite ?len_snoc; lia).
      rewrite foldl_app, (proj2 (Z.leb_le _ _)) by lia. done.
    + rewrite !ema_reference_None by (rewrite ?len_snoc; lia).
      rewrite (proj2 (Z.leb_gt _ _)) by lia. done.
  - rewrite take_app_le by (unfold len in *; lia).
    destruct (ema_reference period closes) as [v|] eqn:E.
    2:{ unfold ema_reference in E. by rewrite (proj2 (Z.ltb_ge _ _)) in E by lia. }
    rewrite (ema_reference_snoc period closes c v) by (done || lia). cbn [default].
    by rewrite (proj2 (Z.leb_le period _)), (wrap_i64_id (period + 1)) by lia.
Qed.

Lemma run_closes_after period closes :
  valid_period period -> len closes < 2 ^ 64 -> Forall (fun c => is_finite c = true) closes ->
  run_closes (new_ema period) closes = ema_after period closes.
Proof.
  intros Hp. unfold run_closes.
  induction closes as [|c closes IH] using rev_ind; intros Hl Hf.
  - destruct Hp. unfold ema_after. rewrite ema_reference_None by (rewrite len_nil; lia).
    by rewrite take_nil.
  - rewrite len_snoc in Hl. apply Forall_app in Hf as [Hf Hc]. inversion Hc; subst.
    rewrite foldl_app. cbn [foldl]. rewrite IH by (done || lia).
    by apply EMA_OnClosed_after; [|lia|].
Qed.

Lemma EMA_OnClosed_wf e c : ema_wf e -> emaSamples e < 2 ^ 64 - 1 -> ema_wf (fst (EMA_OnClosed e c)).
Proof.
  intros [Hp Hs Hv] Hlt. unfold EMA_OnClosed, valid_period in *.
  destruct (is_nan c || is_inf c); [by split|].
  rewrite (wrap_u64_id (emaSamples e + 1)), (wrap_u64_id (emaPeriod e)) by lia.
  destruct (Z.leb_spec (emaSamples e + 1) (emaPeriod e));
    [destruct (Z.eqb_spec (emaSamples e + 1) (emaPeriod e))|]; cbn;
    split; cbn; unfold valid_period; try lia.
  intros. apply Hv. lia.
Qed.

Lemma EMA_OnClosed_samples e c :
  is_finite c = true -> emaSamples (fst (EMA_OnClosed e c)) = wrap_u64 (emaSamples e + 1).
Proof.
  intros. unfold EMA_OnClosed. assert (is_nan c || is_inf c = false) as -> by (by destruct c).
  by destruct (_ <=? _); [destruct (_ =? _)|].
Qed.

Lemma EMA_OnClosed_period e c : emaPeriod (fst (EMA_OnClosed e c)) = emaPeriod e.
Proof.
  unfold EMA_OnClosed. destruct (_ || _); [done|]. by destruct (_ <=? _); [destruct (_ =? _)|].
Qed.

Lemma EMA_Restore_Snapshot e j p :
  ema_wf e -> EMA_Snapshot e = Ok j -> emaPeriod p = emaPeriod e -> EMA_Restore p j = Ok e.
Proof.
  intros [Hp Hs Hv] Hj Hpp. unfold valid_period in Hp.
  unfold EMA_Snapshot, marshal_EMASnapshot, marshal_float in Hj. cbn in Hj.
  destruct (is_finite (emaSeedSum e)) eqn:Hf1; [|done].
  destruct (is_finite (emaValue e)) eqn:Hf2; [|done]. cbn in Hj. simplify_eq.
  unfold EMA_Restore. cbn. unfold decode_i64, decode_u64, decode_int, decode_float. cbn -[Z.pow].
  rewrite (proj2 (andb_true_iff _ _)) by lia. cbn -[Z.pow].
  rewrite (proj2 (andb_true_iff _ _)) by lia. cbn -[Z.pow].
  rewrite Hpp, Z.eqb_refl, Hf1, Hf2, wrap_u64_id by lia. cbn.
  destruct (Z.ltb_spec (emaSamples e) (emaPeriod e)) as [Hlt|?].
  - unfold fne. fold (feq (emaValue e) f0). rewrite (Hv Hlt). cbn. by destruct e.
  - cbn. by destruct e.
Qed.

Lemma EMA_Snapshot_ok e :
  is_ok (EMA_Snapshot e) = is_finite (emaSeedSum e) && is_finite (emaValue e).
Proof.
  unfold EMA_Snapshot, marshal_EMASnapshot, marshal_float. cbn.
  destruct (is_finite (emaSeedSum e)); [|done]. by destruct (is_finite (emaValue e)).
Qed.

Lemma new_ema_wf period : valid_period period -> ema_wf (new_ema period).
Proof. intros []. split; cbn; unfold valid_period; [lia..|done]. Qed.

(** Whatever data a reducer is restored from, it is well formed. *)
Lemma EMA_Restore_wf e data e' :
  valid_period (emaPeriod e) -> EMA_Restore e data = Ok e' ->
  ema_wf e' /\ emaPeriod e' = emaPeriod e /\
  exists s, unmarshal_EMASnapshot data = Some s /\ emaSamples e' = esSamples s.
Proof.
  intros [Hp1 Hp2]. unfold EMA_Restore. destruct (unmarshal_EMASnapshot data) as [s|] eqn:Hs; [|done].
  destruct (negb (esPeriod s =? emaPeriod e)); [done|].
  destruct ((esSamples s <? wrap_u64 (emaPeriod e)) && fne (esValue s) f0) eqn:Hv; [done|].
  destruct (_ || _); [done|]. intros [= <-]. cbn. split_and!; [|done|eauto].
  rewrite wrap_u64_id in Hv by lia. split; cbn; [done| |].
  - unfold unmarshal_EMASnapshot in Hs. destruct data; try done.
    apply bind_Some in Hs as (? & _ & Hs). apply bind_Some in Hs as (n & Hn & Hs).
    apply bind_Some in Hs as (? & _ & Hs). apply bind_Some in Hs as (? & _ & [= <-]). cbn.
    unfold decode_u64, decode_int in Hn. destruct (jfield _ _) as [[]|]; try done; [|by injection Hn as <-].
    destruct (_ && _) eqn:Hb; [|done]. injection Hn as <-. apply andb_true_iff in Hb as [? ?]. lia.
  - intros Hlt. rewrite (proj2 (Z.ltb_lt _ _) Hlt) in Hv. cbn in Hv. unfold fne in Hv.
    by apply negb_false_iff in Hv.
Qed.

#[export] Hint Resolve new_ema_wf EMA_OnClosed_wf : go.
