(* ===== verification/MarketZones.v ===== *)
(** * Zones, patterns and liquidity (internal/indicator/market.go, first half)

    The market configuration, candle features, fair value gaps, order blocks,
    candle patterns and liquidity levels.  Reading a slice out of range is
    [None] throughout. *)

From stdpp Require Import prelude strings list.
From Stdlib Require Import ZArith Lia SpecFloat String.
From S2P Require Import Prelude GoFloat GoText Sha256 Model.

#[local] Open Scope string_scope.
#[local] Open Scope list_scope.
#[local] Open Scope Z_scope.

Definition MarketAlgorithmVersion : string := "1.1.0".

Record MarketConfig := mkMarketConfig {
  MinSwingPct : float64;
  ATRPeriod : Z;
  ATRMult : float64;
  MinPullbackFrac : float64;
  EqualTolerance : float64;
  RangeMinSwings : Z;
  RangeMaxHeight : float64;
  SecondMaruMin : float64;
  BigVsReference : float64;
  BreakBodyBeyond : float64;
  OppositeSmallMax : float64;
  PACWindow : Z;
  LevelClusterTol : float64;
  LevelSwingLag : Z;
  MaxLevels : Z;
  MaxLevelDistance : float64;
  RecentBars : Z;
  FVGLookback : Z;
  PatternLookback : Z;
  LiquidityLookback : Z;
  LiquidityTol : float64
}.

Definition DefaultMarketConfig : MarketConfig := {|
  MinSwingPct := lit 5 10000; ATRPeriod := 14; ATRMult := of_int 2; MinPullbackFrac := lit 6 10;
  EqualTolerance := lit 15 10000; RangeMinSwings := 4; RangeMaxHeight := lit 5 100;
  SecondMaruMin := lit 7 10; BigVsReference := lit 7 10; BreakBodyBeyond := lit 3 10;
  OppositeSmallMax := lit 3 10; PACWindow := 4; LevelClusterTol := lit 15 10000;
  LevelSwingLag := 2; MaxLevels := 5; MaxLevelDistance := lit 3 100;
  RecentBars := 400; FVGLookback := 300; PatternLookback := 120;
  LiquidityLookback := 300; LiquidityTol := lit 6 10000
|}.

(** The verb [%+v] of the configuration. *)
Definition format_config (c : MarketConfig) : string :=
  "{MinSwingPct:" +:+ format_g (MinSwingPct c) +:+
  " ATRPeriod:" +:+ itoa (ATRPeriod c) +:+
  " ATRMult:" +:+ format_g (ATRMult c) +:+
  " MinPullbackFrac:" +:+ format_g (MinPullbackFrac c) +:+
  " EqualTolerance:" +:+ format_g (EqualTolerance c) +:+
  " RangeMinSwings:" +:+ itoa (RangeMinSwings c) +:+
  " RangeMaxHeight:" +:+ format_g (RangeMaxHeight c) +:+
  " SecondMaruMin:" +:+ format_g (SecondMaruMin c) +:+
  " BigVsReference:" +:+ format_g (BigVsReference c) +:+
  " BreakBodyBeyond:" +:+ format_g (BreakBodyBeyond c) +:+
  " OppositeSmallMax:" +:+ format_g (OppositeSmallMax c) +:+
  " PACWindow:" +:+ itoa (PACWindow c) +:+
  " LevelClusterTol:" +:+ format_g (LevelClusterTol c) +:+
  " LevelSwingLag:" +:+ itoa (LevelSwingLag c) +:+
  " MaxLevels:" +:+ itoa (MaxLevels c) +:+
  " MaxLevelDistance:" +:+ format_g (MaxLevelDistance c) +:+
  " RecentBars:" +:+ itoa (RecentBars c) +:+
  " FVGLookback:" +:+ itoa (FVGLookback c) +:+
  " PatternLookback:" +:+ itoa (PatternLookback c) +:+
  " LiquidityLookback:" +:+ itoa (LiquidityLookback c) +:+
  " LiquidityTol:" +:+ format_g (LiquidityTol c) +:+ "}".

Definition MarketAlgorithm (c : MarketConfig) : AlgorithmRef :=
  let raw := "market|" +:+ MarketAlgorithmVersion +:+ "|" +:+ format_config c in
  mkAlgorithm "smc.market_state" MarketAlgorithmVersion ("sha256:" +:+ sha256_hex raw).

Example format_default_config :
  format_config DefaultMarketConfig =
  "{MinSwingPct:0.0005 ATRPeriod:14 ATRMult:2 MinPullbackFrac:0.6 EqualTolerance:0.0015 RangeMinSwings:4 RangeMaxHeight:0.05 SecondMaruMin:0.7 BigVsReference:0.7 BreakBodyBeyond:0.3 OppositeSmallMax:0.3 PACWindow:4 LevelClusterTol:0.0015 LevelSwingLag:2 MaxLevels:5 MaxLevelDistance:0.03 RecentBars:400 FVGLookback:300 PatternLookback:120 LiquidityLookback:300 LiquidityTol:0.0006}".
Proof. vm_compute. reflexivity. Qed.

(** ** Candles *)

Record candleFeatures := mkFeatures {
  cfRange : float64;
  cfBody : float64;
  cfBodyRatio : float64;
  cfMid : float64;
  cfCloseLocation : float64;
  cfDirection : Z;
  cfUp : bool
}.

Definition features (bar : Bar) : candleFeatures :=
  let rangeValue := (bHigh bar - bLow bar)%F in
  let rangeValue := if (rangeValue =? f0)%F then lit 1 1000000000 else rangeValue in
  let body := fabs (bClose bar - bOpen bar)%F in
  let direction :=
    if (bClose bar >? bOpen bar)%F then 1 else if (bClose bar <? bOpen bar)%F then -1 else 0 in
  {| cfRange := rangeValue; cfBody := body; cfBodyRatio := (body / rangeValue)%F;
     cfMid := ((bHigh bar + bLow bar) / of_int 2)%F;
     cfCloseLocation := ((bClose bar - bLow bar) / rangeValue)%F;
     cfDirection := direction; cfUp := (bClose bar >=? bOpen bar)%F |}.

Definition simpleMarubozu (bar : Bar) : bool := (cfBodyRatio (features bar) >? lit 8 10)%F.
Definition pinBar (bar : Bar) : bool := (cfBodyRatio (features bar) <? lit 3 10)%F.

Definition zoneID (kind side : string) (at_ : Z) (top bottom : float64) : string :=
  sha256_hex (kind +:+ "|" +:+ side +:+ "|" +:+ format_rfc3339 at_ +:+ "|" +:+
              format_g12 top +:+ "|" +:+ format_g12 bottom).

(** market_reducer.go's [intersectsZone], also used by [annotateZoneStates]. *)
Definition intersectsZone (bar : Bar) (zone : PriceZone) : bool :=
  (bHigh bar >=? zBottom zone)%F && (bLow bar <=? zTop zone)%F && (zFromTime zone <? bOpenTime bar).

Definition set_zone_state (z : PriceZone) (state : string) : PriceZone :=
  mkZone (zID z) (zKind z) (zSide z) (zGrade z) (zFromTime z) (zToTime z) (zTop z) (zBottom z) state.

Definition annotateZoneStates (bars : list Bar) (zones : list PriceZone) : list PriceZone :=
  map (fun zone =>
         set_zone_state zone (if existsb (fun bar => intersectsZone bar zone) bars
                              then "touched" else "active")) zones.

(** ** Fair value gaps *)

(** The gap between the first and the third of three candles:
    (side, top, bottom, edge, gap). *)
Definition fvg_gap (first middle last : Bar)
  : option (string * float64 * float64 * float64 * float64) :=
  let anyMarubozu := simpleMarubozu first || simpleMarubozu middle || simpleMarubozu last in
  if (bLow last >? bHigh first)%F && anyMarubozu
  then Some ("up", bLow last, bHigh first, bHigh first, (bLow last - bHigh first)%F)
  else if (bHigh last <? bLow first)%F && anyMarubozu
  then Some ("down", bLow first, bHigh last, bLow first, (bLow first - bHigh last)%F)
  else None.

(** A later candle closes the gap. *)
Definition fills (side : string) (edge : float64) (bar : Bar) : bool :=
  ((side =? "up")%string && (bLow bar <=? edge)%F) ||
  ((side =? "down")%string && (bHigh bar >=? edge)%F).

Definition fvg_grade (first middle last : Bar) (gap : float64) : string :=
  if (gap >=? lit 3 10 * cfRange (features middle))%F ||
     (simpleMarubozu first && simpleMarubozu middle && simpleMarubozu last)
  then "strong" else "weak".

(** One iteration of [detectFVG]'s loop: the zone it appends, if any. *)
Definition fvg_at (bars : list Bar) (index : Z) : option (option PriceZone) :=
  first ← idx bars (index - 2);
  middle ← idx bars (index - 1);
  last ← idx bars index;
  match fvg_gap first middle last with
  | None => Some None
  | Some (side, top, bottom, edge, gap) =>
      filled ← find_first (fun later => bar ← idx bars later; Some (fills side edge bar))
                          (range (index + 1) (len bars));
      match filled with
      | Some _ => Some None
      | None =>
          final ← idx_last bars;
          Some (Some {| zID := zoneID "fvg" side (bOpenTime last) top bottom; zKind := "fvg";
                        zSide := side; zGrade := fvg_grade first middle last gap;
                        zFromTime := bOpenTime last; zToTime := bOpenTime final;
                        zTop := top; zBottom := bottom; zState := "" |})
      end
  end.

Definition append_opt {A} (out : list A) (x : option A) : list A :=
  match x with Some a => out ++ [a] | None => out end.

Definition detectFVG (bars : list Bar) (lookback : Z) : option (list PriceZone) :=
  let start := Z.max 2 (len bars - lookback) in
  out ← loop (fun out index => z ← fvg_at bars index; Some (append_opt out z))
             (range start (len bars)) [];
  keep_last 8 out.

(** ** Order blocks *)

(** [sort.Search(n, f)]: binary search on [[i, j)]; the interval halves, so
    its length bounds the number of steps. *)
Fixpoint search_aux (fuel : nat) (f : Z -> option bool) (i j : Z) : option Z :=
  if i <? j then
    match fuel with
    | O => None
    | S fuel' =>
        let h := (i + j) / 2 in
        b ← f h;
        if (b : bool) then search_aux fuel' f i h else search_aux fuel' f (h + 1) j
    end
  else Some i.
Definition search (n : Z) (f : Z -> option bool) : option Z := search_aux (Z.to_nat n) f 0 n.

Definition ob_candidate (side : string) (bar : Bar) : bool :=
  ((side =? "up")%string && negb (cfUp (features bar))) ||
  ((side =? "down")%string && cfUp (features bar)).

(** The order block of one gap: the nearest opposite candle among the four
    before the gap's middle candle. *)
Definition order_block_of (bars : list Bar) (gap : PriceZone) : option (option PriceZone) :=
  gapIndex ← search (len bars)
    (fun index => bar ← idx bars index; Some (negb (bOpenTime bar <? zFromTime gap)));
  found ← find_first (fun index => bar ← idx bars index; Some (ob_candidate (zSide gap) bar))
                     (range_down (gapIndex - 2) (Z.max 0 (gapIndex - 5)));
  match found with
  | None => Some None
  | Some index =>
      bar ← idx bars index;
      final ← idx_last bars;
      Some (Some {| zID := zoneID "order_block" (zSide gap) (bOpenTime bar) (bHigh bar) (bLow bar);
                    zKind := "order_block"; zSide := zSide gap; zGrade := zGrade gap;
                    zFromTime := bOpenTime bar; zToTime := bOpenTime final;
                    zTop := bHigh bar; zBottom := bLow bar; zState := "" |})
  end.

Definition detectOrderBlocks (bars : list Bar) (gaps : list PriceZone) : option (list PriceZone) :=
  out ← loop (fun out gap => z ← order_block_of bars gap; Some (append_opt out z)) gaps [];
  keep_last 6 out.

(** ** Candle patterns *)

Definition pattern_if (b : bool) (bar : Bar) (kind side : string) : list PatternEvent :=
  if b then [mkPattern kind side (bOpenTime bar)] else [].

(** The two-candle patterns of an iteration. *)
Definition patterns2 (previous current : Bar) : list PatternEvent :=
  let pf := features previous in
  let cf := features current in
  pattern_if (cfUp cf && negb (cfUp pf) && (cfBody cf >=? lit 125 100 * cfBody pf)%F &&
              (bClose current >? bOpen previous)%F && (bOpen current <? bClose previous)%F)
             current "bull_engulfing" "up" ++
  pattern_if (negb (cfUp cf) && cfUp pf && (cfBody cf >=? lit 125 100 * cfBody pf)%F &&
              (bClose current <? bOpen previous)%F && (bOpen current >? bClose previous)%F)
             current "bear_engulfing" "down" ++
  pattern_if ((bHigh current <? bHigh previous)%F && (bLow current >? bLow previous)%F)
             current "inside_bar" "flat".

(** The patterns that look two candles back. *)
Definition patterns3 (twoBack previous current : Bar) : list PatternEvent :=
  let tf := features twoBack in
  let pf := features previous in
  let cf := features current in
  pattern_if (simpleMarubozu twoBack && negb (cfUp tf) && (cfBodyRatio pf <? lit 4 10)%F &&
              simpleMarubozu current && cfUp cf && (bClose current >? cfMid tf)%F)
             current "morning_star" "up" ++
  pattern_if (simpleMarubozu twoBack && cfUp tf && (cfBodyRatio pf <? lit 4 10)%F &&
              simpleMarubozu current && negb (cfUp cf) && (bClose current <? cfMid tf)%F)
             current "evening_star" "down" ++
  pattern_if (simpleMarubozu twoBack && simpleMarubozu previous && simpleMarubozu current &&
              cfUp tf && cfUp pf && cfUp cf &&
              (bClose previous >? bClose twoBack)%F && (bClose current >? bClose previous)%F)
             current "three_soldiers" "up" ++
  pattern_if (simpleMarubozu twoBack && simpleMarubozu previous && simpleMarubozu current &&
              negb (cfUp tf) && negb (cfUp pf) && negb (cfUp cf) &&
              (bClose previous <? bClose twoBack)%F && (bClose current <? bClose previous)%F)
             current "three_crows" "down" ++
  pattern_if (pinBar previous && pinBar current &&
              (fabs (bLow previous - bLow current) / bLow current <? lit 6 10000)%F)
             current "tweezer_bottom" "up" ++
  pattern_if (pinBar previous && pinBar current &&
              (fabs (bHigh previous - bHigh current) / bHigh current <? lit 6 10000)%F)
             current "tweezer_top" "down".

Definition patterns_at (bars : list Bar) (start index : Z) : option (list PatternEvent) :=
  previous ← idx bars (index - 1);
  current ← idx bars index;
  if index <? start + 1 then Some (patterns2 previous current)
  else
    twoBack ← idx bars (index - 2);
    Some (patterns2 previous current ++ patterns3 twoBack previous current).

Definition detectPatterns (bars : list Bar) (lookback : Z) : option (list PatternEvent) :=
  let start := Z.max 3 (len bars - lookback) in
  out ← loop (fun out index => ps ← patterns_at bars start index; Some (out ++ ps))
             (range start (len bars)) [];
  keep_last 12 out.

(** ** Liquidity *)

Record extremum := mkExtremum { exPrice : float64; exIndex : Z }.

Record cluster := mkCluster { clPrice : float64; clTouches : Z; clLast : Z }.

(** The swing highs and lows of five candles centred at [index]. *)
Definition extremum_at (bars : list Bar) (index : Z)
  : option (option extremum * option extremum) :=
  bar ← idx bars index;
  p1 ← idx bars (index - 1);
  p2 ← idx bars (index - 2);
  n1 ← idx bars (index + 1);
  n2 ← idx bars (index + 2);
  let high := (bHigh bar >=? bHigh p1)%F && (bHigh bar >=? bHigh p2)%F &&
              (bHigh bar >=? bHigh n1)%F && (bHigh bar >=? bHigh n2)%F in
  let low := (bLow bar <=? bLow p1)%F && (bLow bar <=? bLow p2)%F &&
             (bLow bar <=? bLow n1)%F && (bLow bar <=? bLow n2)%F in
  Some (if high then Some (mkExtremum (bHigh bar) index) else None,
        if low then Some (mkExtremum (bLow bar) index) else None).

(** An extremum joins the first cluster within the tolerance, which moves to
    the running mean, or starts a new one. *)
Fixpoint add_extremum (tolerance : float64) (clusters : list cluster) (value : extremum)
  : list cluster :=
  match clusters with
  | [] => [mkCluster (exPrice value) 1 (exIndex value)]
  | c :: rest =>
      if (fabs (clPrice c - exPrice value) / exPrice value <? tolerance)%F then
        let touches := clTouches c + 1 in
        mkCluster ((clPrice c * of_int (touches - 1) + exPrice value) / of_int touches)%F
                  touches (exIndex value) :: rest
      else c :: add_extremum tolerance rest value
  end.

Definition clusterExtrema (tolerance : float64) (values : list extremum) : option (list cluster) :=
  let clusters := foldl (add_extremum tolerance) [] values in
  keep_last 3 (List.filter (fun c => 2 <=? clTouches c) clusters).

Definition sweep_high (last : Bar) (c : cluster) : list PatternEvent :=
  if (bHigh last >? clPrice c)%F && (bClose last <? clPrice c)%F
  then [mkPattern "liquidity_sweep" "down" (bOpenTime last)] else [].
Definition sweep_low (last : Bar) (c : cluster) : list PatternEvent :=
  if (bLow last <? clPrice c)%F && (bClose last >? clPrice c)%F
  then [mkPattern "liquidity_sweep" "up" (bOpenTime last)] else [].

Definition detectLiquidity (bars : list Bar) (lookback : Z) (tolerance : float64)
  : option (list PriceLevel * list PatternEvent) :=
  let start := Z.max 5 (len bars - lookback) in
  '(highs, lows) ← loop
    (fun acc index => e ← extremum_at bars index;
                      Some (append_opt acc.1 e.1, append_opt acc.2 e.2))
    (range (start + 2) (len bars - 2)) ([], []);
  highClusters ← clusterExtrema tolerance highs;
  lowClusters ← clusterExtrema tolerance lows;
  last ← idx_last bars;
  Some (map (fun c => mkLevel "equal_high" "sell_side" (clPrice c) (clTouches c)) highClusters ++
        map (fun c => mkLevel "equal_low" "buy_side" (clPrice c) (clTouches c)) lowClusters,
        flat_map (sweep_high last) highClusters ++ flat_map (sweep_low last) lowClusters).
