(* ===== verification/MarketStructure.v ===== *)
(** * Market structure (internal/indicator/market.go, second half)

    True range, zigzag swings, pullback merging, breakouts, structure events,
    labels, ranges, key levels, trend and premium/discount, and
    [EvaluateMarket], which composes both halves. *)

From stdpp Require Import prelude strings list.
From Stdlib Require Import ZArith Lia SpecFloat String.
From S2P Require Import Prelude GoFloat GoText Sha256 Model MarketZones.

#[local] Open Scope string_scope.
#[local] Open Scope list_scope.
#[local] Open Scope Z_scope.

Record indexedSwing := mkIndexedSwing {
  iwIndex : Z;
  iwType : string;
  iwPrice : float64;
  iwTime : Z;
  iwConfirmIndex : Z;
  iwConfirmTime : Z;
  iwLabel : string
}.

Record indexedStructure := mkIndexedStructure {
  ieKind : string;
  ieSide : string;
  iePrice : float64;
  ieTime : Z;
  ieZone : option PriceZone
}.

Record breakoutResult := mkBreakout {
  brStatus : string;
  brConfirmIndex : Z;
  brExcursion : float64
}.

(** ** Average true range *)

Definition true_range (bars : list Bar) (index : Z) : option float64 :=
  bar ← idx bars index;
  let trueRange := (bHigh bar - bLow bar)%F in
  if 0 <? index then
    prev ← idx bars (index - 1);
    Some (fmax (fmax trueRange (fabs (bHigh bar - bClose prev)%F)) (fabs (bLow bar - bClose prev)%F))
  else Some trueRange.

(** One iteration; the state is the filled part of [out] and [sum], and
    [out[index-1]] is read from the filled part. *)
Definition atr_step (bars : list Bar) (period : Z) (st : list float64 * float64) (index : Z)
  : option (list float64 * float64) :=
  let '(out, sum) := st in
  trueRange ← true_range bars index;
  if index <? period then
    let sum := (sum + trueRange)%F in
    Some (out ++ [(sum / of_int (index + 1))%F], sum)
  else
    previous ← idx out (index - 1);
    Some (out ++ [((previous * of_int (period - 1) + trueRange) / of_int period)%F], sum).

Definition averageTrueRange (bars : list Bar) (period : Z) : option (list float64) :=
  res ← loop (atr_step bars period) (range 0 (len bars)) ([], f0);
  Some (fst res).

(** ** Zigzag swings *)

Definition deviation (config : MarketConfig) (atr : list float64) (index : Z) (price : float64)
  : option float64 :=
  if (price <=? f0)%F then Some (MinSwingPct config)
  else a ← idx atr index; Some (fmax (MinSwingPct config) (ATRMult config * a / price)%F).

Record zigzagState := mkZigzag {
  zgSwings : list indexedSwing;
  zgDirection : Z;
  zgHighIndex : Z;
  zgLowIndex : Z
}.

Definition zigzag_step (bars : list Bar) (atr : list float64) (config : MarketConfig)
    (st : zigzagState) (index : Z) : option zigzagState :=
  bar ← idx bars index;
  high0 ← idx bars (zgHighIndex st);
  let highIndex := if (bHigh bar >? bHigh high0)%F then index else zgHighIndex st in
  low0 ← idx bars (zgLowIndex st);
  let lowIndex := if (bLow bar <? bLow low0)%F then index else zgLowIndex st in
  high ← idx bars highIndex;
  low ← idx bars lowIndex;
  confirm_high ←
    (if 0 <=? zgDirection st then
       d ← deviation config atr index (bHigh high);
       Some (bLow bar <=? bHigh high * (of_int 1 - d))%F
     else Some false);
  if (confirm_high : bool) then
    Some (mkZigzag
      (zgSwings st ++ [mkIndexedSwing highIndex "H" (bHigh high) (bOpenTime high)
                                      index (bOpenTime bar) ""])
      (-1) highIndex index)
  else
    confirm_low ←
      (if zgDirection st <=? 0 then
         d ← deviation config atr index (bLow low);
         Some (bHigh bar >=? bLow low * (of_int 1 + d))%F
       else Some false);
    if (confirm_low : bool) then
      Some (mkZigzag
        (zgSwings st ++ [mkIndexedSwing lowIndex "L" (bLow low) (bOpenTime low)
                                        index (bOpenTime bar) ""])
        1 index lowIndex)
    else Some (mkZigzag (zgSwings st) (zgDirection st) highIndex lowIndex).

Definition zigzag (bars : list Bar) (config : MarketConfig) : option (list indexedSwing) :=
  atr ← averageTrueRange bars (ATRPeriod config);
  st ← loop (zigzag_step bars atr config) (range 1 (len bars)) (mkZigzag [] 0 0 0);
  Some (zgSwings st).

(** ** Pullbacks *)

Definition structureMarubozu (bar : Bar) (direction : Z) : bool :=
  let value := features bar in
  if negb (cfDirection value =? direction) then false
  else (cfBodyRatio value >=? lit 7 10)%F ||
       ((0 <? direction) && (cfBodyRatio value >=? lit 5 10)%F && (cfCloseLocation value >=? lit 9 10)%F) ||
       ((direction <? 0) && (cfBodyRatio value >=? lit 5 10)%F && (cfCloseLocation value <=? lit 1 10)%F).

(** One iteration; [count] stops the scan after five candles. *)
Definition marubozu_step (bars : list Bar) (st : Z * float64) (current : Z)
  : option (Z * float64) :=
  let '(count, maximum) := st in
  if count <? 5 then
    bar ← idx bars current;
    let value := features bar in
    if (cfBodyRatio value >=? lit 7 10)%F ||
       ((cfBodyRatio value >=? lit 5 10)%F &&
        ((cfCloseLocation value >=? lit 9 10)%F || (cfCloseLocation value <=? lit 1 10)%F))
    then Some (count + 1, fmax maximum (cfRange value))
    else Some (count, maximum)
  else Some (count, maximum).

Definition marubozuReference (bars : list Bar) (index : Z) : option float64 :=
  res ← loop (marubozu_step bars) (range_down (index - 1) 0) (0, f0);
  Some (snd res).

Definition pullback_at (bars : list Bar) (direction : Z) (config : MarketConfig) (index : Z)
  : option bool :=
  bar ← idx bars index;
  if negb (structureMarubozu bar direction) then Some false
  else
    next ← idx bars (index + 1);
    if structureMarubozu next direction then Some true
    else
      reference ← marubozuReference bars index;
      let value := features bar in
      Some ((reference >? f0)%F && (cfRange value >=? BigVsReference config * reference)%F &&
            (cfRange (features next) <=? OppositeSmallMax config * cfRange value)%F).

Definition validPullback (bars : list Bar) (from to direction : Z) (config : MarketConfig)
  : option bool :=
  found ← find_first (pullback_at bars direction config) (range from to);
  Some (match found with Some _ => true | None => false end).

(** Whether the swing at [index] is a pullback too shallow to keep. *)
Definition shallow_at (bars : list Bar) (swings : list indexedSwing) (config : MarketConfig)
    (index : Z) : option bool :=
  first ← idx swings (index - 1);
  middle ← idx swings index;
  last ← idx swings (index + 1);
  let direction := if (iwType middle =? "L")%string then -1 else 1 in
  let depth := fabs (iwPrice first - iwPrice middle)%F in
  impulse ← (if 2 <=? index
             then before ← idx swings (index - 2); Some (fabs (iwPrice first - iwPrice before)%F)
             else Some (fabs (iwPrice last - iwPrice middle)%F));
  let retrace := if (impulse >? f0)%F then (depth / impulse)%F else of_int 1 in
  valid ← validPullback bars (iwIndex first) (iwIndex middle) direction config;
  Some (negb (valid || (retrace >=? MinPullbackFrac config)%F)).

(** Removal of two neighbouring swings around [index]. *)
Definition remove_pullback (swings : list indexedSwing) (index : Z) : option (list indexedSwing) :=
  first ← idx swings (index - 1);
  last ← idx swings (index + 1);
  let drop_first :=
    if (iwType first =? "H")%string then (iwPrice last >=? iwPrice first)%F
    else (iwPrice last <=? iwPrice first)%F in
  if (drop_first : bool)
  then head ← slice_to swings (index - 1); tail ← slice_from swings (index + 1); Some (head ++ tail)
  else head ← slice_to swings index; tail ← slice_from swings (index + 2); Some (head ++ tail).

(** Every round of the outer loop but the last removes two swings: the number
    of swings bounds the number of rounds ([None] when the fuel runs out). *)
Fixpoint merge_loop (fuel : nat) (bars : list Bar) (swings : list indexedSwing)
    (config : MarketConfig) : option (list indexedSwing) :=
  if len swings <? 3 then Some swings
  else
    found ← find_first (shallow_at bars swings config) (range 1 (len swings - 1));
    match found with
    | None => Some swings
    | Some index =>
        match fuel with
        | O => None
        | S fuel' => swings' ← remove_pullback swings index; merge_loop fuel' bars swings' config
        end
    end.

Definition mergeByValidPullback (bars : list Bar) (swings : list indexedSwing)
    (config : MarketConfig) : option (list indexedSwing) :=
  merge_loop (List.length swings) bars swings config.

(** ** Breakouts *)

Definition beyond (direction : Z) (line value : float64) : bool :=
  ((0 <? direction) && (value >? line)%F) || ((direction <? 0) && (value <? line)%F).

(** The search for a confirming close within the PAC window. *)
Definition pac_scan (bars : list Bar) (index direction : Z) (secondExcursion : float64) (end_ : Z)
  : option (option Z) :=
  find_first (fun current => bar ← idx bars current;
                             Some (beyond direction secondExcursion (bClose bar)))
             (range (index + 2) (Z.min (len bars - 1) end_ + 1)).

Definition penetration_of (first : Bar) (line : float64) (direction : Z) : float64 :=
  let body := cfBody (features first) in
  if (body >? f0)%F then
    if 0 <? direction then (fmax f0 (bClose first - fmax (bOpen first) line) / body)%F
    else (fmax f0 (fmin (bOpen first) line - bClose first) / body)%F
  else f0.

Definition evaluateBreakout (bars : list Bar) (index : Z) (line : float64) (direction : Z)
    (config : MarketConfig) : option breakoutResult :=
  first ← idx bars index;
  let ff := features first in
  if negb (beyond direction line (bClose first)) then Some (mkBreakout "none" 0 f0)
  else
    let excursion := if 0 <? direction then bHigh first else bLow first in
    if len bars <=? index + 1 then Some (mkBreakout "pending" 0 excursion)
    else
      second ← idx bars (index + 1);
      let sf := features second in
      let secondExcursion :=
        if 0 <? direction then fmax (bHigh first) (bHigh second)
        else fmin (bLow first) (bLow second) in
      let valid := mkBreakout "valid" (index + 1) secondExcursion in
      let fake := mkBreakout "fake" (index + 1) secondExcursion in
      if structureMarubozu first direction && structureMarubozu second direction &&
         beyond direction line (bClose second) &&
         (((0 <? direction) && (bClose second >? bClose first)%F) ||
          ((direction <? 0) && (bClose second <? bClose first)%F)) &&
         (cfRange sf >=? SecondMaruMin config * cfRange ff)%F
      then Some valid
      else
        reference ← marubozuReference bars index;
        let penetration := penetration_of first line direction in
        let big := (reference >? f0)%F && (cfRange ff >=? BigVsReference config * reference)%F in
        let small := (cfRange sf <=? OppositeSmallMax config * cfRange ff)%F &&
          (((0 <? direction) && (bLow second >=? cfMid ff)%F) ||
           ((direction <? 0) && (bHigh second <=? cfMid ff)%F)) in
        let closedBack := ((0 <? direction) && (bClose second <? line)%F) ||
                          ((direction <? 0) && (bClose second >? line)%F) in
        if structureMarubozu first direction && big &&
           (penetration >? BreakBodyBeyond config)%F && small && negb closedBack
        then Some valid
        else if (structureMarubozu first direction || (penetration >? BreakBodyBeyond config)%F) &&
                negb closedBack
        then Some valid
        else if closedBack then Some fake
        else if structureMarubozu first direction then
          let end_ := index + 1 + PACWindow config in
          found ← pac_scan bars index direction secondExcursion end_;
          match found with
          | Some current => Some (mkBreakout "valid" current secondExcursion)
          | None => if end_ <=? len bars - 1 then Some fake
                    else Some (mkBreakout "pending" 0 secondExcursion)
          end
        else Some fake.

(** [for start > 0 && ... { start-- }] *)
Fixpoint walk_back (bars : list Bar) (reference : float64) (direction : Z) (start : nat)
  : option Z :=
  match start with
  | O => Some 0
  | S n =>
      bar ← idx bars (Z.of_nat n);
      if ((0 <? direction) && (bHigh bar >? reference)%F) ||
         ((direction <? 0) && (bLow bar <? reference)%F)
      then walk_back bars reference direction n
      else Some (Z.of_nat (S n))
  end.

Definition falseBreakZone (bars : list Bar) (reference : float64) (swingIndex direction : Z)
  : option PriceZone :=
  if swingIndex <? 0 then None
  else
    start ← walk_back bars reference direction (Z.to_nat swingIndex);
    extreme ← loop
      (fun extreme index => bar ← idx bars index;
         Some (if 0 <? direction then fmax extreme (bHigh bar) else fmin extreme (bLow bar)))
      (range start (swingIndex + 1)) reference;
    let side := if 0 <? direction then "up" else "down" in
    from ← idx bars start;
    to ← idx bars swingIndex;
    let top := fmax reference extreme in
    let bottom := fmin reference extreme in
    Some {| zID := zoneID "false_break" side (bOpenTime from) top bottom;
            zKind := "false_break"; zSide := side; zGrade := "";
            zFromTime := bOpenTime from; zToTime := bOpenTime to;
            zTop := top; zBottom := bottom; zState := "" |}.

(** ** Structure events *)

Record scanState := mkScan {
  scEvents : list indexedStructure;
  scTrend : string;
  scLastHigh : option indexedSwing;
  scLastLow : option indexedSwing
}.

(** The break of one earlier level by a new swing: the event it appends and
    the trend after it.  [direction] is 1 for highs and -1 for lows, [side] the
    trend of the break and [opposite] the other one. *)
Definition break_level (bars : list Bar) (level swing : indexedSwing) (direction : Z)
    (side opposite trend : string) (config : MarketConfig)
  : option (option indexedStructure * string) :=
  breakIndex ← find_first
    (fun current => bar ← idx bars current; Some (beyond direction (iwPrice level) (bClose bar)))
    (range (iwIndex level + 1) (iwIndex swing + 1));
  match breakIndex with
  | None =>
      zone ← falseBreakZone bars (iwPrice level) (iwIndex swing) direction;
      at_ ← idx bars (iwIndex swing);
      Some (Some (mkIndexedStructure "FAKE" side (iwPrice level) (bOpenTime at_) (Some zone)), trend)
  | Some breakIndex =>
      result ← evaluateBreakout bars breakIndex (iwPrice level) direction config;
      if (brStatus result =? "valid")%string then
        confirm ← idx bars (brConfirmIndex result);
        let kind := if (trend =? opposite)%string then "CHoCH" else "BOS" in
        Some (Some (mkIndexedStructure kind side (iwPrice level) (bOpenTime confirm) None), side)
      else if (brStatus result =? "fake")%string then
        zone ← falseBreakZone bars (iwPrice level) (iwIndex swing) direction;
        at_ ← idx bars breakIndex;
        Some (Some (mkIndexedStructure "FAKE" side (iwPrice level) (bOpenTime at_) (Some zone)), trend)
      else Some (None, trend)
  end.

Definition scan_step (bars : list Bar) (config : MarketConfig) (st : scanState)
    (swing : indexedSwing) : option scanState :=
  if (iwType swing =? "H")%string then
    '(event, trend) ←
      match scLastHigh st with
      | Some lastHigh =>
          if (iwPrice swing >? iwPrice lastHigh)%F
          then break_level bars lastHigh swing 1 "up" "down" (scTrend st) config
          else Some (None, scTrend st)
      | None => Some (None, scTrend st)
      end;
    Some (mkScan (append_opt (scEvents st) event) trend (Some swing) (scLastLow st))
  else
    '(event, trend) ←
      match scLastLow st with
      | Some lastLow =>
          if (iwPrice swing <? iwPrice lastLow)%F
          then break_level bars lastLow swing (-1) "down" "up" (scTrend st) config
          else Some (None, scTrend st)
      | None => Some (None, scTrend st)
      end;
    Some (mkScan (append_opt (scEvents st) event) trend (scLastHigh st) (Some swing)).

Definition scanBreaks (bars : list Bar) (swings : list indexedSwing) (config : MarketConfig)
  : option (list indexedStructure) :=
  st ← loop (scan_step bars config) swings (mkScan [] "range" None None);
  Some (scEvents st).

(** ** Labels *)

Definition set_label (w : indexedSwing) (label : string) : indexedSwing :=
  mkIndexedSwing (iwIndex w) (iwType w) (iwPrice w) (iwTime w) (iwConfirmIndex w)
    (iwConfirmTime w) label.

(** The side of the last confirmed event at or before [t]; the scan stops at
    the first later one. *)
Fixpoint trend_at (confirmed : list indexedStructure) (t : Z) (trend : string) : string :=
  match confirmed with
  | [] => trend
  | e :: rest => if t <? ieTime e then trend else trend_at rest t (ieSide e)
  end.

(** One iteration: the label of the swing, and the last high and low (NaN
    before the first). *)
Definition label_step (confirmed : list indexedStructure)
    (acc : list indexedSwing * float64 * float64) (w : indexedSwing)
  : list indexedSwing * float64 * float64 :=
  let '(out, lastHigh, lastLow) := acc in
  let trend := trend_at confirmed (iwTime w) "unknown" in
  if (iwType w =? "H")%string then
    let label :=
      if (trend =? "down")%string then "LH"
      else if negb (is_nan lastHigh) then (if (iwPrice w >? lastHigh)%F then "HH" else "LH")
      else iwLabel w in
    (out ++ [set_label w label], iwPrice w, lastLow)
  else
    let label :=
      if (trend =? "up")%string then "HL"
      else if negb (is_nan lastLow) then (if (iwPrice w <? lastLow)%F then "LL" else "HL")
      else iwLabel w in
    (out ++ [set_label w label], lastHigh, iwPrice w).

Definition is_confirmed (e : indexedStructure) : bool := negb (ieKind e =? "FAKE")%string.

Section WithRuntime.
Context `{Runtime}.

(** [labelSwings] writes the labels in place: the result is the slice after
    it. *)
Definition labelSwings (swings : list indexedSwing) (events : list indexedStructure)
  : list indexedSwing :=
  let confirmed := sort_slice (fun a b => ieTime a <? ieTime b) (List.filter is_confirmed events) in
  fst (fst (foldl (label_step confirmed) ([], nan, nan) swings)).

(** ** Key levels *)

(** A swing joins the first cluster within the tolerance (whose price stays
    that of its first swing) or starts a new one. *)
Fixpoint add_level (tolerance : float64) (clusters : list cluster) (w : indexedSwing)
  : list cluster :=
  match clusters with
  | [] => [mkCluster (iwPrice w) 1 (iwIndex w)]
  | c :: rest =>
      if (fabs (clPrice c - iwPrice w) / iwPrice w <? tolerance)%F
      then mkCluster (clPrice c) (clTouches c + 1) (Z.max (clLast c) (iwIndex w)) :: rest
      else c :: add_level tolerance rest w
  end.

Definition level_less (a b : cluster) : bool :=
  (clTouches b <? clTouches a) || ((clTouches a =? clTouches b) && (clLast b <? clLast a)).

Definition keyLevels (bars : list Bar) (swings : list indexedSwing) (config : MarketConfig)
  : option (list PriceLevel) :=
  let establishedEnd := Z.max 0 (len swings - LevelSwingLag config) in
  established ← slice_to swings establishedEnd;
  let clusters := foldl (add_level (LevelClusterTol config)) [] established in
  last ← idx_last bars;
  let lastPrice := bClose last in
  let filtered := List.filter
    (fun c => (fabs (clPrice c - lastPrice) / lastPrice <=? MaxLevelDistance config)%F) clusters in
  let filtered := sort_slice level_less filtered in
  filtered ← (if MaxLevels config <? len filtered
              then slice_to filtered (MaxLevels config) else Some filtered);
  Some (map (fun c => mkLevel "key_level"
               (if (clPrice c >=? lastPrice)%F then "resistance" else "support")
               (clPrice c) (clTouches c)) filtered).
End WithRuntime.

(** ** Ranges *)

(** [sort.Float64s] puts NaNs first. *)
Definition float_less (a b : float64) : bool := (a <? b)%F || (is_nan a && negb (is_nan b)).

Definition median (values : list float64) : option float64 :=
  idx (sort_stable float_less values) (len values / 2).

Definition spread (middle : float64) (values : list float64) : option float64 :=
  first ← idx values 0;
  let '(minimum, maximum) :=
    foldl (fun '(mn, mx) v => (fmin mn v, fmax mx v)) (first, first) (drop 1 values) in
  Some ((maximum - minimum) / middle)%F.

Definition prices_of (high : bool) (swings : list indexedSwing) : list float64 :=
  map iwPrice (List.filter (fun w => Bool.eqb (iwType w =? "H")%string high) swings).

Definition detectRange (bars : list Bar) (swings : list indexedSwing) (config : MarketConfig)
  : option (option PriceZone) :=
  let start := Z.max 0 (len swings - Z.max (RangeMinSwings config) 6) in
  recent ← slice_from swings start;
  let highs := prices_of true recent in
  let lows := prices_of false recent in
  if (len highs <? 2) || (len lows <? 2) || (len recent <? RangeMinSwings config) then Some None
  else
    top ← median highs;
    bottom ← median lows;
    let middle := ((top + bottom) / of_int 2)%F in
    spread_high ← spread middle highs;
    spread_low ← spread middle lows;
    if (spread_high >? EqualTolerance config * of_int 3)%F ||
       (spread_low >? EqualTolerance config * of_int 3)%F ||
       ((top - bottom) / middle >? RangeMaxHeight config)%F || (top <=? bottom)%F
    then Some None
    else
      from ← idx recent 0;
      last ← idx_last bars;
      Some (Some {| zID := zoneID "range" "flat" (iwTime from) top bottom; zKind := "range";
                    zSide := "flat"; zGrade := ""; zFromTime := iwTime from;
                    zToTime := bOpenTime last; zTop := top; zBottom := bottom; zState := "" |}).

(** ** Trend *)

(** The two latest highs and the two latest lows, newest first; the loop's
    stop condition is redundant, since full lists take no further swing. *)
Definition collect_extremes (acc : list indexedSwing * list indexedSwing) (w : indexedSwing)
  : list indexedSwing * list indexedSwing :=
  let '(highs, lows) := acc in
  if (iwType w =? "H")%string && (len highs <? 2) then (highs ++ [w], lows)
  else if (iwType w =? "L")%string && (len lows <? 2) then (highs, lows ++ [w])
  else (highs, lows).

Definition marketTrend (swings : list indexedSwing) (events : list indexedStructure)
    (hasRange : bool) : string :=
  match List.find is_confirmed (rev events) with
  | Some e => ieSide e
  | None =>
      if hasRange then "range"
      else
        match foldl collect_extremes ([], []) (rev swings) with
        | ([h0; h1], [l0; l1]) =>
            if (iwPrice h0 >? iwPrice h1)%F && (iwPrice l0 >? iwPrice l1)%F then "up"
            else if (iwPrice h0 <? iwPrice h1)%F && (iwPrice l0 <? iwPrice l1)%F then "down"
            else "range"
        | _ => "range"
        end
  end.

(** ** Premium and discount *)

(** Scanning back from the end: the last swing of type [t] and the nearest
    earlier one of type [u]. *)
Fixpoint last_pair (t u : string) (reversed : list indexedSwing)
  : option indexedSwing * option indexedSwing :=
  match reversed with
  | [] => (None, None)
  | w :: rest =>
      if negb (iwType w =? t)%string then last_pair t u rest
      else (Some w, List.find (fun v => (iwType v =? u)%string) rest)
  end.

Definition premiumDiscount (bars : list Bar) (swings : list indexedSwing) (trend : string)
  : option (option PremiumDiscount) :=
  if len swings <? 2 then Some None
  else
    let up := negb (trend =? "down")%string in
    let '(highSwing, lowSwing) :=
      if up then last_pair "H" "L" (rev swings)
      else let '(l, h) := last_pair "L" "H" (rev swings) in (h, l) in
    match highSwing, lowSwing with
    | Some high, Some low =>
        if (iwPrice high <=? iwPrice low)%F then Some None
        else
          let rangeValue := (iwPrice high - iwPrice low)%F in
          let at_ n := (iwPrice low + lit n 1000 * rangeValue)%F in
          let '(poiBottom, poiTop) := if up then (at_ 200, at_ 382) else (at_ 618, at_ 800) in
          let from := if iwTime low <? iwTime high then iwTime low else iwTime high in
          last ← idx_last bars;
          Some (Some {| pdFromTime := from; pdToTime := bOpenTime last; pdTrend := trend;
                        pdHigh := iwPrice high; pdLow := iwPrice low;
                        pdEquilibrium := ((iwPrice high + iwPrice low) / of_int 2)%F;
                        pdPOITop := fmax poiTop poiBottom; pdPOIBottom := fmin poiTop poiBottom |})
    | _, _ => Some None
    end.

Definition publicSwings (values : list indexedSwing) : list Swing :=
  map (fun w => mkSwing (iwType w) (iwLabel w) (iwPrice w) (iwTime w) (iwConfirmTime w)) values.

Definition publicStructure (values : list indexedStructure) : list StructureEvent :=
  map (fun e => mkStructure (ieKind e) (ieSide e) (iePrice e) (ieTime e) (ieZone e)) values.

(** ** [EvaluateMarket] *)

Section Evaluate.
Context `{Runtime}.

(** The part that needs enough bars for structure: trend, swings, structure,
    ranges, key levels and premium/discount. *)
Definition evaluate_structure (closed : list Bar) (config : MarketConfig) (state : MarketState)
  : option MarketState :=
  '(structureBars, structureOffset) ←
    (if RecentBars config <? len closed
     then recent ← slice_from closed (len closed - RecentBars config);
          Some (recent, len closed - RecentBars config)
     else Some (closed, 0));
  if len structureBars <? ATRPeriod config + 4 then Some state
  else
    zz ← zigzag structureBars config;
    merged ← mergeByValidPullback structureBars zz config;
    events ← scanBreaks structureBars merged config;
    let swings := labelSwings merged events in
    marketRange ← detectRange structureBars swings config;
    let trend := marketTrend swings events (bool_decide (is_Some marketRange)) in
    fullSwings ← (if 0 <? structureOffset
                  then full ← zigzag closed config; mergeByValidPullback closed full config
                  else Some swings);
    levels ← keyLevels closed fullSwings config;
    premium ← premiumDiscount closed swings trend;
    Some (mkMarketState (msSchema state) (msAlgorithm state) (msAsOf state) trend
            (publicSwings swings) (publicStructure events) (match marketRange with Some z => [z] | None => [] end) levels
            (msFVGs state) (msOrderBlocks state) (msLiquidity state) (msLiquiditySweeps state)
            (msPatterns state) (msPatternOccurrences state) (msZoneTransitions state) premium).

Definition EvaluateMarket (bars : list Bar) (config : MarketConfig) : option MarketState :=
  let algorithm := MarketAlgorithm config in
  let closed := List.filter bClosed bars in
  if len closed =? 0 then
    Some (mkMarketState "market.state.v1" algorithm zero_time "range"
            [] [] [] [] [] [] [] [] [] [] [] None)
  else
    last ← idx_last closed;
    fvgs ← detectFVG closed (FVGLookback config);
    blocks ← detectOrderBlocks closed fvgs;
    patterns ← detectPatterns closed (PatternLookback config);
    '(liquidity, sweeps) ← detectLiquidity closed (LiquidityLookback config) (LiquidityTol config);
    evaluate_structure closed config
      (mkMarketState "market.state.v1" algorithm (bOpenTime last) "range"
         [] [] [] [] (annotateZoneStates closed fvgs) (annotateZoneStates closed blocks)
         liquidity sweeps patterns [] [] None).
End Evaluate.
