(* ===== verification/ZonesProofs.v ===== *)
(** * Properties of zones, patterns and liquidity

    Totality (no index is ever out of range), what a reported fair value gap
    and order block is, and the bounds on the numbers of reported objects. *)

From stdpp Require Import prelude strings list sorting.
From Stdlib Require Import ZArith Lia SpecFloat String.
From S2P Require Import Prelude GoFloat GoText Sha256 Model MarketZones.

#[local] Open Scope string_scope.
#[local] Open Scope list_scope.
#[local] Open Scope Z_scope.

#[local] Opaque zoneID lit simpleMarubozu fvg_grade.

(** ** Loops that append what a per-element computation finds *)

(** Reading within bounds succeeds: introduces the element read. *)
Ltac read_idx :=
  match goal with
  | |- context [idx ?l ?i] =>
      let x := fresh "b" in let E := fresh "E" in
      destruct (idx_is_Some l i) as [x E]; [lia|]; rewrite E; cbn [mbind option_bind]
  end.

Lemma loop_append {A B} (f : A -> option (option B)) l out out' :
  loop (fun out a => z ← f a; Some (append_opt out z)) l out = Some out' ->
  exists found, out' = out ++ found /\
    (forall b, b ∈ found -> exists a, a ∈ l /\ f a = Some (Some b)) /\
    (forall a b, a ∈ l -> f a = Some (Some b) -> b ∈ found).
Proof.
  revert out. induction l as [|a l IH]; intros out Hl; cbn in Hl.
  - simplify_eq. exists []. rewrite app_nil_r. set_solver.
  - destruct (f a) as [z|] eqn:Ha; cbn in Hl; [|done].
    apply IH in Hl as (found & -> & H1 & H2). destruct z as [b|]; cbn.
    + exists (b :: found). rewrite <-app_assoc. split; [done|]. split.
      * intros c [->|Hc]%elem_of_cons; [set_solver|]. apply H1 in Hc. set_solver.
      * intros a' c [->|Ha']%elem_of_cons Hc; [simplify_eq; set_solver|].
        apply elem_of_cons. right. eauto.
    + exists found. split; [done|]. split.
      * intros c Hc. apply H1 in Hc. set_solver.
      * intros a' c [->|Ha']%elem_of_cons Hc; [by simplify_eq|eauto].
Qed.

Lemma loop_append_total {A B} (f : A -> option (option B)) l out :
  (forall a, a ∈ l -> is_Some (f a)) ->
  is_Some (loop (fun out a => z ← f a; Some (append_opt out z)) l out).
Proof.
  intros Hf. destruct (loop_invariant (fun _ => True)
    (fun out a => z ← f a; Some (append_opt out z)) l out) as (s & -> & _); [done| |done].
  intros s a Ha _. destruct (Hf a Ha) as [z ->]. cbn. eauto.
Qed.

Lemma keep_last_total {A} n (l : list A) : 0 <= n -> is_Some (keep_last n l).
Proof. intros. rewrite keep_last_last_n by done. done. Qed.

Lemma idx_last_total {A} (l : list A) : l <> [] -> is_Some (idx_last l).
Proof.
  intros Hl. unfold idx_last. destruct (idx_is_Some l (len l - 1)) as [x ->]; [|done].
  destruct l; [done|]. rewrite len_cons. pose proof (len_nonneg l). lia.
Qed.

(** ** Fair value gaps *)

Lemma scan_total {A} (bars : list A) (p : A -> bool) lo hi :
  0 <= lo -> hi <= len bars ->
  is_Some (find_first (fun i => b ← idx bars i; Some (p b)) (range lo hi)).
Proof.
  intros. apply find_first_total. intros i Hi%elem_of_range. read_idx. done.
Qed.

Lemma fvg_at_total bars index : 2 <= index < len bars -> is_Some (fvg_at bars index).
Proof.
  intros. unfold fvg_at. do 3 read_idx.
  destruct (fvg_gap _ _ _) as [[[[[side top] bottom] edge] gap]|]; [|done].
  destruct (scan_total bars (fills side edge) (index + 1) (len bars)) as [f ->]; [lia..|]. cbn.
  destruct f; [done|]. destruct (idx_last_total bars) as [l ->]; [|done].
  intros ->. rewrite len_nil in *. lia.
Qed.

Lemma detectFVG_total bars lookback : is_Some (detectFVG bars lookback).
Proof.
  unfold detectFVG. destruct (loop_append_total (fvg_at bars)
    (range (Z.max 2 (len bars - lookback)) (len bars)) []) as [out ->].
  - intros i Hi%elem_of_range. apply fvg_at_total. lia.
  - cbn. by apply keep_last_total.
Qed.

(** A zone that is a gap between two candles around a third, with a marubozu
    among the three, which no later candle has closed. *)
Definition unfilled_gap (bars : list Bar) (z : PriceZone) : Prop :=
  exists index first middle last,
    idx bars (index - 2) = Some first /\ idx bars (index - 1) = Some middle /\
    idx bars index = Some last /\
    simpleMarubozu first || simpleMarubozu middle || simpleMarubozu last = true /\
    zKind z = "fvg" /\ zFromTime z = bOpenTime last /\ flt (zBottom z) (zTop z) = true /\
    ((zSide z = "up" /\ zBottom z = bHigh first /\ zTop z = bLow last /\
      forall j bar, index < j -> idx bars j = Some bar -> fle (bLow bar) (zBottom z) = false) \/
     (zSide z = "down" /\ zTop z = bLow first /\ zBottom z = bHigh last /\
      forall j bar, index < j -> idx bars j = Some bar -> fle (zTop z) (bHigh bar) = false)).

Lemma fvg_at_sound bars index z : fvg_at bars index = Some (Some z) -> unfilled_gap bars z.
Proof.
  unfold fvg_at. intros (first & E1 & H)%bind_Some.
  apply bind_Some in H as (middle & E2 & H). apply bind_Some in H as (last & E3 & H).
  destruct (fvg_gap first middle last) as [[[[[side top] bottom] edge] gap]|] eqn:Hg; [|done].
  apply bind_Some in H as (found & Hf & H). destruct found; [done|].
  apply bind_Some in H as (final & _ & H). simplify_eq.
  assert (Hno : forall j bar, index < j -> idx bars j = Some bar -> fills side edge bar = false).
  { intros j bar Hj Hb. pose proof (idx_bound _ _ _ Hb).
    assert (Hj' : (b ← idx bars j; Some (fills side edge b)) = Some false).
    { apply (find_first_None _ _ Hf j). apply elem_of_range. lia. }
    rewrite Hb in Hj'. by injection Hj'. }
  exists index, first, middle, last. unfold fvg_gap in Hg. unfold fills in Hno.
  destruct ((bLow last >? bHigh first)%F && _) eqn:Hup; simplify_eq.
  - apply andb_true_iff in Hup as [Hlt Hm]. split_and!; try done. left. split_and!; try done.
    intros j bar Hj Hb. specialize (Hno j bar Hj Hb). cbn in Hno. by rewrite orb_false_r in Hno.
  - destruct ((bHigh last <? bLow first)%F && _) eqn:Hdn; simplify_eq.
    apply andb_true_iff in Hdn as [Hlt Hm]. split_and!; try done. right. split_and!; try done.
Qed.

(** ** Binary search *)

Lemma search_aux_bound fuel f i j r :
  i <= j -> search_aux fuel f i j = Some r -> i <= r <= j.
Proof.
  revert i j. induction fuel as [|fuel IH]; intros i j Hij; cbn;
    destruct (Z.ltb_spec i j); try done; try (intros; simplify_eq; lia).
  intros (b & _ & Hr)%bind_Some.
  assert (i <= (i + j) / 2 < j) by (split; [apply Z.div_le_lower_bound|apply Z.div_lt_upper_bound]; lia).
  destruct b; apply IH in Hr; lia.
Qed.

Lemma search_aux_total fuel f i j :
  i <= j -> j - i <= Z.of_nat fuel -> (forall h, i <= h < j -> is_Some (f h)) ->
  is_Some (search_aux fuel f i j).
Proof.
  revert i j. induction fuel as [|fuel IH]; intros i j Hij Hfuel Hf; cbn;
    destruct (Z.ltb_spec i j); try done; try lia.
  assert (i <= (i + j) / 2 < j) by (split; [apply Z.div_le_lower_bound|apply Z.div_lt_upper_bound]; lia).
  destruct (Hf ((i + j) / 2)) as [b ->]; [lia|]. cbn.
  destruct b; apply IH; try lia; intros; apply Hf; lia.
Qed.

(** The result of [sort.Search] is in range whenever the predicate is. *)
Lemma search_total n f :
  0 <= n -> (forall h, 0 <= h < n -> is_Some (f h)) -> exists r, search n f = Some r /\ 0 <= r <= n.
Proof.
  intros Hn Hf. unfold search.
  destruct (search_aux_total (Z.to_nat n) f 0 n) as [r Hr]; [lia|lia|done|].
  exists r. split; [done|]. by eapply search_aux_bound.
Qed.

(** On a monotone predicate [sort.Search] returns the first index at which it
    holds. *)
Lemma search_aux_spec fuel f (p : Z -> bool) i j n r :
  (forall h, 0 <= h < n -> f h = Some (p h)) ->
  (forall h k, 0 <= h -> h <= k -> k < n -> p h = true -> p k = true) ->
  0 <= i -> i <= j -> j <= n ->
  (forall h, 0 <= h < i -> p h = false) -> (forall h, j <= h < n -> p h = true) ->
  search_aux fuel f i j = Some r ->
  (forall h, 0 <= h < r -> p h = false) /\ (forall h, r <= h < n -> p h = true).
Proof.
  intros Hf Hmono. revert i j. induction fuel as [|fuel IH]; intros i j Hi Hij Hj Hlo Hhi; cbn;
    destruct (Z.ltb_spec i j); try done;
    try (intros; simplify_eq; split; intros; [apply Hlo|apply Hhi]; lia).
  assert (Hh : i <= (i + j) / 2 < j)
    by (split; [apply Z.div_le_lower_bound|apply Z.div_lt_upper_bound]; lia).
  rewrite Hf by lia. cbn. destruct (p ((i + j) / 2)) eqn:Hp; intros Hr.
  - eapply IH; [..|exact Hr]; try lia; [done|]. intros h ?. apply (Hmono ((i + j) / 2)); lia || done.
  - eapply (IH ((i + j) / 2 + 1) j); [..|exact Hr]; try lia; [|done].
    intros h ?. destruct (p h) eqn:Hph; [|done].
    rewrite (Hmono h ((i + j) / 2)) in Hp; lia || done.
Qed.

Lemma search_spec n f (p : Z -> bool) r :
  0 <= n -> (forall h, 0 <= h < n -> f h = Some (p h)) ->
  (forall h k, 0 <= h -> h <= k -> k < n -> p h = true -> p k = true) ->
  search n f = Some r ->
  (forall h, 0 <= h < r -> p h = false) /\ (forall h, r <= h < n -> p h = true).
Proof. intros ? ? ? Hr. eapply search_aux_spec; [..|exact Hr]; try done; lia. Qed.

(** ** Order blocks *)

Lemma order_block_of_total bars gap : bars <> [] -> is_Some (order_block_of bars gap).
Proof.
  intros Hne. unfold order_block_of. pose proof (len_nonneg bars).
  edestruct (search_total (len bars)
    (fun index => bar ← idx bars index; Some (negb (bOpenTime bar <? zFromTime gap))))
    as (g & -> & Hg); [done| |]; [intros; by read_idx|]. cbn.
  edestruct (find_first_total (fun index => bar ← idx bars index; Some (ob_candidate (zSide gap) bar))
    (range_down (g - 2) (Z.max 0 (g - 5)))) as [found Hfound].
  { intros i Hi%elem_of_range_down. by read_idx. }
  rewrite Hfound. cbn. destruct found as [i|]; [|done].
  apply find_first_Some in Hfound as [Hi%elem_of_range_down _].
  read_idx. destruct (idx_last_total bars Hne) as [l ->]. done.
Qed.

Lemma detectOrderBlocks_total bars gaps : bars <> [] -> is_Some (detectOrderBlocks bars gaps).
Proof.
  intros. unfold detectOrderBlocks.
  destruct (loop_append_total (order_block_of bars) gaps []) as [out ->].
  - intros; by apply order_block_of_total.
  - cbn. by apply keep_last_total.
Qed.

(** Open times increase strictly along the bars. *)
Definition times_increasing (bars : list Bar) : Prop :=
  forall i j a b, i < j -> idx bars i = Some a -> idx bars j = Some b -> bOpenTime a < bOpenTime b.

(** The order block of a gap formed at [index]: a candle of the opposite
    colour two to five candles before it, the nearest one. *)
Definition order_block_for (bars : list Bar) (gap z : PriceZone) : Prop :=
  exists index last ob bar,
    idx bars index = Some last /\ bOpenTime last = zFromTime gap /\
    index - 5 <= ob <= index - 2 /\ idx bars ob = Some bar /\
    ob_candidate (zSide gap) bar = true /\
    (forall j b, ob < j <= index - 2 -> idx bars j = Some b -> ob_candidate (zSide gap) b = false) /\
    zKind z = "order_block" /\ zSide z = zSide gap /\ zGrade z = zGrade gap /\
    zFromTime z = bOpenTime bar /\ zTop z = bHigh bar /\ zBottom z = bLow bar.

Lemma find_first_split {A} (test : A -> option bool) l a :
  find_first test l = Some (Some a) ->
  exists l1 l2, l = l1 ++ a :: l2 /\ forall b, b ∈ l1 -> test b = Some false.
Proof.
  induction l as [|b l IH]; cbn; [done|]. intros (t & Ht & Hl)%bind_Some.
  destruct t; simplify_eq.
  - exists [], l. split; [done|]. intros ? []%not_elem_of_nil.
  - destruct (IH Hl) as (l1 & l2 & -> & Hl1). exists (b :: l1), l2. split; [done|].
    intros c [->|?]%elem_of_cons; auto.
Qed.

Lemma range_sorted lo hi : StronglySorted Z.lt (range lo hi).
Proof.
  remember (Z.to_nat (hi - lo)) as k eqn:Hk. revert lo Hk.
  induction k as [|k IH]; intros lo Hk; [rewrite range_nil by lia; constructor|].
  rewrite range_cons by lia. constructor; [apply IH; lia|].
  apply Forall_forall. intros x. rewrite elem_of_range. lia.
Qed.

Lemma range_down_split hi lo l1 a l2 j :
  range_down hi lo = l1 ++ a :: l2 -> a < j <= hi -> lo <= j -> j ∈ l1.
Proof.
  intros Heq Hj Hlo. assert (Hin : j ∈ range_down hi lo) by (apply elem_of_range_down; lia).
  rewrite Heq, elem_of_app, elem_of_cons in Hin. destruct Hin as [?|[->|Hin]]; [done|lia|].
  exfalso. assert (Hs := range_sorted lo (hi + 1)).
  assert (Hr : range lo (hi + 1) = rev l2 ++ [a] ++ rev l1).
  { unfold range_down in Heq. apply (f_equal (@rev Z)) in Heq. rewrite rev_involutive in Heq.
    rewrite Heq, rev_app_distr. cbn. by rewrite <-app_assoc. }
  rewrite Hr in Hs. apply (StronglySorted_app_1_elem_of _ _ _ j a) in Hs; [lia| |set_solver].
  by rewrite list_elem_of_In, <-in_rev, <-list_elem_of_In.
Qed.

(** The binary search finds the candle at which the gap was formed. *)
Lemma gap_index bars gap index last r :
  times_increasing bars -> idx bars index = Some last -> bOpenTime last = zFromTime gap ->
  search (len bars) (fun index => bar ← idx bars index; Some (negb (bOpenTime bar <? zFromTime gap)))
    = Some r -> r = index.
Proof.
  intros Hinc Hidx Hfrom Hr. pose proof (idx_bound _ _ _ Hidx). pose proof (len_nonneg bars).
  set (p := fun i => match idx bars i with
                     | Some b => negb (bOpenTime b <? zFromTime gap) | None => false end).
  assert (Hp : forall i b, idx bars i = Some b -> p i = negb (bOpenTime b <? zFromTime gap))
    by (intros i b Hb; unfold p; by rewrite Hb).
  edestruct (fun Ha Hb => search_spec (len bars) _ p r ltac:(lia) Ha Hb Hr) as [Hlo Hhi].
  - intros h Hh. destruct (idx_is_Some bars h Hh) as [b Hb]. rewrite Hb, (Hp h b Hb). done.
  - intros h k ? ? ? Hph. destruct (idx_is_Some bars h) as [b Hb]; [lia|].
    destruct (idx_is_Some bars k) as [c Hc]; [lia|].
    rewrite (Hp h b Hb) in Hph. rewrite (Hp k c Hc). destruct (decide (h = k)) as [->|]; [congruence|].
    pose proof (Hinc h k b c ltac:(lia) Hb Hc).
    apply negb_true_iff, Z.ltb_ge. apply negb_true_iff, Z.ltb_ge in Hph. lia.
  - assert (Hpi : p index = true) by (rewrite (Hp _ _ Hidx); apply negb_true_iff, Z.ltb_ge; lia).
    destruct (Z.lt_trichotomy r index) as [Hlt|[->|Hgt]]; [|done|].
    + assert (0 <= r) by (unfold search in Hr; apply search_aux_bound in Hr; lia).
      destruct (idx_is_Some bars r) as [b Hb]; [lia|].
      pose proof (Hinc r index b last Hlt Hb Hidx).
      specialize (Hhi r ltac:(lia)). rewrite (Hp _ _ Hb) in Hhi.
      apply negb_true_iff, Z.ltb_ge in Hhi. lia.
    + by rewrite Hlo in Hpi by lia.
Qed.

Lemma order_block_of_sound bars gap z :
  times_increasing bars -> (exists i b, idx bars i = Some b /\ bOpenTime b = zFromTime gap) ->
  order_block_of bars gap = Some (Some z) -> order_block_for bars gap z.
Proof.
  intros Hinc (index & last & Hidx & Hfrom) H. unfold order_block_of in H.
  apply bind_Some in H as (g & Hg & H).
  apply (gap_index bars gap index last) in Hg as ->; [|done..].
  apply bind_Some in H as (found & Hf & H). destruct found as [ob|]; [|done].
  apply bind_Some in H as (bar & Hbar & H). apply bind_Some in H as (final & _ & H). simplify_eq.
  pose proof (find_first_Some _ _ _ Hf) as [Hin%elem_of_range_down Htest].
  rewrite Hbar in Htest. injection Htest as Htest.
  apply find_first_split in Hf as (l1 & l2 & Heq & Hbefore).
  exists index, last, ob, bar. cbn. split_and!; try done; try lia.
  intros j b Hj Hb. assert (Hjl : j ∈ l1) by (eapply range_down_split; [done|lia..]).
  apply Hbefore in Hjl. rewrite Hb in Hjl. by injection Hjl.
Qed.

(** ** Patterns *)

Lemma patterns_at_total bars start index :
  3 <= start -> start <= index < len bars -> is_Some (patterns_at bars start index).
Proof.
  intros. unfold patterns_at. do 3 read_idx. by destruct (_ <? _).
Qed.

Lemma detectPatterns_total bars lookback : is_Some (detectPatterns bars lookback).
Proof.
  unfold detectPatterns.
  edestruct (loop_invariant (fun _ => True)
    (fun out index => ps ← patterns_at bars (Z.max 3 (len bars - lookback)) index; Some (out ++ ps))
    (range (Z.max 3 (len bars - lookback)) (len bars)) []) as (out & -> & _); [done| |].
  - intros s i Hi%elem_of_range _. destruct (patterns_at_total bars (Z.max 3 (len bars - lookback)) i)
      as [ps ->]; [lia..|]. cbn. eauto.
  - cbn. by apply keep_last_total.
Qed.

(** The side each kind of pattern is reported with. *)
Definition pattern_side (kind : string) : string :=
  if decide (kind ∈ ["bull_engulfing"; "morning_star"; "three_soldiers"; "tweezer_bottom"])
  then "up"
  else if decide (kind ∈ ["bear_engulfing"; "evening_star"; "three_crows"; "tweezer_top"])
  then "down" else "flat".

Lemma pattern_if_elem b bar kind side p :
  p ∈ pattern_if b bar kind side -> b = true /\ p = mkPattern kind side (bOpenTime bar).
Proof. unfold pattern_if. destruct b; set_solver. Qed.

Definition pattern_ok (bar : Bar) (p : PatternEvent) : Prop :=
  peTime p = bOpenTime bar /\ peSide p = pattern_side (peKind p).

Lemma patterns2_ok previous current p : p ∈ patterns2 previous current -> pattern_ok current p.
Proof.
  unfold patterns2. rewrite !elem_of_app.
  intros [H|[H|H]]; apply pattern_if_elem in H as [_ ->]; by split.
Qed.

Lemma patterns3_ok twoBack previous current p :
  p ∈ patterns3 twoBack previous current -> pattern_ok current p.
Proof.
  unfold patterns3. rewrite !elem_of_app.
  intros [H|[H|[H|[H|[H|H]]]]]; apply pattern_if_elem in H as [_ ->]; by split.
Qed.

Lemma detectPatterns_sound bars lookback ps :
  detectPatterns bars lookback = Some ps ->
  len ps <= 12 /\
  Forall (fun p => exists i bar, 3 <= i /\ len bars - lookback <= i /\
                     idx bars i = Some bar /\ pattern_ok bar p) ps.
Proof.
  unfold detectPatterns. intros (out & Hout & Hps)%bind_Some.
  rewrite keep_last_last_n in Hps by lia. simplify_eq. split; [rewrite len_last_n; lia|].
  eapply suffix_Forall; [apply last_n_suffix|].
  eapply (loop_inv_elim (Forall _)); [exact Hout|constructor|].
  cbn. intros s i s' Hi%elem_of_range Hs (q & Hq & ?)%bind_Some. simplify_eq.
  apply Forall_app. split; [done|]. unfold patterns_at in Hq.
  apply bind_Some in Hq as (previous & _ & Hq). apply bind_Some in Hq as (current & Hc & Hq).
  apply Forall_forall. intros p Hp. exists i, current. split_and!; try lia; try done.
  destruct (i <? _); simplify_eq; [by eapply patterns2_ok|].
  apply bind_Some in Hq as (two & _ & ?). simplify_eq.
  apply elem_of_app in Hp as [?|?]; [by eapply patterns2_ok|by eapply patterns3_ok].
Qed.

(** ** Liquidity *)

Lemma extremum_at_total bars index :
  2 <= index < len bars - 2 -> is_Some (extremum_at bars index).
Proof. intros. unfold extremum_at. by do 5 read_idx. Qed.

Lemma detectLiquidity_total bars lookback tolerance :
  bars <> [] -> is_Some (detectLiquidity bars lookback tolerance).
Proof.
  intros Hne. unfold detectLiquidity.
  edestruct (loop_invariant (fun _ => True)
    (fun acc index => e ← extremum_at bars index; Some (append_opt acc.1 e.1, append_opt acc.2 e.2))
    (range (Z.max 5 (len bars - lookback) + 2) (len bars - 2)) ([], [])) as ([h l] & -> & _); [done| |].
  - intros s i Hi%elem_of_range _. destruct (extremum_at_total bars i) as [e ->]; [lia|]. cbn. eauto.
  - cbn. unfold clusterExtrema. rewrite !keep_last_last_n by lia. cbn.
    by destruct (idx_last_total bars Hne) as [x ->].
Qed.

(** Clusters partition the extrema: the touches add up to their number. *)
Definition total_touches (cs : list cluster) : Z := foldr (fun c n => clTouches c + n) 0 cs.

Lemma add_extremum_touches tolerance cs v :
  total_touches (add_extremum tolerance cs v) = total_touches cs + 1.
Proof.
  unfold total_touches. induction cs as [|c cs IH]; cbn [add_extremum foldr]; [done|].
  destruct (_ <? _)%F; cbn [foldr clTouches]; lia.
Qed.

Lemma add_extremum_positive tolerance cs v :
  Forall (fun c => 1 <= clTouches c) cs ->
  Forall (fun c => 1 <= clTouches c) (add_extremum tolerance cs v).
Proof.
  induction 1 as [|c cs ? ? IH]; cbn; [by repeat constructor|].
  destruct (_ <? _)%F; constructor; cbn; auto; lia.
Qed.

Lemma clusters_total tolerance vs :
  total_touches (foldl (add_extremum tolerance) [] vs) = len vs /\
  Forall (fun c => 1 <= clTouches c) (foldl (add_extremum tolerance) [] vs).
Proof.
  induction vs as [|v vs [IH1 IH2]] using rev_ind; [by split|].
  rewrite foldl_app, len_snoc. cbn. rewrite add_extremum_touches.
  split; [lia|by apply add_extremum_positive].
Qed.

Lemma clusterExtrema_sound tolerance vs cs :
  clusterExtrema tolerance vs = Some cs -> len cs <= 3 /\ Forall (fun c => 2 <= clTouches c) cs.
Proof.
  unfold clusterExtrema. rewrite keep_last_last_n by lia. intros [= <-].
  split; [rewrite len_last_n; lia|]. eapply suffix_Forall; [apply last_n_suffix|].
  apply Forall_forall. intros c Hc. apply list_elem_of_In, filter_In in Hc as [_ Hc]. cbn beta in Hc. lia.
Qed.

Lemma detectLiquidity_sound bars lookback tolerance levels sweeps :
  detectLiquidity bars lookback tolerance = Some (levels, sweeps) ->
  len levels <= 6 /\ Forall (fun l => 2 <= plTouches l) levels /\ len sweeps <= len levels.
Proof.
  unfold detectLiquidity. intros ([highs lows] & _ & H)%bind_Some.
  apply bind_Some in H as (hc & Hh & H). apply bind_Some in H as (lc & Hl & H).
  apply bind_Some in H as (last & _ & H). simplify_eq.
  apply clusterExtrema_sound in Hh as [Hh1 Hh2]. apply clusterExtrema_sound in Hl as [Hl1 Hl2].
  assert (Hs : forall (f : cluster -> list PatternEvent) cs,
    (forall c, len (f c) <= 1) -> len (flat_map f cs) <= len cs).
  { intros f cs Hf. induction cs as [|c cs IH]; cbn; [done|].
    rewrite len_app, len_cons. specialize (Hf c). lia. }
  assert (Hm : forall (f : cluster -> PriceLevel) cs, len (map f cs) = len cs)
    by (intros; unfold len; by rewrite length_map).
  rewrite !len_app, !Hm. split_and!; [lia| |].
  - apply Forall_app. split; apply Forall_map; eapply Forall_impl; try done; cbn; auto.
  - enough (len (flat_map (sweep_high last) hc) <= len hc /\
            len (flat_map (sweep_low last) lc) <= len lc) by lia.
    split; apply Hs; intros c; [unfold sweep_high|unfold sweep_low]; by destruct (_ && _).
Qed.

(** ** What the zone detectors return *)

Lemma detectFVG_sound bars lookback zones :
  detectFVG bars lookback = Some zones -> len zones <= 8 /\ Forall (unfilled_gap bars) zones.
Proof.
  unfold detectFVG. intros (out & Hout & Hz)%bind_Some.
  rewrite keep_last_last_n in Hz by lia. simplify_eq. split; [rewrite len_last_n; lia|].
  eapply suffix_Forall; [apply last_n_suffix|].
  apply loop_append in Hout as (found & -> & Hf & _). apply Forall_forall.
  intros z (i & _ & Hi)%Hf. by eapply fvg_at_sound.
Qed.

(** A gap is strong when it is at least three tenths of the middle candle's
    range, or all three candles are marubozus, and weak otherwise. *)
Definition graded (first middle last : Bar) (gap : float64) (grade : string) : Prop :=
  let wide := fle (lit 3 10 * cfRange (features middle))%F gap = true in
  let all := simpleMarubozu first = true /\ simpleMarubozu middle = true /\ simpleMarubozu last = true in
  (grade = "strong" /\ (wide \/ all)) \/ (grade = "weak" /\ ~ wide /\ ~ all).

#[local] Transparent fvg_grade.
Lemma fvg_grade_graded first middle last gap : graded first middle last gap (fvg_grade first middle last gap).
Proof.
  unfold graded, fvg_grade. destruct (gap >=? _)%F eqn:Hw; cbn; [left; split; [done|by left]|].
  assert (Hn : fle (lit 3 10 * cfRange (features middle))%F gap <> true) by (unfold fge in Hw; unfold fle; congruence).
  destruct (simpleMarubozu first), (simpleMarubozu middle), (simpleMarubozu last); cbn;
    first [left; split; [done|by right]|right; split_and!; [done|exact Hn|by intros (? & ? & ?)]].
Qed.

Lemma graded_unique first middle last gap g g' :
  graded first middle last gap g -> graded first middle last gap g' -> g = g'.
Proof. unfold graded. intros [[-> ?]|(-> & ? & ?)] [[-> ?]|(-> & ? & ?)]; tauto. Qed.
#[local] Opaque fvg_grade.

(** The gap that is open at [index]: the candles around the one before it do
    not overlap, a marubozu is among the three, and no later candle has come
    back to the near edge; [z] is its zone. *)
Record open_gap (bars : list Bar) (index : Z) (first middle last final : Bar) (z : PriceZone) : Prop := {
  og_first : idx bars (index - 2) = Some first;
  og_middle : idx bars (index - 1) = Some middle;
  og_last : idx bars index = Some last;
  og_final : idx bars (len bars - 1) = Some final;
  og_marubozu : simpleMarubozu first = true \/ simpleMarubozu middle = true \/ simpleMarubozu last = true;
  og_sides :
    (zSide z = "up" /\ flt (bHigh first) (bLow last) = true /\ zTop z = bLow last /\ zBottom z = bHigh first /\
     forall j bar, index < j -> idx bars j = Some bar -> fle (bLow bar) (bHigh first) = false) \/
    (zSide z = "down" /\ flt (bHigh first) (bLow last) = false /\ flt (bHigh last) (bLow first) = true /\
     zTop z = bLow first /\ zBottom z = bHigh last /\
     forall j bar, index < j -> idx bars j = Some bar -> fle (bLow first) (bHigh bar) = false);
  og_grade : graded first middle last (zTop z - zBottom z)%F (zGrade z);
  og_zone : z = mkZone (zoneID "fvg" (zSide z) (bOpenTime last) (zTop z) (zBottom z)) "fvg" (zSide z) (zGrade z)
    (bOpenTime last) (bOpenTime final) (zTop z) (zBottom z) ""
}.

Definition open_at (bars : list Bar) (index : Z) (z : PriceZone) : Prop :=
  exists first middle last final, open_gap bars index first middle last final z.

(** [fvg_at] finds exactly the open gap. *)
Lemma fvg_at_open bars index z : fvg_at bars index = Some (Some z) <-> open_at bars index z.
Proof.
  assert (Hscan : forall side edge, find_first (fun later => bar ← idx bars later; Some (fills side edge bar))
      (range (index + 1) (len bars)) = Some None -> forall j bar, index < j -> idx bars j = Some bar -> fills side edge bar = false).
  { intros side edge Hf j bar Hj Hb. pose proof (idx_bound _ _ _ Hb).
    pose proof (find_first_None _ _ Hf j ltac:(apply elem_of_range; lia)) as Hn. cbn beta in Hn. rewrite Hb in Hn. by injection Hn. }
  split.
  - unfold fvg_at. intros (first & E1 & H)%bind_Some.
    apply bind_Some in H as (middle & E2 & H). apply bind_Some in H as (last & E3 & H).
    destruct (fvg_gap first middle last) as [[[[[side top] bottom] edge] gap]|] eqn:Hg; [|done].
    apply bind_Some in H as (found & Hf & H). destruct found; [done|]. specialize (Hscan _ _ Hf).
    apply bind_Some in H as (final & E4 & [= <-]). exists first, middle, last, final. unfold fvg_gap in Hg.
    assert (Hany : simpleMarubozu first || simpleMarubozu middle || simpleMarubozu last = true ->
      simpleMarubozu first = true \/ simpleMarubozu middle = true \/ simpleMarubozu last = true).
    { intros [[?|?]%orb_true_iff|?]%orb_true_iff; auto. }
    destruct ((bLow last >? bHigh first)%F && _) eqn:Hup; simplify_eq.
    + apply andb_true_iff in Hup as [Hlt Hm]. split; cbn; auto; [|apply fvg_grade_graded].
      left. split_and!; try done. intros j bar Hj Hb. specialize (Hscan j bar Hj Hb). unfold fills in Hscan. cbn in Hscan.
      by rewrite orb_false_r in Hscan.
    + destruct ((bHigh last <? bLow first)%F && _) eqn:Hdn; simplify_eq. apply andb_true_iff in Hdn as [Hlt Hm].
      rewrite Hm, andb_true_r in Hup. split; cbn; auto; [|apply fvg_grade_graded].
      right. split_and!; try done.
  - intros (first & middle & last & final & [E1 E2 E3 E4 Hany Hsides Hgrade Hz]).
    assert (Hm : simpleMarubozu first || simpleMarubozu middle || simpleMarubozu last = true).
    { destruct Hany as [->|[->| ->]]; by rewrite ?orb_true_r. }
    pose proof (idx_bound _ _ _ E1). pose proof (idx_bound _ _ _ E3).
    assert (Hfree : forall side edge, (forall j bar, index < j -> idx bars j = Some bar -> fills side edge bar = false) ->
      find_first (fun later => bar ← idx bars later; Some (fills side edge bar)) (range (index + 1) (len bars)) = Some None).
    { intros side edge Hno. destruct (scan_total bars (fills side edge) (index + 1) (len bars)) as [[b|] Hf]; [lia|lia| |done].
      exfalso. destruct (find_first_Some _ _ _ Hf) as [Hb%elem_of_range (bar & Hbar & [= Ht])%bind_Some].
      rewrite (Hno b bar) in Ht by (lia || done). done. }
    unfold fvg_at. rewrite E1, E2, E3. cbn [mbind option_bind]. unfold fvg_gap. rewrite Hm, !andb_true_r.
    change (bLow last >? bHigh first)%F with (flt (bHigh first) (bLow last)).
    assert (E4' : idx_last bars = Some final) by exact E4. rewrite E4'.
    destruct Hsides as [(Hs & Hlt & Ht & Hb & Hno)|(Hs & Hup & Hlt & Ht & Hb & Hno)].
    + rewrite Hlt. rewrite Hfree; [|intros j bar Hj Hbar; unfold fills; cbn; by rewrite (Hno j bar)].
      cbn [mbind option_bind]. rewrite Hz, Hs, Ht, Hb. rewrite Ht, Hb in Hgrade.
      by rewrite (graded_unique _ _ _ _ _ _ Hgrade (fvg_grade_graded _ _ _ _)).
    + rewrite Hup, Hlt. rewrite Hfree; [|intros j bar Hj Hbar; exact (Hno j bar Hj Hbar)].
      cbn [mbind option_bind]. rewrite Hz, Hs, Ht, Hb. rewrite Ht, Hb in Hgrade.
      by rewrite (graded_unique _ _ _ _ _ _ Hgrade (fvg_grade_graded _ _ _ _)).
Qed.

(** A loop that appends what it finds finds it in order. *)
Lemma loop_append_pairs {A B} (f : A -> option (option B)) l out out' :
  loop (fun out a => z ← f a; Some (append_opt out z)) l out = Some out' ->
  exists pairs, out' = out ++ map snd pairs /\ map fst pairs `sublist_of` l /\
    forall a b, (a, b) ∈ pairs <-> a ∈ l /\ f a = Some (Some b).
Proof.
  revert out. induction l as [|a l IH]; intros out Hl; cbn in Hl.
  - simplify_eq. exists []. rewrite app_nil_r. split_and!; [done|done|set_solver].
  - destruct (f a) as [z|] eqn:Ha; cbn in Hl; [|done].
    apply IH in Hl as (pairs & -> & Hsub & Hiff). destruct z as [b|]; cbn.
    + exists ((a, b) :: pairs). rewrite <-app_assoc. split_and!; [done|by apply sublist_skip|].
      intros a' b'. rewrite !elem_of_cons, Hiff. split.
      * intros [[= -> ->]|[? ?]]; auto.
      * intros [[->|Hin] Hf]; [left; congruence|auto].
    + exists pairs. split_and!; [done|by apply sublist_cons|]. intros a' b'. rewrite Hiff, elem_of_cons. split.
      * intros [? ?]; auto.
      * intros [[->|?] Hf]; [congruence|done].
Qed.

Lemma sublist_sorted (l l' : list Z) : l `sublist_of` l' -> StronglySorted Z.lt l' -> StronglySorted Z.lt l.
Proof.
  induction 1 as [|x l l' Hs IH|x l l' Hs IH]; intros Hl; [done| |].
  - apply StronglySorted_inv in Hl as [Hl Hx]. constructor; [by apply IH|]. rewrite Forall_forall in *.
    intros y Hy. apply Hx. by eapply elem_of_sublist.
  - apply StronglySorted_inv in Hl as [Hl _]. by apply IH.
Qed.

Lemma detectFVG_exact bars lookback :
  exists gaps, detectFVG bars lookback = Some (last_n 8 (map snd gaps)) /\ StronglySorted Z.lt (map fst gaps) /\
    forall index z, (index, z) ∈ gaps <-> Z.max 2 (len bars - lookback) <= index < len bars /\ open_at bars index z.
Proof.
  destruct (detectFVG_total bars lookback) as [zones Hz]. pose proof Hz as Hd. unfold detectFVG in Hz.
  apply bind_Some in Hz as (out & Hout & Hz). rewrite keep_last_last_n in Hz by lia. injection Hz as <-.
  apply loop_append_pairs in Hout as (gaps & -> & Hsub & Hiff). exists gaps. split_and!; [exact Hd| |].
  - eapply sublist_sorted; [exact Hsub|apply range_sorted].
  - intros index z. by rewrite Hiff, elem_of_range, fvg_at_open.
Qed.

Lemma detectOrderBlocks_sound bars gaps zones :
  times_increasing bars ->
  Forall (fun gap => exists i b, idx bars i = Some b /\ bOpenTime b = zFromTime gap) gaps ->
  detectOrderBlocks bars gaps = Some zones ->
  len zones <= 6 /\ Forall (fun z => exists gap, gap ∈ gaps /\ order_block_for bars gap z) zones.
Proof.
  intros Hinc Hg. unfold detectOrderBlocks. intros (out & Hout & Hz)%bind_Some.
  rewrite keep_last_last_n in Hz by lia. simplify_eq. split; [rewrite len_last_n; lia|].
  eapply suffix_Forall; [apply last_n_suffix|].
  apply loop_append in Hout as (found & -> & Hf & _). apply Forall_forall.
  intros z (gap & Hin & Hz)%Hf. exists gap. split; [done|]. rewrite Forall_forall in Hg.
  apply order_block_of_sound; auto.
Qed.

Lemma unfilled_gap_from bars z :
  unfilled_gap bars z -> exists i b, idx bars i = Some b /\ bOpenTime b = zFromTime z.
Proof. intros (i & ? & ? & b & ? & ? & ? & ? & ? & ? & _). exists i, b. auto. Qed.
