(* ===== verification/StructureProofs.v ===== *)
(** * Properties of market structure

    Totality of [EvaluateMarket], the shape of zigzag swings, the fixed point
    reached by pullback merging, the logic of breakouts and structure events,
    and bounds on levels and premium/discount. *)

From stdpp Require Import prelude strings list sorting.
From Stdlib Require Import ZArith Lia SpecFloat String.
From S2P Require Import Prelude GoFloat GoText Sha256 Model MarketZones MarketStructure ZonesProofs.

#[local] Open Scope string_scope.
#[local] Open Scope list_scope.
#[local] Open Scope Z_scope.

#[local] Opaque zoneID lit features.

(** ** Average true range *)

Lemma true_range_total bars index : 0 <= index < len bars -> is_Some (true_range bars index).
Proof.
  intros. unfold true_range. read_idx. destruct (Z.ltb_spec 0 index); [by read_idx|done].
Qed.

Lemma averageTrueRange_total bars period :
  1 <= period -> exists out, averageTrueRange bars period = Some out /\ len out = len bars.
Proof.
  intros Hp. unfold averageTrueRange. pose proof (len_nonneg bars).
  destruct (loop_range (fun i s => len s.1 = i) (atr_step bars period) 0 (len bars) ([], f0))
    as ([out sum] & Hloop & Hlen); [lia|done| |].
  - intros i [out sum] Hi Hlen. cbn in Hlen. unfold atr_step.
    destruct (true_range_total bars i) as [tr ->]; [lia|]. cbn [mbind option_bind]. destruct (Z.ltb_spec i period).
    + eexists. split; [done|]. cbn. rewrite len_snoc. lia.
    + read_idx. eexists. split; [done|]. cbn. rewrite len_snoc. lia.
  - rewrite Hloop. cbn. eauto.
Qed.

(** ** Zigzag *)

Lemma deviation_total config atr index price :
  0 <= index < len atr -> is_Some (deviation config atr index price).
Proof. intros. unfold deviation. destruct (_ <=? _)%F; [done|]. by read_idx. Qed.

(** A swing is anchored at a candle: its price and time are those of the bar
    at [Index], and it was confirmed at [ConfirmIndex], not earlier. *)
Record anchored (bars : list Bar) (w : indexedSwing) : Prop := {
  an_type : iwType w = "H" \/ iwType w = "L";
  an_index : 0 <= iwIndex w <= iwConfirmIndex w;
  an_confirm : iwConfirmIndex w < len bars;
  an_price : exists b, idx bars (iwIndex w) = Some b /\ iwTime w = bOpenTime b /\
    iwPrice w = (if (iwType w =? "H")%string then bHigh b else bLow b);
  an_confirm_time : exists b, idx bars (iwConfirmIndex w) = Some b /\ iwConfirmTime w = bOpenTime b
}.

(** No candle from [lo] to [hi] goes beyond [price] on the side of [type]. *)
Definition extreme_on (bars : list Bar) (type : string) (price : float64) (lo hi : Z) : Prop :=
  forall j b, lo <= j <= hi -> idx bars j = Some b ->
    if (type =? "H")%string then flt price (bHigh b) = false else flt (bLow b) price = false.

(** The index from which the current leg is measured. *)
Definition leg_start (swings : list indexedSwing) : Z :=
  match last swings with Some w => iwConfirmIndex w | None => 0 end.

(** The legs: each swing is the extreme of the candles since the previous
    confirmation, types alternate and confirmations follow one another. *)
Inductive legs (bars : list Bar) : list indexedSwing -> Prop :=
  | legs_nil : legs bars []
  | legs_snoc swings w :
      legs bars swings -> anchored bars w ->
      leg_start swings <= iwIndex w -> 
      (forall v, last swings = Some v -> iwType v <> iwType w /\ iwConfirmIndex v < iwConfirmIndex w) ->
      extreme_on bars (iwType w) (iwPrice w) (leg_start swings) (iwConfirmIndex w) ->
      legs bars (swings ++ [w]).

Definition last_type (swings : list indexedSwing) : Z :=
  match last swings with
  | Some w => if (iwType w =? "H")%string then -1 else 1
  | None => 0
  end.

(** The loop invariant before the candle [i] is read. *)
Record zigzag_inv (bars : list Bar) (i : Z) (st : zigzagState) : Prop := {
  zi_legs : legs bars (zgSwings st);
  zi_dir : zgDirection st = last_type (zgSwings st);
  zi_start : 0 <= leg_start (zgSwings st) < i;
  zi_high : 0 <= zgHighIndex st < i;
  zi_low : 0 <= zgLowIndex st < i;
  zi_high_leg : 0 <= zgDirection st -> leg_start (zgSwings st) <= zgHighIndex st /\
    forall h, idx bars (zgHighIndex st) = Some h ->
      extreme_on bars "H" (bHigh h) (leg_start (zgSwings st)) (i - 1);
  zi_low_leg : zgDirection st <= 0 -> leg_start (zgSwings st) <= zgLowIndex st /\
    forall l, idx bars (zgLowIndex st) = Some l ->
      extreme_on bars "L" (bLow l) (leg_start (zgSwings st)) (i - 1)
}.

Lemma leg_start_snoc swings w : leg_start (swings ++ [w]) = iwConfirmIndex w.
Proof. unfold leg_start. by rewrite last_snoc. Qed.

Lemma last_type_cases swings : last_type swings = -1 \/ last_type swings = 0 \/ last_type swings = 1.
Proof. unfold last_type. destruct (last swings) as [w|]; [destruct (_ =? _)%string|]; auto. Qed.

(** A leg's running extreme after one more candle: the candle itself when it
    goes beyond, the old one otherwise. *)
Lemma extreme_high_step bars lo i bar h h' hi :
  idx bars i = Some bar -> idx bars hi = Some h ->
  extreme_on bars "H" (bHigh h) lo (i - 1) ->
  idx bars (if (bHigh bar >? bHigh h)%F then i else hi) = Some h' ->
  extreme_on bars "H" (bHigh h') lo i.
Proof.
  intros Hbar Hh He Hh' j b Hj Hb. cbn. destruct (bHigh bar >? bHigh h)%F eqn:Hgt;
    [assert (h' = bar) as -> by congruence|assert (h' = h) as -> by congruence].
  - destruct (decide (j = i)) as [->|]; [simplify_eq; apply flt_irrefl|].
    specialize (He j b ltac:(lia) Hb). cbn in He.
    destruct (flt (bHigh bar) (bHigh b)) eqn:Hlt; [|done].
    by rewrite (flt_trans _ _ _ Hgt Hlt) in He.
  - destruct (decide (j = i)) as [->|]; [by simplify_eq|]. exact (He j b ltac:(lia) Hb).
Qed.

Lemma extreme_low_step bars lo i bar l l' li :
  idx bars i = Some bar -> idx bars li = Some l ->
  extreme_on bars "L" (bLow l) lo (i - 1) ->
  idx bars (if (bLow bar <? bLow l)%F then i else li) = Some l' ->
  extreme_on bars "L" (bLow l') lo i.
Proof.
  intros Hbar Hl He Hl' j b Hj Hb. cbn. destruct (bLow bar <? bLow l)%F eqn:Hlt;
    [assert (l' = bar) as -> by congruence|assert (l' = l) as -> by congruence].
  - destruct (decide (j = i)) as [->|]; [simplify_eq; apply flt_irrefl|].
    specialize (He j b ltac:(lia) Hb). cbn in He.
    destruct (flt (bLow b) (bLow bar)) eqn:Hlt'; [|done].
    by rewrite (flt_trans _ _ _ Hlt' Hlt) in He.
  - destruct (decide (j = i)) as [->|]; [by simplify_eq|]. exact (He j b ltac:(lia) Hb).
Qed.

Lemma extreme_here bars type i b :
  idx bars i = Some b ->
  extreme_on bars type (if (type =? "H")%string then bHigh b else bLow b) i i.
Proof.
  intros Hb j c Hj Hc. replace j with i in Hc by lia. simplify_eq.
  destruct (type =? "H")%string; apply flt_irrefl.
Qed.

Lemma leg_last_H swings v : last_type swings >= 0 -> last swings = Some v -> iwType v <> "H".
Proof.
  unfold last_type. intros Hd Hv. rewrite Hv in Hd.
  destruct (String.eqb_spec (iwType v) "H"); [lia|done].
Qed.

Lemma legs_last_type bars swings v :
  legs bars swings -> last swings = Some v -> iwType v = "H" \/ iwType v = "L".
Proof.
  destruct 1 as [|swings w ? Hw]; [done|]. rewrite last_snoc. intros [= <-]. apply Hw.
Qed.

Lemma leg_last_L bars swings v :
  legs bars swings -> last_type swings <= 0 -> last swings = Some v -> iwType v <> "L".
Proof.
  intros Hl Hd Hv. destruct (legs_last_type _ _ _ Hl Hv) as [E|E]; rewrite E; [done|].
  unfold last_type in Hd. rewrite Hv, E in Hd. cbn in Hd. lia.
Qed.

Lemma legs_last_confirm swings v i :
  leg_start swings < i -> last swings = Some v -> iwConfirmIndex v < i.
Proof. unfold leg_start. intros H Hv. by rewrite Hv in H. Qed.

(** Confirming a high: the swing it appends keeps the invariant. *)
Lemma zigzag_high_inv bars i st bar h hi :
  zigzag_inv bars i st -> 0 <= zgDirection st -> idx bars i = Some bar -> idx bars hi = Some h ->
  leg_start (zgSwings st) <= hi <= i ->
  extreme_on bars "H" (bHigh h) (leg_start (zgSwings st)) i ->
  zigzag_inv bars (i + 1)
    (mkZigzag (zgSwings st ++ [mkIndexedSwing hi "H" (bHigh h) (bOpenTime h) i (bOpenTime bar) ""])
       (-1) hi i).
Proof.
  intros [Hlegs Hdir Hst Hh Hl _ _] Hd Hbar Hhi Hle He. pose proof (idx_bound _ _ _ Hbar).
  split; cbn; rewrite ?leg_start_snoc; cbn; try lia.
  - constructor; cbn; try done; try lia.
    + split; cbn; try lia; eauto.
    + intros v Hv. split; [eapply leg_last_H; [|done]; lia|eapply legs_last_confirm; [|done]; lia].
  - unfold last_type. by rewrite last_snoc.
  - intros _. split; [lia|]. intros l Hl'. replace (i + 1 - 1) with i by lia.
    exact (extreme_here bars "L" i l Hl').
Qed.

Lemma zigzag_low_inv bars i st bar l li :
  zigzag_inv bars i st -> zgDirection st <= 0 -> idx bars i = Some bar -> idx bars li = Some l ->
  leg_start (zgSwings st) <= li <= i ->
  extreme_on bars "L" (bLow l) (leg_start (zgSwings st)) i ->
  zigzag_inv bars (i + 1)
    (mkZigzag (zgSwings st ++ [mkIndexedSwing li "L" (bLow l) (bOpenTime l) i (bOpenTime bar) ""])
       1 i li).
Proof.
  intros [Hlegs Hdir Hst Hh Hl _ _] Hd Hbar Hli Hle He. pose proof (idx_bound _ _ _ Hbar).
  split; cbn; rewrite ?leg_start_snoc; cbn; try lia.
  - constructor; cbn; try done; try lia.
    + split; cbn; try lia; eauto.
    + intros v Hv. split; [eapply leg_last_L; [done| |done]; lia|eapply legs_last_confirm; [|done]; lia].
  - unfold last_type. by rewrite last_snoc.
  - intros _. split; [lia|]. intros h Hh'. replace (i + 1 - 1) with i by lia.
    exact (extreme_here bars "H" i h Hh').
Qed.

Lemma zigzag_step_inv bars atr config i st :
  1 <= i < len bars -> len atr = len bars -> zigzag_inv bars i st ->
  exists st', zigzag_step bars atr config st i = Some st' /\ zigzag_inv bars (i + 1) st'.
Proof.
  intros Hi Hatr Hinv. pose proof Hinv as [Hlegs Hdir Hst Hh Hl Hhleg Hlleg]. unfold zigzag_step.
  destruct (idx_is_Some bars i) as [bar Hbar]; [lia|].
  destruct (idx_is_Some bars (zgHighIndex st)) as [h0 Hh0]; [lia|].
  destruct (idx_is_Some bars (zgLowIndex st)) as [l0 Hl0]; [lia|].
  rewrite Hbar, Hh0, Hl0. cbn [mbind option_bind].
  set (hi := if (bHigh bar >? bHigh h0)%F then i else zgHighIndex st).
  set (li := if (bLow bar <? bLow l0)%F then i else zgLowIndex st).
  assert (Hhi : 0 <= hi <= i /\ zgHighIndex st <= hi) by (unfold hi; destruct (_ >? _)%F; lia).
  assert (Hli : 0 <= li <= i /\ zgLowIndex st <= li) by (unfold li; destruct (_ <? _)%F; lia).
  destruct (idx_is_Some bars hi) as [h Hih]; [lia|]. destruct (idx_is_Some bars li) as [l Hil]; [lia|].
  rewrite Hih, Hil. cbn [mbind option_bind].
  assert (HeH : 0 <= zgDirection st -> leg_start (zgSwings st) <= hi /\
                  extreme_on bars "H" (bHigh h) (leg_start (zgSwings st)) i).
  { intros Hd. destruct (Hhleg Hd) as [? He]. split; [lia|].
    exact (extreme_high_step _ _ _ _ _ _ _ Hbar Hh0 (He h0 Hh0) Hih). }
  assert (HeL : zgDirection st <= 0 -> leg_start (zgSwings st) <= li /\
                  extreme_on bars "L" (bLow l) (leg_start (zgSwings st)) i).
  { intros Hd. destruct (Hlleg Hd) as [? He]. split; [lia|].
    exact (extreme_low_step _ _ _ _ _ _ _ Hbar Hl0 (He l0 Hl0) Hil). }
  assert (Hkeep : zigzag_inv bars (i + 1) (mkZigzag (zgSwings st) (zgDirection st) hi li)).
  { split; cbn; try done; try lia; replace (i + 1 - 1) with i by lia; intros Hd.
    - destruct (HeH Hd). split; [done|]. intros ? ?. by simplify_eq.
    - destruct (HeL Hd). split; [done|]. intros ? ?. by simplify_eq. }
  destruct (deviation_total config atr i (bHigh h)) as [dh ->]; [lia|].
  destruct (deviation_total config atr i (bLow l)) as [dl ->]; [lia|].
  cbn [mbind option_bind].
  destruct (Z.leb_spec 0 (zgDirection st)) as [Hd|Hd]; cbn [mbind option_bind];
    [destruct (_ <=? _)%F; [destruct (HeH Hd); eexists; split; [done|]; eapply zigzag_high_inv; eauto; lia|]|];
    (destruct (Z.leb_spec (zgDirection st) 0) as [Hd'|Hd']; cbn [mbind option_bind]; [|eauto];
     destruct (_ >=? _)%F; [|eauto];
     destruct (HeL Hd'); eexists; split; [done|]; eapply zigzag_low_inv; eauto; lia).
Qed.

Lemma zigzag_legs bars config :
  bars <> [] -> 1 <= ATRPeriod config ->
  exists swings, zigzag bars config = Some swings /\ legs bars swings.
Proof.
  intros Hne Hp. unfold zigzag.
  destruct (averageTrueRange_total bars (ATRPeriod config) Hp) as (atr & -> & Hatr). cbn.
  assert (Hlen : 1 <= len bars) by (destruct bars as [|b bars]; [done|]; rewrite len_cons;
    pose proof (len_nonneg bars); lia).
  destruct (idx_is_Some bars 0) as [b0 Hb0]; [lia|].
  destruct (loop_range (zigzag_inv bars) (zigzag_step bars atr config) 1 (len bars)
    (mkZigzag [] 0 0 0)) as (st & -> & Hst); [done| | |].
  - split; cbn; try lia; [apply legs_nil| |]; intros _; (split; [done|]); intros b Hb;
      [exact (extreme_here bars "H" 0 b Hb)|exact (extreme_here bars "L" 0 b Hb)].
  - intros i s Hi Hs. apply zigzag_step_inv; done || lia.
  - cbn. eexists. split; [done|]. apply Hst.
Qed.

(** ** Consequences of the shape of legs *)

Definition alternating (swings : list indexedSwing) : Prop :=
  Sorted (fun a b => iwType a <> iwType b) swings.

Definition in_order (swings : list indexedSwing) : Prop :=
  StronglySorted (fun a b => iwConfirmIndex a <= iwIndex b) swings.

Lemma legs_anchored bars swings : legs bars swings -> Forall (anchored bars) swings.
Proof. induction 1; [constructor|]. apply Forall_app. split; [done|]. by apply Forall_singleton. Qed.

Lemma sorted_snoc {A} (R : A -> A -> Prop) l x :
  Sorted R l -> (forall y, last l = Some y -> R y x) -> Sorted R (l ++ [x]).
Proof.
  induction l as [|a l IH]; intros Hs Hx; [by repeat constructor|].
  apply Sorted_inv in Hs as [Hs Ha]. cbn. destruct l as [|b l].
  - cbn. repeat constructor. by apply Hx.
  - constructor; [apply IH; [done|]; intros y Hy; by apply Hx|].
    constructor. by apply HdRel_inv in Ha.
Qed.

Lemma legs_alternating bars swings : legs bars swings -> alternating swings.
Proof.
  induction 1 as [|swings w ? ? ? ? Hv]; [constructor|]. apply sorted_snoc; [done|].
  intros v. by intros [? _]%Hv.
Qed.

Lemma legs_in_order bars swings :
  legs bars swings -> in_order swings /\ Forall (fun v => iwConfirmIndex v <= leg_start swings) swings.
Proof.
  induction 1 as [|swings w Hl [IH1 IH2] Hw Hle Hv He]; [split; constructor|]. split.
  - apply StronglySorted_app_2; [|done|by repeat constructor].
    intros v x Hin ->%list_elem_of_singleton. rewrite Forall_forall in IH2.
    specialize (IH2 v Hin). cbn in IH2. lia.
  - rewrite leg_start_snoc. destruct Hw as [_ Hi _ _ _]. apply Forall_app. split.
    + eapply Forall_impl; [exact IH2|]. cbn. lia.
    + by repeat constructor.
Qed.

(** ** Pullback merging *)

Lemma marubozu_step_total bars index :
  0 <= index <= len bars -> is_Some (marubozuReference bars index).
Proof.
  intros. unfold marubozuReference.
  destruct (loop_invariant (fun _ => True) (marubozu_step bars) (range_down (index - 1) 0) (0, f0))
    as (s & -> & _); [done| |done].
  intros [count m] i Hi%elem_of_range_down _. unfold marubozu_step.
  destruct (count <? 5); [|eauto]. read_idx. destruct (_ || _); eauto.
Qed.

Lemma validPullback_total bars from to direction config :
  0 <= from -> to < len bars -> is_Some (validPullback bars from to direction config).
Proof.
  intros. unfold validPullback.
  destruct (find_first_total (pullback_at bars direction config) (range from to)) as [r ->]; [|done].
  intros i Hi%elem_of_range. unfold pullback_at. do 2 read_idx.
  destruct (negb _); [done|]. destruct (structureMarubozu _ _); [done|].
  by destruct (marubozu_step_total bars i) as [m ->]; [lia|].
Qed.

Lemma shallow_at_total bars swings config index :
  Forall (anchored bars) swings -> 1 <= index < len swings - 1 ->
  is_Some (shallow_at bars swings config index).
Proof.
  intros Ha Hi. unfold shallow_at.
  destruct (idx_is_Some swings (index - 1)) as [f Hf]; [lia|].
  destruct (idx_is_Some swings index) as [m Hm]; [lia|].
  destruct (idx_is_Some swings (index + 1)) as [l Hl]; [lia|].
  rewrite Hf, Hm, Hl. cbn [mbind option_bind].
  assert (Hfa : anchored bars f) by (eapply Forall_forall; [done|by eapply idx_elem_of]).
  assert (Hma : anchored bars m) by (eapply Forall_forall; [done|by eapply idx_elem_of]).
  destruct Hfa as [_ ? ? _ _], Hma as [_ ? ? _ _].
  set (d := if (iwType m =? "L")%string then -1 else 1).
  destruct (validPullback_total bars (iwIndex f) (iwIndex m) d config) as [v ->]; [lia..|].
  destruct (Z.leb_spec 2 index); cbn [mbind option_bind]; [read_idx|]; done.
Qed.

(** What one round removes: two neighbours. *)
Lemma remove_pullback_spec swings index :
  1 <= index < len swings - 1 ->
  exists l1 a b l2, swings = l1 ++ a :: b :: l2 /\ remove_pullback swings index = Some (l1 ++ l2).
Proof.
  intros Hi. unfold remove_pullback. do 2 read_idx.
  assert (Hcut : forall k, 0 <= k -> k + 2 <= len swings ->
    exists l1 a b l2, swings = l1 ++ a :: b :: l2 /\
      slice_to swings k = Some l1 /\ slice_from swings (k + 2) = Some l2).
  { intros k Hk Hk2. destruct (idx_is_Some swings k) as [a Ha]; [lia|].
    destruct (idx_is_Some swings (k + 1)) as [b' Hb]; [lia|].
    apply idx_Some in Ha as [_ Ha]. apply idx_Some in Hb as [_ Hb].
    exists (take (Z.to_nat k) swings), a, b', (drop (Z.to_nat (k + 2)) swings).
    split_and!.
    - rewrite <-(take_drop (Z.to_nat k) swings) at 1. f_equal.
      rewrite (drop_S _ a) by done. f_equal.
      replace (S (Z.to_nat k)) with (Z.to_nat (k + 1)) by lia.
      rewrite (drop_S _ b') by done. f_equal. f_equal. lia.
    - unfold slice_to. by rewrite (proj2 (andb_true_iff _ _)) by lia.
    - unfold slice_from. by rewrite (proj2 (andb_true_iff _ _)) by lia. }
  destruct (if (iwType _ =? "H")%string then _ else _).
  - destruct (Hcut (index - 1)) as (l1 & x & y & l2 & -> & -> & Hl2); [lia..|].
    replace (index - 1 + 2) with (index + 1) in Hl2 by lia. rewrite Hl2. cbn. eauto 10.
  - destruct (Hcut index) as (l1 & x & y & l2 & -> & -> & ->); [lia..|]. cbn. eauto 10.
Qed.

(** No pullback is left to merge. *)
Definition settled (bars : list Bar) (swings : list indexedSwing) (config : MarketConfig) : Prop :=
  len swings < 3 \/
  forall i, 1 <= i < len swings - 1 -> shallow_at bars swings config i = Some false.

(** Merging reaches a settled slice, and keeps every property that survives
    the removal of two neighbours. *)
Lemma merge_loop_spec (P : list indexedSwing -> Prop) bars config fuel swings :
  (forall l1 a b l2, P (l1 ++ a :: b :: l2) -> P (l1 ++ l2)) ->
  P swings -> Forall (anchored bars) swings -> (List.length swings <= fuel)%nat ->
  exists swings', merge_loop fuel bars swings config = Some swings' /\ P swings' /\
    Forall (anchored bars) swings' /\ settled bars swings' config /\ swings' `sublist_of` swings.
Proof.
  intros HP. revert swings. induction fuel as [|fuel IH]; intros swings Hs Ha Hf;
    cbn [merge_loop]; destruct (Z.ltb_spec (len swings) 3) as [Hlt|Hge];
    try (exists swings; split_and!; [done..|by left|done]); [unfold len in Hge; lia|].
  destruct (find_first_total (shallow_at bars swings config) (range 1 (len swings - 1)))
    as [found Hfound].
  { intros i Hi%elem_of_range. by apply shallow_at_total. }
  rewrite Hfound. cbn. destruct found as [i|].
  - apply find_first_Some in Hfound as [Hi%elem_of_range _].
    destruct (remove_pullback_spec swings i Hi) as (l1 & a & b & l2 & -> & ->). cbn.
    destruct (IH (l1 ++ l2)) as (s' & -> & ? & ? & ? & Hsub).
    + by eapply HP.
    + apply Forall_app in Ha as [? Ha]. apply Forall_cons in Ha as [_ Ha].
      apply Forall_cons in Ha as [_ Ha]. by apply Forall_app.
    + rewrite length_app in *. cbn in Hf. lia.
    + exists s'. split_and!; try done. etrans; [exact Hsub|].
      apply sublist_app; [done|]. by do 2 apply sublist_cons.
  - exists swings. split_and!; try done. right. intros i Hi.
    by eapply find_first_None; [exact Hfound|apply elem_of_range].
Qed.

Lemma sorted_app_inv {A} (R : A -> A -> Prop) l x k :
  Sorted R (l ++ x :: k) -> Sorted R (l ++ [x]) /\ Sorted R (x :: k).
Proof.
  induction l as [|a l IH]; cbn; intros Hs; [split; [by repeat constructor|done]|].
  apply Sorted_inv in Hs as [Hs Ha]. apply IH in Hs as [H1 H2]. split; [|done].
  constructor; [done|]. destruct l; cbn in *; constructor; by apply HdRel_inv in Ha.
Qed.

(** Alternation survives the removal of two neighbours: there are two types. *)
Lemma alternating_remove l1 a b l2 :
  Forall (fun w => iwType w = "H" \/ iwType w = "L") (l1 ++ a :: b :: l2) ->
  alternating (l1 ++ a :: b :: l2) -> alternating (l1 ++ l2).
Proof.
  unfold alternating. intros Ht Hs.
  induction l1 as [|c l1 IH]; cbn in *.
  - by apply Sorted_inv in Hs as [[? _]%Sorted_inv _].
  - apply Forall_cons in Ht as [Hc Ht]. apply Sorted_inv in Hs as [Hs Hca].
    constructor; [by apply IH|]. destruct l1 as [|d l1]; cbn in *.
    + apply Sorted_inv in Hs as [Hs Hab]. apply Sorted_inv in Hs as [_ Hbl].
      destruct l2 as [|e l2]; [constructor|]. constructor.
      apply HdRel_inv in Hca, Hab, Hbl.
      rewrite !Forall_cons in Ht. destruct Ht as (Ha' & Hb' & He' & _).
      intros E. destruct Hc, Ha', Hb', He'; congruence.
    + constructor. by apply HdRel_inv in Hca.
Qed.

Lemma in_order_remove l1 a b l2 : in_order (l1 ++ a :: b :: l2) -> in_order (l1 ++ l2).
Proof.
  unfold in_order. intros (H1 & H2 & H3)%StronglySorted_app. apply StronglySorted_app.
  apply StronglySorted_cons in H3 as [_ H3]. apply StronglySorted_cons in H3 as [_ H3].
  split_and!; try done. intros x y Hx Hy. apply H1; [done|]. rewrite !elem_of_cons. auto.
Qed.

Lemma anchored_types bars swings :
  Forall (anchored bars) swings -> Forall (fun w => iwType w = "H" \/ iwType w = "L") swings.
Proof. intros. eapply Forall_impl; [done|]. by intros w []. Qed.

Lemma mergeByValidPullback_spec bars config swings :
  legs bars swings ->
  exists swings', mergeByValidPullback bars swings config = Some swings' /\
    Forall (anchored bars) swings' /\ alternating swings' /\ in_order swings' /\
    settled bars swings' config /\ swings' `sublist_of` swings.
Proof.
  intros Hl. unfold mergeByValidPullback.
  destruct (merge_loop_spec
    (fun s => Forall (fun w => iwType w = "H" \/ iwType w = "L") s /\ alternating s /\ in_order s)
    bars config (List.length swings) swings) as (s' & -> & (? & ? & ?) & ? & ? & ?).
  - intros l1 a b l2 (H1 & H2 & H3). split_and!; [|by eapply alternating_remove|by eapply in_order_remove].
    apply Forall_app in H1 as [? H1]. apply Forall_cons in H1 as [_ H1].
    apply Forall_cons in H1 as [_ H1]. by apply Forall_app.
  - split_and!; [by eapply anchored_types, legs_anchored|by eapply legs_alternating|by eapply legs_in_order].
  - by apply legs_anchored.
  - done.
  - eauto 10.
Qed.

(** ** Breakouts *)

(** The decision a breakout comes down to: the candle that closes beyond the
    line confirms when it is a marubozu or its body lies far enough beyond the
    line, unless the next candle closes back. *)
Definition closed_back (direction : Z) (line : float64) (bar : Bar) : bool :=
  ((0 <? direction) && (bClose bar <? line)%F) || ((direction <? 0) && (bClose bar >? line)%F).

Definition strong_break (config : MarketConfig) (direction : Z) (line : float64) (bar : Bar) : bool :=
  structureMarubozu bar direction || (penetration_of bar line direction >? BreakBodyBeyond config)%F.

Definition breakout_reference (bars : list Bar) (index : Z) (line : float64) (direction : Z)
    (config : MarketConfig) : option breakoutResult :=
  first ← idx bars index;
  if negb (beyond direction line (bClose first)) then Some (mkBreakout "none" 0 f0)
  else match idx bars (index + 1) with
       | None => Some (mkBreakout "pending" 0 (if 0 <? direction then bHigh first else bLow first))
       | Some second =>
           Some (mkBreakout
             (if strong_break config direction line first && negb (closed_back direction line second)
              then "valid" else "fake")
             (index + 1)
             (if 0 <? direction then fmax (bHigh first) (bHigh second)
              else fmin (bLow first) (bLow second)))
       end.

Lemma beyond_not_closed_back direction line bar :
  beyond direction line (bClose bar) = true -> closed_back direction line bar = false.
Proof.
  unfold beyond, closed_back. intros Hb.
  destruct (Z.ltb_spec 0 direction), (Z.ltb_spec direction 0); cbn in *; try lia; try done;
    rewrite ?orb_false_r in *.
  - destruct (bClose bar <? line)%F eqn:Hlt; [|done].
    pose proof (flt_trans _ _ _ Hb Hlt) as Hc. by rewrite flt_irrefl in Hc.
  - destruct (bClose bar >? line)%F eqn:Hlt; [|done].
    pose proof (flt_trans _ _ _ Hb Hlt) as Hc. by rewrite flt_irrefl in Hc.
Qed.

Lemma idx_None {A} (l : list A) i : 0 <= i -> len l <= i -> idx l i = None.
Proof.
  intros. destruct (idx l i) as [x|] eqn:E; [|done]. apply idx_bound in E. lia.
Qed.

Lemma evaluateBreakout_reference bars index line direction config :
  0 <= index < len bars ->
  evaluateBreakout bars index line direction config =
  breakout_reference bars index line direction config.
Proof.
  intros Hi. unfold evaluateBreakout, breakout_reference.
  destruct (idx_is_Some bars index) as [first Hfirst]; [lia|]. rewrite Hfirst. cbn [mbind option_bind].
  destruct (negb (beyond direction line (bClose first))); [done|].
  destruct (Z.leb_spec (len bars) (index + 1)); [by rewrite idx_None by lia|].
  destruct (idx_is_Some bars (index + 1)) as [second ->]; [lia|]. cbn [mbind option_bind].
  unfold strong_break. fold (closed_back direction line second).
  destruct (structureMarubozu first direction) eqn:Hm; cbn [andb orb].
  - destruct (beyond direction line (bClose second)) eqn:Hb.
    { rewrite (beyond_not_closed_back _ _ _ Hb). destruct (_ && _); [done|].
      destruct (marubozu_step_total bars index) as [m ->]; [lia|]. cbn. by destruct (_ && _). }
    rewrite andb_false_r. cbn [andb].
    destruct (marubozu_step_total bars index) as [m ->]; [lia|]. cbn [mbind option_bind].
    destruct (closed_back direction line second); cbn [negb]; rewrite ?andb_false_r, ?andb_true_r; [done|].
    by destruct (_ && _).
  - destruct (marubozu_step_total bars index) as [m ->]; [lia|]. cbn [mbind option_bind].
    destruct (penetration_of _ _ _ >? _)%F, (closed_back direction line second); done.
Qed.

(** ** Structure events *)

Lemma walk_back_total bars reference direction n :
  Z.of_nat n <= len bars ->
  exists s, walk_back bars reference direction n = Some s /\ 0 <= s <= Z.of_nat n.
Proof.
  induction n as [|n IH]; intros Hn; cbn [walk_back]; [eexists; split; [done|lia]|].
  read_idx. destruct (_ || _).
  - destruct IH as (s & -> & ?); [lia|]. eexists. split; [done|lia].
  - eexists. split; [done|lia].
Qed.

(** The zone of a false break reaches from the broken level to the extreme
    of the excursion. *)
Lemma falseBreakZone_total bars reference swingIndex direction :
  0 <= swingIndex < len bars ->
  exists z, falseBreakZone bars reference swingIndex direction = Some z /\
    zKind z = "false_break" /\ zSide z = (if 0 <? direction then "up" else "down") /\
    exists extreme, zTop z = fmax reference extreme /\ zBottom z = fmin reference extreme.
Proof.
  intros Hs. unfold falseBreakZone. destruct (Z.ltb_spec swingIndex 0); [lia|].
  destruct (walk_back_total bars reference direction (Z.to_nat swingIndex)) as (start & -> & Hstart); [lia|].
  cbn [mbind option_bind].
  destruct (loop_invariant (fun _ => True)
    (fun extreme index => bar ← idx bars index;
       Some (if 0 <? direction then fmax extreme (bHigh bar) else fmin extreme (bLow bar)))
    (range start (swingIndex + 1)) reference) as (extreme & -> & _); [done| |].
  { intros s i Hi%elem_of_range _. read_idx. eauto. }
  cbn [mbind option_bind]. do 2 read_idx. eexists. split; [done|]. cbn. eauto.
Qed.

Lemma find_first_range (test : Z -> option bool) lo hi b :
  find_first test (range lo hi) = Some (Some b) ->
  lo <= b < hi /\ test b = Some true /\ forall i, lo <= i < b -> test i = Some false.
Proof.
  remember (Z.to_nat (hi - lo)) as n eqn:Hn. revert lo Hn. induction n as [|n IH]; intros lo Hn.
  { rewrite range_nil by lia. done. }
  rewrite range_cons by lia. cbn [find_first]. intros (t & Ht & Hl)%bind_Some. destruct t.
  - injection Hl as <-. split_and!; [lia|lia|done|intros i Hi; lia].
  - destruct (IH (lo + 1) ltac:(lia) Hl) as (Hb & Htb & Hbefore). split_and!; [lia|lia|done|].
    intros i Hi. destruct (decide (i = lo)) as [->|]; [done|]. apply Hbefore. lia.
Qed.

(** The first close beyond a level after it and up to a swing. *)
Definition first_beyond (bars : list Bar) (level swing : indexedSwing) (direction b : Z) : Prop :=
  iwIndex level < b <= iwIndex swing /\
  (exists bar, idx bars b = Some bar /\ beyond direction (iwPrice level) (bClose bar) = true) /\
  forall i bar, iwIndex level < i < b -> idx bars i = Some bar -> beyond direction (iwPrice level) (bClose bar) = false.

Definition never_beyond (bars : list Bar) (level swing : indexedSwing) (direction : Z) : Prop :=
  forall i bar, iwIndex level < i <= iwIndex swing -> idx bars i = Some bar ->
  beyond direction (iwPrice level) (bClose bar) = false.

Definition opens_at (bars : list Bar) (i t : Z) : Prop := exists bar, idx bars i = Some bar /\ t = bOpenTime bar.

(** The event that the break of a level by a swing may append: fake when no
    close is beyond the level, and then it stands at the swing; otherwise fake
    at the first such close, or confirmed at the bar after it. *)
Record break_event (bars : list Bar) (level swing : indexedSwing) (direction : Z) (side opposite trend : string)
    (e : indexedStructure) : Prop := {
  be_side : ieSide e = side;
  be_price : iePrice e = iwPrice level;
  be_kind : (ieKind e = "FAKE" /\ exists z, ieZone e = Some z /\ zKind z = "false_break" /\ zSide z = side) \/
            (ieKind e = (if (trend =? opposite)%string then "CHoCH" else "BOS") /\ ieZone e = None);
  be_time : (never_beyond bars level swing direction /\ ieKind e = "FAKE" /\ opens_at bars (iwIndex swing) (ieTime e)) \/
            exists b, first_beyond bars level swing direction b /\
              opens_at bars (if (ieKind e =? "FAKE")%string then b else b + 1) (ieTime e)
}.

(** The trend after an event: a confirmed one sets it, a fake one leaves it. *)
Definition next_trend (trend : string) (e : indexedStructure) : string :=
  if is_confirmed e then ieSide e else trend.

Lemma break_level_total bars level swing direction side opposite trend config :
  (direction = 1 /\ side = "up" \/ direction = -1 /\ side = "down") ->
  anchored bars level -> anchored bars swing ->
  exists event trend',
    break_level bars level swing direction side opposite trend config = Some (event, trend') /\
    trend' = default trend (next_trend trend <$> event) /\
    (forall e, event = Some e -> break_event bars level swing direction side opposite trend e) /\
    (event = None -> exists b, first_beyond bars level swing direction b).
Proof.
  intros Hside [_ Hl Hl' _ _] [_ Hs Hs' _ _]. unfold break_level.
  assert (Hdir : (if 0 <? direction then "up" else "down") = side) by (by destruct Hside as [[-> ->]|[-> ->]]).
  destruct (find_first_total
    (fun current => bar ← idx bars current; Some (beyond direction (iwPrice level) (bClose bar)))
    (range (iwIndex level + 1) (iwIndex swing + 1))) as [found Hfound].
  { intros i Hi%elem_of_range. by read_idx. }
  rewrite Hfound. cbn [mbind option_bind].
  destruct (falseBreakZone_total bars (iwPrice level) (iwIndex swing) direction)
    as (zone & Hzone & Hk & Hzs & _); [lia|]. rewrite Hdir in Hzs. rewrite Hzone.
  assert (Hfake : forall t, opens_at bars (default (iwIndex swing) found) t ->
      (found = None -> never_beyond bars level swing direction) ->
      (forall b, found = Some b -> first_beyond bars level swing direction b) ->
      break_event bars level swing direction side opposite trend
      (mkIndexedStructure "FAKE" side (iwPrice level) t (Some zone))).
  { intros t Ht Hnone Hsome. split; [done..| |].
    - left. split; [done|]. by exists zone.
    - destruct found as [b|]; [right; exists b; split; [by apply Hsome|done]|left; split_and!; [by apply Hnone|done|done]]. }
  destruct found as [b|]; cbn [mbind option_bind default] in *.
  - assert (Hfirst : first_beyond bars level swing direction b).
    { destruct (find_first_range _ _ _ _ Hfound) as (Hb & Htest & Hbefore).
      apply bind_Some in Htest as (bar & Hbar & [= Hbeyond]). split_and!; [lia|lia|by exists bar|].
      intros i x Hi Hx. specialize (Hbefore i ltac:(lia)). rewrite Hx in Hbefore. by injection Hbefore. }
    apply find_first_Some in Hfound as [Hb%elem_of_range _].
    destruct (idx_is_Some bars b) as [first Hidx]; [lia|].
    rewrite evaluateBreakout_reference by lia. unfold breakout_reference. rewrite Hidx. cbn [mbind option_bind].
    destruct (negb _); cbn; [eexists _, _; split_and!; [done|done|done|by exists b]|].
    destruct (idx bars (b + 1)) as [second|] eqn:Hsecond;
      [|eexists _, _; split_and!; [done|done|done|by exists b]].
    destruct (_ && _); cbn.
    + rewrite Hsecond. eexists _, _. split; [done|]. split_and!; [|intros e [= <-]|done].
      * unfold next_trend, is_confirmed. cbn. by destruct (trend =? opposite)%string.
      * split; cbn; [done..|by right|]. right. exists b. split; [done|]. exists second.
        by destruct (trend =? opposite)%string.
    + eexists _, _. split; [done|]. split; [done|]. split; [|done]. intros e [= <-].
      apply Hfake; [by exists first|done|by intros ? [= <-]].
  - read_idx. eexists _, _. split; [done|]. split; [done|]. split; [|done]. intros e [= <-].
    apply Hfake; [by eexists|intros _|done]. intros i bar Hi Hbar.
    pose proof (find_first_None _ _ Hfound i ltac:(apply elem_of_range; lia)) as Hn. cbn beta in Hn. rewrite Hbar in Hn. by injection Hn.
Qed.

Definition opposite_side (side : string) : string :=
  if (side =? "up")%string then "down" else "up".

(** The last swing of a type among some swings. *)
Definition last_of (type : string) (swings : list indexedSwing) : option indexedSwing :=
  last (List.filter (fun w => iwType w =? type)%string swings).

(** The direction a swing breaks a level in, and whether its extreme is beyond
    the level's. *)
Definition swing_direction (w : indexedSwing) : Z := if (iwType w =? "H")%string then 1 else -1.
Definition exceeds (w level : indexedSwing) : Prop := beyond (swing_direction w) (iwPrice level) (iwPrice w) = true.

(** One event of a structure history, appended at swing [w] after the swings
    [swings] and the trend [trend]: [w] exceeds the last swing of its own type,
    at whose price the event stands. *)
Record event_ok (bars : list Bar) (swings : list indexedSwing) (w : indexedSwing) (trend : string)
    (e : indexedStructure) : Prop := {
  eo_side : ieSide e = if (iwType w =? "H")%string then "up" else "down";
  eo_kind : (ieKind e = "FAKE" /\ is_Some (ieZone e)) \/
            (ieKind e = (if (trend =? opposite_side (ieSide e))%string then "CHoCH" else "BOS") /\
             ieZone e = None);
  eo_level : exists level, last_of (iwType w) swings = Some level /\ exceeds w level /\ iePrice e = iwPrice level /\
    ((never_beyond bars level w (swing_direction w) /\ ieKind e = "FAKE" /\ opens_at bars (iwIndex w) (ieTime e)) \/
     exists b, first_beyond bars level w (swing_direction w) b /\
       opens_at bars (if (ieKind e =? "FAKE")%string then b else b + 1) (ieTime e))
}.

(** A history of structure events is coherent: swing by swing, every event is
    read against the swings before it and the trend that the confirmed events
    before it established; a swing that exceeds the last one of its type goes
    without an event only when a bar has closed beyond that level. *)
Inductive coherent (bars : list Bar) : list indexedSwing -> list indexedStructure -> string -> Prop :=
  | coherent_nil : coherent bars [] [] "range"
  | coherent_quiet swings events trend w :
      coherent bars swings events trend ->
      (forall level, last_of (iwType w) swings = Some level -> exceeds w level ->
         exists b, first_beyond bars level w (swing_direction w) b) ->
      coherent bars (swings ++ [w]) events trend
  | coherent_event swings events trend w e :
      coherent bars swings events trend -> event_ok bars swings w trend e ->
      coherent bars (swings ++ [w]) (events ++ [e]) (next_trend trend e).

Record scan_inv (bars : list Bar) (swings : list indexedSwing) (st : scanState) : Prop := {
  si_events : coherent bars swings (scEvents st) (scTrend st);
  si_high : scLastHigh st = last_of "H" swings;
  si_low : scLastLow st = last_of "L" swings
}.

Lemma last_of_snoc type swings w :
  last_of type (swings ++ [w]) = if (iwType w =? type)%string then Some w else last_of type swings.
Proof.
  unfold last_of. rewrite List.filter_app. cbn. destruct (_ =? _)%string; [by rewrite last_snoc|by rewrite app_nil_r].
Qed.

Lemma last_of_elem type swings w : last_of type swings = Some w -> w ∈ swings /\ iwType w = type.
Proof.
  unfold last_of. intros Hl. assert (Hin : w ∈ List.filter (fun w => iwType w =? type)%string swings).
  { rewrite last_lookup in Hl. by eapply list_elem_of_lookup_2. }
  apply list_elem_of_In, filter_In in Hin as [Hin ?%String.eqb_eq]. by apply list_elem_of_In in Hin.
Qed.

(** One swing, against the last one of its type. *)
Lemma coherent_break bars swings events trend w level event side :
  coherent bars swings events trend -> last_of (iwType w) swings = Some level -> exceeds w level ->
  side = (if (iwType w =? "H")%string then "up" else "down") ->
  (forall e, event = Some e ->
     break_event bars level w (swing_direction w) side (opposite_side side) trend e) ->
  (event = None -> exists b, first_beyond bars level w (swing_direction w) b) ->
  coherent bars (swings ++ [w]) (append_opt events event) (default trend (next_trend trend <$> event)).
Proof.
  intros Hc Hlast Hex -> He Hnone. destruct event as [e|]; cbn.
  - destruct (He e eq_refl) as [Hs Hp Hk Ht]. apply coherent_event; [done|]. split; [done| |by exists level].
    rewrite Hs. destruct Hk as [[? (z & ? & _)]|?]; [left|by right]. split; [done|]. by exists z.
  - apply coherent_quiet; [done|]. intros level' Hl' _. rewrite Hlast in Hl'. injection Hl' as <-. by apply Hnone.
Qed.

Lemma coherent_skip bars swings events trend w :
  coherent bars swings events trend ->
  (forall level, last_of (iwType w) swings = Some level -> ~ exceeds w level) -> coherent bars (swings ++ [w]) events trend.
Proof. intros Hc Hn. apply coherent_quiet; [done|]. intros level Hl Hex. by destruct (Hn level Hl). Qed.

Lemma exceeds_high w level : iwType w = "H" -> exceeds w level <-> (iwPrice w >? iwPrice level)%F = true.
Proof. intros Ht. unfold exceeds, swing_direction, beyond. rewrite Ht. cbn. by rewrite orb_false_r. Qed.
Lemma exceeds_low w level : iwType w = "L" -> exceeds w level <-> (iwPrice w <? iwPrice level)%F = true.
Proof. intros Ht. unfold exceeds, swing_direction, beyond. by rewrite Ht. Qed.

Lemma scan_step_total bars swings config st w :
  Forall (anchored bars) swings -> anchored bars w -> scan_inv bars swings st ->
  exists st', scan_step bars config st w = Some st' /\ scan_inv bars (swings ++ [w]) st'.
Proof.
  intros Ha Haw [He Hh Hl]. rewrite Forall_forall in Ha. unfold scan_step.
  destruct (String.eqb_spec (iwType w) "H") as [Hty|Hty].
  - assert (Hnext : forall events trend, coherent bars (swings ++ [w]) events trend ->
      scan_inv bars (swings ++ [w]) (mkScan events trend (Some w) (scLastLow st))).
    { intros events trend Hc. split; cbn; [done|by rewrite last_of_snoc, Hty|by rewrite last_of_snoc, Hty]. }
    destruct (scLastHigh st) as [v|] eqn:Hv; [destruct (iwPrice w >? iwPrice v)%F eqn:Hgt|]; cbn [mbind option_bind].
    + destruct (last_of_elem "H" swings v) as [Hvin Hvt]; [done|].
      destruct (break_level_total bars v w 1 "up" "down" (scTrend st) config)
        as (e & t & -> & -> & Hev & Hnone); [by left|by apply Ha|done|].
      eexists. split; [done|]. apply Hnext. assert (Hd : swing_direction w = 1) by (unfold swing_direction; by rewrite Hty).
      eapply (coherent_break bars swings _ _ w v e "up"); rewrite ?Hd, ?Hty; try done. by apply exceeds_high.
    + eexists. split; [done|]. apply Hnext, coherent_skip; [done|]. rewrite Hty, <-Hh. intros level [= <-].
      rewrite exceeds_high by done. by rewrite Hgt.
    + eexists. split; [done|]. apply Hnext, coherent_skip; [done|]. by rewrite Hty, <-Hh.
  - assert (HL : iwType w = "L") by (by destruct (an_type _ _ Haw)).
    assert (Hnext : forall events trend, coherent bars (swings ++ [w]) events trend ->
      scan_inv bars (swings ++ [w]) (mkScan events trend (scLastHigh st) (Some w))).
    { intros events trend Hc. split; cbn; [done|by rewrite last_of_snoc, HL|by rewrite last_of_snoc, HL]. }
    destruct (scLastLow st) as [v|] eqn:Hv; [destruct (iwPrice w <? iwPrice v)%F eqn:Hgt|]; cbn [mbind option_bind].
    + destruct (last_of_elem "L" swings v) as [Hvin Hvt]; [done|].
      destruct (break_level_total bars v w (-1) "down" "up" (scTrend st) config)
        as (e & t & -> & -> & Hev & Hnone); [by right|by apply Ha|done|].
      eexists. split; [done|]. apply Hnext. assert (Hd : swing_direction w = -1) by (unfold swing_direction; by rewrite HL).
      eapply (coherent_break bars swings _ _ w v e "down"); rewrite ?Hd, ?HL; try done. by apply exceeds_low.
    + eexists. split; [done|]. apply Hnext, coherent_skip; [done|]. rewrite HL, <-Hl. intros level [= <-].
      rewrite exceeds_low by done. by rewrite Hgt.
    + eexists. split; [done|]. apply Hnext, coherent_skip; [done|]. by rewrite HL, <-Hl.
Qed.

Lemma scan_loop bars config swings : forall before st,
  Forall (anchored bars) (before ++ swings) -> scan_inv bars before st ->
  exists st', loop (scan_step bars config) swings st = Some st' /\ scan_inv bars (before ++ swings) st'.
Proof.
  induction swings as [|w swings IH]; intros before st Ha Hst; cbn [loop].
  { exists st. by rewrite app_nil_r. }
  pose proof Ha as [Hb [Hw _]%Forall_cons]%Forall_app.
  destruct (scan_step_total bars before config st w Hb Hw Hst) as (st1 & -> & Hst1). cbn [mbind option_bind].
  destruct (IH (before ++ [w]) st1) as (st' & Hrun & Hst'); rewrite <-?app_assoc in *; [done|done|]. by exists st'.
Qed.

Lemma scanBreaks_coherent bars swings config :
  Forall (anchored bars) swings ->
  exists events trend, scanBreaks bars swings config = Some events /\ coherent bars swings events trend.
Proof.
  intros Ha. unfold scanBreaks.
  destruct (scan_loop bars config swings [] (mkScan [] "range" None None)) as (st & -> & Hst); [done| |].
  - split; cbn; [constructor|done..].
  - cbn. eexists _, _. split; [done|]. apply Hst.
Qed.

(** The trend that the scan tracks is the one [marketTrend] reports. *)
Lemma coherent_trend bars swings events trend :
  coherent bars swings events trend ->
  trend = match List.find is_confirmed (rev events) with Some e => ieSide e | None => "range" end.
Proof.
  induction 1 as [|swings events trend w Hc IH _|swings events trend w e Hc IH He]; [done|done|]. rewrite rev_app_distr. cbn.
  unfold next_trend. by destruct (is_confirmed e).
Qed.

Lemma coherent_side bars swings events trend :
  coherent bars swings events trend -> trend ∈ ["range"; "up"; "down"].
Proof.
  induction 1 as [|swings events trend w Hc IH _|swings events trend w e Hc IH [Hs _ _]]; [by left|done|].
  unfold next_trend. destruct (is_confirmed e); [|done]. rewrite Hs. destruct (_ =? _)%string; set_solver.
Qed.

Lemma marketTrend_values bars swings sw events trend hasRange :
  coherent bars sw events trend -> marketTrend swings events hasRange ∈ ["range"; "up"; "down"].
Proof.
  intros Hc. pose proof (coherent_side _ _ _ _ Hc) as Hs. rewrite (coherent_trend _ _ _ _ Hc) in Hs.
  unfold marketTrend. destruct (List.find _ _); [done|].
  destruct hasRange; [set_solver|].
  destruct (foldl _ _ _) as [[|h0 [|h1 [|]]] [|l0 [|l1 [|]]]]; try set_solver.
  repeat case_match; set_solver.
Qed.

(** ** Labels *)

(** A label fits the swing: highs are HH or LH, lows HL or LL, and the empty
    label only stays where there is nothing to compare with. *)
Definition label_fits (w : indexedSwing) : Prop :=
  iwLabel w ∈ (if (iwType w =? "H")%string then [""; "HH"; "LH"] else [""; "HL"; "LL"]).

Definition relabelled (w w' : indexedSwing) : Prop := w' = set_label w (iwLabel w') /\ label_fits w'.

Lemma label_step_relabelled confirmed acc w :
  iwLabel w = "" ->
  exists w', (label_step confirmed acc w).1.1 = acc.1.1 ++ [w'] /\ relabelled w w'.
Proof.
  destruct acc as [[out lh] ll]. intros Hl. unfold label_step.
  destruct (iwType w =? "H")%string eqn:Ht; cbn [fst];
    (eexists; split; [done|]; split; [done|]; unfold label_fits; cbn; rewrite Ht, ?Hl);
    repeat case_match; set_solver.
Qed.

Lemma label_fold confirmed swings acc :
  Forall (fun w => iwLabel w = "") swings ->
  exists out, (foldl (label_step confirmed) acc swings).1.1 = acc.1.1 ++ out /\ Forall2 relabelled swings out.
Proof.
  revert acc. induction swings as [|w swings IH]; intros acc Hl.
  - exists []. by rewrite app_nil_r.
  - apply Forall_cons in Hl as [Hw Hl]. cbn.
    destruct (IH (label_step confirmed acc w) Hl) as (out & -> & Hout).
    destruct (label_step_relabelled confirmed acc w Hw) as (w' & -> & Hw').
    exists (w' :: out). rewrite <-app_assoc. split; [done|]. by constructor.
Qed.

Lemma labelSwings_relabelled `{Runtime} swings events :
  Forall (fun w => iwLabel w = "") swings ->
  Forall2 relabelled swings (labelSwings swings events).
Proof.
  intros Hl. unfold labelSwings.
  destruct (label_fold (sort_slice (fun a b => ieTime a <? ieTime b) (List.filter is_confirmed events))
    swings ([], nan, nan) Hl) as (out & Heq & Hout).
  cbn in Heq. by rewrite Heq.
Qed.

(** ** Key levels *)

Lemma slice_to_total {A} (l : list A) i :
  0 <= i <= len l -> slice_to l i = Some (take (Z.to_nat i) l).
Proof. intros. unfold slice_to. by rewrite (proj2 (andb_true_iff _ _)) by lia. Qed.

Lemma slice_from_total {A} (l : list A) i :
  0 <= i <= len l -> slice_from l i = Some (drop (Z.to_nat i) l).
Proof. intros. unfold slice_from. by rewrite (proj2 (andb_true_iff _ _)) by lia. Qed.

(** Each cluster stands at the price of one of the swings and counts its
    touches, and no touch is lost. *)
Definition level_cluster (swings : list indexedSwing) (c : cluster) : Prop :=
  1 <= clTouches c /\ exists w, w ∈ swings /\ clPrice c = iwPrice w.

Lemma add_level_spec tolerance swings cs w :
  w ∈ swings -> Forall (level_cluster swings) cs ->
  Forall (level_cluster swings) (add_level tolerance cs w) /\
  total_touches (add_level tolerance cs w) = total_touches cs + 1.
Proof.
  intros Hw. induction cs as [|c cs IH]; intros Hcs; cbn.
  - split; [|lia]. constructor; [|done]. split; cbn; [lia|eauto].
  - apply Forall_cons in Hcs as [Hc Hcs]. destruct (_ <? _)%F; cbn.
    + split; [|lia]. constructor; [|done]. destruct Hc as [? Hc]. split; cbn; [lia|done].
    + destruct (IH Hcs) as [? IHt]. unfold total_touches in IHt. split; [by constructor|lia].
Qed.

Lemma add_levels_spec tolerance swings l cs :
  (forall w, w ∈ l -> w ∈ swings) -> Forall (level_cluster swings) cs ->
  Forall (level_cluster swings) (foldl (add_level tolerance) cs l) /\
  total_touches (foldl (add_level tolerance) cs l) = total_touches cs + len l.
Proof.
  revert cs. induction l as [|w l IH]; intros cs Hl Hcs; [split; [done|]; cbn [foldl]; unfold len; cbn; lia|]; cbn [foldl].
  destruct (add_level_spec tolerance swings cs w) as [H1 H2]; [apply Hl; by left|done|].
  destruct (IH (add_level tolerance cs w)) as [? Ht]; [set_solver|done|].
  rewrite len_cons. split; [done|lia].
Qed.

Lemma strict_weak_level_less : StrictWeak level_less.
Proof.
  unfold level_less. split.
  - intros x. rewrite !Z.ltb_irrefl. by rewrite andb_false_r.
  - intros x y z. rewrite !orb_true_iff, !andb_true_iff, !Z.ltb_lt, !Z.eqb_eq. lia.
  - intros x y z. rewrite <-!not_true_iff_false, !orb_true_iff, !andb_true_iff, !Z.ltb_lt, !Z.eqb_eq. lia.
Qed.

(** One published level: the price of an earlier swing, within the allowed
    distance of the last close, on the side of it that its name says. *)
Definition level_ok (config : MarketConfig) (swings : list indexedSwing) (lastPrice : float64)
    (l : PriceLevel) : Prop :=
  plKind l = "key_level" /\ 1 <= plTouches l /\
  (exists w, w ∈ swings /\ plPrice l = iwPrice w) /\
  (fabs (plPrice l - lastPrice) / lastPrice <=? MaxLevelDistance config)%F = true /\
  plSide l = (if (plPrice l >=? lastPrice)%F then "resistance" else "support").

Lemma sorted_map_take {A B} (R : A -> A -> Prop) (S : B -> B -> Prop) (f : A -> B) n l :
  (forall x y, R x y -> S (f x) (f y)) -> StronglySorted R l -> StronglySorted S (map f (take n l)).
Proof.
  intros HRS Hs. revert n. induction Hs as [|x l Hs IH Hx]; intros [|n]; cbn; try constructor; [apply IH|].
  apply Forall_map, Forall_take. eapply Forall_impl; [exact Hx|]. auto.
Qed.

Lemma keyLevels_spec `{Runtime} bars swings config :
  bars <> [] -> 0 <= LevelSwingLag config -> 0 <= MaxLevels config ->
  exists levels last, keyLevels bars swings config = Some levels /\ idx_last bars = Some last /\
    len levels <= MaxLevels config /\
    Forall (level_ok config swings (bClose last)) levels /\
    StronglySorted (fun a b => plTouches b <= plTouches a) levels.
Proof.
  intros Hne Hlag Hmax. unfold keyLevels. pose proof (len_nonneg swings).
  rewrite slice_to_total by lia. cbn [mbind option_bind].
  destruct (idx_last_total bars Hne) as [last Hlast]. rewrite Hlast. cbn [mbind option_bind].
  set (established := take _ swings).
  set (clusters := foldl _ _ _). set (near := List.filter _ _).
  set (ranked := sort_slice level_less near).
  set (kept := take (Z.to_nat (MaxLevels config)) ranked).
  assert (Hkept : (if MaxLevels config <? len ranked then slice_to ranked (MaxLevels config)
                   else Some ranked) = Some kept).
  { destruct (Z.ltb_spec (MaxLevels config) (len ranked)); [by rewrite slice_to_total by lia|].
    unfold kept. rewrite take_ge; [done|]. unfold len in *. lia. }
  rewrite Hkept. cbn [mbind option_bind]. eexists _, last. split_and!; [done..| | |].
  - unfold len. rewrite length_map. unfold kept. rewrite length_take. lia.
  - apply Forall_map, Forall_take. apply Forall_forall. intros c Hc.
    assert (Hc' : c ∈ near) by (by rewrite <-(sort_slice_perm _ level_less near)).
    apply list_elem_of_In, filter_In in Hc' as [Hc' Hd]. apply list_elem_of_In in Hc'.
    destruct (add_levels_spec (LevelClusterTol config) swings established []) as [Hall _];
      [intros w (i & Hw & _)%elem_of_take; by eapply list_elem_of_lookup_2|done|].
    rewrite Forall_forall in Hall. destruct (Hall c Hc') as [? ?]. by split_and!.
  - eapply sorted_map_take; [|exact (sort_slice_sorted _ level_less near strict_weak_level_less)].
    intros a b. cbn. unfold level_less. rewrite orb_false_iff, Z.ltb_ge. lia.
Qed.

(** ** Ranges *)

Lemma elem_of_drop_weaken {A} n (l : list A) x : x ∈ drop n l -> x ∈ l.
Proof. intros Hx. rewrite <-(take_drop n l). apply elem_of_app. by right. Qed.

Lemma elem_of_rev {A} (l : list A) x : x ∈ rev l -> x ∈ l.
Proof. by rewrite !list_elem_of_In, <-in_rev. Qed.

Lemma median_elem values : values <> [] -> exists m, median values = Some m /\ m ∈ values.
Proof.
  intros Hne. unfold median.
  assert (Hlen : 1 <= len values) by (destruct values as [|v values]; [done|]; rewrite len_cons;
    pose proof (len_nonneg values); lia).
  destruct (idx_is_Some (sort_stable float_less values) (len values / 2)) as [m Hm].
  { replace (len (sort_stable float_less values)) with (len values)
      by (unfold len; by rewrite sort_stable_length).
    pose proof (Z.div_lt (len values) 2). pose proof (Z.div_pos (len values) 2). lia. }
  exists m. split; [done|]. apply idx_elem_of in Hm. by apply sort_stable_elem in Hm.
Qed.

Lemma spread_total middle values : values <> [] -> is_Some (spread middle values).
Proof.
  intros Hne. unfold spread. destruct (idx_is_Some values 0) as [v ->].
  - destruct values as [|v values]; [done|]. rewrite len_cons. pose proof (len_nonneg values). lia.
  - cbn [mbind option_bind]. by destruct (foldl _ (v, v) _).
Qed.

Lemma len_ne_nil {A} (l : list A) : 1 <= len l -> l <> [].
Proof. intros ? ->. rewrite len_nil in *. lia. Qed.

(** A range spans the medians of recent highs and lows, the low one strictly
    below the high one. *)
Definition range_ok (swings : list indexedSwing) (z : PriceZone) : Prop :=
  zKind z = "range" /\ zSide z = "flat" /\ fle (zTop z) (zBottom z) = false /\
  (exists w, w ∈ swings /\ iwType w = "H" /\ zTop z = iwPrice w) /\
  (exists w, w ∈ swings /\ iwType w <> "H" /\ zBottom z = iwPrice w).

Lemma prices_of_elem high swings p :
  p ∈ prices_of high swings ->
  exists w, w ∈ swings /\ p = iwPrice w /\ (if high then iwType w = "H" else iwType w <> "H").
Proof.
  unfold prices_of. intros (w & -> & Hw)%list_elem_of_fmap. exists w.
  apply list_elem_of_In, filter_In in Hw as [Hw Ht]. apply list_elem_of_In in Hw. split_and!; [done..|].
  apply Bool.eqb_prop in Ht. destruct (String.eqb_spec (iwType w) "H"), high; done.
Qed.

Lemma detectRange_spec bars swings config :
  bars <> [] ->
  exists r, detectRange bars swings config = Some r /\ forall z, r = Some z -> range_ok swings z.
Proof.
  intros Hne. unfold detectRange. pose proof (len_nonneg swings).
  rewrite slice_from_total by lia. cbn [mbind option_bind]. set (recent := drop _ swings).
  destruct (Z.ltb_spec (len (prices_of true recent)) 2), (Z.ltb_spec (len (prices_of false recent)) 2);
    cbn [orb]; try (by eexists).
  destruct (len recent <? RangeMinSwings config); [by eexists|].
  destruct (median_elem (prices_of true recent)) as (top & -> & Htop); [apply len_ne_nil; lia|].
  destruct (median_elem (prices_of false recent)) as (bottom & -> & Hbottom); [apply len_ne_nil; lia|].
  cbn [mbind option_bind]. set (middle := ((top + bottom) / of_int 2)%F).
  destruct (spread_total middle (prices_of true recent)) as [sh ->]; [apply len_ne_nil; lia|].
  destruct (spread_total middle (prices_of false recent)) as [sl ->]; [apply len_ne_nil; lia|].
  cbn [mbind option_bind].
  destruct (_ || _ || _ || _) eqn:Htest; [by eexists|]. apply orb_false_iff in Htest as [_ Hle].
  apply prices_of_elem in Htop as (wh & Hwh & -> & Hth).
  apply prices_of_elem in Hbottom as (wl & Hwl & -> & Htl).
  assert (Hin : forall w, w ∈ recent -> w ∈ swings) by (intros w; apply elem_of_drop_weaken).
  destruct (idx_is_Some recent 0) as [from ->].
  { apply list_elem_of_lookup in Hwh as [i Hi]. apply lookup_lt_Some in Hi. unfold len. lia. }
  destruct (idx_last_total bars Hne) as [last ->]. cbn [mbind option_bind].
  eexists. split; [done|]. intros z [= <-]. split_and!; cbn; eauto.
Qed.

(** ** Premium and discount *)

Lemma last_pair_elem t u rev_swings a b :
  last_pair t u rev_swings = (Some a, b) ->
  iwType a = t /\ a ∈ rev_swings /\ forall v, b = Some v -> iwType v = u /\ v ∈ rev_swings.
Proof.
  induction rev_swings as [|w l IH]; cbn; [done|].
  destruct (String.eqb_spec (iwType w) t) as [Ht|]; cbn.
  - intros [= -> <-]. split_and!; [done|by left|]. intros v Hv. apply find_some in Hv as [Hv Hu].
    split; [by apply String.eqb_eq|]. right. by apply list_elem_of_In.
  - intros (? & ? & Hb)%IH. split_and!; [done|by right|]. intros v [? ?]%Hb. split; [done|by right].
Qed.

(** The zone spans a swing high above a swing low; its point of interest lies
    in the discount half of an upward or flat market and in the premium half
    of a downward one. *)
Definition premium_ok (swings : list indexedSwing) (trend : string) (p : PremiumDiscount) : Prop :=
  pdTrend p = trend /\ fle (pdHigh p) (pdLow p) = false /\
  (exists h, h ∈ swings /\ iwType h = "H" /\ pdHigh p = iwPrice h) /\
  (exists l, l ∈ swings /\ iwType l = "L" /\ pdLow p = iwPrice l) /\
  (exists x y, pdPOITop p = fmax x y /\ pdPOIBottom p = fmin x y).

Lemma premiumDiscount_spec bars swings trend :
  bars <> [] ->
  exists r, premiumDiscount bars swings trend = Some r /\ forall p, r = Some p -> premium_ok swings trend p.
Proof.
  intros Hne. unfold premiumDiscount. destruct (len swings <? 2); [by eexists|].
  destruct (idx_last_total bars Hne) as [last ->].
  assert (Hpair : forall high low, 
    (if negb (trend =? "down")%string then last_pair "H" "L" (rev swings)
     else let '(l, h) := last_pair "L" "H" (rev swings) in (h, l)) = (Some high, Some low) ->
    (iwType high = "H" /\ high ∈ swings) /\ (iwType low = "L" /\ low ∈ swings)).
  { intros high low. destruct (negb _).
    - intros (? & ?%elem_of_rev & Hl)%last_pair_elem. destruct (Hl low eq_refl) as [? ?%elem_of_rev]. auto.
    - destruct (last_pair _ _ _) as [[l|] [h|]] eqn:E; try done. intros [= -> ->].
      apply last_pair_elem in E as (? & ?%elem_of_rev & Hl).
      destruct (Hl high eq_refl) as [? ?%elem_of_rev]. auto. }
  destruct (if negb _ then _ else _) as [[high|] [low|]]; try (by eexists).
  destruct (Hpair high low eq_refl) as [[? ?] [? ?]].
  destruct (iwPrice high <=? iwPrice low)%F eqn:Hle; [by eexists|].
  destruct (negb _); cbn [mbind option_bind]; eexists; (split; [done|]);
    intros p [= <-]; split_and!; cbn; eauto 10.
Qed.

(** ** [EvaluateMarket] *)

(** The parameters for which evaluation cannot go out of range. *)
Record config_ok (config : MarketConfig) : Prop := {
  co_atr : 1 <= ATRPeriod config;
  co_recent : 0 <= RecentBars config;
  co_lag : 0 <= LevelSwingLag config;
  co_levels : 0 <= MaxLevels config
}.

(** What every published market state satisfies, whatever the bars are. *)
Record market_ok (closed : list Bar) (config : MarketConfig) (s : MarketState) : Prop := {
  mo_trend : msTrend s ∈ ["range"; "up"; "down"];
  mo_swings : Sorted (fun a b => swType a <> swType b) (msSwings s);
  mo_labels : Forall (fun w => swLabel w ∈ (if (swType w =? "H")%string
                                            then [""; "HH"; "LH"] else [""; "HL"; "LL"])) (msSwings s);
  mo_structure : Forall (fun e => seKind e ∈ ["FAKE"; "BOS"; "CHoCH"] /\
                                  (seKind e = "FAKE" <-> is_Some (seZone e))) (msStructure s);
  mo_ranges : len (msRanges s) <= 1 /\ Forall (fun z => fle (zTop z) (zBottom z) = false) (msRanges s);
  mo_levels : len (msKeyLevels s) <= MaxLevels config;
  mo_fvgs : len (msFVGs s) <= 8 /\ Forall (unfilled_gap closed) (msFVGs s);
  mo_blocks : len (msOrderBlocks s) <= 6;
  mo_liquidity : len (msLiquidity s) <= 6 /\ Forall (fun l => 2 <= plTouches l) (msLiquidity s);
  mo_patterns : len (msPatterns s) <= 12;
  mo_occurrences : msPatternOccurrences s = [] /\ msZoneTransitions s = []
}.

Lemma coherent_events bars swings events trend :
  coherent bars swings events trend ->
  Forall (fun e => ieKind e ∈ ["FAKE"; "BOS"; "CHoCH"] /\
                   (ieKind e = "FAKE" <-> is_Some (ieZone e))) events.
Proof.
  induction 1 as [|swings events trend w Hc IH _|swings events trend w e Hc IH [_ Hk _]]; [constructor|done|].
  apply Forall_app. split; [done|]. apply Forall_singleton.
  destruct Hk as [[-> ?]|[-> ->]]; [split; [set_solver|done]|].
  destruct (_ =? _)%string; (split; [set_solver|split; [done|by intros [? ?]]]).
Qed.

Lemma zigzag_unlabelled bars config swings :
  zigzag bars config = Some swings -> Forall (fun w => iwLabel w = "") swings.
Proof.
  unfold zigzag. intros (atr & _ & H)%bind_Some. apply bind_Some in H as (st & Hst & [= <-]).
  eapply (loop_inv_elim (fun st => Forall (fun w => iwLabel w = "") (zgSwings st)));
    [exact Hst|constructor|].
  intros s i s' _ Hs Hstep. unfold zigzag_step in Hstep.
  apply bind_Some in Hstep as (? & _ & Hstep). apply bind_Some in Hstep as (? & _ & Hstep).
  apply bind_Some in Hstep as (? & _ & Hstep). apply bind_Some in Hstep as (? & _ & Hstep).
  apply bind_Some in Hstep as (? & _ & Hstep). apply bind_Some in Hstep as (ch & _ & Hstep).
  destruct ch; simplify_eq; cbn; [apply Forall_app; split; [done|by apply Forall_singleton]|].
  apply bind_Some in Hstep as (cl & _ & Hstep).
  destruct cl; simplify_eq; cbn; [|done]. apply Forall_app. split; [done|by apply Forall_singleton].
Qed.

Lemma swings_of_spec bars config :
  bars <> [] -> 1 <= ATRPeriod config ->
  exists zz merged, zigzag bars config = Some zz /\ mergeByValidPullback bars zz config = Some merged /\
    Forall (anchored bars) merged /\ alternating merged /\ Forall (fun w => iwLabel w = "") merged.
Proof.
  intros Hne Hp. destruct (zigzag_legs bars config Hne Hp) as (zz & Hzz & Hl).
  destruct (mergeByValidPullback_spec bars config zz Hl) as (m & Hm & Ha & Halt & _ & _ & Hsub).
  exists zz, m. split_and!; try done. apply Forall_forall. intros w Hw.
  pose proof (zigzag_unlabelled _ _ _ Hzz) as Hu. rewrite Forall_forall in Hu. apply Hu.
  by eapply sublist_subseteq.
Qed.

Lemma relabelled_alternating l l' :
  Forall2 relabelled l l' -> alternating l -> alternating l'.
Proof.
  unfold alternating. induction 1 as [|w w' l l' [Hw _] Hl IH]; [done|].
  intros [Hs Hd]%Sorted_inv. constructor; [auto|].
  destruct Hl as [|v v' ? ? [Hv _] ?]; constructor. apply HdRel_inv in Hd. by rewrite Hw, Hv.
Qed.

Lemma published_swings l l' :
  Forall2 relabelled l l' -> alternating l ->
  Sorted (fun a b => swType a <> swType b) (publicSwings l') /\
  Forall (fun w => swLabel w ∈ (if (swType w =? "H")%string
                                then [""; "HH"; "LH"] else [""; "HL"; "LL"])) (publicSwings l').
Proof.
  intros Hr Ha. pose proof (relabelled_alternating _ _ Hr Ha) as Ha'. split.
  - unfold publicSwings. clear Hr Ha. induction Ha' as [|w l' Hs IH Hd]; cbn; constructor; [done|].
    destruct Hd; constructor. done.
  - unfold publicSwings. apply Forall_map. clear Ha Ha'. induction Hr as [|w w' ? ? [_ Hf]]; by constructor.
Qed.

Lemma evaluate_structure_ok `{Runtime} closed config state :
  config_ok config -> closed <> [] -> market_ok closed config state ->
  exists s, evaluate_structure closed config state = Some s /\ market_ok closed config s.
Proof.
  intros [Hatr Hrec Hlag Hlev] Hne Hok. unfold evaluate_structure. pose proof (len_nonneg closed).
  set (recent := if RecentBars config <? len closed
                 then drop (Z.to_nat (len closed - RecentBars config)) closed else closed).
  set (offset := if RecentBars config <? len closed then len closed - RecentBars config else 0).
  assert (Hcut : (if RecentBars config <? len closed
       then recent ← slice_from closed (len closed - RecentBars config);
            Some (recent, len closed - RecentBars config)
       else Some (closed, 0)) = Some (recent, offset)).
  { unfold recent, offset. destruct (Z.ltb_spec (RecentBars config) (len closed)); [|done].
    by rewrite slice_from_total by lia. }
  rewrite Hcut. cbn [mbind option_bind]. destruct (Z.ltb_spec (len recent) (ATRPeriod config + 4)); [eauto|].
  assert (Hrne : recent <> []) by (apply len_ne_nil; lia).
  destruct (swings_of_spec recent config Hrne Hatr) as (zz & merged & -> & Hm & Ha & Halt & Hun).
  cbn [mbind option_bind]. rewrite Hm. cbn [mbind option_bind].
  destruct (scanBreaks_coherent recent merged config Ha) as (events & trend & -> & Hc).
  cbn [mbind option_bind]. pose proof (labelSwings_relabelled merged events Hun) as Hlab.
  set (swings := labelSwings merged events) in *.
  destruct (detectRange_spec recent swings config Hrne) as (r & -> & Hr). cbn [mbind option_bind].
  assert (Hfull : exists full, (if 0 <? offset
                    then full ← zigzag closed config; mergeByValidPullback closed full config
                    else Some swings) = Some full).
  { destruct (0 <? offset); [|eauto].
    destruct (swings_of_spec closed config Hne Hatr) as (z & m & -> & Hz & _). cbn. eauto. }
  destruct Hfull as [full ->]. cbn [mbind option_bind].
  destruct (keyLevels_spec closed full config Hne Hlag Hlev) as (levels & last & -> & _ & Hlen & _).
  cbn [mbind option_bind]. set (t := marketTrend _ _ _).
  destruct (premiumDiscount_spec closed swings t Hne) as (p & -> & _). cbn [mbind option_bind].
  eexists. split; [done|]. destruct (published_swings _ _ Hlab Halt) as [Hsw Hsl].
  destruct Hok. split; cbn; try done.
  - by eapply marketTrend_values.
  - apply Forall_map. by eapply coherent_events.
  - destruct r as [z|]; (split; [done|]); [|constructor]. apply Forall_singleton. by apply Hr.
Qed.

Lemma EvaluateMarket_ok `{Runtime} bars config :
  config_ok config ->
  exists s, EvaluateMarket bars config = Some s /\ market_ok (List.filter bClosed bars) config s.
Proof.
  intros Hcfg. unfold EvaluateMarket. set (closed := List.filter bClosed bars).
  pose proof (len_nonneg closed). destruct (Z.eqb_spec (len closed) 0).
  { eexists. split; [done|]. pose proof (co_levels _ Hcfg).
    split; cbn; rewrite ?len_nil; try (split; [lia|constructor]); try constructor; try lia; try done; set_solver. }
  assert (Hne : closed <> []) by (apply len_ne_nil; lia).
  destruct (idx_last_total closed Hne) as [last ->].
  destruct (detectFVG_total closed (FVGLookback config)) as [fvgs Hf].
  destruct (detectOrderBlocks_total closed fvgs Hne) as [blocks Hb].
  destruct (detectPatterns_total closed (PatternLookback config)) as [ps Hp].
  destruct (detectLiquidity_total closed (LiquidityLookback config) (LiquidityTol config) Hne)
    as [[liq sweeps] Hl].
  rewrite Hf. cbn [mbind option_bind]. rewrite Hb, Hp, Hl. cbn [mbind option_bind].
  apply evaluate_structure_ok; [done..|]. pose proof (co_levels _ Hcfg).
  apply detectFVG_sound in Hf as [Hf1 Hf2]. apply detectPatterns_sound in Hp as [Hp _].
  apply detectLiquidity_sound in Hl as (Hl1 & Hl2 & _).
  assert (Hb' : len blocks <= 6).
  { unfold detectOrderBlocks in Hb. apply bind_Some in Hb as (out & _ & Hb).
    rewrite keep_last_last_n in Hb by lia. simplify_eq. rewrite len_last_n; lia. }
  assert (Hann : forall zs, len (annotateZoneStates closed zs) = len zs)
    by (intros; unfold len, annotateZoneStates; by rewrite length_map).
  split; cbn; rewrite ?Hann, ?len_nil; try done; try (split; [lia|constructor]); try constructor; try lia; try set_solver.
  unfold annotateZoneStates. apply Forall_map.
  eapply Forall_impl; [exact Hf2|]. intros z Hz. exact Hz.
Qed.

Lemma DefaultMarketConfig_ok : config_ok DefaultMarketConfig.
Proof. by split. Qed.
