(* ===== verification/MarketReducer.v ===== *)
(** * The market reducer (internal/indicator/market_reducer.go)

    A bounded history of closed bars, the market state evaluated from it, the
    transitions of its zones from one bar to the next, and snapshots.

    The objects decoded are those [json.Marshal] writes, so a key occurs at
    most once and in its exact case.  A nil slice of bars and an empty one are
    both [[]]; strings are valid UTF-8, which JSON carries unchanged. *)

From stdpp Require Import prelude gmap strings list.
From Stdlib Require Import ZArith Lia SpecFloat String.
From S2P Require Import Prelude GoFloat GoText Sha256 Model Ema MarketZones MarketStructure.

#[local] Open Scope string_scope.
#[local] Open Scope list_scope.
#[local] Open Scope Z_scope.

Record Market := mkMarket {
  mkConfig : MarketConfig;
  mkHistoryLimit : Z;
  mkBars : list Bar;
  mkSamples : Z;
  mkState : MarketState
}.

Record marketSnapshot := mkMarketSnapshot {
  mnVersion : string;
  mnSamples : Z;
  mnBars : list Bar
}.

Inductive MarketError :=
  | MarketHistoryLimit
  | MarketEncode
  | MarketDecode
  | MarketVersion
  | MarketTooManyBars.

Definition NewMarket (config : MarketConfig) (historyLimit : Z) : outcome MarketError Market :=
  if historyLimit <? Z.max (Z.max (RecentBars config) (FVGLookback config)) (LiquidityLookback config)
  then Fail MarketHistoryLimit
  else Ok (mkMarket config historyLimit [] 0 zero_market_state).

(** ** Occurrences and zone transitions *)

Definition patternOccurrences (patterns : list PatternEvent) (at_ : Z) : list PatternEvent :=
  List.filter (fun p => peTime p =? at_) patterns.

Definition allZones (state : MarketState) : list PriceZone := msFVGs state ++ msOrderBlocks state.

(** [for _, zone := range zones { m[zone.ID] = zone }] *)
Definition zone_map (zones : list PriceZone) : gmap string PriceZone :=
  foldl (fun m zone => <[zID zone := zone]> m) ∅ zones.

(** The body of the first loop: [after] and [out] after one current zone. *)
Definition current_zone_step (before : gmap string PriceZone) (at_ : Z)
    (acc : gmap string PriceZone * list ZoneTransition) (zone : PriceZone)
  : gmap string PriceZone * list ZoneTransition :=
  let '(after, out) := acc in
  (<[zID zone := zone]> after,
   match before !! zID zone with
   | None => out ++ [mkTransition zone "created" at_]
   | Some old =>
       if negb (zState old =? "touched")%string && (zState zone =? "touched")%string
       then out ++ [mkTransition zone "touched" at_]
       else out
   end).

(** The body of the second loop: [out] after one zone that existed before. *)
Definition previous_zone_step (after : gmap string PriceZone) (bar : Bar)
    (out : list ZoneTransition) (entry : string * PriceZone) : list ZoneTransition :=
  let '(id, zone) := entry in
  match after !! id with
  | Some _ => out
  | None =>
      if negb (intersectsZone bar zone) then out ++ [mkTransition zone "expired" (bOpenTime bar)]
      else
        let out := if negb (zState zone =? "touched")%string
                   then out ++ [mkTransition zone "touched" (bOpenTime bar)] else out in
        let transition :=
          if (zKind zone =? "order_block")%string &&
             (((zSide zone =? "up")%string && (bClose bar <? zBottom zone)%F) ||
              ((zSide zone =? "down")%string && (bClose bar >? zTop zone)%F))
          then "invalidated" else "mitigated" in
        out ++ [mkTransition zone transition (bOpenTime bar)]
  end.

(** ** Snapshot encoding *)

(** [time.Time.MarshalJSON] refuses years outside 0 to 9999. *)
Definition time_marshals (t : Z) : bool :=
  (-62167219200 * second <=? t) && (t <? 253402300800 * second).
Definition marshal_time (t : Z) : option json := if time_marshals t then Some (JTime t) else None.

Definition marshal_Bar (b : Bar) : option json :=
  t ← marshal_time (bOpenTime b);
  o ← marshal_float (bOpen b);
  h ← marshal_float (bHigh b);
  l ← marshal_float (bLow b);
  c ← marshal_float (bClose b);
  v ← marshal_float (bVolume b);
  Some (JObject [("symbol", JString (bSymbol b)); ("tf", JString (bTimeframe b)); ("open_time", t);
                 ("open", o); ("high", h); ("low", l); ("close", c); ("volume", v);
                 ("trades", JInt (bTrades b)); ("closed", JBool (bClosed b))]).

Definition decode_string (name : string) (fields : list (string * json)) : option string :=
  match jfield name fields with
  | None => Some ""
  | Some (JString s) => Some s
  | Some _ => None
  end.
Definition decode_bool (name : string) (fields : list (string * json)) : option bool :=
  match jfield name fields with
  | None => Some false
  | Some (JBool b) => Some b
  | Some _ => None
  end.
Definition decode_time (name : string) (fields : list (string * json)) : option Z :=
  match jfield name fields with
  | None => Some zero_time
  | Some (JTime t) => Some t
  | Some _ => None
  end.

Definition unmarshal_Bar (data : json) : option Bar :=
  match data with
  | JObject fields =>
      symbol ← decode_string "symbol" fields;
      timeframe ← decode_string "tf" fields;
      time ← decode_time "open_time" fields;
      open ← decode_float "open" fields;
      high ← decode_float "high" fields;
      low ← decode_float "low" fields;
      close ← decode_float "close" fields;
      volume ← decode_float "volume" fields;
      trades ← decode_u64 "trades" fields;
      closed ← decode_bool "closed" fields;
      Some (mkBar symbol timeframe time open high low close volume trades closed)
  | _ => None
  end.

Definition marshal_marketSnapshot (s : marketSnapshot) : option json :=
  bars ← mapM marshal_Bar (mnBars s);
  Some (JObject [("version", JString (mnVersion s)); ("samples", JInt (mnSamples s));
                 ("bars", JArray bars)]).

Definition unmarshal_marketSnapshot (data : json) : option marketSnapshot :=
  match data with
  | JObject fields =>
      version ← decode_string "version" fields;
      samples ← decode_u64 "samples" fields;
      bars ← match jfield "bars" fields with
             | None => Some []
             | Some (JArray l) => mapM unmarshal_Bar l
             | Some _ => None
             end;
      Some (mkMarketSnapshot version samples bars)
  | _ => None
  end.

(** ** Operations *)

Section WithRuntime.
Context `{Runtime}.

Definition zoneTransitions (previous current : MarketState) (bar : Bar) : list ZoneTransition :=
  let before := zone_map (allZones previous) in
  let '(after, out) :=
    foldl (current_zone_step before (bOpenTime bar)) (∅, []) (allZones current) in
  foldl (previous_zone_step after bar) out (map_range before).

(** The new receiver and the state returned. *)
Definition Market_OnClosed (m : Market) (bar : Bar) : option (Market * MarketState) :=
  let previous := mkState m in
  bars ← keep_last (mkHistoryLimit m) (mkBars m ++ [bar]);
  state ← EvaluateMarket bars (mkConfig m);
  let state := set_occurrences state
    (patternOccurrences (msPatterns state) (bOpenTime bar)) (msZoneTransitions state) in
  let state := set_occurrences state (msPatternOccurrences state)
    (zoneTransitions previous state bar) in
  Some (mkMarket (mkConfig m) (mkHistoryLimit m) bars (wrap_u64 (mkSamples m + 1)) state, state).

Definition Market_Seed (m : Market) (bars : list Bar) : option (Market * MarketState) :=
  let '(kept, samples) :=
    foldl (fun '(kept, samples) bar =>
             if negb (bClosed bar) then (kept, samples)
             else (kept ++ [bar], wrap_u64 (samples + 1))) ([], 0) bars in
  kept ← keep_last (mkHistoryLimit m) kept;
  state ← EvaluateMarket kept (mkConfig m);
  Some (mkMarket (mkConfig m) (mkHistoryLimit m) kept samples state, state).

Definition Market_State (m : Market) : MarketState := mkState m.
Definition Market_Samples (m : Market) : Z := mkSamples m.
Definition Market_Bars (m : Market) : list Bar := mkBars m.

Definition Market_Snapshot (m : Market) : outcome MarketError json :=
  match marshal_marketSnapshot (mkMarketSnapshot MarketAlgorithmVersion (mkSamples m) (mkBars m)) with
  | Some j => Ok j
  | None => Fail MarketEncode
  end.

Definition Market_Restore (m : Market) (data : json) : outcome MarketError Market :=
  match unmarshal_marketSnapshot data with
  | None => Fail MarketDecode
  | Some snapshot =>
      if negb (mnVersion snapshot =? MarketAlgorithmVersion)%string then Fail MarketVersion
      else if mkHistoryLimit m <? len (mnBars snapshot) then Fail MarketTooManyBars
      else
        state ← lift_panic (EvaluateMarket (mnBars snapshot) (mkConfig m));
        Ok (mkMarket (mkConfig m) (mkHistoryLimit m) (mnBars snapshot) (mnSamples snapshot) state)
  end.

Definition Market_Clone (m : Market) : outcome MarketError Market :=
  clone ← NewMarket (mkConfig m) (mkHistoryLimit m);
  state ← Market_Snapshot m;
  Market_Restore clone state.
End WithRuntime.

(** ** Round trip of bars and snapshots *)

(** The bars JSON can carry. *)
Record bar_encodable (b : Bar) : Prop := {
  en_time : time_marshals (bOpenTime b) = true;
  en_open : is_finite (bOpen b) = true;
  en_high : is_finite (bHigh b) = true;
  en_low : is_finite (bLow b) = true;
  en_close : is_finite (bClose b) = true;
  en_volume : is_finite (bVolume b) = true;
  en_trades : 0 <= bTrades b < 2 ^ 64
}.

Lemma marshal_float_Some f j : marshal_float f = Some j -> j = JFloat f /\ is_finite f = true.
Proof. unfold marshal_float. destruct (is_finite f); by intros [= <-]. Qed.

Lemma unmarshal_marshal_Bar b j :
  0 <= bTrades b < 2 ^ 64 -> marshal_Bar b = Some j -> unmarshal_Bar j = Some b.
Proof.
  intros Htr. unfold marshal_Bar, marshal_time. destruct (time_marshals _); [|done]. cbn.
  intros (? & [-> _]%marshal_float_Some & H1)%bind_Some.
  apply bind_Some in H1 as (? & [-> _]%marshal_float_Some & H1).
  apply bind_Some in H1 as (? & [-> _]%marshal_float_Some & H1).
  apply bind_Some in H1 as (? & [-> _]%marshal_float_Some & H1).
  apply bind_Some in H1 as (? & [-> _]%marshal_float_Some & H1). injection H1 as <-.
  cbn. unfold decode_u64, decode_int. cbn [jfield String.eqb Ascii.eqb Bool.eqb].
  rewrite (proj2 (andb_true_iff _ _)) by lia. cbn. by destruct b.
Qed.

Lemma marshal_Bar_total b : bar_encodable b -> is_Some (marshal_Bar b).
Proof.
  intros [Ht Ho Hh Hl Hc Hv _]. unfold marshal_Bar, marshal_time, marshal_float.
  by rewrite Ht, Ho, Hh, Hl, Hc, Hv.
Qed.

Lemma mapM_total {A B} (f : A -> option B) l : Forall (fun a => is_Some (f a)) l -> is_Some (mapM f l).
Proof. intros Hl. by apply mapM_is_Some_2. Qed.

Lemma unmarshal_marshal_bars bars js :
  Forall (fun b => 0 <= bTrades b < 2 ^ 64) bars ->
  mapM marshal_Bar bars = Some js -> mapM unmarshal_Bar js = Some bars.
Proof.
  intros Ht Hm. apply mapM_Some in Hm. apply mapM_Some.
  induction Hm as [|b j bars js Hb Hm IH]; [constructor|].
  apply Forall_cons in Ht as [? Ht]. constructor; [by apply unmarshal_marshal_Bar|auto].
Qed.

Lemma unmarshal_marshal_marketSnapshot s j :
  0 <= mnSamples s < 2 ^ 64 -> Forall (fun b => 0 <= bTrades b < 2 ^ 64) (mnBars s) ->
  marshal_marketSnapshot s = Some j -> unmarshal_marketSnapshot j = Some s.
Proof.
  intros Hs Ht. unfold marshal_marketSnapshot. intros (js & Hjs & [= <-])%bind_Some.
  cbn. unfold decode_u64, decode_int. cbn [jfield String.eqb Ascii.eqb Bool.eqb].
  rewrite (proj2 (andb_true_iff _ _)) by lia. cbn.
  rewrite (unmarshal_marshal_bars _ _ Ht Hjs). cbn. by destruct s.
Qed.

(** ** Zone transitions, one zone at a time *)

(** What a current zone contributes. *)
Definition current_transitions (before : gmap string PriceZone) (at_ : Z) (zone : PriceZone)
  : list ZoneTransition :=
  match before !! zID zone with
  | None => [mkTransition zone "created" at_]
  | Some old =>
      if negb (zState old =? "touched")%string && (zState zone =? "touched")%string
      then [mkTransition zone "touched" at_] else []
  end.

(** What a zone that is no longer there contributes. *)
Definition gone_transitions (bar : Bar) (zone : PriceZone) : list ZoneTransition :=
  let at_ := bOpenTime bar in
  if intersectsZone bar zone then
    (if (zState zone =? "touched")%string then [] else [mkTransition zone "touched" at_]) ++
    [mkTransition zone
       (if (zKind zone =? "order_block")%string &&
           (((zSide zone =? "up")%string && (bClose bar <? zBottom zone)%F) ||
            ((zSide zone =? "down")%string && (bClose bar >? zTop zone)%F))
        then "invalidated" else "mitigated") at_]
  else [mkTransition zone "expired" at_].

Lemma current_zone_fold before at_ zones after out :
  foldl (current_zone_step before at_) (after, out) zones =
  (foldl (fun m zone => <[zID zone := zone]> m) after zones,
   out ++ flat_map (current_transitions before at_) zones).
Proof.
  revert after out. induction zones as [|z zones IH]; intros after out; cbn; [by rewrite app_nil_r|].
  rewrite IH. f_equal. unfold current_transitions at 2.
  destruct (before !! zID z); [destruct (_ && _)|]; by rewrite <-?app_assoc.
Qed.

Lemma previous_zone_fold after bar entries out :
  foldl (previous_zone_step after bar) out entries =
  out ++ flat_map (fun e => match after !! e.1 with
                            | Some _ => [] | None => gone_transitions bar e.2 end) entries.
Proof.
  revert out. induction entries as [|[id z] l IH]; intros out; cbn; [by rewrite app_nil_r|].
  rewrite IH. destruct (after !! id); [done|]. unfold gone_transitions.
  destruct (intersectsZone bar z), (zState z =? "touched")%string; cbn; by rewrite <-?app_assoc.
Qed.

Section Laws.
Context `{Runtime}.

Lemma zoneTransitions_eq previous current bar :
  zoneTransitions previous current bar =
  flat_map (current_transitions (zone_map (allZones previous)) (bOpenTime bar)) (allZones current) ++
  flat_map (fun e => match zone_map (allZones current) !! e.1 with
                     | Some _ => [] | None => gone_transitions bar e.2 end)
    (map_range (zone_map (allZones previous))).
Proof.
  unfold zoneTransitions. rewrite current_zone_fold, previous_zone_fold. done.
Qed.

(** Transitions depend on the previous state through its zones only. *)
Lemma zoneTransitions_proper previous previous' current bar :
  allZones previous = allZones previous' ->
  zoneTransitions previous current bar = zoneTransitions previous' current bar.
Proof. intros E. rewrite !zoneTransitions_eq. by rewrite E. Qed.

(** Membership: exactly the transitions of the two rules. *)
Lemma elem_of_zoneTransitions previous current bar t :
  t ∈ zoneTransitions previous current bar <->
  (exists z, z ∈ allZones current /\
     t ∈ current_transitions (zone_map (allZones previous)) (bOpenTime bar) z) \/
  (exists id z, zone_map (allZones previous) !! id = Some z /\
     zone_map (allZones current) !! id = None /\ t ∈ gone_transitions bar z).
Proof.
  rewrite zoneTransitions_eq, elem_of_app, !list_elem_of_In, !in_flat_map.
  setoid_rewrite <-list_elem_of_In. apply or_iff_compat_l. split.
  - intros ([id z] & Hin & Ht). rewrite map_range_perm, elem_of_map_to_list in Hin.
    cbn in Ht. destruct (zone_map (allZones current) !! id) eqn:E; [by apply not_elem_of_nil in Ht|].
    eauto.
  - intros (id & z & Hin & Hc & Ht). exists (id, z).
    rewrite map_range_perm, elem_of_map_to_list. split; [done|]. cbn. by rewrite Hc.
Qed.
End Laws.

(** Two executions may list the transitions of the zones that disappeared in
    different orders, but list the same ones. *)
Lemma zoneTransitions_perm (R1 R2 : Runtime) previous current bar :
  @zoneTransitions R1 previous current bar ≡ₚ @zoneTransitions R2 previous current bar.
Proof.
  rewrite !zoneTransitions_eq. apply Permutation_app; [done|].
  rewrite (@map_range_perm R1), (@map_range_perm R2). done.
Qed.

Lemma zone_map_lookup zones id z :
  zone_map zones !! id = Some z -> z ∈ zones /\ zID z = id.
Proof.
  unfold zone_map. induction zones as [|y zones IH] using rev_ind; cbn; [by rewrite lookup_empty|].
  rewrite foldl_app. cbn. destruct (decide (zID y = id)) as [<-|Hne].
  - rewrite lookup_insert_eq. intros [= ->]. set_solver.
  - rewrite lookup_insert_ne by done. intros [? ?]%IH. set_solver.
Qed.

Lemma zone_map_None zones id : zone_map zones !! id = None <-> forall z, z ∈ zones -> zID z <> id.
Proof.
  unfold zone_map. induction zones as [|y zones IH] using rev_ind; cbn;
    [rewrite lookup_empty; set_solver|].
  rewrite foldl_app. cbn. rewrite lookup_insert_None, IH. set_solver.
Qed.
