(* ===== verification/MarketProofs.v ===== *)
(** * Properties of the market reducer

    The invariant of the reducer, the equivalence that snapshots preserve, and
    the parity between a seeded reducer and one that was fed bar by bar. *)

From stdpp Require Import prelude gmap strings list.
From Stdlib Require Import ZArith Lia SpecFloat String.
From S2P Require Import Prelude GoFloat GoText Sha256 Model Ema MarketZones MarketStructure.
From S2P Require Import ZonesProofs StructureProofs MarketReducer.

#[local] Open Scope string_scope.
#[local] Open Scope list_scope.
#[local] Open Scope Z_scope.

Lemma EvaluateMarket_nil `{Runtime} config :
  exists s, EvaluateMarket [] config = Some s /\ allZones s = [].
Proof. eexists. split; [reflexivity|]. done. Qed.

(** The evaluation ranges over no map, so executions that sort alike agree. *)
Lemma EvaluateMarket_sort (R1 R2 : Runtime) bars config :
  same_sort R1 R2 -> @EvaluateMarket R1 bars config = @EvaluateMarket R2 bars config.
Proof.
  intros Hs.
  assert (Hl : forall sw ev, @labelSwings R1 sw ev = @labelSwings R2 sw ev) by (intros; unfold labelSwings; by rewrite Hs).
  assert (Hk : forall b sw c, @keyLevels R1 b sw c = @keyLevels R2 b sw c).
  { intros b sw c. unfold keyLevels. destruct (slice_to _ _); [|done]. cbn [mbind option_bind].
    destruct (idx_last b); [|done]. cbn [mbind option_bind]. by rewrite Hs. }
  assert (He : forall b c s, @evaluate_structure R1 b c s = @evaluate_structure R2 b c s).
  { intros b c s. unfold evaluate_structure. destruct (if RecentBars c <? len b then _ else _) as [[sb off]|]; [|done].
    cbn [mbind option_bind]. destruct (len sb <? ATRPeriod c + 4); [done|].
    destruct (zigzag sb c) as [zz|]; [|done]. cbn [mbind option_bind].
    destruct (mergeByValidPullback sb zz c) as [merged|]; [|done]. cbn [mbind option_bind].
    destruct (scanBreaks sb merged c) as [ev|]; [|done]. cbn [mbind option_bind]. rewrite Hl.
    destruct (detectRange _ _ _); [|done]. cbn [mbind option_bind].
    destruct (if 0 <? off then _ else _); [|done]. cbn [mbind option_bind]. by rewrite Hk. }
  unfold EvaluateMarket. destruct (_ =? 0); [done|]. destruct (idx_last _); [|done]. cbn [mbind option_bind].
  destruct (detectFVG _ _); [|done]. cbn [mbind option_bind]. destruct (detectOrderBlocks _ _); [|done].
  cbn [mbind option_bind]. destruct (detectPatterns _ _); [|done]. cbn [mbind option_bind].
  destruct (detectLiquidity _ _ _) as [[liq sweeps]|]; [|done]. cbn [mbind option_bind]. apply He.
Qed.

#[local] Opaque EvaluateMarket.

(** Gives the reducer that an operation has just returned. *)
Ltac give_reducer :=
  match goal with |- exists m, Some (?r, _) = Some (m, _) /\ _ => exists r end.

Section Reducer.
Context `{Runtime}.

(** The history is bounded, the counter in range, and the zones shown are
    those of the history. *)
Record market_wf (m : Market) : Prop := {
  mw_config : config_ok (mkConfig m);
  mw_limit : Z.max (Z.max (RecentBars (mkConfig m)) (FVGLookback (mkConfig m)))
               (LiquidityLookback (mkConfig m)) <= mkHistoryLimit m;
  mw_bars : len (mkBars m) <= mkHistoryLimit m;
  mw_samples : 0 <= mkSamples m < 2 ^ 64;
  mw_zones : exists s, EvaluateMarket (mkBars m) (mkConfig m) = Some s /\
                       allZones (mkState m) = allZones s
}.

(** Two reducers that no later bar can tell apart. *)
Record market_equiv (a b : Market) : Prop := {
  mq_config : mkConfig a = mkConfig b;
  mq_limit : mkHistoryLimit a = mkHistoryLimit b;
  mq_bars : mkBars a = mkBars b;
  mq_samples : mkSamples a = mkSamples b;
  mq_zones : allZones (mkState a) = allZones (mkState b)
}.

#[global] Instance market_equiv_equivalence : Equivalence market_equiv.
Proof.
  split.
  - intros a. by split.
  - intros a b []. by split.
  - intros a b c [] []. split; congruence.
Qed.

#[global] Instance Market_OnClosed_proper : Proper (market_equiv ==> eq ==> eq) Market_OnClosed.
Proof.
  intros a b [E1 E2 E3 E4 E5] bar ? <-. unfold Market_OnClosed. rewrite E1, E2, E3, E4.
  destruct (keep_last _ _) as [bars|]; [|done]. cbn. destruct (EvaluateMarket _ _) as [s|]; [|done]. cbn.
  by rewrite (zoneTransitions_proper (mkState a) (mkState b)).
Qed.

Lemma mw_limit_nonneg m : market_wf m -> 0 <= mkHistoryLimit m.
Proof. intros []. pose proof (len_nonneg (mkBars m)). lia. Qed.

Lemma EvaluateMarket_total bars config :
  config_ok config -> exists s, EvaluateMarket bars config = Some s.
Proof. intros (s & Hs & _)%(EvaluateMarket_ok bars). eauto. Qed.

Lemma NewMarket_wf config limit m :
  config_ok config -> NewMarket config limit = Ok m -> market_wf m.
Proof.
  intros Hc. unfold NewMarket. destruct (Z.ltb_spec limit
    (Z.max (Z.max (RecentBars config) (FVGLookback config)) (LiquidityLookback config))); [done|].
  intros [= <-]. pose proof (co_recent _ Hc). destruct (EvaluateMarket_nil config) as (s & Hs & Hz).
  split; cbn; rewrite ?len_nil; try done; try lia. eauto.
Qed.

(** One closed bar: never a panic, one more sample, the last bars kept. *)
Lemma Market_OnClosed_ok m bar :
  market_wf m ->
  exists m', Market_OnClosed m bar = Some (m', mkState m') /\ market_wf m' /\
    mkConfig m' = mkConfig m /\ mkHistoryLimit m' = mkHistoryLimit m /\
    mkBars m' = last_n (mkHistoryLimit m) (mkBars m ++ [bar]) /\
    mkSamples m' = wrap_u64 (mkSamples m + 1).
Proof.
  intros Hwf. pose proof (mw_limit_nonneg m Hwf). unfold Market_OnClosed.
  rewrite keep_last_last_n by done. cbn [mbind option_bind].
  set (bars := last_n _ _).
  destruct (EvaluateMarket_total bars (mkConfig m) (mw_config _ Hwf)) as [s Hs].
  rewrite Hs. cbn [mbind option_bind]. give_reducer. split; [done|]. cbn. split; [|done].
  destruct Hwf. split; cbn; try done.
  - unfold bars. rewrite len_last_n by done. lia.
  - apply wrap_u64_range.
  - exists s. done.
Qed.

(** The counting loop of [Seed]. *)
Lemma seed_fold bars kept samples :
  0 <= samples -> samples + len bars < 2 ^ 64 ->
  foldl (fun '(kept, samples) bar =>
           if negb (bClosed bar) then (kept, samples)
           else (kept ++ [bar], wrap_u64 (samples + 1))) (kept, samples) bars =
  (kept ++ List.filter bClosed bars, samples + len (List.filter bClosed bars)).
Proof.
  revert kept samples. induction bars as [|b bars IH]; intros kept samples Hs Hb; cbn.
  - rewrite app_nil_r. unfold len. cbn. by rewrite Z.add_0_r.
  - rewrite len_cons in Hb. pose proof (len_nonneg bars). destruct (bClosed b); cbn.
    + rewrite wrap_u64_id by lia. rewrite IH by lia. rewrite <-app_assoc, len_cons. cbn.
      f_equal. lia.
    + by rewrite IH by lia.
Qed.

Lemma Market_Seed_ok m bars :
  config_ok (mkConfig m) -> 0 <= mkHistoryLimit m -> len bars < 2 ^ 64 ->
  Z.max (Z.max (RecentBars (mkConfig m)) (FVGLookback (mkConfig m)))
    (LiquidityLookback (mkConfig m)) <= mkHistoryLimit m ->
  exists m', Market_Seed m bars = Some (m', mkState m') /\ market_wf m' /\
    mkConfig m' = mkConfig m /\ mkHistoryLimit m' = mkHistoryLimit m /\
    mkBars m' = last_n (mkHistoryLimit m) (List.filter bClosed bars) /\
    mkSamples m' = len (List.filter bClosed bars).
Proof.
  intros Hc Hl Hb Hm. unfold Market_Seed. rewrite seed_fold by lia. cbn [app].
  rewrite keep_last_last_n by done. cbn [mbind option_bind].
  destruct (EvaluateMarket_total (last_n (mkHistoryLimit m) (List.filter bClosed bars))
    (mkConfig m) Hc) as [s Hs].
  rewrite Hs. cbn [mbind option_bind]. give_reducer. split; [done|]. cbn. split; [|done].
  assert (len (List.filter bClosed bars) <= len bars).
  { unfold len. pose proof (List.filter_length_le bClosed bars). lia. }
  pose proof (len_nonneg (List.filter bClosed bars)).
  split; cbn; try done; try lia.
  - rewrite len_last_n by done. lia.
  - eauto.
Qed.

(** ** Snapshots *)

(** A snapshot restores into a reducer of the same configuration, as one
    that no later bar can tell from the original. *)
Lemma Market_Restore_Snapshot m fresh :
  market_wf m -> Forall bar_encodable (mkBars m) ->
  mkConfig fresh = mkConfig m -> mkHistoryLimit fresh = mkHistoryLimit m ->
  exists data m', Market_Snapshot m = Ok data /\ Market_Restore fresh data = Ok m' /\
    market_equiv m m' /\ market_wf m'.
Proof.
  intros [Hc Hl Hb Hs (s & Hz & Ha)] He Ef El. unfold Market_Snapshot.
  destruct (mapM_total marshal_Bar (mkBars m)) as [js Hjs].
  { eapply Forall_impl; [exact He|]. apply marshal_Bar_total. }
  set (snap := mkMarketSnapshot _ _ _).
  assert (Hm : marshal_marketSnapshot snap = Some (JObject
    [("version", JString MarketAlgorithmVersion); ("samples", JInt (mkSamples m)); ("bars", JArray js)])).
  { unfold marshal_marketSnapshot. cbn. by rewrite Hjs. }
  rewrite Hm. eexists _, _. split; [done|].
  apply unmarshal_marshal_marketSnapshot in Hm; cbn; [|done|eapply Forall_impl; [exact He|by intros ? []]].
  unfold Market_Restore. rewrite Hm. cbn [mnVersion snap]. rewrite String.eqb_refl. cbn [negb].
  rewrite El. rewrite (proj2 (Z.ltb_ge _ _)) by done. cbn [mnBars snap]. rewrite Ef, Hz. cbn.
  split; [done|]. split; [by split|]. split; cbn; try done. eauto.
Qed.

Lemma NewMarket_ok m :
  market_wf m -> NewMarket (mkConfig m) (mkHistoryLimit m) =
    Ok (mkMarket (mkConfig m) (mkHistoryLimit m) [] 0 zero_market_state).
Proof. intros []. unfold NewMarket. by rewrite (proj2 (Z.ltb_ge _ _)) by lia. Qed.

Lemma Market_Clone_ok m :
  market_wf m -> Forall bar_encodable (mkBars m) ->
  exists m', Market_Clone m = Ok m' /\ market_equiv m m' /\ market_wf m'.
Proof.
  intros Hwf He. unfold Market_Clone. rewrite NewMarket_ok by done. cbn [mbind outcome_bind].
  destruct (Market_Restore_Snapshot m
    (mkMarket (mkConfig m) (mkHistoryLimit m) [] 0 zero_market_state) Hwf He)
    as (data & m' & -> & Hr & ?); [done..|]. cbn [mbind outcome_bind]. eauto.
Qed.

(** ** Seeding and live reduction agree *)

Definition run_market (m : Market) (bars : list Bar) : option Market :=
  loop (fun m bar => res ← Market_OnClosed m bar; Some res.1) bars m.

Lemma run_market_ok m bars :
  market_wf m -> Forall (fun b => bClosed b = true) bars ->
  exists m', run_market m bars = Some m' /\ market_wf m' /\
    mkConfig m' = mkConfig m /\ mkHistoryLimit m' = mkHistoryLimit m /\
    mkBars m' = last_n (mkHistoryLimit m) (mkBars m ++ bars) /\
    (mkSamples m + len bars < 2 ^ 64 -> mkSamples m' = mkSamples m + len bars).
Proof.
  unfold run_market. revert m. induction bars as [|b bars IH]; intros m Hwf Hcl.
  - exists m. rewrite app_nil_r, last_n_all by apply Hwf. unfold len. cbn.
    split_and!; try done. lia.
  - apply Forall_cons in Hcl as [_ Hcl]. cbn [loop].
    destruct (Market_OnClosed_ok m b Hwf) as (m1 & -> & Hwf1 & Ec & El & Eb & Es).
    cbn [mbind option_bind fst]. destruct (IH m1 Hwf1 Hcl) as (m' & Hm' & Hwf' & Ec' & El' & Eb' & Es').
    exists m'. split; [done|]. rewrite Ec', El', Ec, El. split_and!; try done.
    + rewrite Eb', El, Eb, last_n_app, <-app_assoc by (by apply mw_limit_nonneg). done.
    + rewrite len_cons. pose proof (len_nonneg bars). pose proof (mw_samples _ Hwf).
      intros Hb. rewrite Es', Es, wrap_u64_id; [lia..|]. rewrite Es, wrap_u64_id; lia.
Qed.

Lemma Market_Seed_run m bars seeded live :
  market_wf m -> mkBars m = [] -> mkSamples m = 0 -> len bars < 2 ^ 64 ->
  Forall (fun b => bClosed b = true) bars ->
  Market_Seed m bars = Some (seeded, mkState seeded) -> run_market m bars = Some live ->
  market_equiv seeded live.
Proof.
  intros Hwf Hb0 Hs0 Hlen Hcl Hs Hr.
  destruct (Market_Seed_ok m bars) as (m1 & Hm1 & Hwf1 & Ec1 & El1 & Eb1 & Es1);
    [apply Hwf|by apply mw_limit_nonneg|done|apply Hwf|].
  destruct (run_market_ok m bars Hwf Hcl) as (m2 & Hm2 & Hwf2 & Ec2 & El2 & Eb2 & Es2).
  simplify_eq. rewrite Hb0 in Eb2. cbn in Eb2. rewrite Hs0 in Es2.
  assert (Hf : List.filter bClosed bars = bars).
  { clear -Hcl. induction Hcl as [|b bars Hb _ IH]; cbn; [done|]. by rewrite Hb, IH. }
  rewrite Hf in *. destruct (mw_zones _ Hwf1) as (s1 & Hs1 & Hz1).
  destruct (mw_zones _ Hwf2) as (s2 & Hs2 & Hz2).
  split; try congruence. rewrite Es1, Es2; lia.
Qed.
End Reducer.

(** ** Executions that range over maps in different orders *)

(** Two market states that differ at most in the order of the transitions of
    their zones. *)
Record state_equiv (s1 s2 : MarketState) : Prop := {
  sq_rest : set_occurrences s1 (msPatternOccurrences s1) [] = set_occurrences s2 (msPatternOccurrences s2) [];
  sq_transitions : msZoneTransitions s1 ≡ₚ msZoneTransitions s2
}.

#[global] Instance state_equiv_equivalence : Equivalence state_equiv.
Proof.
  split.
  - intros s. by split.
  - intros s t [H1 H2]. by split.
  - intros s t u [H1 H2] [H3 H4]. split; [congruence|by rewrite H2].
Qed.

Lemma state_equiv_algorithm s1 s2 : state_equiv s1 s2 -> msAlgorithm s1 = msAlgorithm s2.
Proof. intros [H _]. by injection H. Qed.

Lemma market_wf_sort (R1 R2 : Runtime) m : same_sort R1 R2 -> @market_wf R1 m -> @market_wf R2 m.
Proof. intros Hs [H1 H2 H3 H4 (s & He & Hz)]. split; try done. exists s. by rewrite <-(EvaluateMarket_sort R1 R2). Qed.

(** A bar that two executions take from indistinguishable reducers. *)
Lemma Market_OnClosed_sort (R1 R2 : Runtime) a b bar m1 s1 :
  same_sort R1 R2 -> market_equiv a b -> @Market_OnClosed R1 a bar = Some (m1, s1) ->
  exists m2 s2, @Market_OnClosed R2 b bar = Some (m2, s2) /\ market_equiv m1 m2 /\ state_equiv s1 s2.
Proof.
  intros Hs [E1 E2 E3 E4 E5]. unfold Market_OnClosed. rewrite E1, E2, E3, E4.
  destruct (keep_last _ _) as [bars|]; [|done]. cbn [mbind option_bind].
  rewrite (EvaluateMarket_sort R1 R2) by done.
  destruct (@EvaluateMarket R2 bars (mkConfig b)) as [s|]; [|done]. cbn [mbind option_bind].
  intros [= <- <-]. eexists _, _. split; [reflexivity|]. split; [done|]. split; [done|].
  cbn [set_occurrences msZoneTransitions]. rewrite (zoneTransitions_proper (mkState a) (mkState b)) by done.
  apply zoneTransitions_perm.
Qed.

(** Closed bars one by one, each taken by an execution of its own. *)
Definition run_each (m : Market) (steps : list (Runtime * Bar)) : option Market :=
  loop (fun m '(R, bar) => res ← @Market_OnClosed R m bar; Some res.1) steps m.

Lemma run_each_market (R : Runtime) steps : forall a b live,
  Forall (fun step => same_sort R step.1) steps -> market_equiv a b ->
  run_market a (map snd steps) = Some live ->
  exists live', run_each b steps = Some live' /\ market_equiv live live'.
Proof.
  induction steps as [|[R' bar] steps IH]; intros a b live Hs Hab; cbn [map snd]; unfold run_market, run_each; cbn [loop].
  { intros [= <-]. by exists b. }
  apply Forall_cons in Hs as [Hs1 Hs].
  destruct (@Market_OnClosed R a bar) as [[m1 s1]|] eqn:H1; [|done]. cbn [mbind option_bind fst].
  destruct (Market_OnClosed_sort R R' a b bar m1 s1 Hs1 Hab H1) as (m2 & s2 & -> & Hm & _). cbn [mbind option_bind fst].
  apply (IH m1 m2 live Hs Hm).
Qed.

(** ** Decoded snapshots

    Whatever the data restored from, the reducer that results is well formed. *)

Definition trades_ok (bars : list Bar) : Prop := Forall (fun b => 0 <= bTrades b < 2 ^ 64) bars.

Lemma decode_u64_range name fields z : decode_u64 name fields = Some z -> 0 <= z < 2 ^ 64.
Proof.
  unfold decode_u64, decode_int. destruct (jfield name fields) as [[]|]; try done; [|by intros [= <-]].
  destruct (_ && _) eqn:Hb; [|done]. intros [= <-]. apply andb_true_iff in Hb as [? ?]. lia.
Qed.

Lemma unmarshal_Bar_trades j b : unmarshal_Bar j = Some b -> 0 <= bTrades b < 2 ^ 64.
Proof.
  unfold unmarshal_Bar. destruct j; try done. intros H.
  do 8 (apply bind_Some in H as (? & _ & H)). apply bind_Some in H as (t & Ht & H).
  apply bind_Some in H as (? & _ & [= <-]). by apply decode_u64_range in Ht.
Qed.

Lemma unmarshal_marketSnapshot_ok j s :
  unmarshal_marketSnapshot j = Some s -> 0 <= mnSamples s < 2 ^ 64 /\ trades_ok (mnBars s).
Proof.
  unfold unmarshal_marketSnapshot. destruct j as [| | | | | |fields]; try done. intros H.
  apply bind_Some in H as (v & _ & H). apply bind_Some in H as (n & Hn%decode_u64_range & H).
  apply bind_Some in H as (bars & Hb & [= <-]). split; [done|]. cbn.
  destruct (jfield "bars" fields) as [[]|]; try done; [|injection Hb as <-; constructor].
  apply mapM_Some in Hb. unfold trades_ok. induction Hb; constructor; [|done].
  by eapply unmarshal_Bar_trades.
Qed.

Section Restored.
Context `{Runtime}.

(** A reducer of the given configuration, ready to be restored into. *)
Definition market_shape (config : MarketConfig) (limit : Z) (m : Market) : Prop :=
  mkConfig m = config /\ mkHistoryLimit m = limit.

Definition limit_covers (config : MarketConfig) (limit : Z) : Prop :=
  0 <= limit /\
  Z.max (Z.max (RecentBars config) (FVGLookback config)) (LiquidityLookback config) <= limit.

Lemma Market_Restore_any m data :
  config_ok (mkConfig m) -> limit_covers (mkConfig m) (mkHistoryLimit m) ->
  is_panic (Market_Restore m data) = false /\
  forall m', Market_Restore m data = Ok m' ->
    market_wf m' /\ market_shape (mkConfig m) (mkHistoryLimit m) m' /\ trades_ok (mkBars m').
Proof.
  intros Hc [Hl Hcov]. unfold Market_Restore.
  destruct (unmarshal_marketSnapshot data) as [s|] eqn:Hs; [|done].
  destruct (negb _); [done|]. destruct (Z.ltb_spec (mkHistoryLimit m) (len (mnBars s))); [done|].
  destruct (EvaluateMarket_total (mnBars s) (mkConfig m) Hc) as [st Hst]. rewrite Hst. cbn.
  split; [done|]. intros m' [= <-]. apply unmarshal_marketSnapshot_ok in Hs as [? ?].
  split_and!; [|done|done]. split; cbn; try done. eauto.
Qed.

(** When a clone succeeds, no later bar can tell it from the original. *)
Lemma Market_Clone_inv m :
  market_wf m -> trades_ok (mkBars m) ->
  is_panic (Market_Clone m) = false /\
  forall m', Market_Clone m = Ok m' -> market_equiv m m' /\ market_wf m' /\ trades_ok (mkBars m').
Proof.
  intros Hwf Ht. unfold Market_Clone. rewrite NewMarket_ok by done. cbn [mbind outcome_bind].
  unfold Market_Snapshot. set (snap := mkMarketSnapshot _ _ _).
  destruct (marshal_marketSnapshot snap) as [j|] eqn:Hj; [|done]. cbn [mbind outcome_bind].
  destruct Hwf as [Hc Hl Hb Hs (s & Hz & Ha)].
  apply unmarshal_marshal_marketSnapshot in Hj; [|done..].
  unfold Market_Restore. rewrite Hj. cbn [mnVersion snap]. rewrite String.eqb_refl. cbn [negb mkHistoryLimit].
  rewrite (proj2 (Z.ltb_ge _ _)) by done. cbn [mnBars snap mkConfig]. rewrite Hz. cbn.
  split; [done|]. intros m' [= <-]. split_and!; [by split| |done]. split; cbn; try done. eauto.
Qed.

Lemma Market_OnClosed_equiv m m' bar :
  market_equiv m m' -> Market_OnClosed m' bar = Market_OnClosed m bar.
Proof. intros E. symmetry. by apply Market_OnClosed_proper. Qed.
End Restored.
