(* ===== verification/StoreSpec.v ===== *)
(** * The store interface (engine.Store)

    What a lane calls, as operations on the state of a store, and the laws
    every implementation keeps: operations are transactions. *)

From stdpp Require Import prelude strings list.
From Stdlib Require Import ZArith Lia String.
From S2P Require Import Prelude GoFloat Model.

#[local] Open Scope string_scope.
#[local] Open Scope list_scope.
#[local] Open Scope Z_scope.

(** An error returned by a store: its text. *)
Definition StoreError : Type := string.

Class Store (S : Type) := {
  LoadRecovery : S -> SeriesKey -> outcome StoreError SeriesRecovery;
  RebuildSeries : S -> SeriesKey -> list SignalEvent -> list ReducerSnapshot -> option Bar ->
                  S * outcome StoreError (list SignalEvent);
  CommitClosed : S -> SeriesKey -> Bar -> list SignalEvent -> list ReducerSnapshot ->
                 S * outcome StoreError (list SignalEvent);
  MarkPublished : S -> list Z -> S * outcome StoreError unit
}.

(** An event as given and as committed: all but the cursor is kept. *)
Definition same_event (e e' : SignalEvent) : Prop := e' = set_cursor e (evCursor e').

(** The laws.  [store_same] relates states that hold the same data: what a
    failed operation uses up (a database keeps the sequence numbers it handed
    out) is not part of it.  [LoadRecovery] returns an outcome only, so reading
    cannot change the store; no operation panics. *)
Class StoreLaws (S : Type) `{Store S} := {
  store_same : S -> S -> Prop;
  store_same_equiv :: Equivalence store_same;
  commit_atomic : forall s key bar events snapshots s' e,
    CommitClosed s key bar events snapshots = (s', Fail e) -> store_same s s';
  rebuild_atomic : forall s key events snapshots bar s' e,
    RebuildSeries s key events snapshots bar = (s', Fail e) -> store_same s s';
  commit_no_panic : forall s key bar events snapshots,
    is_panic (snd (CommitClosed s key bar events snapshots)) = false;
  rebuild_no_panic : forall s key events snapshots bar,
    is_panic (snd (RebuildSeries s key events snapshots bar)) = false;
  load_no_panic : forall s key, is_panic (LoadRecovery s key) = false;
  mark_no_panic : forall s cursors, is_panic (snd (MarkPublished s cursors)) = false
}.
