(* ===== verification/Memory.v ===== *)
(** * The in-memory store (internal/store/memory.go)

    The whole store, its invariant, and the proof that it keeps the laws of the
    store interface.  [eventPeriod], [barHash] and the filters are shared with
    the Postgres store and come from postgres.go. *)

From stdpp Require Import prelude gmap strings list sorting.
From Stdlib Require Import ZArith Lia SpecFloat String.
From S2P Require Import Prelude GoFloat GoText Sha256 Model Ema StoreSpec.

#[local] Open Scope string_scope.
#[local] Open Scope list_scope.
#[local] Open Scope Z_scope.

Record Memory := mkMemory {
  meNext : Z;
  meEvents : list SignalEvent;
  mePoints : gmap string SignalEvent;
  meMarkets : gmap string SignalEvent;
  meCursors : gmap string Bar;
  meSnapshots : gmap string ReducerSnapshot;
  mePublished : gmap Z bool
}.

Definition NewMemory : Memory := mkMemory 0 [] ∅ ∅ ∅ ∅ ∅.

Definition Memory_Ping (s : Memory) : outcome StoreError unit := Ok tt.

(** ** Shared helpers *)

Definition eventPeriod (event : SignalEvent) : Z :=
  match evIndicator event with Some payload => ipPeriod payload | None => 0 end.

Definition barHash (bar : Bar) : string :=
  hex_encode (sum256 (bytes_of (bSymbol bar) ++ bytes_of (bTimeframe bar) ++
    flat_map (fun value => be_bytes 8 (float64_bits value) [])
      [bOpen bar; bHigh bar; bLow bar; bClose bar; bVolume bar] ++
    be_bytes 8 (bTrades bar) [])).

Definition snapshotKey (key : SeriesKey) (snapshot : ReducerSnapshot) : string :=
  SeriesKey_String key +:+ "|" +:+ aName (rsAlgorithm snapshot) +:+ "|" +:+
  aVersion (rsAlgorithm snapshot) +:+ "|" +:+ aConfigHash (rsAlgorithm snapshot) +:+ "|" +:+
  itoa (rsPeriod snapshot).

Definition marketKey (event : SignalEvent) : string :=
  evDataset event +:+ "|" +:+ evSymbol event +:+ "|" +:+ evTimeframe event +:+ "|" +:+
  aName (evAlgorithm event) +:+ "|" +:+ aVersion (evAlgorithm event) +:+ "|" +:+
  aConfigHash (evAlgorithm event).

Record EventFilter := mkEventFilter {
  efAfterCursor : Z;
  efDataset : string;
  efSymbol : string;
  efTimeframe : string;
  efPeriod : Z;
  efEventType : string;
  efAnalysis : string;
  efLimit : Z
}.

Record PointFilter := mkPointFilter {
  pfDataset : string;
  pfSymbol : string;
  pfTimeframe : string;
  pfPeriod : Z;
  pfAlgorithm : AlgorithmRef;
  pfLimit : Z
}.

(** [normalize] on either filter: the limit it sets. *)
Definition normalize_limit (limit : Z) : Z :=
  let limit := if limit <=? 0 then 500 else limit in
  if 5000 <? limit then 5000 else limit.

(** [filter.X != "" && event.X != filter.X] *)
Definition excluded (wanted actual : string) : bool :=
  negb (wanted =? "")%string && negb (actual =? wanted)%string.

(** ** Event state *)

(** The points that a new point of the same bar, revision, period and
    algorithm name replaces. *)
Definition superseded (event existing : SignalEvent) : bool :=
  (evDataset existing =? evDataset event)%string && (evSymbol existing =? evSymbol event)%string &&
  (evTimeframe existing =? evTimeframe event)%string &&
  (evBarOpenTime existing =? evBarOpenTime event) &&
  (evBarRevision existing =? evBarRevision event) &&
  (eventPeriod existing =? eventPeriod event) &&
  (aName (evAlgorithm existing) =? aName (evAlgorithm event))%string.

Definition map_remove {V} (p : V -> bool) (m : gmap string V) : gmap string V :=
  filter (fun kv => p kv.2 = false) m.

Definition map_remove_keys {V} (p : string -> bool) (m : gmap string V) : gmap string V :=
  filter (fun kv => p kv.1 = false) m.

Definition persistEventState (s : Memory) (event : SignalEvent) : Memory :=
  if (evEventType event =? "market.state")%string
  then mkMemory (meNext s) (meEvents s) (mePoints s) (<[marketKey event := event]> (meMarkets s))
         (meCursors s) (meSnapshots s) (mePublished s)
  else mkMemory (meNext s) (meEvents s)
         (<[evEventID event := event]> (map_remove (superseded event) (mePoints s)))
         (meMarkets s) (meCursors s) (meSnapshots s) (mePublished s).

Definition eventByID (s : Memory) (eventID : string) : option SignalEvent :=
  match mePoints s !! eventID with
  | Some event => Some event
  | None => List.find (fun event => (evEventID event =? eventID)%string) (meEvents s)
  end.

Definition save_snapshots (key : SeriesKey) (snapshots : list ReducerSnapshot)
    (saved : gmap string ReducerSnapshot) : gmap string ReducerSnapshot :=
  foldl (fun m snapshot => <[snapshotKey key snapshot := snapshot]> m) saved snapshots.

(** ** Operations *)

(** One event of a rebuild. *)
Definition rebuild_event (acc : Memory * list SignalEvent) (event : SignalEvent)
  : Memory * list SignalEvent :=
  let '(s, committed) := acc in
  let s := persistEventState s event in
  if evReset event then
    let next := wrap_i64 (meNext s + 1) in
    let event := set_cursor event next in
    (mkMemory next (meEvents s ++ [event]) (mePoints s) (meMarkets s) (meCursors s)
       (meSnapshots s) (<[next := false]> (mePublished s)), committed ++ [event])
  else (s, committed).

Definition Memory_RebuildSeries (s : Memory) (key : SeriesKey) (events : list SignalEvent)
    (snapshots : list ReducerSnapshot) (lastBar : option Bar)
  : Memory * outcome StoreError (list SignalEvent) :=
  if match lastBar, meCursors s !! SeriesKey_String key with
     | Some bar, Some current => bOpenTime bar <? bOpenTime current
     | _, _ => false
     end
  then (s, Fail "rebuilt series cursor would move backwards")
  else
    let series event := (evDataset event =? kDataset key)%string && (evSymbol event =? kSymbol key)%string &&
                        (evTimeframe event =? kTimeframe key)%string in
    let s := mkMemory (meNext s) (meEvents s) (map_remove series (mePoints s)) (meMarkets s)
               (meCursors s) (map_remove_keys (String.prefix (SeriesKey_String key +:+ "|")) (meSnapshots s))
               (mePublished s) in
    let '(s, committed) := foldl rebuild_event (s, []) events in
    (mkMemory (meNext s) (meEvents s) (mePoints s) (meMarkets s)
       (match lastBar with
        | Some bar => <[SeriesKey_String key := bar]> (meCursors s)
        | None => meCursors s
        end)
       (save_snapshots key snapshots (meSnapshots s)) (mePublished s),
     Ok committed).

(** One event of a commit. *)
Definition commit_event (acc : Memory * list SignalEvent) (event : SignalEvent)
  : Memory * list SignalEvent :=
  let '(s, committed) := acc in
  let append_new :=
    let next := wrap_i64 (meNext s + 1) in
    let event := set_cursor event next in
    let s := persistEventState (mkMemory next (meEvents s) (mePoints s) (meMarkets s)
               (meCursors s) (meSnapshots s) (mePublished s)) event in
    (mkMemory (meNext s) (meEvents s ++ [event]) (mePoints s) (meMarkets s) (meCursors s)
       (meSnapshots s) (mePublished s), committed ++ [event]) in
  match eventByID s (evEventID event) with
  | Some existing => if 0 <? evCursor existing then (s, committed ++ [existing]) else append_new
  | None => append_new
  end.

Definition Memory_CommitClosed (s : Memory) (key : SeriesKey) (bar : Bar)
    (events : list SignalEvent) (snapshots : list ReducerSnapshot)
  : Memory * outcome StoreError (list SignalEvent) :=
  let behind := match meCursors s !! SeriesKey_String key with
                | Some current => if negb (bOpenTime current <? bOpenTime bar) then Some current else None
                | None => None
                end in
  match behind with
  | Some current =>
      if (bOpenTime bar =? bOpenTime current) && (barHash bar =? barHash current)%string
      then (s, Ok []) else (s, Fail "bar conflicts with memory cursor")
  | None =>
      let '(s, committed) := foldl commit_event (s, []) events in
      (mkMemory (meNext s) (meEvents s) (mePoints s) (meMarkets s)
         (<[SeriesKey_String key := bar]> (meCursors s))
         (save_snapshots key snapshots (meSnapshots s)) (mePublished s),
       Ok committed)
  end.

Definition Memory_MarkPublished (s : Memory) (cursors : list Z) : Memory * outcome StoreError unit :=
  (mkMemory (meNext s) (meEvents s) (mePoints s) (meMarkets s) (meCursors s) (meSnapshots s)
     (foldl (fun m cursor => <[cursor := true]> m) (mePublished s) cursors), Ok tt).

Definition is_published (s : Memory) (cursor : Z) : bool := default false (mePublished s !! cursor).

(** The loop stops at [limit] events, which is positive. *)
Definition Memory_PendingEvents (s : Memory) (limit : Z) : list SignalEvent :=
  let limit := if limit <=? 0 then 100 else limit in
  take (Z.to_nat limit) (List.filter (fun event => negb (is_published s (evCursor event))) (meEvents s)).

Definition event_matches (filter : EventFilter) (event : SignalEvent) : bool :=
  negb ((evCursor event <=? efAfterCursor filter) || excluded (efDataset filter) (evDataset event) ||
        excluded (efSymbol filter) (evSymbol event) || excluded (efTimeframe filter) (evTimeframe event) ||
        (negb (efPeriod filter =? 0) && negb (eventPeriod event =? efPeriod filter)) ||
        excluded (efEventType filter) (evEventType event) ||
        excluded (efAnalysis filter) (aName (evAlgorithm event))).

Definition Memory_QueryEvents (s : Memory) (filter : EventFilter) : list SignalEvent :=
  take (Z.to_nat (normalize_limit (efLimit filter))) (List.filter (event_matches filter) (meEvents s)).

Definition point_matches (filter : PointFilter) (event : SignalEvent) : bool :=
  negb (excluded (pfDataset filter) (evDataset event) || excluded (pfSymbol filter) (evSymbol event) ||
        excluded (pfTimeframe filter) (evTimeframe event) ||
        (negb (pfPeriod filter =? 0) && negb (eventPeriod event =? pfPeriod filter)) ||
        excluded (aName (pfAlgorithm filter)) (aName (evAlgorithm event)) ||
        excluded (aVersion (pfAlgorithm filter)) (aVersion (evAlgorithm event)) ||
        excluded (aConfigHash (pfAlgorithm filter)) (aConfigHash (evAlgorithm event))).

Definition point_less (a b : SignalEvent) : bool :=
  if evBarOpenTime a =? evBarOpenTime b then String.ltb (evEventID a) (evEventID b)
  else evBarOpenTime a <? evBarOpenTime b.

Section Queries.
Context `{Runtime}.

Definition Memory_QueryRecentPoints (s : Memory) (filter : PointFilter) : option (list SignalEvent) :=
  let events := map (fun kv => set_cursor kv.2 0)
    (List.filter (fun kv => point_matches filter kv.2) (map_range (mePoints s))) in
  keep_last (normalize_limit (pfLimit filter)) (sort_slice point_less events).

Definition Memory_LoadRecovery (s : Memory) (key : SeriesKey) : outcome StoreError SeriesRecovery :=
  let snapshots := map snd (List.filter
    (fun kv => String.prefix (SeriesKey_String key +:+ "|") kv.1) (map_range (meSnapshots s))) in
  Ok match meCursors s !! SeriesKey_String key with
     | Some cursor => mkRecovery snapshots (bOpenTime cursor) (barHash cursor) true
     | None => mkRecovery snapshots zero_time "" false
     end.

#[global] Instance memory_store : Store Memory := {|
  LoadRecovery := Memory_LoadRecovery;
  RebuildSeries := Memory_RebuildSeries;
  CommitClosed := Memory_CommitClosed;
  MarkPublished := Memory_MarkPublished
|}.

#[global] Instance memory_laws : StoreLaws Memory.
Proof.
  refine {| store_same := eq |}; cbn.
  - intros s key bar events snapshots s' e. unfold Memory_CommitClosed.
    repeat case_match; intros; by simplify_eq.
  - intros s key events snapshots bar s' e. unfold Memory_RebuildSeries.
    destruct (match bar with Some _ => _ | None => _ end); [by intros [= <- _]|].
    destruct (foldl _ _ _). done.
  - intros s key bar events snapshots. unfold Memory_CommitClosed. by repeat case_match.
  - intros s key events snapshots bar. unfold Memory_RebuildSeries.
    destruct (match bar with Some _ => _ | None => _ end); [done|]. by destruct (foldl _ _ _).
  - done.
  - done.
Defined.
End Queries.
