(* ===== verification/MemoryProofs.v ===== *)
(** * Properties of the in-memory store

    Cursors grow strictly, commits are idempotent, what is committed is what
    recovery reads back, and what is pending is what was not yet published. *)

From stdpp Require Import prelude gmap strings list sorting.
From Stdlib Require Import ZArith Lia SpecFloat String.
From S2P Require Import Prelude GoFloat GoText Sha256 Model Ema StoreSpec Memory.

#[local] Open Scope string_scope.
#[local] Open Scope list_scope.
#[local] Open Scope Z_scope.

#[local] Opaque barHash.

(** The event log is numbered: cursors grow strictly from 1 up to [meNext]. *)
Record memory_wf (s : Memory) : Prop := {
  me_next : 0 <= meNext s;
  me_sorted : StronglySorted Z.lt (map evCursor (meEvents s));
  me_range : Forall (fun e => 0 < evCursor e <= meNext s) (meEvents s);
  me_points : map_Forall (fun id e => evEventID e = id /\ evCursor e <= meNext s) (mePoints s)
}.

Lemma NewMemory_wf : memory_wf NewMemory.
Proof. split; cbn; try done; try constructor; intros k e Hk; by rewrite lookup_empty in Hk. Qed.

Lemma map_remove_subset {V} (p : V -> bool) (m : gmap string V) k v :
  map_remove p m !! k = Some v -> m !! k = Some v.
Proof. unfold map_remove. intros [? _]%map_lookup_filter_Some. done. Qed.

Lemma persistEventState_frame s e :
  meNext (persistEventState s e) = meNext s /\ meEvents (persistEventState s e) = meEvents s /\
  meCursors (persistEventState s e) = meCursors s /\ meSnapshots (persistEventState s e) = meSnapshots s /\
  mePublished (persistEventState s e) = mePublished s.
Proof. unfold persistEventState. by destruct (_ =? _)%string. Qed.

Lemma persistEventState_points s e n :
  evCursor e <= n -> map_Forall (fun id x => evEventID x = id /\ evCursor x <= n) (mePoints s) ->
  map_Forall (fun id x => evEventID x = id /\ evCursor x <= n) (mePoints (persistEventState s e)).
Proof.
  intros He Hp. unfold persistEventState. destruct (_ =? _)%string; [done|]. cbn.
  apply map_Forall_insert_2; [done|]. intros k x Hx%map_remove_subset. by eapply Hp.
Qed.

Lemma sorted_lt_snoc (l : list Z) n x :
  StronglySorted Z.lt l -> Forall (fun y => y <= n) l -> n < x -> StronglySorted Z.lt (l ++ [x]).
Proof.
  intros Hs Hl Hx. apply StronglySorted_app_2; [|done|by repeat constructor].
  intros y z Hy ->%list_elem_of_singleton. rewrite Forall_forall in Hl. specialize (Hl y Hy). cbn in Hl. lia.
Qed.

(** Appending an event under the next cursor. *)
Lemma append_event_wf s points published e :
  memory_wf s -> meNext s < 2 ^ 63 - 1 ->
  map_Forall (fun id x => evEventID x = id /\ evCursor x <= meNext s + 1) points ->
  memory_wf (mkMemory (wrap_i64 (meNext s + 1)) (meEvents s ++ [set_cursor e (wrap_i64 (meNext s + 1))])
               points (meMarkets s) (meCursors s) (meSnapshots s) published).
Proof.
  intros [Hn Hs Hr _] Hb Hp.
  rewrite wrap_i64_id by lia. split; cbn; [lia| | |done].
  - rewrite map_app. cbn. apply (sorted_lt_snoc _ (meNext s)); [done| |].
    + apply Forall_map. eapply Forall_impl; [exact Hr|]. cbn. lia.
    + lia.
  - apply Forall_app. split; [eapply Forall_impl; [exact Hr|]; cbn; lia|].
    apply Forall_singleton. cbn. lia.
Qed.

(** ** Committing *)

Lemma eventByID_id s id e : memory_wf s -> eventByID s id = Some e -> evEventID e = id.
Proof.
  intros Hwf. unfold eventByID. destruct (mePoints s !! id) as [x|] eqn:Hx.
  - intros [= <-]. by apply (me_points _ Hwf) in Hx as [? _].
  - intros [_ Hid]%find_some. by apply String.eqb_eq.
Qed.

(** The store after a new event was appended by a commit. *)
Definition append_committed (s : Memory) (e : SignalEvent) : Memory :=
  let next := wrap_i64 (meNext s + 1) in
  let e := set_cursor e next in
  let s := persistEventState (mkMemory next (meEvents s) (mePoints s) (meMarkets s)
             (meCursors s) (meSnapshots s) (mePublished s)) e in
  mkMemory (meNext s) (meEvents s ++ [e]) (mePoints s) (meMarkets s) (meCursors s)
    (meSnapshots s) (mePublished s).

Lemma append_committed_wf s e :
  memory_wf s -> meNext s < 2 ^ 63 - 1 ->
  memory_wf (append_committed s e) /\ meNext (append_committed s e) = meNext s + 1.
Proof.
  intros Hwf Hb. pose proof (me_next _ Hwf). unfold append_committed. cbn zeta.
  rewrite (wrap_i64_id (meNext s + 1)) by lia.
  set (fresh := mkMemory (meNext s + 1) _ _ _ _ _ _). set (e' := set_cursor e (meNext s + 1)).
  destruct (persistEventState_frame fresh e') as (-> & -> & -> & -> & ->). split; [|done].
  pose proof (append_event_wf s (mePoints (persistEventState fresh e')) (mePublished s) e Hwf Hb) as Hnew.
  rewrite (wrap_i64_id (meNext s + 1)) in Hnew by lia. destruct Hnew as [? ? ? ?]; [|by split].
  apply persistEventState_points; cbn; [lia|].
  intros k x Hx. destruct (me_points _ Hwf k x Hx) as [? ?]. split; [done|lia].
Qed.

Lemma commit_event_cases s committed e :
  commit_event (s, committed) e =
  match eventByID s (evEventID e) with
  | Some existing => if 0 <? evCursor existing then (s, committed ++ [existing])
                     else (append_committed s e, committed ++ [set_cursor e (wrap_i64 (meNext s + 1))])
  | None => (append_committed s e, committed ++ [set_cursor e (wrap_i64 (meNext s + 1))])
  end.
Proof. unfold commit_event, append_committed. cbn zeta. by destruct (eventByID s (evEventID e)). Qed.

Lemma eventByID_none m id : eventByID m id = None -> mePoints m !! id = None /\ (id ∉ map evEventID (meEvents m)).
Proof.
  unfold eventByID. destruct (mePoints m !! id); [done|]. intros Hf. split; [done|].
  intros (e & <- & Hin)%list_elem_of_In%in_map_iff. by apply (List.find_none _ _ Hf) in Hin as ?%String.eqb_neq.
Qed.

Lemma append_committed_fields m e :
  0 <= meNext m < 2 ^ 63 - 1 ->
  meNext (append_committed m e) = meNext m + 1 /\ mePublished (append_committed m e) = mePublished m /\
  meEvents (append_committed m e) = meEvents m ++ [set_cursor e (meNext m + 1)].
Proof.
  intros Hb. unfold append_committed. cbn zeta. rewrite (wrap_i64_id (meNext m + 1)) by lia.
  set (fresh := mkMemory (meNext m + 1) _ _ _ _ _ _). set (e' := set_cursor e (meNext m + 1)).
  by destruct (persistEventState_frame fresh e') as (-> & -> & _ & _ & ->).
Qed.

(** An id that was unknown stays unknown when another event is appended. *)
Lemma append_committed_unknown m e id :
  id <> evEventID e -> eventByID m id = None -> eventByID (append_committed m e) id = None.
Proof.
  intros Hne [Hp Hid]%eventByID_none. unfold eventByID, append_committed. cbn zeta.
  set (c := wrap_i64 (meNext m + 1)). set (fresh := mkMemory c _ _ _ _ _ _). set (e' := set_cursor e c).
  destruct (persistEventState_frame fresh e') as (_ & Hev & _). cbn [mePoints meEvents]. rewrite Hev. cbn [meEvents fresh].
  assert (mePoints (persistEventState fresh e') !! id = None) as ->.
  { unfold persistEventState. destruct (_ =? _)%string; [done|]. cbn [mePoints].
    rewrite lookup_insert_ne by (by intros Heq; apply Hne; rewrite <-Heq).
    destruct (map_remove _ _ !! id) as [x|] eqn:Hx; [|done]. apply map_remove_subset in Hx. cbn in Hx. congruence. }
  destruct (List.find _ _) as [x|] eqn:Hf; [|done]. apply List.find_some in Hf as [Hin Hx%String.eqb_eq].
  apply in_app_iff in Hin as [Hin|[<-|[]]]; [|by destruct Hne]. destruct Hid. rewrite <-Hx.
  by apply list_elem_of_In, in_map.
Qed.

(** One event: the store stays well formed, takes at most one more cursor, and
    returns an event of the same identity with a cursor of its own. *)
Lemma commit_event_wf s committed e :
  memory_wf s -> meNext s < 2 ^ 63 - 1 ->
  exists s' e', commit_event (s, committed) e = (s', committed ++ [e']) /\ memory_wf s' /\
    meNext s <= meNext s' <= meNext s + 1 /\ evEventID e' = evEventID e /\ 0 < evCursor e'.
Proof.
  intros Hwf Hb. pose proof (me_next _ Hwf). rewrite commit_event_cases.
  destruct (append_committed_wf s e Hwf Hb) as [Hnew Hn].
  assert (Happ : exists s' e', (append_committed s e, committed ++ [set_cursor e (wrap_i64 (meNext s + 1))])
      = (s', committed ++ [e']) /\ memory_wf s' /\
      meNext s <= meNext s' <= meNext s + 1 /\ evEventID e' = evEventID e /\ 0 < evCursor e').
  { eexists _, _. split; [done|]. split_and!; [done|lia|lia|done|]. cbn. rewrite wrap_i64_id; lia. }
  destruct (eventByID s (evEventID e)) as [existing|] eqn:Hby; [|done].
  destruct (Z.ltb_spec 0 (evCursor existing)); [|done].
  exists s, existing. split_and!; [done|done|lia|lia| |done]. exact (eventByID_id s _ _ Hwf Hby).
Qed.

Lemma commit_events_wf events s committed :
  memory_wf s -> meNext s + len events < 2 ^ 63 - 1 ->
  exists s' out, foldl commit_event (s, committed) events = (s', committed ++ out) /\ memory_wf s' /\
    meNext s <= meNext s' <= meNext s + len events /\
    Forall2 (fun e e' => evEventID e' = evEventID e /\ 0 < evCursor e') events out.
Proof.
  revert s committed. induction events as [|e events IH]; intros s committed Hwf Hb; cbn [foldl].
  - exists s, []. rewrite app_nil_r. unfold len. cbn. split_and!; [done..|lia|lia|constructor].
  - rewrite len_cons in Hb. pose proof (len_nonneg events).
    destruct (commit_event_wf s committed e Hwf) as (s1 & e1 & -> & Hw1 & Hn1 & Hid & Hc); [lia|].
    destruct (IH s1 (committed ++ [e1]) Hw1) as (s2 & out & -> & Hw2 & Hn2 & Hall); [lia|].
    exists s2, (e1 :: out). rewrite <-app_assoc, len_cons. split_and!; [done..|lia|lia|]. by constructor.
Qed.

Lemma set_cursors_wf s cursors snapshots :
  memory_wf s -> memory_wf (mkMemory (meNext s) (meEvents s) (mePoints s) (meMarkets s) cursors snapshots (mePublished s)).
Proof. intros []. by split. Qed.

(** A commit ahead of the cursor: every event comes back with a cursor, and
    the bar becomes the cursor. *)
Lemma Memory_CommitClosed_ok s key bar events snapshots :
  memory_wf s -> meNext s + len events < 2 ^ 63 - 1 ->
  (forall current, meCursors s !! SeriesKey_String key = Some current -> bOpenTime current < bOpenTime bar) ->
  exists s' committed, Memory_CommitClosed s key bar events snapshots = (s', Ok committed) /\
    memory_wf s' /\ meCursors s' !! SeriesKey_String key = Some bar /\
    Forall2 (fun e e' => evEventID e' = evEventID e /\ 0 < evCursor e') events committed.
Proof.
  intros Hwf Hb Hcur. unfold Memory_CommitClosed.
  destruct (commit_events_wf events s [] Hwf Hb) as (s' & out & Hf & Hw' & _ & Hall).
  rewrite Hf. destruct (meCursors s !! SeriesKey_String key) as [current|].
  - rewrite (proj2 (Z.ltb_lt _ _)) by (by apply Hcur). cbn. eexists _, _. split; [done|]. cbn.
    split_and!; [by apply set_cursors_wf|by rewrite lookup_insert_eq|done].
  - cbn. eexists _, _. split; [done|]. cbn.
    split_and!; [by apply set_cursors_wf|by rewrite lookup_insert_eq|done].
Qed.

(** The same bar again: nothing changes and nothing is returned. *)
Lemma Memory_CommitClosed_again s key bar events snapshots :
  meCursors s !! SeriesKey_String key = Some bar ->
  Memory_CommitClosed s key bar events snapshots = (s, Ok []).
Proof.
  intros Hc. unfold Memory_CommitClosed. rewrite Hc, Z.ltb_irrefl. cbn. by rewrite Z.eqb_refl, String.eqb_refl.
Qed.

(** A bar behind the cursor, or another bar at its time, is refused. *)
Lemma Memory_CommitClosed_conflict s key bar current events snapshots :
  meCursors s !! SeriesKey_String key = Some current ->
  bOpenTime bar < bOpenTime current \/
  (bOpenTime bar = bOpenTime current /\ barHash bar <> barHash current) ->
  exists e, Memory_CommitClosed s key bar events snapshots = (s, Fail e).
Proof.
  intros Hc Hbad. unfold Memory_CommitClosed. rewrite Hc, (proj2 (Z.ltb_ge _ _)) by lia. cbn.
  destruct (_ && _) eqn:Hb; [|eauto]. apply andb_true_iff in Hb as [?%Z.eqb_eq ?%String.eqb_eq]. by destruct Hbad as [?|[_ ?]]; [lia|].
Qed.

(** ** Rebuilding *)

(** Only resets enter the event log; they come back in order, numbered. *)
Lemma rebuild_events_wf events s committed :
  memory_wf s -> meNext s + len events < 2 ^ 63 - 1 -> Forall (fun e => evCursor e = 0) events ->
  exists s' out, foldl rebuild_event (s, committed) events = (s', committed ++ out) /\ memory_wf s' /\
    meCursors s' = meCursors s /\ meSnapshots s' = meSnapshots s /\
    meEvents s' = meEvents s ++ out /\
    Forall2 (fun e e' => e' = set_cursor e (evCursor e') /\ meNext s < evCursor e')
      (List.filter evReset events) out.
Proof.
  revert s committed. induction events as [|e events IH]; intros s committed Hwf Hb Hz; cbn [foldl].
  - exists s, []. rewrite !app_nil_r. split_and!; done || constructor.
  - rewrite len_cons in Hb. pose proof (len_nonneg events). pose proof (me_next _ Hwf).
    apply Forall_cons in Hz as [He Hz]. unfold rebuild_event at 2.
    destruct (persistEventState_frame s e) as (F1 & F2 & F3 & F4 & F5).
    assert (Hpts : map_Forall (fun id x => evEventID x = id /\ evCursor x <= meNext s)
              (mePoints (persistEventState s e))).
    { apply persistEventState_points; [lia|]. apply Hwf. }
    assert (Hw1 : memory_wf (persistEventState s e)).
    { destruct Hwf. split; rewrite ?F1, ?F2; done. }
    cbn [List.filter]. destruct (evReset e).
    + set (s1 := mkMemory _ _ _ _ _ _ _).
      assert (Hs1 : memory_wf s1).
      { apply (append_event_wf (persistEventState s e)); [done|rewrite F1; lia|].
        intros k x Hx. destruct (Hpts k x Hx). rewrite F1. split; [done|lia]. }
      assert (Hn1 : meNext s1 = meNext s + 1) by (cbn; rewrite F1; apply wrap_i64_id; lia).
      destruct (IH s1 (committed ++ [set_cursor e (wrap_i64 (meNext (persistEventState s e) + 1))]) Hs1)
        as (s2 & out & -> & Hw2 & E1 & E2 & E3 & Hall); [lia|done|].
      eexists s2, (_ :: out). rewrite <-app_assoc. split; [done|]. rewrite E1, E2, E3. cbn. rewrite F2, F3, F4.
      rewrite <-app_assoc. split_and!; try done. constructor.
      * rewrite F1, wrap_i64_id by lia. cbn. split; [done|lia].
      * eapply Forall2_impl; [exact Hall|]. cbn. intros x y [? ?]. split; [done|]. cbn in Hn1. lia.
    + destruct (IH (persistEventState s e) committed Hw1) as (s2 & out & -> & Hw2 & E1 & E2 & E3 & Hall);
        [rewrite F1; lia|done|].
      exists s2, out. rewrite E1, E2, E3, F2, F3, F4. rewrite F1 in Hall. split_and!; done.
Qed.

(** A rebuild that does not move the cursor back: the resets come back
    numbered above all earlier events, and the last bar is the cursor. *)
Lemma Memory_RebuildSeries_ok s key events snapshots lastBar :
  memory_wf s -> meNext s + len events < 2 ^ 63 - 1 -> Forall (fun e => evCursor e = 0) events ->
  (forall current, meCursors s !! SeriesKey_String key = Some current -> bOpenTime current <= bOpenTime lastBar) ->
  exists s' committed, Memory_RebuildSeries s key events snapshots (Some lastBar) = (s', Ok committed) /\
    memory_wf s' /\ meCursors s' !! SeriesKey_String key = Some lastBar /\
    meEvents s' = meEvents s ++ committed /\
    Forall2 (fun e e' => e' = set_cursor e (evCursor e') /\ meNext s < evCursor e')
      (List.filter evReset events) committed.
Proof.
  intros Hwf Hn Hz Hc. unfold Memory_RebuildSeries.
  assert (Hguard : match meCursors s !! SeriesKey_String key with
                   | Some current => bOpenTime lastBar <? bOpenTime current | None => false end = false).
  { destruct (meCursors s !! SeriesKey_String key) as [current|]; [|done]. apply Z.ltb_ge. by apply Hc. }
  rewrite Hguard. cbn zeta. set (s0 := mkMemory (meNext s) _ _ _ _ _ _).
  assert (Hw0 : memory_wf s0).
  { destruct Hwf as [H1 H2 H3 H4]. split; cbn; try done.
    intros k x Hx. apply (H4 k x). by eapply map_remove_subset. }
  destruct (rebuild_events_wf events s0 [] Hw0 Hn Hz) as (s1 & out & -> & Hw1 & _ & _ & He & Hall).
  cbn [app]. eexists _, out. split; [done|]. cbn. rewrite lookup_insert_eq.
  split_and!; [by apply set_cursors_wf|done..].
Qed.

(** ** Pending events *)

(** What is still to be published, in cursor order. *)
Definition pending (s : Memory) : list SignalEvent :=
  List.filter (fun e => negb (is_published s (evCursor e))) (meEvents s).

Lemma Memory_PendingEvents_eq s limit :
  0 < limit -> Memory_PendingEvents s limit = take (Z.to_nat limit) (pending s).
Proof. intros. unfold Memory_PendingEvents. by rewrite (proj2 (Z.leb_gt _ _)). Qed.

Lemma mark_lookup cursors (m : gmap Z bool) c :
  foldl (fun m cursor => <[cursor := true]> m) m cursors !! c =
  if decide (c ∈ cursors) then Some true else m !! c.
Proof.
  revert m. induction cursors as [|d cursors IH]; intros m; cbn [foldl]; [done|]. rewrite IH.
  destruct (decide (c ∈ cursors)), (decide (c ∈ d :: cursors)); try done; [set_solver| |].
  - assert (c = d) as -> by set_solver. by rewrite lookup_insert_eq.
  - by rewrite lookup_insert_ne by set_solver.
Qed.

(** Marking removes exactly the marked cursors from what is pending. *)
Lemma pending_marked s cursors :
  pending (Memory_MarkPublished s cursors).1 =
  List.filter (fun e => negb (bool_decide (evCursor e ∈ cursors))) (pending s).
Proof.
  unfold pending, Memory_MarkPublished, is_published. cbn.
  induction (meEvents s) as [|e l IH]; cbn; [done|]. rewrite mark_lookup.
  destruct (decide (evCursor e ∈ cursors)) as [Hin|Hn]; cbn.
  - destruct (mePublished s !! evCursor e) as [[]|]; cbn; rewrite ?IH, ?bool_decide_true by done; done.
  - destruct (mePublished s !! evCursor e) as [[]|]; cbn; rewrite ?IH, ?bool_decide_false by done; done.
Qed.

Lemma filter_sublist {A} (p : A -> bool) l : List.filter p l `sublist_of` l.
Proof. induction l as [|x l IH]; cbn; [done|]. destruct (p x); by constructor. Qed.

Lemma sublist_map {A B} (f : A -> B) l k : l `sublist_of` k -> map f l `sublist_of` map f k.
Proof. induction 1; cbn; by constructor. Qed.

Lemma sorted_filter {A} (f : A -> Z) (p : A -> bool) l :
  StronglySorted Z.lt (map f l) -> StronglySorted Z.lt (map f (List.filter p l)).
Proof.
  induction l as [|e l IH]; cbn in *; [done|].
  intros [Hs Hx]%StronglySorted_inv. destruct (p e); cbn; [|auto]. constructor; [auto|].
  rewrite Forall_forall in *. intros c Hc. apply Hx.
  eapply sublist_subseteq; [|exact Hc]. apply sublist_map, filter_sublist.
Qed.

(** Removing the first [n] elements by their keys. *)
Lemma filter_taken {A} (f : A -> Z) n l :
  StronglySorted Z.lt (map f l) ->
  List.filter (fun x => negb (bool_decide (f x ∈ map f (take n l)))) l = drop n l.
Proof.
  intros Hs. set (unmarked := fun e => negb (bool_decide (f e ∈ map f (take n l)))).
  transitivity (List.filter unmarked (take n l ++ drop n l)); [by rewrite take_drop|].
  rewrite List.filter_app.
  rewrite <-(take_drop n l), map_app in Hs. apply StronglySorted_app in Hs as (Hlt & _ & _).
  assert (H1 : forall k, (forall e, e ∈ k -> f e ∈ map f (take n l)) -> List.filter unmarked k = []).
  { unfold unmarked. induction k as [|e k IH]; intros Hk; cbn; [done|]. rewrite bool_decide_true by (apply Hk; by left).
    apply IH. intros x Hx. apply Hk. by right. }
  assert (H2 : forall k, (forall e, e ∈ k -> f e ∉ map f (take n l)) -> List.filter unmarked k = k).
  { unfold unmarked. induction k as [|e k IH]; intros Hk; cbn; [done|]. rewrite bool_decide_false by (apply Hk; by left).
    cbn. f_equal. apply IH. intros x Hx. apply Hk. by right. }
  rewrite H1, H2; [done| |].
  - intros e He Hin. specialize (Hlt (f e) (f e) Hin).
    enough (f e < f e) by lia. apply Hlt. apply list_elem_of_fmap. eauto.
  - intros e He. apply list_elem_of_fmap. eauto.
Qed.

Lemma pending_sorted s : memory_wf s -> StronglySorted Z.lt (map evCursor (pending s)).
Proof. intros [_ Hs _ _]. by apply sorted_filter. Qed.

(** Publishing the first [n] pending events leaves the others pending. *)
Lemma pending_drop s n :
  memory_wf s ->
  pending (Memory_MarkPublished s (map evCursor (take n (pending s)))).1 = drop n (pending s).
Proof.
  intros Hwf. rewrite pending_marked. by apply filter_taken, pending_sorted.
Qed.

Lemma MarkPublished_wf s cursors : memory_wf s -> memory_wf (Memory_MarkPublished s cursors).1.
Proof. intros []. by split. Qed.

(** ** A new store *)

Lemma NewMemory_LoadRecovery `{Runtime} key :
  Memory_LoadRecovery NewMemory key = Ok (mkRecovery [] zero_time "" false).
Proof.
  unfold Memory_LoadRecovery, NewMemory. cbn [meCursors meSnapshots]. rewrite lookup_empty.
  assert (Hr : map_range (∅ : gmap string ReducerSnapshot) = []).
  { apply Permutation_nil. symmetry. rewrite map_range_perm. by rewrite map_to_list_empty. }
  by rewrite Hr.
Qed.
