(* ===== verification/Migrations.v ===== *)
(** * Opening the database (internal/store/postgres.go)

    [OpenPostgres]: the pool, its settings, and the migrations, which run in one
    transaction.  The driver is a parameter: what it makes of a URL, what the
    database makes of a script, and which of the calls fail. *)

From stdpp Require Import prelude gmap strings list.
From Stdlib Require Import ZArith Lia Ascii String.
From S2P Require Import Prelude GoFloat GoText Sha256 GoStrings Model StoreSpec.

#[local] Open Scope string_scope.
#[local] Open Scope list_scope.
#[local] Open Scope Z_scope.

(** ** Migration files *)

Record migrationFile := mkMigration {
  mfName : string;
  mfIsDir : bool;
  mfSql : string
}.

Definition has_suffix (suffix s : string) : bool :=
  (String.length suffix <=? String.length s)%nat &&
  (String.substring (String.length s - String.length suffix) (String.length suffix) s =? suffix)%string.

(** The version in front of the first underscore; [None] for a name without
    a positive one. *)
Definition migration_version (name : string) : option Z :=
  match split_on "_" name with
  | prefix :: _ :: _ => v ← atoi prefix; if v <=? 0 then None else Some v
  | _ => None
  end.

(** What is wrong with a name that has none; [%q] of a plain name. *)
Definition migration_name_error (name : string) : string :=
  "migration " +:+ String "034" name +:+ String "034"
    (if len (split_on "_" name) <=? 1 then " has no numeric prefix" else " has invalid version").

(** ** Calls to the driver

    A computation that calls the driver: each call fails when the next entry of
    the script says so. *)
Definition tx (A : Type) : Type := list bool -> list bool * outcome StoreError A.

#[local] Instance tx_ret : MRet tx := fun A a faults => (faults, Ok a).
#[local] Instance tx_bind : MBind tx := fun A B f m faults =>
  match m faults with
  | (faults, Ok a) => f a faults
  | (faults, Fail e) => (faults, Fail e)
  | (faults, Panic) => (faults, Panic)
  end.

Definition tx_call (what : string) : tx unit := fun faults =>
  match faults with
  | true :: rest => (rest, Fail (what +:+ ": connection lost"))
  | _ => (tail faults, Ok tt)
  end.

Definition tx_lift {A} (m : outcome StoreError A) : tx A := fun faults => (faults, m).

(** ** The pool *)

(** The settings of [pgxpool.Config] that are set here; [pcRest] stands for the
    others, which come from the URL. *)
Record PoolConfig := mkPoolConfig {
  pcMaxConns : Z;
  pcMinConns : Z;
  pcMaxConnIdleTime : Z;
  pcMaxConnLifetime : Z;
  pcHealthCheckPeriod : Z;
  pcRest : string
}.

(** The settings [OpenPostgres] makes of the ones in the URL. *)
Definition pool_settings (config : PoolConfig) (maxConnections : Z) : PoolConfig :=
  mkPoolConfig (if 0 <? maxConnections then maxConnections else pcMaxConns config) 1
    (5 * minute) (30 * minute) (30 * second) (pcRest config).

(** A database with its ledger of migrations, the pool that is open on it, if
    one is, and the calls that will fail. *)
Record Pool (D : Type) := mkPool {
  plConfig : option PoolConfig;
  plLedger : gset Z;
  plData : D;
  plFaults : list bool
}.
Arguments mkPool {D}.
Arguments plConfig {D}.
Arguments plLedger {D}.
Arguments plData {D}.
Arguments plFaults {D}.

Section Opening.
Context {D : Type} (exec : D -> string -> outcome StoreError D) (ParseConfig : string -> outcome StoreError PoolConfig).

(** The loop over the embedded files.  A script that reaches the database may
    be refused by it ([exec]); the call may also fail on the way. *)
Fixpoint migrate_entries (entries : list migrationFile) (ledger : gset Z) (d : D) : tx (gset Z * D) :=
  match entries with
  | [] => mret (ledger, d)
  | entry :: rest =>
      if mfIsDir entry || negb (has_suffix ".sql" (mfName entry)) then migrate_entries rest ledger d
      else match migration_version (mfName entry) with
           | None => tx_lift (Fail (migration_name_error (mfName entry)))
           | Some version =>
               _ ← tx_call ("check migration " +:+ itoa version);
               if bool_decide (version ∈ ledger) then migrate_entries rest ledger d
               else
                 _ ← tx_call ("read migration " +:+ itoa version);
                 _ ← tx_call ("apply migration " +:+ itoa version);
                 d' ← tx_lift (wrap_err (fun e => "apply migration " +:+ itoa version +:+ ": " +:+ e) (exec d (mfSql entry)));
                 _ ← tx_call ("record migration " +:+ itoa version);
                 migrate_entries rest ({[version]} ∪ ledger) d'
           end
  end.

Definition migration (entries : list migrationFile) (ledger : gset Z) (d : D) : tx (gset Z * D) :=
  _ ← tx_call "list migrations";
  _ ← tx_call "begin migration";
  _ ← tx_call "lock migrations";
  _ ← tx_call "create migration ledger";
  state ← migrate_entries entries ledger d;
  _ ← tx_call "commit migration";
  mret state.

(** One transaction: the database is as before unless it commits. *)
Definition Migrate (entries : list migrationFile) (p : Pool D) : Pool D * outcome StoreError unit :=
  match migration entries (plLedger p) (plData p) (plFaults p) with
  | (faults, Ok (ledger, d)) => (mkPool (plConfig p) ledger d faults, Ok tt)
  | (faults, Fail e) => (mkPool (plConfig p) (plLedger p) (plData p) faults, Fail e)
  | (faults, Panic) => (mkPool (plConfig p) (plLedger p) (plData p) faults, Panic)
  end.

(** [pool.Close] *)
Definition Pool_Close (p : Pool D) : Pool D := mkPool None (plLedger p) (plData p) (plFaults p).

(** A call outside a transaction. *)
Definition pool_call (what : string) (p : Pool D) : Pool D * outcome StoreError unit :=
  let '(faults, r) := tx_call what (plFaults p) in (mkPool (plConfig p) (plLedger p) (plData p) faults, r).

Definition OpenPostgres (entries : list migrationFile) (p : Pool D) (databaseURL : string) (maxConnections : Z)
  : Pool D * outcome StoreError unit :=
  match ParseConfig databaseURL with
  | Fail e => (p, Fail ("parse database URL: " +:+ e))
  | Panic => (p, Panic)
  | Ok config =>
      match pool_call "open PostgreSQL pool" p with
      | (p, Ok _) =>
          let p := mkPool (Some (pool_settings config maxConnections)) (plLedger p) (plData p) (plFaults p) in
          match pool_call "ping PostgreSQL" p with
          | (p, Ok _) =>
              match Migrate entries p with
              | (p, Ok _) => (p, Ok tt)
              | (p, r) => (Pool_Close p, r)
              end
          | (p, r) => (Pool_Close p, r)
          end
      | (p, r) => (p, r)
      end
  end.

(** ** What a migration does *)

(** The files a migration considers. *)
Definition is_migration (entry : migrationFile) : bool := negb (mfIsDir entry || negb (has_suffix ".sql" (mfName entry))).

(** Running scripts in order. *)
Fixpoint exec_all (d : D) (scripts : list string) : outcome StoreError D :=
  match scripts with
  | [] => Ok d
  | sql :: rest => d' ← exec d sql; exec_all d' rest
  end.

(** The version of a file that is a migration. *)
Definition file_version (entry : migrationFile) : option Z :=
  if is_migration entry then migration_version (mfName entry) else None.

(** The migrations that a ledger does not have. *)
Definition missing (ledger : gset Z) (entry : migrationFile) : bool :=
  match file_version entry with Some version => negb (bool_decide (version ∈ ledger)) | None => false end.

Lemma missing_more ledger version entries :
  version ∉ omap file_version entries ->
  List.filter (missing ({[version]} ∪ ledger)) entries = List.filter (missing ledger) entries.
Proof.
  induction entries as [|entry entries IH]; intros Hn; [done|]. cbn [List.filter].
  cbn [omap list_omap] in Hn.
  assert (missing ({[version]} ∪ ledger) entry = missing ledger entry) as ->.
  { unfold missing. destruct (file_version entry) as [v|]; [|done]. assert (v <> version) by set_solver.
    by rewrite (bool_decide_ext (v ∈ {[version]} ∪ ledger) (v ∈ ledger)) by set_solver. }
  rewrite IH; [done|]. by destruct (file_version entry); set_solver.
Qed.

Lemma tx_bind_ok {A B} (m : tx A) (f : A -> tx B) faults faults' b :
  (m ≫= f) faults = (faults', Ok b) -> exists a middle, m faults = (middle, Ok a) /\ f a middle = (faults', Ok b).
Proof. unfold mbind, tx_bind. destruct (m faults) as [middle [a|e|]]; [eauto|done|done]. Qed.

(** After a run of the loop over files of distinct versions: the ledger has
    gained their versions, the scripts of those it did not have, and no others,
    have run in the order of the files, and a second run without failures finds
    nothing to do. *)
Lemma migrate_entries_spec entries : forall ledger d faults ledger' d' faults',
  NoDup (omap file_version entries) ->
  migrate_entries entries ledger d faults = (faults', Ok (ledger', d')) ->
  ledger' = ledger ∪ list_to_set (omap file_version entries) /\
  (forall entry, entry ∈ entries -> is_migration entry = true -> is_Some (migration_version (mfName entry))) /\
  exec_all d (map mfSql (List.filter (missing ledger) entries)) = Ok d' /\
  forall more d2, ledger' ⊆ more -> migrate_entries entries more d2 [] = ([], Ok (more, d2)).
Proof.
  induction entries as [|entry entries IH]; intros ledger d faults ledger' d' faults' Hnd;
    cbn [migrate_entries List.filter omap list_omap] in *.
  { intros [= _ <- <-]. split_and!; [set_solver|set_solver|done|done]. }
  assert (Hfv : file_version entry = if mfIsDir entry || negb (has_suffix ".sql" (mfName entry)) then None
    else migration_version (mfName entry)) by (unfold file_version, is_migration; by destruct (_ || _)).
  assert (Hmi : missing ledger entry = match file_version entry with
    | Some version => negb (bool_decide (version ∈ ledger)) | None => false end) by done.
  rewrite Hmi, Hfv in *. clear Hmi Hfv. destruct (mfIsDir entry || _) eqn:Hskip.
  { intros (Hl & Hv & Ha & Hi)%IH; [|done]. split_and!; try done. intros x [->|Hx]%elem_of_cons Hm; [|by apply Hv].
    unfold is_migration in Hm. by rewrite Hskip in Hm. }
  destruct (migration_version (mfName entry)) as [version|] eqn:Hver; [|done].
  apply NoDup_cons in Hnd as [Hnew Hnd].
  intros ([] & f1 & _ & Hrun)%tx_bind_ok. case_bool_decide as Hin; cbn [negb].
  - apply IH in Hrun as (-> & Hv & Ha & Hi); [|done]. split_and!; [set_solver| |done|].
    + intros x [->|Hx]%elem_of_cons Hm; [by eexists|by apply Hv].
    + intros more d2 Hmore. cbn. rewrite bool_decide_eq_true_2 by set_solver. by apply Hi.
  - apply tx_bind_ok in Hrun as ([] & f2 & _ & Hrun). apply tx_bind_ok in Hrun as ([] & f3 & _ & Hrun).
    apply tx_bind_ok in Hrun as (d1 & f4 & Hexec & Hrun). apply tx_bind_ok in Hrun as ([] & f5 & _ & Hrun).
    unfold tx_lift in Hexec. injection Hexec as _ Hexec.
    destruct (exec d (mfSql entry)) as [d1'|e|] eqn:Hex; [|done|done]. injection Hexec as ->.
    apply IH in Hrun as (-> & Hv & Ha & Hi); [|done]. rewrite missing_more in Ha by done. split_and!; [set_solver| | |].
    + intros x [->|Hx]%elem_of_cons Hm; [by eexists|by apply Hv].
    + cbn [map exec_all]. by rewrite Hex.
    + intros more d2 Hmore. cbn. rewrite bool_decide_eq_true_2 by set_solver. by apply Hi.
Qed.

Lemma migration_spec entries ledger d faults ledger' d' faults' :
  migration entries ledger d faults = (faults', Ok (ledger', d')) ->
  exists f1 f2, migrate_entries entries ledger d f1 = (f2, Ok (ledger', d')).
Proof.
  unfold migration. intros ([] & f1 & _ & Hrun)%tx_bind_ok. apply tx_bind_ok in Hrun as ([] & f2 & _ & Hrun).
  apply tx_bind_ok in Hrun as ([] & f3 & _ & Hrun). apply tx_bind_ok in Hrun as ([] & f4 & _ & Hrun).
  apply tx_bind_ok in Hrun as (state & f5 & Hm & Hrun). apply tx_bind_ok in Hrun as ([] & f6 & _ & Hrun). injection Hrun as _ ->. eauto.
Qed.

Lemma Migrate_again entries ledger d config :
  migrate_entries entries ledger d [] = ([], Ok (ledger, d)) ->
  Migrate entries (mkPool config ledger d []) = (mkPool config ledger d [], Ok tt).
Proof.
  intros Hm. unfold Migrate, migration. cbn [plLedger plData plFaults].
  unfold mbind, tx_bind. cbn [tx_call tail]. by rewrite Hm.
Qed.

Lemma Open_again entries ledger d url maxConnections config :
  ParseConfig url = Ok config -> migrate_entries entries ledger d [] = ([], Ok (ledger, d)) ->
  OpenPostgres entries (mkPool None ledger d []) url maxConnections =
    (mkPool (Some (pool_settings config maxConnections)) ledger d [], Ok tt).
Proof.
  intros Hc Hm. unfold OpenPostgres. rewrite Hc. unfold pool_call. cbn [plConfig plLedger plData plFaults tx_call tail].
  by rewrite Migrate_again.
Qed.

(** The ways opening ends. *)
Lemma Open_cases entries p url maxConnections p' r :
  plConfig p = None -> OpenPostgres entries p url maxConnections = (p', r) ->
  match r with
  | Ok _ => exists config f1 f2, ParseConfig url = Ok config /\
      plConfig p' = Some (pool_settings config maxConnections) /\
      migrate_entries entries (plLedger p) (plData p) f1 = (f2, Ok (plLedger p', plData p'))
  | _ => plConfig p' = None /\ plLedger p' = plLedger p /\ plData p' = plData p
  end.
Proof.
  intros Hp. unfold OpenPostgres. destruct (ParseConfig url) as [config|e|] eqn:Hcfg; [|by intros [= <- <-]..].
  unfold pool_call. destruct (tx_call _ (plFaults p)) as [f1 [[]|e1|]]; [|by intros [= <- <-]..].
  cbn [plConfig plLedger plData plFaults]. destruct (tx_call _ f1) as [f2 [[]|e2|]]; [|by intros [= <- <-]..].
  unfold Migrate. cbn [plConfig plLedger plData plFaults].
  destruct (migration entries (plLedger p) (plData p) f2) as [f3 [[ledger d]|e3|]] eqn:Hm; [|by intros [= <- <-]..].
  intros [= <- <-]. apply migration_spec in Hm as (g1 & g2 & Hm). by exists config, g1, g2.
Qed.
End Opening.
