(* ===== verification/Postgres.v ===== *)
(** * The Postgres store (internal/store/postgres.go)

    The tables of the schema, each SQL statement of the store as a function on
    them, and the operations as transactions of these statements.

    A statement may fail at any point (the script [pgFaults] says which ones
    do); a transaction that fails leaves the tables as they were, but the
    numbers it drew from the sequence of the outbox are gone, as in the
    database.  The advisory lock every commit takes first serialises the
    commits, so a transaction is one step.  An error from [Commit] means that
    nothing was committed.  Columns the code never reads ([created_at],
    [updated_at]) are left out, [published_at] is kept as set or not, and
    texts hold no NUL.

    JSON columns and the resolution of [timestamptz] are the database's: they
    are parameters, the class [Codec]. *)

From stdpp Require Import prelude gmap strings list.
From Stdlib Require Import ZArith Lia SpecFloat Ascii String.
From S2P Require Import Prelude GoFloat GoText Sha256 GoStrings Model Ema StoreSpec Memory.

#[local] Open Scope string_scope.
#[local] Open Scope list_scope.
#[local] Open Scope Z_scope.

(** What a [jsonb] column keeps of an event and of a reducer state, and what a
    [timestamptz] column keeps of an instant. *)
Class Codec := {
  Payload : Type;
  marshal_event : SignalEvent -> option Payload;
  unmarshal_event : Payload -> option SignalEvent;
  payload_analysis : Payload -> option string;
  market_marshals : MarketState -> bool;
  jsonb : json -> json;
  timestamptz : Z -> Z
}.

(** ** Tables *)

Definition seriesId : Type := string * string * string.
Definition series_id (key : SeriesKey) : seriesId := (kDataset key, kSymbol key, kTimeframe key).
Definition event_series (event : SignalEvent) : seriesId := (evDataset event, evSymbol event, evTimeframe event).

Record cursorRow := mkCursorRow { crLastOpenTime : Z; crLastBarHash : string }.

Record pointRow := mkPointRow {
  prEventID : string;
  prSeries : seriesId;
  prBarOpenTime : Z;
  prBarRevision : Z;
  prIndicator : string;
  prPeriod : Z;
  prValue : float64;
  prSamples : Z;
  prAlgorithmVersion : string;
  prConfigHash : string
}.

(** The columns of the constraint [signal_indicator_points_algorithm_unique]. *)
Definition pointId : Type := seriesId * Z * Z * string * Z * string * string.
Definition point_id (r : pointRow) : pointId :=
  (prSeries r, prBarOpenTime r, prBarRevision r, prIndicator r, prPeriod r, prAlgorithmVersion r, prConfigHash r).

Record marketRow := mkMarketRow {
  mwEventID : string;
  mwBarOpenTime : Z;
  mwBarRevision : Z;
  mwState : MarketState
}.
Definition marketId : Type := seriesId * string * string * string.
Definition market_id (event : SignalEvent) : marketId :=
  (event_series event, aName (evAlgorithm event), aVersion (evAlgorithm event), aConfigHash (evAlgorithm event)).

(** The primary key of [signal_reducer_snapshots]; a row holds
    [last_open_time] and [state]. *)
Definition snapshotId : Type := seriesId * string * Z * string * string.
Definition snapshot_id (key : SeriesKey) (s : ReducerSnapshot) : snapshotId :=
  (series_id key, aName (rsAlgorithm s), rsPeriod s, aVersion (rsAlgorithm s), aConfigHash (rsAlgorithm s)).
Definition snapshot_series (id : snapshotId) : seriesId := id.1.1.1.1.

Section Postgres.
Context `{Codec}.

Record outboxRow := mkOutboxRow {
  orCursor : Z;
  orEventID : string;
  orSeries : seriesId;
  orPeriod : Z;
  orEventType : string;
  orPayload : Payload;
  orPublished : bool
}.

Record Tables := mkTables {
  tbCursors : gmap seriesId cursorRow;
  tbPoints : gmap pointId pointRow;
  tbSnapshots : gmap snapshotId (Z * json);
  tbOutbox : list outboxRow;
  tbMarkets : gmap marketId marketRow
}.

Record Postgres := mkPostgres {
  pgTables : Tables;
  pgSequence : Z;
  pgFaults : list bool
}.

Definition empty_tables : Tables := mkTables ∅ ∅ ∅ [] ∅.

(** ** Statements and transactions *)

Definition txM (A : Type) : Type := Postgres -> Postgres * outcome StoreError A.

#[global] Instance txM_ret : MRet txM := fun A a p => (p, Ok a).
#[global] Instance txM_bind : MBind txM := fun A B f m p =>
  match m p with
  | (p', Ok a) => f a p'
  | (p', Fail e) => (p', Fail e)
  | (p', Panic) => (p', Panic)
  end.

Definition throw {A} (e : StoreError) : txM A := fun p => (p, Fail e).

(** [if err != nil { return fmt.Errorf(text, err) }] *)
Definition context {A} (text : string) (m : txM A) : txM A := fun p =>
  let '(p', r) := m p in (p', wrap_err (fun e => text +:+ ": " +:+ e) r).

(** A statement: the next fault of the script, or its effect. *)
Definition statement {A} (run : txM A) : txM A := fun p =>
  match pgFaults p with
  | true :: rest => (mkPostgres (pgTables p) (pgSequence p) rest, Fail "connection lost")
  | faults => run (mkPostgres (pgTables p) (pgSequence p) (tail faults))
  end.

(** The effect of a statement on the tables. *)
Definition update (f : Tables -> outcome StoreError Tables) : txM unit := fun p =>
  match f (pgTables p) with
  | Ok t => (mkPostgres t (pgSequence p) (pgFaults p), Ok tt)
  | Fail e => (p, Fail e)
  | Panic => (p, Panic)
  end.

(** A read. *)
Definition select {A} (f : Tables -> outcome StoreError A) : txM A := fun p => (p, f (pgTables p)).

Fixpoint each {A} (body : A -> txM unit) (l : list A) : txM unit :=
  match l with
  | [] => mret tt
  | a :: rest => body a ;; each body rest
  end.

(** [Begin], the body and [Commit]. *)
Definition begin_commit {A} (body : txM A) : txM A :=
  statement (mret tt) ;; a ← body; statement (mret tt) ;; mret a.

(** A transaction: on any error the deferred [Rollback] runs. *)
Definition transaction {A} (body : txM A) : txM A := fun p =>
  match begin_commit body p with
  | (p', Ok a) => (p', Ok a)
  | (p', r) => (mkPostgres (pgTables p) (pgSequence p') (pgFaults p'), r)
  end.

(** What [pgx] encodes for [integer] and [bigint] columns. *)
Definition fits_i32 (z : Z) : bool := (- 2 ^ 31 <=? z) && (z <? 2 ^ 31).
Definition fits_i64 (z : Z) : bool := (- 2 ^ 63 <=? z) && (z <? 2 ^ 63).

(** [SELECT pg_advisory_xact_lock($1)] *)
Definition advisory_lock (key : Z) : txM unit := statement (mret tt).

Definition outboxAdvisoryLock : Z := 746264445846543.

Definition advisoryKey (key : SeriesKey) : Z :=
  wrap_i64 (foldl (fun acc b => 256 * acc + b) 0 (take 8 (sum256 (bytes_of (SeriesKey_String key))))).

(** ** Event state *)

(** Another row that already has the event id: a unique violation. *)
Definition id_taken {K V} `{EqDecision K, Countable K} (id_of : V -> string) (key : K) (id : string) (m : gmap K V) : bool :=
  existsb (fun kv => negb (bool_decide (kv.1 = key)) && (id_of kv.2 =? id)%string) (map_to_list m).

Definition point_row (event : SignalEvent) (payload : IndicatorPayload) : pointRow :=
  mkPointRow (evEventID event) (event_series event) (timestamptz (evBarOpenTime event)) (evBarRevision event)
    (aName (evAlgorithm event)) (ipPeriod payload) (ipValue payload) (ipSamples payload)
    (aVersion (evAlgorithm event)) (aConfigHash (evAlgorithm event)).

(** [INSERT INTO signal_indicator_points ... ON CONFLICT ... DO UPDATE] *)
Definition upsert_point (row : pointRow) (t : Tables) : outcome StoreError Tables :=
  if negb (fits_i64 (prBarRevision row) && fits_i32 (prPeriod row) && fits_i64 (prSamples row))
  then Fail "value out of range"
  else if id_taken prEventID (point_id row) (prEventID row) (tbPoints t) then Fail "duplicate key"
  else Ok (mkTables (tbCursors t) (<[point_id row := row]> (tbPoints t)) (tbSnapshots t) (tbOutbox t) (tbMarkets t)).

Definition insertPoint (event : SignalEvent) : txM unit :=
  match evIndicator event with
  | None => throw "indicator point has no indicator payload"
  | Some payload => context "insert indicator point" (statement (update (upsert_point (point_row event payload))))
  end.

(** [INSERT INTO signal_market_states ... DO UPDATE ... WHERE bar_open_time <=
    EXCLUDED.bar_open_time] *)
Definition upsert_market (id : marketId) (row : marketRow) (t : Tables) : outcome StoreError Tables :=
  let write := if id_taken mwEventID id (mwEventID row) (tbMarkets t) then Fail "duplicate key"
               else Ok (mkTables (tbCursors t) (tbPoints t) (tbSnapshots t) (tbOutbox t) (<[id := row]> (tbMarkets t))) in
  if negb (fits_i64 (mwBarRevision row)) then Fail "value out of range"
  else match tbMarkets t !! id with
       | None => write
       | Some existing => if mwBarOpenTime existing <=? mwBarOpenTime row then write else Ok t
       end.

Definition upsertMarketState (event : SignalEvent) : txM unit :=
  match evMarket event with
  | None => throw "market state has no market payload"
  | Some market =>
      if market_marshals market then
        context "upsert market state" (statement (update (upsert_market (market_id event)
          (mkMarketRow (evEventID event) (timestamptz (evBarOpenTime event)) (evBarRevision event) market))))
      else throw "encode market state"
  end.

Definition pg_persistEventState (event : SignalEvent) : txM unit :=
  if (evEventType event =? "indicator.point")%string || (evEventType event =? "")%string then
    match evIndicator event with
    | None => throw "signal event has no typed payload"
    | Some _ => insertPoint event
    end
  else if (evEventType event =? "market.state")%string then upsertMarketState event
  else throw "unsupported signal event type".

(** [INSERT INTO signal_event_outbox ... ON CONFLICT (event_id) DO UPDATE SET
    event_id = EXCLUDED.event_id RETURNING cursor]: the default of the cursor
    column draws from the sequence before the conflict is found. *)
Definition insert_outbox (event : SignalEvent) (period : Z) (payload : Payload) : txM Z := fun p =>
  let t := pgTables p in
  if negb (fits_i32 period) then (p, Fail "value out of range")
  else
    let next := pgSequence p + 1 in
    if 2 ^ 63 <=? next then (p, Fail "nextval: reached maximum value of sequence")
    else match List.find (fun r => (orEventID r =? evEventID event)%string) (tbOutbox t) with
         | Some row => (mkPostgres t next (pgFaults p), Ok (orCursor row))
         | None =>
             let row := mkOutboxRow next (evEventID event) (event_series event) period (evEventType event) payload false in
             (mkPostgres (mkTables (tbCursors t) (tbPoints t) (tbSnapshots t) (tbOutbox t ++ [row]) (tbMarkets t))
                next (pgFaults p), Ok next)
         end.

(** An event enters the outbox and gets its cursor. *)
Definition enqueue_event (what : string) (event : SignalEvent) (period : Z) : txM SignalEvent :=
  match marshal_event event with
  | None => throw ("encode " +:+ what +:+ " event")
  | Some payload =>
      cursor ← context ("insert " +:+ what +:+ " outbox") (statement (insert_outbox event period payload));
      mret (set_cursor event cursor)
  end.

(** ** Snapshots and cursors *)

Definition upsert_snapshot (key : SeriesKey) (s : ReducerSnapshot) (t : Tables) : outcome StoreError Tables :=
  if fits_i32 (rsPeriod s)
  then Ok (mkTables (tbCursors t) (tbPoints t)
             (<[snapshot_id key s := (timestamptz (rsLastOpenTime s), jsonb (rsState s))]> (tbSnapshots t))
             (tbOutbox t) (tbMarkets t))
  else Fail "value out of range".

Definition upsertSnapshot (key : SeriesKey) (snapshot : ReducerSnapshot) : txM unit :=
  context "upsert reducer snapshot" (statement (update (upsert_snapshot key snapshot))).

(** The rows the statement affects, and the table after it. *)
Definition upsert_cursor (id : seriesId) (row : cursorRow) (cursors : gmap seriesId cursorRow)
  : Z * gmap seriesId cursorRow :=
  match cursors !! id with
  | Some existing => if crLastOpenTime existing <=? crLastOpenTime row then (1, <[id := row]> cursors) else (0, cursors)
  | None => (1, <[id := row]> cursors)
  end.

Definition upsertCursor (key : SeriesKey) (bar : Bar) : txM unit :=
  affected ← context "upsert series cursor" (statement (fun p =>
    let t := pgTables p in
    let '(n, cursors) := upsert_cursor (series_id key)
      (mkCursorRow (timestamptz (bOpenTime bar)) (barHash bar)) (tbCursors t) in
    (mkPostgres (mkTables cursors (tbPoints t) (tbSnapshots t) (tbOutbox t) (tbMarkets t)) (pgSequence p) (pgFaults p),
     Ok n)));
  if affected =? 1 then mret tt else throw "series cursor would move backwards".

(** ** Transactions *)

Definition delete_snapshots (key : SeriesKey) (t : Tables) : outcome StoreError Tables :=
  Ok (mkTables (tbCursors t) (tbPoints t)
        (filter (fun kv => snapshot_series kv.1 <> series_id key) (tbSnapshots t)) (tbOutbox t) (tbMarkets t)).
Definition delete_points (key : SeriesKey) (t : Tables) : outcome StoreError Tables :=
  Ok (mkTables (tbCursors t) (filter (fun kv => prSeries kv.2 <> series_id key) (tbPoints t))
        (tbSnapshots t) (tbOutbox t) (tbMarkets t)).

(** The loop of [RebuildSeries]. *)
Fixpoint rebuild_events (events committed : list SignalEvent) : txM (list SignalEvent) :=
  match events with
  | [] => mret committed
  | event :: rest =>
      pg_persistEventState event ;;
      if evReset event
      then e ← enqueue_event "reset" event 0; rebuild_events rest (committed ++ [e])
      else rebuild_events rest committed
  end.

Definition Postgres_RebuildSeries (p : Postgres) (key : SeriesKey) (events : list SignalEvent)
    (snapshots : list ReducerSnapshot) (lastBar : option Bar) : Postgres * outcome StoreError (list SignalEvent) :=
  transaction (
    (if existsb evReset events
     then context "lock signal outbox ordering" (advisory_lock outboxAdvisoryLock) else mret tt) ;;
    context "lock series rebuild" (advisory_lock (advisoryKey key)) ;;
    context "clear stale reducer snapshots" (statement (update (delete_snapshots key))) ;;
    context "clear stale indicator points" (statement (update (delete_points key))) ;;
    committed ← rebuild_events events [];
    each (upsertSnapshot key) snapshots ;;
    match lastBar with Some bar => upsertCursor key bar | None => mret tt end ;;
    mret committed) p.

(** The loop of [CommitClosed]. *)
Fixpoint commit_events (events committed : list SignalEvent) : txM (list SignalEvent) :=
  match events with
  | [] => mret committed
  | event :: rest =>
      pg_persistEventState event ;;
      e ← enqueue_event "signal" event (eventPeriod event); commit_events rest (committed ++ [e])
  end.

Definition read_cursor (key : SeriesKey) : txM (option cursorRow) :=
  context "read series cursor" (statement (select (fun t => Ok (tbCursors t !! series_id key)))).

Definition Postgres_CommitClosed (p : Postgres) (key : SeriesKey) (bar : Bar) (events : list SignalEvent)
    (snapshots : list ReducerSnapshot) : Postgres * outcome StoreError (list SignalEvent) :=
  transaction (
    context "lock signal outbox ordering" (advisory_lock outboxAdvisoryLock) ;;
    context "lock series" (advisory_lock (advisoryKey key)) ;;
    last ← read_cursor key;
    match last with
    | Some row =>
        if bOpenTime bar <=? crLastOpenTime row then
          if (bOpenTime bar =? crLastOpenTime row) && (barHash bar =? crLastBarHash row)%string then mret []
          else throw "bar conflicts with durable cursor"
        else
          committed ← commit_events events [];
          each (upsertSnapshot key) snapshots ;; upsertCursor key bar ;; mret committed
    | None =>
        committed ← commit_events events [];
        each (upsertSnapshot key) snapshots ;; upsertCursor key bar ;; mret committed
    end) p.

(** [UPDATE signal_event_outbox SET published_at = COALESCE(published_at,
    now()) WHERE cursor = ANY($1)] *)
Definition mark_row (cursors : list Z) (r : outboxRow) : outboxRow :=
  if bool_decide (orCursor r ∈ cursors)
  then mkOutboxRow (orCursor r) (orEventID r) (orSeries r) (orPeriod r) (orEventType r) (orPayload r) true
  else r.

Definition Postgres_MarkPublished (p : Postgres) (cursors : list Z) : Postgres * outcome StoreError unit :=
  if len cursors =? 0 then (p, Ok tt)
  else statement (update (fun t =>
         Ok (mkTables (tbCursors t) (tbPoints t) (tbSnapshots t) (map (mark_row cursors) (tbOutbox t)) (tbMarkets t)))) p.

(** ** Queries *)

(** A query outside a transaction: it fails when the next statement would. *)
Definition query {A} (p : Postgres) (f : Tables -> outcome StoreError A) : outcome StoreError A :=
  match pgFaults p with
  | true :: _ => Fail "connection lost"
  | _ => f (pgTables p)
  end.

Definition Postgres_Ping (p : Postgres) : outcome StoreError unit :=
  wrap_err (fun e => "ping PostgreSQL: " +:+ e) (query p (fun _ => Ok tt)).

Definition cursor_before (a b : outboxRow) : bool := orCursor a <? orCursor b.

Fixpoint scanEvents (rows : list outboxRow) : outcome StoreError (list SignalEvent) :=
  match rows with
  | [] => Ok []
  | row :: rest =>
      match unmarshal_event (orPayload row) with
      | None => Fail "decode outbox event"
      | Some event => events ← scanEvents rest; Ok (set_cursor event (orCursor row) :: events)
      end
  end.

(** [$n = '' OR column = $n] *)
Definition selects (wanted column : string) : bool := (wanted =? "")%string || (column =? wanted)%string.

Definition row_matches (filter : EventFilter) (r : outboxRow) : bool :=
  (efAfterCursor filter <? orCursor r) && selects (efDataset filter) (orSeries r).1.1 &&
  selects (efSymbol filter) (orSeries r).1.2 && selects (efTimeframe filter) (orSeries r).2 &&
  ((efPeriod filter =? 0) || (orPeriod r =? efPeriod filter)) && selects (efEventType filter) (orEventType r) &&
  ((efAnalysis filter =? "")%string ||
   match payload_analysis (orPayload r) with Some name => (name =? efAnalysis filter)%string | None => false end).

Definition Postgres_QueryEvents (p : Postgres) (filter : EventFilter) : outcome StoreError (list SignalEvent) :=
  if negb (fits_i32 (efPeriod filter)) then Fail "value out of range"
  else
    rows ← query p (fun t => Ok (take (Z.to_nat (normalize_limit (efLimit filter)))
                                  (sort_stable cursor_before (List.filter (row_matches filter) (tbOutbox t)))));
    scanEvents rows.

Definition Postgres_PendingEvents (p : Postgres) (limit : Z) : outcome StoreError (list SignalEvent) :=
  let limit := if (limit <=? 0) || (1000 <? limit) then 100 else limit in
  rows ← query p (fun t => Ok (take (Z.to_nat limit)
                                (sort_stable cursor_before (List.filter (fun r => negb (orPublished r)) (tbOutbox t)))));
  scanEvents rows.

Definition point_selected (filter : PointFilter) (r : pointRow) : bool :=
  selects (pfDataset filter) (prSeries r).1.1 && selects (pfSymbol filter) (prSeries r).1.2 &&
  selects (pfTimeframe filter) (prSeries r).2 && ((pfPeriod filter =? 0) || (prPeriod r =? pfPeriod filter)) &&
  selects (aName (pfAlgorithm filter)) (prIndicator r) &&
  selects (aVersion (pfAlgorithm filter)) (prAlgorithmVersion r) &&
  selects (aConfigHash (pfAlgorithm filter)) (prConfigHash r).

(** [ORDER BY bar_open_time DESC, event_id DESC]; event ids are hexadecimal. *)
Definition point_after (a b : pointRow) : bool :=
  if prBarOpenTime a =? prBarOpenTime b then String.ltb (prEventID b) (prEventID a)
  else prBarOpenTime b <? prBarOpenTime a.

Definition point_event (r : pointRow) : SignalEvent :=
  {| evSchema := "signal.event.v1"; evCursor := 0; evEventID := prEventID r; evEventType := "indicator.point";
     evDataset := (prSeries r).1.1; evSymbol := (prSeries r).1.2; evTimeframe := (prSeries r).2;
     evBarOpenTime := prBarOpenTime r; evSourceBar := None;
     evBarRevision := wrap_u64 (prBarRevision r); evAnalysisRevision := wrap_u64 (prBarRevision r);
     evProvisional := false; evReset := false; evResetHistory := [];
     evAlgorithm := mkAlgorithm (prIndicator r) (prAlgorithmVersion r) (prConfigHash r);
     evIndicator := Some (mkPayload (prPeriod r) (prValue r) (wrap_u64 (prSamples r)) true);
     evMarket := None; evIndicators := [] |}.

Context `{Runtime}.

Definition SortEvents (events : list SignalEvent) : list SignalEvent :=
  sort_slice (fun a b => evCursor a <? evCursor b) events.

Definition Postgres_QueryRecentPoints (p : Postgres) (filter : PointFilter) : outcome StoreError (list SignalEvent) :=
  if negb (fits_i32 (pfPeriod filter)) then Fail "value out of range"
  else query p (fun t =>
    Ok (rev (map point_event (take (Z.to_nat (normalize_limit (pfLimit filter)))
      (sort_slice point_after (List.filter (point_selected filter) (map snd (map_range (tbPoints t))))))))).

Definition snapshot_of (kv : snapshotId * (Z * json)) : ReducerSnapshot :=
  let '((_, name, period, version, hash), (lastOpenTime, state)) := kv in
  mkSnapshot (mkAlgorithm name version hash) period lastOpenTime state.

(** The database a reader meets after [n] round trips. *)
Definition later (n : nat) (p : Postgres) : Postgres := mkPostgres (pgTables p) (pgSequence p) (drop n (pgFaults p)).

(** The cursor, then the snapshots, [ORDER BY period] (rows of equal period come
    in any order), whose rows may also stop coming.  Nothing of the series
    changes in between: its lane, which loads, is its only writer. *)
Definition Postgres_LoadRecovery (p : Postgres) (key : SeriesKey) : outcome StoreError SeriesRecovery :=
  cursor ← wrap_err (fun e => "load series cursor: " +:+ e)
    (query p (fun t => Ok (tbCursors t !! series_id key)));
  match cursor with
  | None => Ok (mkRecovery [] zero_time "" false)
  | Some row =>
      wrap_err (fun e => "load reducer snapshots: " +:+ e) (query (later 1 p) (fun _ => Ok tt)) ≫= fun _ =>
      snapshots ← wrap_err (fun e => "read reducer snapshots: " +:+ e) (query (later 2 p) (fun t =>
        Ok (sort_slice (fun a b => rsPeriod a <? rsPeriod b)
              (map snapshot_of (List.filter (fun kv => bool_decide (snapshot_series kv.1 = series_id key))
                 (map_range (tbSnapshots t)))))));
      Ok (mkRecovery snapshots (crLastOpenTime row) (crLastBarHash row) true)
  end.
End Postgres.
