(* ===== verification/PostgresProofs.v ===== *)
(** * Lemmas about the Postgres store

    A program logic for its transactions: [safe] computations never panic,
    only advance the sequence and keep the constraints of the schema.  With it
    the store keeps the laws of the store interface, and what a commit wrote is
    what a recovery reads. *)

From stdpp Require Import prelude gmap strings list sorting.
From Stdlib Require Import ZArith Lia SpecFloat Ascii String.
From S2P Require Import Prelude GoFloat GoText Sha256 GoStrings Model Ema StoreSpec Memory MemoryProofs Postgres.

#[local] Open Scope string_scope.
#[local] Open Scope list_scope.
#[local] Open Scope Z_scope.

Create HintDb tx.

Section Proofs.
Context `{Codec}.

(** ** The constraints of the schema *)

(** The outbox: cursors ascend and were drawn from the sequence, event ids are
    unique. *)
Record outbox_wf (rows : list outboxRow) (sequence : Z) : Prop := {
  ow_sorted : StronglySorted Z.lt (map orCursor rows);
  ow_range : Forall (fun r => 0 < orCursor r <= sequence) rows;
  ow_ids : NoDup (map orEventID rows)
}.

(** Points are stored under their unique columns, and event ids are unique. *)
Record tables_wf (t : Tables) (sequence : Z) : Prop := {
  tw_outbox : outbox_wf (tbOutbox t) sequence;
  tw_points : map_Forall (fun id r => id = point_id r) (tbPoints t);
  tw_point_ids : forall k1 k2 r1 r2, tbPoints t !! k1 = Some r1 -> tbPoints t !! k2 = Some r2 ->
    prEventID r1 = prEventID r2 -> k1 = k2;
  tw_market_ids : forall k1 k2 r1 r2, tbMarkets t !! k1 = Some r1 -> tbMarkets t !! k2 = Some r2 ->
    mwEventID r1 = mwEventID r2 -> k1 = k2
}.

Record pg_wf (p : Postgres) : Prop := {
  pw_sequence : 0 <= pgSequence p;
  pw_tables : tables_wf (pgTables p) (pgSequence p)
}.

Lemma empty_wf faults : pg_wf (mkPostgres empty_tables 0 faults).
Proof.
  split; [done|]. split; cbn.
  - split; constructor.
  - apply map_Forall_empty.
  - intros k1 k2 r1 r2. by rewrite lookup_empty.
  - intros k1 k2 r1 r2. by rewrite lookup_empty.
Qed.

Lemma outbox_wf_mono rows n m : outbox_wf rows n -> n <= m -> outbox_wf rows m.
Proof. intros [Hs Hr Hi] Hle. split; try done. eapply Forall_impl; [exact Hr|]. cbn. lia. Qed.

Lemma tables_wf_mono t n m : tables_wf t n -> n <= m -> tables_wf t m.
Proof. intros [Ho Hp Hi Hm] Hle. split; try done. by eapply outbox_wf_mono. Qed.

(** ** Safe computations *)

Definition safe {A} (m : txM A) : Prop := forall p,
  is_panic (m p).2 = false /\ pgSequence p <= pgSequence (m p).1 /\ (pg_wf p -> pg_wf (m p).1).

Lemma safe_ret {A} (a : A) : safe (mret a).
Proof. intros p. cbn. auto with lia. Qed.

Lemma safe_throw {A} e : safe (throw (A := A) e).
Proof. intros p. cbn. auto with lia. Qed.

Lemma safe_bind {A B} (m : txM A) (f : A -> txM B) : safe m -> (forall a, safe (f a)) -> safe (m ≫= f).
Proof.
  intros Hm Hf p. unfold mbind, txM_bind. destruct (Hm p) as (Hn & Hs & Hw). destruct (m p) as [p1 [a|e|]]; cbn in *.
  - destruct (Hf a p1) as (Hn1 & Hs1 & Hw1). split_and!; [done|lia|auto].
  - auto.
  - done.
Qed.

Lemma safe_context {A} text (m : txM A) : safe m -> safe (context text m).
Proof.
  intros Hm p. unfold context. destruct (Hm p) as (Hn & Hs & Hw). destruct (m p) as [p1 [a|e|]]; cbn in *; auto.
Qed.

Lemma pg_wf_faults p faults : pg_wf p -> pg_wf (mkPostgres (pgTables p) (pgSequence p) faults).
Proof. by intros [? ?]. Qed.

Lemma safe_statement {A} (m : txM A) : safe m -> safe (statement m).
Proof.
  intros Hm p. assert (Hrun : forall faults, let q := mkPostgres (pgTables p) (pgSequence p) faults in
    is_panic (m q).2 = false /\ pgSequence p <= pgSequence (m q).1 /\ (pg_wf p -> pg_wf (m q).1)).
  { intros faults q. destruct (Hm q) as (? & ? & Hw). split_and!; [done..|]. intros. by apply Hw, pg_wf_faults. }
  unfold statement. destruct (pgFaults p) as [|[] rest]; [apply Hrun| |apply Hrun].
  cbn. split_and!; [done|lia|apply pg_wf_faults].
Qed.

Lemma safe_select {A} (f : Tables -> outcome StoreError A) : (forall t, is_panic (f t) = false) -> safe (select f).
Proof. intros Hf p. cbn. auto with lia. Qed.

Lemma safe_update f :
  (forall t, is_panic (f t) = false) -> (forall t t' n, f t = Ok t' -> tables_wf t n -> tables_wf t' n) -> safe (update f).
Proof.
  intros Hp Hf p. unfold update. pose proof (Hp (pgTables p)) as Hn. destruct (f (pgTables p)) as [t|e|] eqn:E; cbn; try done.
  split_and!; [done|lia|]. intros [Hs Ht]. split; [done|]. cbn. by eapply Hf.
Qed.

Lemma safe_each {A} (body : A -> txM unit) l : (forall a, safe (body a)) -> safe (each body l).
Proof.
  intros Hb. induction l as [|a l IH]; cbn [each]; [apply safe_ret|]. apply safe_bind; [apply Hb|]. by intros [].
Qed.

(** A rolled back transaction keeps the tables; the sequence has moved on. *)
Lemma safe_transaction {A} (body : txM A) : safe body -> safe (transaction body).
Proof.
  intros Hb p. unfold transaction.
  assert (Hall : safe (begin_commit body)).
  { apply safe_bind; [apply safe_statement, safe_ret|]. intros _. apply safe_bind; [done|]. intros a.
    apply safe_bind; [apply safe_statement, safe_ret|]. intros _. apply safe_ret. }
  destruct (Hall p) as (Hn & Hs & Hw). destruct (begin_commit body p) as [p1 [a|e|]]; cbn in *; try done.
  split_and!; [done|lia|]. intros [Hq Ht]. split; cbn; [lia|]. by eapply tables_wf_mono.
Qed.

Lemma transaction_rolls_back {A} (body : txM A) p p' e :
  transaction body p = (p', Fail e) -> pgTables p' = pgTables p.
Proof. unfold transaction. destruct (begin_commit body p) as [p1 [a|e1|]]; [done| |done]. by intros [= <- _]. Qed.

(** ** The statements *)

Lemma id_taken_false {K V} `{EqDecision K, Countable K} (id_of : V -> string) (key : K) id (m : gmap K V) k v :
  id_taken id_of key id m = false -> m !! k = Some v -> id_of v = id -> k = key.
Proof.
  unfold id_taken. intros Ht Hk Hid. destruct (decide (k = key)) as [|Hne]; [done|].
  assert (existsb (fun kv : K * V => negb (bool_decide (kv.1 = key)) && (id_of kv.2 =? id)%string) (map_to_list m) = true);
    [|congruence].
  apply existsb_exists. exists (k, v). split; [by apply list_elem_of_In, elem_of_map_to_list|]. cbn.
  by rewrite bool_decide_eq_false_2, Hid, String.eqb_refl.
Qed.

(** Writing a row whose id no other row has keeps ids unique. *)
Lemma insert_keeps_ids {K V} `{EqDecision K, Countable K} (id_of : V -> string) (key : K) row (m : gmap K V) :
  id_taken id_of key (id_of row) m = false ->
  (forall k1 k2 r1 r2, m !! k1 = Some r1 -> m !! k2 = Some r2 -> id_of r1 = id_of r2 -> k1 = k2) ->
  forall k1 k2 r1 r2, <[key := row]> m !! k1 = Some r1 -> <[key := row]> m !! k2 = Some r2 -> id_of r1 = id_of r2 -> k1 = k2.
Proof.
  intros Ht Hu k1 k2 r1 r2. rewrite !lookup_insert_Some.
  intros [[<- <-]|[Hn1 H1]] [[<- <-]|[Hn2 H2]] Hid; [done| | |by eapply Hu].
  - symmetry. by eapply id_taken_false.
  - by eapply id_taken_false.
Qed.

Lemma upsert_point_wf row t t' n : upsert_point row t = Ok t' -> tables_wf t n -> tables_wf t' n.
Proof.
  unfold upsert_point. destruct (negb _); [done|]. destruct (id_taken _ _ _ _) eqn:Ht; [done|].
  intros [= <-] [Ho Hp Hi Hm]. split; cbn; [done| | |done].
  - by apply map_Forall_insert_2.
  - by apply insert_keeps_ids.
Qed.

Lemma upsert_market_wf id row t t' n : upsert_market id row t = Ok t' -> tables_wf t n -> tables_wf t' n.
Proof.
  unfold upsert_market. destruct (negb _); [done|].
  assert (Hwrite : forall t1, (if id_taken mwEventID id (mwEventID row) (tbMarkets t) then Fail "duplicate key"
      else Ok (mkTables (tbCursors t) (tbPoints t) (tbSnapshots t) (tbOutbox t) (<[id := row]> (tbMarkets t))))
      = Ok (E := StoreError) t1 -> tables_wf t n -> tables_wf t1 n).
  { intros t1. destruct (id_taken _ _ _ _) eqn:Ht; [done|]. intros [= <-] [Ho Hp Hi Hm]. split; cbn; try done.
    by apply insert_keeps_ids. }
  destruct (tbMarkets t !! id) as [existing|]; [|apply Hwrite].
  destruct (_ <=? _); [apply Hwrite|]. by intros [= <-].
Qed.

(** A new row at the end of the outbox. *)
Lemma outbox_wf_snoc rows n row :
  outbox_wf rows n -> 0 <= n -> orCursor row = n + 1 -> orEventID row ∉ map orEventID rows -> outbox_wf (rows ++ [row]) (n + 1).
Proof.
  intros [Hs Hr Hi] Hn Hc Hid. split.
  - rewrite map_app. cbn. apply (sorted_lt_snoc _ n); [done| |lia].
    apply Forall_map. eapply Forall_impl; [exact Hr|]. cbn. lia.
  - apply Forall_app. split; [|constructor; [lia|done]]. eapply Forall_impl; [exact Hr|]. cbn. lia.
  - rewrite map_app. cbn. apply NoDup_app. split_and!; [done| |apply NoDup_singleton].
    intros x Hx Hy. by apply list_elem_of_singleton in Hy as ->.
Qed.

Lemma find_row_none id (rows : list outboxRow) :
  List.find (fun r => (orEventID r =? id)%string) rows = None -> id ∉ map orEventID rows.
Proof.
  intros Hf (r & <- & Hin)%list_elem_of_In%in_map_iff. by apply (List.find_none _ _ Hf) in Hin as ?%String.eqb_neq.
Qed.

Lemma safe_insert_outbox event period payload : safe (insert_outbox event period payload).
Proof.
  intros p. unfold insert_outbox. destruct (negb _); [cbn; auto with lia|]. cbn zeta.
  destruct (Z.leb_spec (2 ^ 63) (pgSequence p + 1)) as [|Hb]; [cbn; auto with lia|].
  destruct (List.find _ _) as [row|] eqn:Hf; cbn.
  - split_and!; [done|lia|]. intros [Hs Ht]. split; cbn; [lia|]. eapply tables_wf_mono; [done|lia].
  - split_and!; [done|lia|]. intros [Hs [Ho Hp Hi Hm]]. split; cbn; [lia|]. split; cbn; try done.
    apply outbox_wf_snoc; try done. by apply find_row_none.
Qed.

(** ** The operations *)

#[local] Hint Resolve safe_ret safe_throw safe_insert_outbox : tx.

Ltac tx_step :=
  match goal with
  | |- safe (mbind _ _) => apply safe_bind; [|intros ?]
  | |- safe (context _ _) => apply safe_context
  | |- safe (statement _) => apply safe_statement
  | |- safe (match ?x with _ => _ end) => destruct x eqn:?
  | |- safe (each _ _) => apply safe_each; intros ?
  | |- safe (advisory_lock _) => apply safe_statement, safe_ret
  | |- _ => by auto with tx
  end.
Ltac tx := repeat tx_step.

Lemma safe_insertPoint event : safe (insertPoint event).
Proof.
  unfold insertPoint. tx. apply safe_update.
  - intros t. unfold upsert_point. by repeat case_match.
  - intros t t' n. apply upsert_point_wf.
Qed.

Lemma safe_upsertMarketState event : safe (upsertMarketState event).
Proof.
  unfold upsertMarketState. tx. apply safe_update.
  - intros t. unfold upsert_market. by repeat case_match.
  - intros t t' n. apply upsert_market_wf.
Qed.

Lemma safe_persist event : safe (pg_persistEventState event).
Proof. unfold pg_persistEventState. tx; [apply safe_insertPoint|apply safe_upsertMarketState]. Qed.

Lemma safe_enqueue_event what event period : safe (enqueue_event what event period).
Proof. unfold enqueue_event. tx. Qed.

Lemma safe_upsertSnapshot key s : safe (upsertSnapshot key s).
Proof.
  unfold upsertSnapshot. tx. apply safe_update; unfold upsert_snapshot.
  - intros t. by case_match.
  - intros t t' n. case_match; [|done]. intros [= <-] [Ho Hp Hi Hm]. by split.
Qed.

Lemma safe_upsertCursor key bar : safe (upsertCursor key bar).
Proof.
  unfold upsertCursor. tx. intros p. cbn. destruct (upsert_cursor _ _ _) as [k cursors]. cbn.
  split_and!; [done|lia|]. intros [Hs [Ho Hp Hi Hm]]. by split.
Qed.

Lemma safe_commit_events events committed : safe (commit_events events committed).
Proof.
  revert committed. induction events as [|e events IH]; intros committed; cbn [commit_events]; tx;
    [apply safe_persist|apply safe_enqueue_event].
Qed.

Lemma safe_rebuild_events events committed : safe (rebuild_events events committed).
Proof.
  revert committed. induction events as [|e events IH]; intros committed; cbn [rebuild_events]; tx;
    [apply safe_persist|apply safe_enqueue_event].
Qed.

Lemma delete_snapshots_wf key t t' n : delete_snapshots key t = Ok t' -> tables_wf t n -> tables_wf t' n.
Proof. intros [= <-] [Ho Hp Hi Hm]. by split. Qed.

Lemma delete_points_wf key t t' n : delete_points key t = Ok t' -> tables_wf t n -> tables_wf t' n.
Proof.
  intros [= <-] [Ho Hp Hi Hm]. split; cbn; try done.
  - intros k r [Hk _]%map_lookup_filter_Some. by apply Hp.
  - intros k1 k2 r1 r2 [H1 _]%map_lookup_filter_Some [H2 _]%map_lookup_filter_Some. by apply Hi.
Qed.

Lemma safe_commit key bar events snapshots : safe (fun p => Postgres_CommitClosed p key bar events snapshots).
Proof.
  unfold Postgres_CommitClosed. apply safe_transaction. unfold read_cursor.
  tx; auto using safe_commit_events, safe_upsertSnapshot, safe_upsertCursor, safe_select.
Qed.

Lemma safe_rebuild key events snapshots lastBar : safe (fun p => Postgres_RebuildSeries p key events snapshots lastBar).
Proof.
  unfold Postgres_RebuildSeries. apply safe_transaction.
  tx; auto using safe_rebuild_events, safe_upsertSnapshot, safe_upsertCursor.
  - apply safe_update; [done|intros t t' n; apply delete_snapshots_wf].
  - apply safe_update; [done|intros t t' n; apply delete_points_wf].
Qed.

Lemma mark_row_same cursors r : orCursor (mark_row cursors r) = orCursor r /\ orEventID (mark_row cursors r) = orEventID r.
Proof. unfold mark_row. by case_bool_decide. Qed.

Lemma mark_rows_wf cursors rows n : outbox_wf rows n -> outbox_wf (map (mark_row cursors) rows) n.
Proof.
  assert (Hc : map orCursor (map (mark_row cursors) rows) = map orCursor rows).
  { rewrite List.map_map. apply List.map_ext. intros r. apply mark_row_same. }
  assert (Hi : map orEventID (map (mark_row cursors) rows) = map orEventID rows).
  { rewrite List.map_map. apply List.map_ext. intros r. apply mark_row_same. }
  intros [Hs Hr Hn]. split; [by rewrite Hc| |by rewrite Hi].
  apply Forall_map. eapply Forall_impl; [exact Hr|]. intros r. cbn. by destruct (mark_row_same cursors r) as [-> _].
Qed.

Lemma safe_mark cursors : safe (fun p => Postgres_MarkPublished p cursors).
Proof.
  intros p. unfold Postgres_MarkPublished. destruct (_ =? 0); [cbn; auto with lia|].
  revert p. change (safe (statement (update (fun t => Ok (E := StoreError) (mkTables (tbCursors t) (tbPoints t)
    (tbSnapshots t) (map (mark_row cursors) (tbOutbox t)) (tbMarkets t)))))).
  apply safe_statement, safe_update; [done|]. intros t t' n [= <-] [Ho Hp Hi Hm]. split; cbn; try done.
  by apply mark_rows_wf.
Qed.

(** ** The laws of the store interface *)

Context `{Runtime}.

#[global] Instance postgres_store : Store Postgres := {|
  LoadRecovery := Postgres_LoadRecovery;
  RebuildSeries := Postgres_RebuildSeries;
  CommitClosed := Postgres_CommitClosed;
  MarkPublished := Postgres_MarkPublished
|}.

#[global] Instance postgres_laws : StoreLaws Postgres.
Proof.
  refine {| store_same := fun p q => pgTables p = pgTables q |}.
  - split; [by intros p|by intros p q Hpq|intros p q r Hpq Hqr; congruence].
  - intros s key bar events snapshots s' e Hc. exact (eq_sym (transaction_rolls_back _ _ _ _ Hc)).
  - intros s key events snapshots bar s' e Hc. exact (eq_sym (transaction_rolls_back _ _ _ _ Hc)).
  - intros s key bar events snapshots. apply (safe_commit key bar events snapshots s).
  - intros s key events snapshots bar. apply (safe_rebuild key events snapshots bar s).
  - intros s key. cbn [LoadRecovery postgres_store].
    unfold Postgres_LoadRecovery, query, later. cbn [pgFaults pgTables].
    destruct (tbCursors (pgTables s) !! series_id key) as [row|];
      destruct (pgFaults s) as [|[] [|[] [|[] faults]]]; reflexivity.
  - intros s cursors. apply (safe_mark cursors s).
Defined.
End Proofs.
