(* ===== verification/PostgresRuns.v ===== *)
(** * What the Postgres store writes

    The effect of the operations that succeed, as a relation between the
    tables before and after them that forgets the faults: what a commit stores
    is what a recovery and the outbox read back. *)

From stdpp Require Import prelude gmap strings list sorting.
From Stdlib Require Import ZArith Lia SpecFloat Ascii String.
From S2P Require Import Prelude GoFloat GoText Sha256 GoStrings Model Ema StoreSpec Memory MemoryProofs.
From S2P Require Import Postgres PostgresProofs.

#[local] Open Scope string_scope.
#[local] Open Scope list_scope.
#[local] Open Scope Z_scope.

Section Runs.
Context `{Codec}.

(** [m] can end with [a], from tables [t] and sequence [n] to [t'] and [n']. *)
Definition runs {A} (m : txM A) (t : Tables) (n : Z) (a : A) (t' : Tables) (n' : Z) : Prop :=
  exists faults faults', m (mkPostgres t n faults) = (mkPostgres t' n' faults', Ok a).

Lemma runs_intro {A} (m : txM A) p p' a :
  m p = (p', Ok a) -> runs m (pgTables p) (pgSequence p) a (pgTables p') (pgSequence p').
Proof. destruct p as [t n f], p' as [t' n' f']. by exists f, f'. Qed.

Lemma runs_ret {A} (b a : A) t n t' n' : runs (mret b) t n a t' n' -> a = b /\ t' = t /\ n' = n.
Proof. by intros (f & f' & [= <- <- <- <-]). Qed.

Lemma runs_throw {A} e (a : A) t n t' n' : ~ runs (throw e) t n a t' n'.
Proof. by intros (f & f' & ?). Qed.

Lemma runs_bind {A B} (m : txM A) (k : A -> txM B) b t n t' n' :
  runs (m ≫= k) t n b t' n' -> exists a t1 n1, runs m t n a t1 n1 /\ runs (k a) t1 n1 b t' n'.
Proof.
  intros (f & f' & Hr). unfold mbind, txM_bind in Hr. destruct (m (mkPostgres t n f)) as [[t1 n1 f1] [a|e|]] eqn:E; try done.
  exists a, t1, n1. split; [by exists f, f1|by exists f1, f'].
Qed.

Lemma runs_context {A} text (m : txM A) a t n t' n' : runs (context text m) t n a t' n' -> runs m t n a t' n'.
Proof.
  intros (f & f' & Hr). unfold context in Hr. destruct (m _) as [p1 [x|e|]] eqn:E; try done. injection Hr as -> ->.
  by exists f, f'.
Qed.

Lemma runs_statement {A} (m : txM A) a t n t' n' : runs (statement m) t n a t' n' -> runs m t n a t' n'.
Proof.
  intros (f & f' & Hr). unfold statement in Hr. cbn [pgFaults pgTables pgSequence] in Hr.
  destruct f as [|[] f]; [|done|]; by eexists _, f'.
Qed.

Lemma runs_update f u t n t' n' : runs (update f) t n u t' n' -> f t = Ok t' /\ n' = n.
Proof.
  intros (fs & f' & Hr). unfold update in Hr. cbn [pgTables pgSequence pgFaults] in Hr.
  destruct (f t) as [t1|e|]; try done. by injection Hr as <- <- _ _.
Qed.

Lemma runs_select {A} (f : Tables -> outcome StoreError A) a t n t' n' :
  runs (select f) t n a t' n' -> f t = Ok a /\ t' = t /\ n' = n.
Proof. intros (fs & f' & Hr). unfold select in Hr. cbn in Hr. by injection Hr as <- <- _ ->. Qed.

(** A transaction that commits ran its body. *)
Lemma runs_transaction {A} (body : txM A) a t n t' n' : runs (transaction body) t n a t' n' -> runs body t n a t' n'.
Proof.
  intros (f & f' & Hr). unfold transaction in Hr. destruct (begin_commit body _) as [p1 [x|e|]] eqn:E; try done.
  injection Hr as -> ->. assert (runs (begin_commit body) t n a t' n') as Hb by (by exists f, f').
  unfold begin_commit in Hb. apply runs_bind in Hb as ([] & t1 & n1 & H1 & Hb).
  apply runs_bind in Hb as (x & t2 & n2 & H2 & Hb). apply runs_bind in Hb as ([] & t3 & n3 & H3 & Hb).
  apply runs_statement, runs_ret in H1 as (_ & -> & ->). apply runs_statement, runs_ret in H3 as (_ & -> & ->).
  by apply runs_ret in Hb as (-> & -> & ->).
Qed.

Ltac run H :=
  repeat match type of H with
  | runs (context _ _) _ _ _ _ _ => apply runs_context in H
  | runs (statement _) _ _ _ _ _ => apply runs_statement in H
  | runs (transaction _) _ _ _ _ _ => apply runs_transaction in H
  | runs (throw _) _ _ _ _ _ => by apply runs_throw in H
  end.

(** ** Statements *)

(** Everything but the outbox and the event state. *)
Definition same_progress (t t' : Tables) : Prop := tbCursors t' = tbCursors t /\ tbSnapshots t' = tbSnapshots t.

Lemma upsert_point_frame row t t' :
  upsert_point row t = Ok t' -> same_progress t t' /\ tbOutbox t' = tbOutbox t /\ tbPoints t' = <[point_id row := row]> (tbPoints t).
Proof. unfold upsert_point. repeat case_match; try done. by intros [= <-]. Qed.

Lemma upsert_market_frame id row t t' :
  upsert_market id row t = Ok t' -> same_progress t t' /\ tbOutbox t' = tbOutbox t /\ tbPoints t' = tbPoints t.
Proof. unfold upsert_market. repeat case_match; try done; by intros [= <-]. Qed.

Lemma persist_runs event u t n t' n' :
  runs (pg_persistEventState event) t n u t' n' -> same_progress t t' /\ tbOutbox t' = tbOutbox t /\ n' = n.
Proof.
  unfold pg_persistEventState, insertPoint, upsertMarketState. intros Hr.
  destruct (_ || _); [|destruct (_ =? _)%string; [|by apply runs_throw in Hr]].
  - destruct (evIndicator event); [|by apply runs_throw in Hr].
    run Hr. apply runs_update in Hr as [Hu ->]. by apply upsert_point_frame in Hu as (? & ? & ?).
  - destruct (evMarket event); [|by apply runs_throw in Hr]. destruct (market_marshals _); [|by apply runs_throw in Hr].
    run Hr. apply runs_update in Hr as [Hu ->]. by apply upsert_market_frame in Hu as (? & ? & ?).
Qed.

(** The row a new event gets. *)
Definition outbox_row (event : SignalEvent) (period cursor : Z) (payload : Payload) : outboxRow :=
  mkOutboxRow cursor (evEventID event) (event_series event) period (evEventType event) payload false.

Lemma enqueue_runs what event period e t n t' n' :
  runs (enqueue_event what event period) t n e t' n' ->
  exists cursor payload, e = set_cursor event cursor /\ marshal_event event = Some payload /\ same_progress t t' /\ n' = n + 1 /\ n + 1 < 2 ^ 63 /\
    ((exists row, row ∈ tbOutbox t /\ orEventID row = evEventID event /\ cursor = orCursor row /\ tbOutbox t' = tbOutbox t) \/
     ((evEventID event ∉ map orEventID (tbOutbox t)) /\ cursor = n + 1 /\
      tbOutbox t' = tbOutbox t ++ [outbox_row event period cursor payload])).
Proof.
  unfold enqueue_event. destruct (marshal_event event) as [payload|]; [|by intros Hr%runs_throw].
  intros (cursor & t1 & n1 & H1 & H2)%runs_bind. apply runs_ret in H2 as (-> & -> & ->). run H1.
  destruct H1 as (f & f' & H1). exists cursor, payload. split; [done|]. split; [done|].
  unfold insert_outbox in H1. cbn [pgTables pgSequence pgFaults] in H1. destruct (negb _); [done|]. cbn zeta in H1.
  destruct (Z.leb_spec (2 ^ 63) (n + 1)); [done|]. destruct (List.find _ _) as [row|] eqn:Hf; injection H1 as <- <- _ <-.
  - apply List.find_some in Hf as [Hin Hid%String.eqb_eq]. repeat split; [done..|]. left.
    exists row. split_and!; [by apply list_elem_of_In|done..].
  - repeat split; try done. right. split_and!; [by apply find_row_none|done..].
Qed.

(** ** Commits *)

(** An event that was given and one that came back with a cursor under which
    the outbox has it. *)
Definition queued (rows : list outboxRow) (e e' : SignalEvent) : Prop :=
  same_event e e' /\ exists row, row ∈ rows /\ orCursor row = evCursor e' /\ orEventID row = evEventID e.

Lemma queued_mono rows more e e' : queued rows e e' -> queued (rows ++ more) e e'.
Proof. intros (? & row & Hin & ?). split; [done|]. exists row. split; [set_solver|done]. Qed.

Lemma commit_events_runs events : forall done out t n t' n',
  runs (commit_events events done) t n out t' n' ->
  exists new rows, out = done ++ new /\ same_progress t t' /\ n' = n + len events /\ tbOutbox t' = tbOutbox t ++ rows /\
    Forall2 (queued (tbOutbox t')) events new /\
    (NoDup (map evEventID events) -> Forall (fun e => evEventID e ∉ map orEventID (tbOutbox t)) events ->
     Forall2 (fun e row => exists payload, marshal_event e = Some payload /\
                row = outbox_row e (eventPeriod e) (orCursor row) payload) events rows /\
     map evCursor new = map orCursor rows).
Proof.
  induction events as [|e events IH]; intros done out t n t' n'; cbn [commit_events].
  { intros (-> & -> & ->)%runs_ret. exists [], []. rewrite !app_nil_r. cbn. unfold len. cbn.
    repeat split; [lia|constructor..|done]. }
  intros ([] & t1 & n1 & H1 & Hr)%runs_bind. apply runs_bind in Hr as (e' & t2 & n2 & H2 & Hr).
  apply persist_runs in H1 as ([Hc1 Hs1] & Ho1 & ->).
  apply enqueue_runs in H2 as (cursor & payload & -> & Hm & [Hc2 Hs2] & -> & _ & Hrow).
  apply IH in Hr as (new & rows & -> & [Hc3 Hs3] & -> & Hout & Hq & Hfresh).
  assert (Hprog : same_progress t t') by (split; congruence). rewrite len_cons. rewrite Ho1 in Hrow.
  destruct Hrow as [(row & Hin & Hid & Hcur & Ho2)|(Hnew & Hcur & Ho2)]; rewrite Ho2, <-?app_assoc in *.
  - exists (set_cursor e cursor :: new), rows. rewrite <-?app_assoc. split_and!; try done; [lia| |].
    + constructor; [|done]. split; [done|]. exists row. rewrite Hout. split_and!; [set_solver|done..].
    + intros _ [Hn _]%Forall_cons. destruct Hn. rewrite <-Hid. by apply list_elem_of_In, in_map, list_elem_of_In.
  - exists (set_cursor e cursor :: new), (outbox_row e (eventPeriod e) cursor payload :: rows).
    rewrite <-?app_assoc. split_and!; try done; [lia| |].
    + constructor; [|done]. split; [done|]. exists (outbox_row e (eventPeriod e) cursor payload).
      rewrite Hout. split_and!; [set_solver|done..].
    + cbn [map]. intros [Hn1 Hn2]%NoDup_cons [_ Hf]%Forall_cons. destruct Hfresh as [Hrows Hcs]; [done| |].
      * rewrite Forall_forall in *. intros x Hx. rewrite map_app, elem_of_app. cbn. intros [Hy|Hy]; [by apply (Hf x)|].
        apply list_elem_of_singleton in Hy. cbn in Hy. apply Hn1. rewrite <-Hy.
        by apply list_elem_of_In, in_map, list_elem_of_In.
      * split; [|cbn; by rewrite Hcs]. constructor; [by exists payload|done].
Qed.

(** ** Snapshots and cursors *)

(** What the columns keep of a snapshot. *)
Definition stored (s : ReducerSnapshot) : ReducerSnapshot :=
  mkSnapshot (rsAlgorithm s) (rsPeriod s) (timestamptz (rsLastOpenTime s)) (jsonb (rsState s)).

Definition write_snapshot (key : SeriesKey) (m : gmap snapshotId (Z * json)) (s : ReducerSnapshot) :=
  <[snapshot_id key s := (timestamptz (rsLastOpenTime s), jsonb (rsState s))]> m.

Lemma snapshots_run key snapshots : forall u t n t' n',
  runs (each (upsertSnapshot key) snapshots) t n u t' n' ->
  tbSnapshots t' = foldl (write_snapshot key) (tbSnapshots t) snapshots /\ tbCursors t' = tbCursors t /\
  tbOutbox t' = tbOutbox t /\ n' = n.
Proof.
  induction snapshots as [|s snapshots IH]; intros u t n t' n'; cbn [each].
  { by intros (_ & -> & ->)%runs_ret. }
  intros ([] & t1 & n1 & H1 & Hr)%runs_bind. unfold upsertSnapshot in H1. run H1. apply runs_update in H1 as [Hu ->].
  unfold upsert_snapshot in Hu. destruct (fits_i32 _); [|done]. injection Hu as <-. by apply IH in Hr as (-> & -> & -> & ->).
Qed.

Lemma written_snapshots key snapshots m s :
  NoDup (map (snapshot_id key) snapshots) -> s ∈ snapshots ->
  foldl (write_snapshot key) m snapshots !! snapshot_id key s = Some (timestamptz (rsLastOpenTime s), jsonb (rsState s)).
Proof.
  assert (Hkeep : forall l m id, (id ∉ map (snapshot_id key) l) -> foldl (write_snapshot key) m l !! id = m !! id).
  { induction l as [|x l IH]; intros m0 id Hid; [done|]. cbn. cbn [map] in Hid. rewrite IH by set_solver.
    unfold write_snapshot. apply lookup_insert_ne. set_solver. }
  revert m. induction snapshots as [|x snapshots IH]; intros m Hn Hin; [by apply not_elem_of_nil in Hin|].
  cbn [map] in Hn. apply NoDup_cons in Hn as [Hx Hn]. cbn [foldl]. apply elem_of_cons in Hin as [->|Hin]; [|by apply IH].
  rewrite Hkeep by done. apply lookup_insert_eq.
Qed.

Lemma upsertCursor_runs key bar u t n t' n' :
  runs (upsertCursor key bar) t n u t' n' ->
  tbCursors t' = <[series_id key := mkCursorRow (timestamptz (bOpenTime bar)) (barHash bar)]> (tbCursors t) /\
  tbSnapshots t' = tbSnapshots t /\ tbOutbox t' = tbOutbox t /\ n' = n.
Proof.
  unfold upsertCursor. intros (affected & t1 & n1 & H1 & Hr)%runs_bind. run H1. destruct H1 as (f & f' & H1).
  cbn [pgTables pgSequence pgFaults] in H1. unfold upsert_cursor in H1.
  destruct (tbCursors t !! series_id key) as [row|]; [destruct (_ <=? _)|]; injection H1 as <- <- _ <-.
  - by apply runs_ret in Hr as (_ & -> & ->).
  - by apply runs_throw in Hr.
  - by apply runs_ret in Hr as (_ & -> & ->).
Qed.

(** ** A commit and what reads it back *)

(** The bar is newer than the series. *)
Definition newer (t : Tables) (key : SeriesKey) (bar : Bar) : Prop :=
  forall row, tbCursors t !! series_id key = Some row -> crLastOpenTime row < bOpenTime bar.

Lemma commit_runs p p' key bar events snapshots committed :
  Postgres_CommitClosed p key bar events snapshots = (p', Ok committed) -> newer (pgTables p) key bar ->
  exists t1 t2 n1 n2 u,
    runs (commit_events events []) (pgTables p) (pgSequence p) committed t1 n1 /\
    runs (each (upsertSnapshot key) snapshots) t1 n1 u t2 n2 /\
    runs (upsertCursor key bar) t2 n2 tt (pgTables p') (pgSequence p').
Proof.
  intros Hc Hnew. unfold Postgres_CommitClosed in Hc. apply runs_intro in Hc. run Hc.
  apply runs_bind in Hc as ([] & t1 & n1 & H1 & Hc). unfold advisory_lock in H1. run H1. apply runs_ret in H1 as (_ & -> & ->).
  apply runs_bind in Hc as ([] & t1 & n1 & H1 & Hc). unfold advisory_lock in H1. run H1. apply runs_ret in H1 as (_ & -> & ->).
  apply runs_bind in Hc as (last & t1 & n1 & H1 & Hc). unfold read_cursor in H1. run H1.
  apply runs_select in H1 as ([= <-] & -> & ->).
  assert (Hwrite : runs (committed ← commit_events events []; each (upsertSnapshot key) snapshots ;;
            upsertCursor key bar ;; mret committed) (pgTables p) (pgSequence p) committed (pgTables p') (pgSequence p')).
  { destruct (tbCursors (pgTables p) !! series_id key) as [row|] eqn:Hrow; [|done].
    by rewrite (proj2 (Z.leb_gt _ _) (Hnew row Hrow)) in Hc. }
  apply runs_bind in Hwrite as (out & t1 & n1 & H1 & Hw). apply runs_bind in Hw as (u & t2 & n2 & H2 & Hw).
  apply runs_bind in Hw as ([] & t3 & n3 & H3 & Hw). apply runs_ret in Hw as (-> & <- & <-). eauto 10.
Qed.

Context `{Runtime}.

(** Any recovery of the series reads the cursor of the bar and every snapshot
    that was written with it. *)
Lemma recovery_reads p key bar (snapshots : list ReducerSnapshot) before :
  tbCursors (pgTables p) !! series_id key = Some (mkCursorRow (timestamptz (bOpenTime bar)) (barHash bar)) ->
  tbSnapshots (pgTables p) = foldl (write_snapshot key) before snapshots ->
  NoDup (map (snapshot_id key) snapshots) -> Forall (eq false) (take 3 (pgFaults p)) ->
  exists saved, Postgres_LoadRecovery p key = Ok (mkRecovery saved (timestamptz (bOpenTime bar)) (barHash bar) true) /\
    forall s, s ∈ snapshots -> stored s ∈ saved.
Proof.
  intros Hcur Hsnap Hnd Hf.
  assert (Hq : forall n A (f : Tables -> outcome StoreError A), (n < 3)%nat -> query (later n p) f = f (pgTables p)).
  { intros n A f Hn. unfold query, later. cbn [pgFaults pgTables]. destruct (drop n (pgFaults p)) as [|b rest] eqn:Hd; [done|].
    assert (Hb : pgFaults p !! n = Some b).
    { pose proof (lookup_drop (pgFaults p) n 0) as Hl. by rewrite Hd, Nat.add_0_r in Hl. }
    rewrite Forall_lookup in Hf. rewrite <-(Hf n b) by (by rewrite lookup_take_lt). done. }
  unfold Postgres_LoadRecovery.
  replace (query p (fun t => Ok (tbCursors t !! series_id key))) with
    (query (later 0 p) (fun t => Ok (E := StoreError) (tbCursors t !! series_id key))) by (by destruct p).
  rewrite !Hq by lia. rewrite Hcur. cbn [wrap_err mbind outcome_bind]. eexists. split; [reflexivity|].
  intros s Hs; rewrite sort_slice_perm; apply list_elem_of_In, in_map_iff.
  exists (snapshot_id key s, (timestamptz (rsLastOpenTime s), jsonb (rsState s))).
  split; [by destruct s as [[] ? ? ?]|]; apply filter_In; split; [|by apply bool_decide_eq_true_2].
  apply list_elem_of_In; rewrite map_range_perm, elem_of_map_to_list, Hsnap; by apply written_snapshots.
Qed.
End Runs.
