(* ===== verification/PostgresEffects.v ===== *)
(** * What commits and rebuilds do to the tables

    The effect of a transaction that succeeds on every table, row by row, and
    when a commit does succeed. *)

From stdpp Require Import prelude gmap strings list sorting.
From Stdlib Require Import ZArith Lia SpecFloat Ascii String.
From S2P Require Import Prelude GoFloat GoText Sha256 GoStrings Model Ema StoreSpec Memory MemoryProofs.
From S2P Require Import Postgres PostgresProofs PostgresRuns.

#[local] Open Scope string_scope.
#[local] Open Scope list_scope.
#[local] Open Scope Z_scope.

(** ** Writing rows in turn *)

Section Writing.
Context {K A V : Type} `{Countable K} (key_of : A -> K) (merge : option V -> A -> V).

(** Each write puts at its key what [merge] makes of the row there. *)
Definition write_row (m : gmap K V) (a : A) : gmap K V := <[key_of a := merge (m !! key_of a) a]> m.

Lemma write_rows_other rows m id : id ∉ map key_of rows -> foldl write_row m rows !! id = m !! id.
Proof.
  revert m. induction rows as [|a rows IH]; intros m Hid; [done|]. cbn [map foldl] in *. rewrite IH by set_solver.
  unfold write_row. apply lookup_insert_ne. set_solver.
Qed.

Lemma write_rows_at rows m a :
  NoDup (map key_of rows) -> a ∈ rows -> foldl write_row m rows !! key_of a = Some (merge (m !! key_of a) a).
Proof.
  revert m. induction rows as [|x rows IH]; intros m Hn Hin; [by apply not_elem_of_nil in Hin|].
  cbn [map] in Hn. apply NoDup_cons in Hn as [Hx Hn]. cbn [foldl]. apply elem_of_cons in Hin as [->|Hin].
  - rewrite write_rows_other by done. apply lookup_insert_eq.
  - rewrite IH by done. unfold write_row at 1. rewrite lookup_insert_ne; [done|].
    intros Heq. apply Hx. rewrite Heq. by apply list_elem_of_In, in_map, list_elem_of_In.
Qed.
End Writing.

Section Effects.
Context `{Codec}.

(** ** The rows of events *)

Definition is_point (event : SignalEvent) : bool :=
  (evEventType event =? "indicator.point")%string || (evEventType event =? "")%string.

(** The point an event stores. *)
Definition written_point (event : SignalEvent) : option pointRow :=
  if is_point event then point_row event <$> evIndicator event else None.
Definition written_points : list SignalEvent -> list pointRow := omap written_point.

(** The market state an event stores, and under which key. *)
Definition written_market (event : SignalEvent) : option (marketId * marketRow) :=
  if is_point event then None
  else market ← evMarket event;
       Some (market_id event, mkMarketRow (evEventID event) (timestamptz (evBarOpenTime event)) (evBarRevision event) market).
Definition written_markets : list SignalEvent -> list (marketId * marketRow) := omap written_market.

(** The later state is kept. *)
Definition newer_market (existing : option marketRow) (written : marketId * marketRow) : marketRow :=
  match existing with
  | Some row => if mwBarOpenTime row <=? mwBarOpenTime written.2 then written.2 else row
  | None => written.2
  end.

Definition write_points : gmap pointId pointRow -> list pointRow -> gmap pointId pointRow :=
  foldl (write_row point_id (fun _ row => row)).
Definition write_markets : gmap marketId marketRow -> list (marketId * marketRow) -> gmap marketId marketRow :=
  foldl (write_row fst newer_market).

(** ** The state of events *)

Ltac run Hr :=
  repeat match type of Hr with
  | runs (context _ _) _ _ _ _ _ => apply runs_context in Hr
  | runs (statement _) _ _ _ _ _ => apply runs_statement in Hr
  | runs (transaction _) _ _ _ _ _ => apply runs_transaction in Hr
  | runs (throw _) _ _ _ _ _ => by apply runs_throw in Hr
  end.

Lemma upsert_market_writes id row t t' :
  upsert_market id row t = Ok t' -> tbMarkets t' = write_markets (tbMarkets t) [(id, row)].
Proof.
  unfold upsert_market, write_markets. cbn [foldl]. unfold write_row, newer_market. cbn [fst snd].
  destruct (negb _); [done|]. destruct (tbMarkets t !! id) as [existing|] eqn:He.
  - destruct (mwBarOpenTime existing <=? mwBarOpenTime row).
    + destruct (id_taken _ _ _ _); [done|]. by intros [= <-].
    + intros [= <-]. by rewrite insert_id.
  - destruct (id_taken _ _ _ _); [done|]. by intros [= <-].
Qed.

(** What the event state of some events is written to. *)
Record state_written (t : Tables) (events : list SignalEvent) (t' : Tables) : Prop := {
  sw_points : tbPoints t' = write_points (tbPoints t) (written_points events);
  sw_markets : tbMarkets t' = write_markets (tbMarkets t) (written_markets events)
}.

Lemma state_written_same t t' : tbPoints t' = tbPoints t -> tbMarkets t' = tbMarkets t -> state_written t [] t'.
Proof. by split. Qed.

Lemma state_written_app t e1 t1 e2 t2 :
  state_written t e1 t1 -> state_written t1 e2 t2 -> state_written t (e1 ++ e2) t2.
Proof.
  intros [Hp1 Hm1] [Hp2 Hm2]. split; unfold written_points, written_markets, write_points, write_markets in *;
    rewrite omap_app, foldl_app; congruence.
Qed.

Lemma persist_writes event u t n t' n' :
  runs (pg_persistEventState event) t n u t' n' -> state_written t [event] t'.
Proof.
  unfold pg_persistEventState, insertPoint, upsertMarketState. intros Hr.
  assert (Hp : written_points [event] = match written_point event with Some r => [r] | None => [] end)
    by (cbn; by destruct (written_point event)).
  assert (Hm : written_markets [event] = match written_market event with Some r => [r] | None => [] end)
    by (cbn; by destruct (written_market event)).
  split; rewrite ?Hp, ?Hm; unfold written_point, written_market, is_point; destruct (_ || _); revert Hr.
  all: try (destruct (_ =? _)%string; [|by intros Hr%runs_throw]).
  all: try (destruct (evIndicator event); [|by intros Hr%runs_throw]).
  all: try (destruct (evMarket event) as [market|]; [|by intros Hr%runs_throw];
            destruct (market_marshals _); [|by intros Hr%runs_throw]).
  all: intros Hr; run Hr; apply runs_update in Hr as [Hu _].
  - by apply upsert_point_frame in Hu as (_ & _ & ->).
  - by apply upsert_market_frame in Hu as (_ & _ & ->).
  - revert Hu. unfold upsert_point. destruct (negb _); [done|]. destruct (id_taken _ _ _ _); [done|]. by intros [= <-].
  - by apply upsert_market_writes in Hu.
Qed.

Lemma enqueue_state what event period e t n t' n' :
  runs (enqueue_event what event period) t n e t' n' -> state_written t [] t'.
Proof.
  unfold enqueue_event. destruct (marshal_event event) as [payload|]; [|by intros Hr%runs_throw].
  intros (cursor & t1 & n1 & H1 & H2)%runs_bind. apply runs_ret in H2 as (_ & -> & _). run H1.
  destruct H1 as (f & f' & H1). unfold insert_outbox in H1. cbn [pgTables pgSequence pgFaults] in H1.
  repeat case_match; try done; simplify_eq; by apply state_written_same.
Qed.

Lemma commit_events_writes events : forall done out t n t' n',
  runs (commit_events events done) t n out t' n' -> state_written t events t'.
Proof.
  induction events as [|e events IH]; intros done out t n t' n'; cbn [commit_events].
  { intros (_ & -> & _)%runs_ret. by apply state_written_same. }
  intros ([] & t1 & n1 & H1 & Hr)%runs_bind. apply runs_bind in Hr as (e' & t2 & n2 & H2 & Hr).
  apply persist_writes in H1. apply enqueue_state in H2. apply IH in Hr.
  apply (state_written_app _ [e] t1 _ _ H1). by apply (state_written_app _ [] t2 _ _ H2).
Qed.

Lemma snapshots_state key snapshots : forall u t n t' n',
  runs (each (upsertSnapshot key) snapshots) t n u t' n' -> state_written t [] t'.
Proof.
  induction snapshots as [|s snapshots IH]; intros u t n t' n'; cbn [each].
  { intros (_ & -> & _)%runs_ret. by apply state_written_same. }
  intros ([] & t1 & n1 & H1 & Hr)%runs_bind. unfold upsertSnapshot in H1. run H1. apply runs_update in H1 as [Hu ->].
  unfold upsert_snapshot in Hu. destruct (fits_i32 _); [|done]. injection Hu as <-. apply IH in Hr as [Hp Hm].
  by apply state_written_same.
Qed.

Lemma cursor_state key bar u t n t' n' : runs (upsertCursor key bar) t n u t' n' -> state_written t [] t'.
Proof.
  unfold upsertCursor. intros (affected & t1 & n1 & H1 & Hr)%runs_bind. run H1. destruct H1 as (f & f' & H1).
  cbn [pgTables pgSequence pgFaults] in H1. destruct (upsert_cursor _ _ _) as [k cursors]. injection H1 as <- <- _ <-.
  destruct (k =? 1); [|by apply runs_throw in Hr]. apply runs_ret in Hr as (_ & -> & _). by apply state_written_same.
Qed.

(** The cursor is written only when it does not go back. *)
Lemma cursor_forward key bar u t n t' n' :
  runs (upsertCursor key bar) t n u t' n' ->
  forall row, tbCursors t !! series_id key = Some row -> crLastOpenTime row <= timestamptz (bOpenTime bar).
Proof.
  unfold upsertCursor. intros (affected & t1 & n1 & H1 & Hr)%runs_bind row Hrow. run H1. destruct H1 as (f & f' & H1).
  cbn [pgTables pgSequence pgFaults] in H1. unfold upsert_cursor in H1. rewrite Hrow in H1. cbn [crLastOpenTime] in H1.
  destruct (Z.leb_spec (crLastOpenTime row) (timestamptz (bOpenTime bar))); [done|].
  injection H1 as <- <- _ <-. by apply runs_throw in Hr.
Qed.

(** ** The tables row by row *)

Definition snapshot_row (s : ReducerSnapshot) : Z * json := (timestamptz (rsLastOpenTime s), jsonb (rsState s)).

Lemma write_snapshots_rows key snapshots m :
  foldl (write_snapshot key) m snapshots = foldl (write_row (snapshot_id key) (fun _ => snapshot_row)) m snapshots.
Proof. revert m. induction snapshots as [|s snapshots IH]; intros m; [done|]. apply IH. Qed.

(** Rows are written where the list says, and every other row is as in [m]. *)
Definition rows_written {K A V} `{Countable K} (key_of : A -> K) (merge : option V -> A -> V) (rows : list A) (m m' : gmap K V) : Prop :=
  (forall a, a ∈ rows -> m' !! key_of a = Some (merge (m !! key_of a) a)) /\
  (forall id, id ∉ map key_of rows -> m' !! id = m !! id).

Lemma rows_written_fold {K A V} `{Countable K} (key_of : A -> K) (merge : option V -> A -> V) rows m :
  NoDup (map key_of rows) -> rows_written key_of merge rows m (foldl (write_row key_of merge) m rows).
Proof. intros Hn. split; [intros a; by apply write_rows_at|intros id; by apply write_rows_other]. Qed.

(** Everything a commit or a rebuild that succeeded has written for some events
    and snapshots of a series over [t]. *)
Record written_tables (key : SeriesKey) (events : list SignalEvent) (snapshots : list ReducerSnapshot) (t t' : Tables) : Prop := {
  wt_points : rows_written point_id (fun _ row => row) (written_points events) (tbPoints t) (tbPoints t');
  wt_markets : rows_written fst newer_market (written_markets events) (tbMarkets t) (tbMarkets t');
  wt_snapshots : rows_written (snapshot_id key) (fun _ => snapshot_row) snapshots (tbSnapshots t) (tbSnapshots t')
}.

(** No two events, and no two snapshots, are for one row. *)
Record distinct_rows (key : SeriesKey) (events : list SignalEvent) (snapshots : list ReducerSnapshot) : Prop := {
  dr_points : NoDup (map point_id (written_points events));
  dr_markets : NoDup (map fst (written_markets events));
  dr_snapshots : NoDup (map (snapshot_id key) snapshots)
}.

Lemma written_tables_intro key events snapshots t t' :
  distinct_rows key events snapshots -> state_written t events t' ->
  tbSnapshots t' = foldl (write_snapshot key) (tbSnapshots t) snapshots -> written_tables key events snapshots t t'.
Proof.
  intros [Hp Hm Hs] [Hwp Hwm] Hws. split.
  - rewrite Hwp. by apply rows_written_fold.
  - rewrite Hwm. by apply rows_written_fold.
  - rewrite Hws, write_snapshots_rows. by apply rows_written_fold.
Qed.

(** ** Commits *)

(** A commit that succeeds found the very bar at the cursor, or a newer one. *)
Lemma commit_cases p p' key bar events snapshots committed :
  Postgres_CommitClosed p key bar events snapshots = (p', Ok committed) ->
  (exists row, tbCursors (pgTables p) !! series_id key = Some row /\ bOpenTime bar = crLastOpenTime row /\
     barHash bar = crLastBarHash row /\ committed = [] /\ pgTables p' = pgTables p) \/
  newer (pgTables p) key bar.
Proof.
  unfold Postgres_CommitClosed. intros Hc%runs_intro. run Hc.
  apply runs_bind in Hc as ([] & t1 & n1 & H1 & Hc). unfold advisory_lock in H1. run H1. apply runs_ret in H1 as (_ & -> & ->).
  apply runs_bind in Hc as ([] & t1 & n1 & H1 & Hc). unfold advisory_lock in H1. run H1. apply runs_ret in H1 as (_ & -> & ->).
  apply runs_bind in Hc as (last & t1 & n1 & H1 & Hc). unfold read_cursor in H1. run H1.
  apply runs_select in H1 as ([= <-] & -> & ->). unfold newer.
  destruct (tbCursors (pgTables p) !! series_id key) as [row|]; [|by right].
  destruct (Z.leb_spec (bOpenTime bar) (crLastOpenTime row)); [|by right; intros ? [= <-]]. left.
  destruct (Z.eqb_spec (bOpenTime bar) (crLastOpenTime row)); [|by apply runs_throw in Hc].
  destruct (String.eqb_spec (barHash bar) (crLastBarHash row)); [|by apply runs_throw in Hc].
  apply runs_ret in Hc as (-> & -> & _). by exists row.
Qed.

Lemma commit_writes p p' key bar events snapshots committed :
  Postgres_CommitClosed p key bar events snapshots = (p', Ok committed) -> newer (pgTables p) key bar ->
  distinct_rows key events snapshots ->
  written_tables key events snapshots (pgTables p) (pgTables p') /\
  tbCursors (pgTables p') =
    <[series_id key := mkCursorRow (timestamptz (bOpenTime bar)) (barHash bar)]> (tbCursors (pgTables p)) /\
  (exists rows, tbOutbox (pgTables p') = tbOutbox (pgTables p) ++ rows) /\
  Forall2 (queued (tbOutbox (pgTables p'))) events committed.
Proof.
  intros Hc Hnew Hd. destruct (commit_runs _ _ _ _ _ _ _ Hc Hnew) as (t1 & t2 & n1 & n2 & u & H1 & H2 & H3).
  pose proof (commit_events_writes _ _ _ _ _ _ _ H1) as Hw1. pose proof (snapshots_state _ _ _ _ _ _ _ H2) as Hw2.
  pose proof (cursor_state _ _ _ _ _ _ _ H3) as Hw3.
  apply commit_events_runs in H1 as (new & rows & -> & [Hc1 Hs1] & _ & Ho1 & Hq & _).
  apply snapshots_run in H2 as (Hs2 & Hc2 & Ho2 & _). apply upsertCursor_runs in H3 as (Hc3 & Hs3 & Ho3 & _).
  split_and!.
  - apply written_tables_intro; [done| |congruence].
    rewrite <-(app_nil_r events). apply (state_written_app _ events t1 [] _ Hw1).
    by apply (state_written_app _ [] t2 [] _ Hw2).
  - congruence.
  - exists rows. congruence.
  - cbn [app]. by rewrite Ho3, Ho2.
Qed.

(** ** Rebuilds *)

Lemma rebuild_events_runs events : forall done out t n t' n',
  runs (rebuild_events events done) t n out t' n' ->
  exists new rows, out = done ++ new /\ same_progress t t' /\ state_written t events t' /\
    tbOutbox t' = tbOutbox t ++ rows /\ Forall2 (queued (tbOutbox t')) (List.filter evReset events) new.
Proof.
  induction events as [|e events IH]; intros done out t n t' n'; cbn [rebuild_events List.filter].
  { intros (-> & -> & _)%runs_ret. exists [], []. rewrite !app_nil_r. by repeat split. }
  intros ([] & t1 & n1 & H1 & Hr)%runs_bind. pose proof (persist_writes _ _ _ _ _ _ H1) as Hw1.
  apply persist_runs in H1 as ([Hc1 Hs1] & Ho1 & ->). destruct (evReset e).
  - apply runs_bind in Hr as (e' & t2 & n2 & H2 & Hr). pose proof (enqueue_state _ _ _ _ _ _ _ _ H2) as Hw2.
    apply enqueue_runs in H2 as (cursor & payload & -> & Hm & [Hc2 Hs2] & -> & _ & Hrow).
    apply IH in Hr as (new & rows & -> & [Hc3 Hs3] & Hw3 & Hout & Hq).
    assert (Hprog : same_progress t t') by (split; congruence).
    assert (Hw : state_written t (e :: events) t').
    { apply (state_written_app _ [e] t1 _ _ Hw1). by apply (state_written_app _ [] t2 _ _ Hw2). }
    rewrite Ho1 in Hrow. destruct Hrow as [(row & Hin & Hid & Hcur & Ho2)|(Hnew & Hcur & Ho2)]; rewrite Ho2 in Hout.
    + exists (set_cursor e cursor :: new), rows. rewrite <-app_assoc. split_and!; try done.
      constructor; [|done]. split; [done|]. exists row. rewrite Hout. split_and!; [set_solver|done..].
    + exists (set_cursor e cursor :: new), (outbox_row e 0 cursor payload :: rows). rewrite <-!app_assoc in *.
      split_and!; try done. constructor; [|done]. split; [done|]. exists (outbox_row e 0 cursor payload).
      rewrite Hout. split_and!; [set_solver|done..].
  - apply IH in Hr as (new & rows & -> & [Hc3 Hs3] & Hw3 & Hout & Hq). exists new, rows.
    split_and!; [done|split; congruence|by apply (state_written_app _ [e] t1 _ _ Hw1)|congruence|done].
Qed.

(** The tables without what a rebuild of the series throws away. *)
Definition cleared (key : SeriesKey) (t : Tables) : Tables :=
  mkTables (tbCursors t) (filter (fun kv => prSeries kv.2 <> series_id key) (tbPoints t))
    (filter (fun kv => snapshot_series kv.1 <> series_id key) (tbSnapshots t)) (tbOutbox t) (tbMarkets t).

Lemma rebuild_writes p p' key events snapshots lastBar committed :
  Postgres_RebuildSeries p key events snapshots lastBar = (p', Ok committed) -> distinct_rows key events snapshots ->
  written_tables key events snapshots (cleared key (pgTables p)) (pgTables p') /\
  tbCursors (pgTables p') = match lastBar with
    | Some bar => <[series_id key := mkCursorRow (timestamptz (bOpenTime bar)) (barHash bar)]> (tbCursors (pgTables p))
    | None => tbCursors (pgTables p)
    end /\
  (forall bar row, lastBar = Some bar -> tbCursors (pgTables p) !! series_id key = Some row ->
     crLastOpenTime row <= timestamptz (bOpenTime bar)) /\
  (exists rows, tbOutbox (pgTables p') = tbOutbox (pgTables p) ++ rows) /\
  Forall2 (queued (tbOutbox (pgTables p'))) (List.filter evReset events) committed.
Proof.
  unfold Postgres_RebuildSeries. intros Hr%runs_intro%runs_transaction Hd.
  assert (Hlock : forall text k u t n t' n', runs (context text (advisory_lock k)) t n u t' n' -> t' = t /\ n' = n).
  { intros * Hl%runs_context%runs_statement. by apply runs_ret in Hl as (_ & -> & ->). }
  apply runs_bind in Hr as ([] & t1 & n1 & H1 & Hr).
  assert (t1 = pgTables p) as -> by (destruct (existsb _ _); [by apply Hlock in H1 as [-> _]|by apply runs_ret in H1 as (_ & -> & _)]).
  apply runs_bind in Hr as ([] & t2 & n2 & H2 & Hr). apply Hlock in H2 as [-> ->].
  apply runs_bind in Hr as ([] & t3 & n3 & H3 & Hr). apply runs_context, runs_statement, runs_update in H3 as [[= <-] ->].
  apply runs_bind in Hr as ([] & t4 & n4 & H4 & Hr). apply runs_context, runs_statement, runs_update in H4 as [[= <-] ->].
  cbn [tbCursors tbPoints tbSnapshots tbOutbox tbMarkets] in Hr. fold (cleared key (pgTables p)) in Hr.
  apply runs_bind in Hr as (out & t5 & n5 & H5 & Hr).
  apply rebuild_events_runs in H5 as (new & rows & -> & [Hc5 Hs5] & Hw5 & Ho5 & Hq).
  apply runs_bind in Hr as (u6 & t6 & n6 & H6 & Hr). pose proof (snapshots_state _ _ _ _ _ _ _ H6) as Hw6.
  apply snapshots_run in H6 as (Hs6 & Hc6 & Ho6 & _).
  apply runs_bind in Hr as (u7 & t7 & n7 & H7 & Hr). apply runs_ret in Hr as (-> & <- & <-).
  assert (Hlast : state_written t6 [] (pgTables p') /\ tbSnapshots (pgTables p') = tbSnapshots t6 /\
    tbOutbox (pgTables p') = tbOutbox t6 /\
    tbCursors (pgTables p') = match lastBar with
      | Some bar => <[series_id key := mkCursorRow (timestamptz (bOpenTime bar)) (barHash bar)]> (tbCursors t6)
      | None => tbCursors t6
      end /\
    forall bar row, lastBar = Some bar -> tbCursors t6 !! series_id key = Some row ->
      crLastOpenTime row <= timestamptz (bOpenTime bar)).
  { destruct lastBar as [bar|].
    - pose proof (cursor_state _ _ _ _ _ _ _ H7) as Hw. pose proof (cursor_forward _ _ _ _ _ _ _ H7) as Hf.
      apply upsertCursor_runs in H7 as (Hc & Hs & Ho & _). split_and!; try done. intros b row [= <-]. apply Hf.
    - apply runs_ret in H7 as (_ & <- & _). split_and!; try done. }
  destruct Hlast as (Hw7 & Hs7 & Ho7 & Hc7 & Hf7). split_and!.
  - apply written_tables_intro; [done| |congruence].
    rewrite <-(app_nil_r events). apply (state_written_app _ events t5 [] _ Hw5).
    by apply (state_written_app _ [] t6 [] _ Hw6).
  - rewrite Hc7, Hc6, Hc5. done.
  - intros bar row Hb Hrow. apply (Hf7 bar row Hb). by rewrite Hc6, Hc5.
  - exists rows. by rewrite Ho7, Ho6, Ho5.
  - by rewrite Ho7, Ho6.
Qed.

(** ** When a commit succeeds *)

(** An event the columns can take. *)
Definition event_storable (e : SignalEvent) : Prop :=
  is_Some (marshal_event e) /\ fits_i32 (eventPeriod e) = true /\ fits_i64 (evBarRevision e) = true /\
  if is_point e
  then exists payload, evIndicator e = Some payload /\ fits_i32 (ipPeriod payload) = true /\ fits_i64 (ipSamples payload) = true
  else evEventType e = "market.state" /\ exists market, evMarket e = Some market /\ market_marshals market = true.

(** The id of an event is in none of the tables of event state. *)
Definition id_free (t : Tables) (e : SignalEvent) : Prop :=
  map_Forall (fun _ row => prEventID row <> evEventID e) (tbPoints t) /\
  map_Forall (fun _ row => mwEventID row <> evEventID e) (tbMarkets t).

Lemma id_free_taken {K V} `{Countable K} (id_of : V -> string) (key : K) id (m : gmap K V) :
  map_Forall (fun _ row => id_of row <> id) m -> id_taken id_of key id m = false.
Proof.
  intros Hm. unfold id_taken. destruct (existsb _ _) eqn:E; [|done].
  apply existsb_exists in E as ([k v] & Hin%list_elem_of_In%elem_of_map_to_list & [_ Hid%String.eqb_eq]%andb_true_iff).
  by destruct (Hm k v Hin).
Qed.

Lemma statement_quiet {A} (m : txM A) t n : statement m (mkPostgres t n []) = m (mkPostgres t n []).
Proof. reflexivity. Qed.

Lemma bind_ok {A B} (m : txM A) (f : A -> txM B) p p' a : m p = (p', Ok a) -> (m ≫= f) p = f a p'.
Proof. unfold mbind, txM_bind. by intros ->. Qed.

Lemma transaction_goes {A} (body : txM A) t n t' n' a :
  body (mkPostgres t n []) = (mkPostgres t' n' [], Ok a) -> transaction body (mkPostgres t n []) = (mkPostgres t' n' [], Ok a).
Proof.
  intros Hb. unfold transaction, begin_commit. erewrite bind_ok; [|reflexivity]. cbn [pgTables pgSequence tail].
  erewrite bind_ok; [|exact Hb]. reflexivity.
Qed.

Lemma persist_goes e t n :
  event_storable e -> id_free t e ->
  exists t', pg_persistEventState e (mkPostgres t n []) = (mkPostgres t' n [], Ok tt) /\
    forall x, evEventID x <> evEventID e -> id_free t x -> id_free t' x.
Proof.
  intros (_ & _ & Hrev & Hkind) [Hfp Hfm]. unfold pg_persistEventState. unfold is_point in Hkind.
  destruct (_ || _).
  - destruct Hkind as (payload & Hi & Hper & Hsam). unfold insertPoint. rewrite Hi. unfold context. rewrite statement_quiet.
    unfold update, upsert_point. cbn [pgTables pgSequence pgFaults point_row prBarRevision prPeriod prSamples prEventID].
    rewrite Hrev, Hper, Hsam. cbn [andb negb]. rewrite id_free_taken by done. cbn [wrap_err].
    eexists. split; [reflexivity|]. intros x Hne [Hxp Hxm]. split; [|done]. cbn [tbPoints].
    apply map_Forall_insert_2; [|done]. cbn. congruence.
  - destruct Hkind as (Ht & market & Hm & Hmar). rewrite Ht. cbn [String.eqb Ascii.eqb Bool.eqb].
    unfold upsertMarketState. rewrite Hm, Hmar. unfold context. rewrite statement_quiet.
    unfold update, upsert_market. cbn [pgTables pgSequence pgFaults mwBarRevision mwEventID mwBarOpenTime].
    rewrite Hrev. cbn [negb]. rewrite id_free_taken by done.
    assert (Hkeep : forall row, mwEventID row = evEventID e -> forall x, evEventID x <> evEventID e -> id_free t x ->
      id_free (mkTables (tbCursors t) (tbPoints t) (tbSnapshots t) (tbOutbox t) (<[market_id e := row]> (tbMarkets t))) x).
    { intros row Hrow x Hne [Hxp Hxm]. split; [done|]. cbn [tbMarkets]. apply map_Forall_insert_2; [congruence|done]. }
    destruct (tbMarkets t !! market_id e) as [existing|]; [destruct (_ <=? _)|]; cbn [wrap_err];
      eexists; (split; [reflexivity|]); [by apply Hkeep|done|by apply Hkeep].
Qed.

Lemma enqueue_goes what e period t n :
  is_Some (marshal_event e) -> fits_i32 period = true -> n + 1 < 2 ^ 63 ->
  exists t' e', enqueue_event what e period (mkPostgres t n []) = (mkPostgres t' (n + 1) [], Ok e') /\
    forall x, id_free t x -> id_free t' x.
Proof.
  intros [payload Hp] Hper Hn. unfold enqueue_event. rewrite Hp. unfold mbind, txM_bind, context. rewrite statement_quiet.
  unfold insert_outbox. cbn [pgTables pgSequence pgFaults]. rewrite Hper. cbn [negb].
  rewrite (proj2 (Z.leb_gt _ _)) by lia. destruct (List.find _ _); cbn [wrap_err]; eexists _, _; (split; [reflexivity|done]).
Qed.

Lemma commit_events_goes events : forall done t n,
  Forall event_storable events -> NoDup (map evEventID events) -> Forall (id_free t) events -> n + len events < 2 ^ 63 ->
  exists t' out, commit_events events done (mkPostgres t n []) = (mkPostgres t' (n + len events) [], Ok out).
Proof.
  induction events as [|e events IH]; intros done t n Hst Hd Hfree Hroom; cbn [commit_events].
  { exists t, done. by rewrite len_nil, Z.add_0_r. }
  rewrite len_cons in *. pose proof (len_nonneg events).
  apply Forall_cons in Hst as [He Hst]. apply Forall_cons in Hfree as [Hf Hfree]. apply NoDup_cons in Hd as [Hni Hd].
  destruct (persist_goes e t n He Hf) as (t1 & H1 & Hkeep1).
  destruct (enqueue_goes "signal" e (eventPeriod e) t1 n) as (t2 & e' & H2 & Hkeep2); [apply He|apply He|lia|].
  destruct (IH (done ++ [e']) t2 (n + 1) Hst Hd) as (t' & out & Hrest); [|lia|].
  - apply Forall_forall. intros x Hx. apply Hkeep2, Hkeep1; [|by rewrite Forall_forall in Hfree; apply Hfree].
    intros Heq. apply Hni. rewrite <-Heq. by apply list_elem_of_In, in_map, list_elem_of_In.
  - exists t', out. unfold mbind, txM_bind. unfold mbind, txM_bind in Hrest. rewrite H1, H2.
    rewrite Hrest. do 2 f_equal. lia.
Qed.

Lemma snapshots_go key snapshots : forall t n,
  Forall (fun s => fits_i32 (rsPeriod s) = true) snapshots ->
  exists t', each (upsertSnapshot key) snapshots (mkPostgres t n []) = (mkPostgres t' n [], Ok tt) /\
    tbCursors t' = tbCursors t.
Proof.
  induction snapshots as [|s snapshots IH]; intros t n Hs; cbn [each]; [by exists t|].
  apply Forall_cons in Hs as [Hp Hs]. unfold mbind, txM_bind, upsertSnapshot, context. rewrite statement_quiet.
  unfold update, upsert_snapshot. rewrite Hp. cbn [wrap_err pgTables pgSequence pgFaults].
  destruct (IH (mkTables (tbCursors t) (tbPoints t)
    (<[snapshot_id key s := (timestamptz (rsLastOpenTime s), jsonb (rsState s))]> (tbSnapshots t)) (tbOutbox t) (tbMarkets t)) n Hs)
    as (t' & Hrun & Hc). by exists t'.
Qed.

(** A database that answers, with room in the sequence, takes a newer bar with
    events and snapshots that fit its columns and ids that are new to it. *)
Lemma commit_goes p key bar events snapshots :
  pgFaults p = [] -> newer (pgTables p) key bar ->
  (forall row, tbCursors (pgTables p) !! series_id key = Some row -> crLastOpenTime row <= timestamptz (bOpenTime bar)) ->
  Forall event_storable events -> NoDup (map evEventID events) -> Forall (id_free (pgTables p)) events ->
  pgSequence p + len events < 2 ^ 63 -> Forall (fun s => fits_i32 (rsPeriod s) = true) snapshots ->
  exists p' committed, Postgres_CommitClosed p key bar events snapshots = (p', Ok committed).
Proof.
  destruct p as [t n faults]. cbn [pgFaults pgTables pgSequence]. intros -> Hnew Hfwd Hst Hd Hfree Hroom Hs.
  destruct (commit_events_goes events [] t n Hst Hd Hfree Hroom) as (t1 & out & H1).
  destruct (snapshots_go key snapshots t1 (n + len events) Hs) as (t2 & H2 & Hc2).
  assert (Hc1 : tbCursors t1 = tbCursors t).
  { assert (runs (commit_events events []) t n out t1 (n + len events)) as Hr by (by exists [], []).
    apply commit_events_runs in Hr as (_ & _ & _ & [? _] & _). done. }
  assert (H3 : exists t3, upsertCursor key bar (mkPostgres t2 (n + len events) []) = (mkPostgres t3 (n + len events) [], Ok tt)).
  { unfold upsertCursor, mbind, txM_bind, context. rewrite statement_quiet. cbn [pgTables pgSequence pgFaults].
    unfold upsert_cursor. rewrite Hc2, Hc1. cbn [crLastOpenTime].
    destruct (tbCursors t !! series_id key) as [row|]; [rewrite (proj2 (Z.leb_le _ _)) by (by apply Hfwd)|]; by eexists. }
  destruct H3 as [t3 H3].
  exists (mkPostgres t3 (n + len events) []), out. apply transaction_goes.
  erewrite bind_ok; [|reflexivity]. erewrite bind_ok; [|reflexivity]. erewrite bind_ok; [|reflexivity].
  cbn [pgTables].
  assert (Hwrite : (committed ← commit_events events []; each (upsertSnapshot key) snapshots ;;
    upsertCursor key bar ;; mret committed) (mkPostgres t n []) = (mkPostgres t3 (n + len events) [], Ok out)).
  { erewrite bind_ok; [|exact H1]. erewrite bind_ok; [|exact H2]. by erewrite bind_ok; [|exact H3]. }
  destruct (tbCursors t !! series_id key) as [row|] eqn:Hrow; [|exact Hwrite].
  rewrite (proj2 (Z.leb_gt _ _)) by (by apply Hnew). exact Hwrite.
Qed.

(** The same bar again is taken for done. *)
Lemma commit_again p key bar row events snapshots :
  pgFaults p = [] -> tbCursors (pgTables p) !! series_id key = Some row -> bOpenTime bar = crLastOpenTime row ->
  barHash bar = crLastBarHash row -> exists p', Postgres_CommitClosed p key bar events snapshots = (p', Ok []).
Proof.
  destruct p as [t n faults]. cbn [pgFaults pgTables]. intros -> Hrow Ht Hh. exists (mkPostgres t n []).
  apply transaction_goes. erewrite bind_ok; [|reflexivity]. erewrite bind_ok; [|reflexivity]. erewrite bind_ok; [|reflexivity].
  cbn [pgTables]. rewrite Hrow, Ht, Hh, Z.leb_refl, Z.eqb_refl, String.eqb_refl. reflexivity.
Qed.
End Effects.
