(* ===== verification/Lane.v ===== *)
(** * The lane (internal/engine/lane.go)

    One series: its reducers, its market reducer and its cursor, and the
    handlers of the three commands.  Handlers run in [laneM], a state and
    error monad over the lane, the store and the publications made so far;
    helpers that touch none of them are pure.  Locks only delimit when other
    goroutines may read; the handlers of one lane run one at a time, in the
    goroutine of [Run].

    The floating-point operations are those of a platform on which Go does not
    fuse a multiplication and an addition. *)

From stdpp Require Import prelude gmap strings list.
From Stdlib Require Import ZArith Lia SpecFloat String.
From S2P Require Import Prelude GoFloat GoText Sha256 Model Ema MarketZones MarketStructure.
From S2P Require Import MarketReducer StoreSpec.

#[local] Open Scope string_scope.
#[local] Open Scope list_scope.
#[local] Open Scope Z_scope.

Definition signalSchema : string := "signal.event.v1".
Definition marketHistoryLimit : Z := 500.

Inductive LaneError :=
  | LaneKeyIncomplete
  | LaneTimeframe
  | LaneNoPeriods
  | LaneNoStore
  | LanePeriodsInvalid
  | LaneEMA (e : EMAError)
  | LaneMarket (e : MarketError)
  | LaneBarMismatch
  | LaneBarTimeRequired
  | LaneBarNotFinite
  | LaneBarInconsistent
  | LaneSeedOutOfOrder
  | LaneDuplicateSnapshot
  | LaneSnapshotsIncomplete
  | LaneSnapshotNewer
  | LaneSnapshotsDisagree
  | LaneSeedMissesSnapshot
  | LaneCursorConflict
  | LaneSeedMissesRange
  | LaneMarketSnapshotNewer
  | LaneSeedConflict
  | LaneClosedInputOpen
  | LaneFormingInputClosed
  | LaneBarOlder
  | LaneBarGap
  | LaneLoad (e : StoreError)
  | LaneRebuild (e : StoreError)
  | LaneCommit (e : StoreError)
  | LaneMark (e : StoreError).

Record LaneOptions := mkLaneOptions {
  loKey : SeriesKey;
  loPeriods : list Z;
  loMailboxSize : Z;
  loSnapshotEvery : Z;
  loHasStore : bool;
  loPublisher : bool;
  loLivePublisher : bool;
  loOutboxDelivery : bool
}.

(** [lPublisher] and [lLivePublisher] say whether the publisher is non-nil. *)
Record Lane := mkLane {
  lKey : SeriesKey;
  lPeriods : list Z;
  lMailboxSize : Z;
  lSnapshotEvery : Z;
  lPublisher : bool;
  lLivePublisher : bool;
  lOutboxDelivery : bool;
  lReducers : gmap Z EMA;
  lMarket : Market;
  lLastBar : option Bar;
  lLastClosedRevision : Z;
  lClosedCount : Z;
  lProvisional : gmap Z float64;
  lFormingTime : option Z;
  lFormingBar : option Bar;
  lFormingRevision : Z;
  lLastErr : option LaneError
}.

(** The assignments under the lock at the end of a handler that moves the
    cursor: canonical state replaced, forming state cleared. *)
Definition set_canonical (l : Lane) (reducers : gmap Z EMA) (market : Market) (lastBar : option Bar)
    (lastClosedRevision closedCount : Z) : Lane :=
  mkLane (lKey l) (lPeriods l) (lMailboxSize l) (lSnapshotEvery l) (lPublisher l) (lLivePublisher l)
    (lOutboxDelivery l) reducers market lastBar lastClosedRevision closedCount ∅ None None 0 (lLastErr l).

Definition set_forming (l : Lane) (provisional : gmap Z float64) (time : option Z)
    (bar : option Bar) (revision : Z) : Lane :=
  mkLane (lKey l) (lPeriods l) (lMailboxSize l) (lSnapshotEvery l) (lPublisher l) (lLivePublisher l)
    (lOutboxDelivery l) (lReducers l) (lMarket l) (lLastBar l) (lLastClosedRevision l)
    (lClosedCount l) provisional time bar revision (lLastErr l).

Definition set_last_err (l : Lane) (err : option LaneError) : Lane :=
  mkLane (lKey l) (lPeriods l) (lMailboxSize l) (lSnapshotEvery l) (lPublisher l) (lLivePublisher l)
    (lOutboxDelivery l) (lReducers l) (lMarket l) (lLastBar l) (lLastClosedRevision l)
    (lClosedCount l) (lProvisional l) (lFormingTime l) (lFormingBar l) (lFormingRevision l) err.

(** ** Pure helpers *)

(** [^uint64(0)] is the last revision. *)
Definition revisionForBar (bar : Bar) : Z :=
  if bClosed bar && (bTrades bar <? uint64_max) then bTrades bar + 1 else bTrades bar.

Definition validateBar (key : SeriesKey) (bar : Bar) : outcome LaneError unit :=
  if negb (bSymbol bar =? kSymbol key)%string || negb (bTimeframe bar =? kTimeframe key)%string
  then Fail LaneBarMismatch
  else if bOpenTime bar =? zero_time then Fail LaneBarTimeRequired
  else if existsb (fun value => is_nan value || is_inf value)
            [bOpen bar; bHigh bar; bLow bar; bClose bar; bVolume bar]
  then Fail LaneBarNotFinite
  else if (bHigh bar <? bLow bar)%F || (bHigh bar <? bOpen bar)%F || (bHigh bar <? bClose bar)%F ||
          (bLow bar >? bOpen bar)%F || (bLow bar >? bClose bar)%F || (bVolume bar <? f0)%F
  then Fail LaneBarInconsistent
  else Ok tt.

Definition barFingerprint (bar : Bar) : string :=
  hex_encode (sum256 (bytes_of (bSymbol bar) ++ bytes_of (bTimeframe bar) ++
    flat_map (fun value => be_bytes 8 (float64_bits value) [])
      [bOpen bar; bHigh bar; bLow bar; bClose bar; bVolume bar] ++
    be_bytes 8 (bTrades bar) [])).

(** A loop whose body may fail. *)
Fixpoint oloop {E S A} (body : S -> A -> outcome E S) (l : list A) (s : S) : outcome E S :=
  match l with
  | [] => Ok s
  | a :: rest => s' ← body s a; oloop body rest s'
  end.

Definition newReducers (periods : list Z) : outcome LaneError (gmap Z EMA) :=
  oloop (fun reducers period =>
           reducer ← wrap_err LaneEMA (NewEMA period);
           Ok (<[period := reducer]> reducers)) periods ∅.

(** A missing entry is a nil reducer, on which a method call panics. *)
Definition cloneReducers (periods : list Z) (source : gmap Z EMA) : outcome LaneError (gmap Z EMA) :=
  cloned ← newReducers periods;
  oloop (fun cloned period =>
           original ← lift_panic (source !! period);
           state ← wrap_err LaneEMA (EMA_Snapshot original);
           fresh ← lift_panic (cloned !! period);
           restored ← wrap_err LaneEMA (EMA_Restore fresh state);
           Ok (<[period := restored]> cloned)) periods cloned.

Definition emaAlgorithm (period : Z) : AlgorithmRef :=
  mkAlgorithm "ema" EMAAlgorithmVersion
    ("sha256:" +:+ sha256_hex ("ema|" +:+ EMAAlgorithmVersion +:+ "|" +:+ itoa period +:+ "|sma-seed")).

Definition marketFactsAlgorithm (base : AlgorithmRef) (periods : list Z) : AlgorithmRef :=
  let identity := foldl (fun identity period => identity +:+ "|" +:+ aConfigHash (emaAlgorithm period))
                    (aConfigHash base) periods in
  mkAlgorithm (aName base) (aVersion base) ("sha256:" +:+ sha256_hex identity).

Definition newEMAEvent (key : SeriesKey) (bar : Bar) (period samples : Z) (value : float64)
    (provisional : bool) (revision : Z) : SignalEvent :=
  let algorithm := emaAlgorithm period in
  let identity := SeriesKey_String key +:+ "|" +:+ format_rfc3339 (bOpenTime bar) +:+ "|ema|" +:+
    aVersion algorithm +:+ "|" +:+ aConfigHash algorithm +:+ "|" +:+ itoa period +:+ "|" +:+
    format_bool provisional +:+ "|" +:+ format_uint revision in
  {| evSchema := signalSchema; evCursor := 0; evEventID := sha256_hex identity;
     evEventType := "indicator.point";
     evDataset := kDataset key; evSymbol := kSymbol key; evTimeframe := kTimeframe key;
     evBarOpenTime := bOpenTime bar; evSourceBar := Some bar;
     evBarRevision := revision; evAnalysisRevision := revision; evProvisional := provisional;
     evReset := false; evResetHistory := []; evAlgorithm := algorithm;
     evIndicator := Some (mkPayload period value samples true);
     evMarket := None; evIndicators := [] |}.

Section WithRuntime.
Context `{Runtime}.

(** [for period := range reducers { ... }; sort.Ints(periods)] *)
Definition reducer_periods (reducers : gmap Z EMA) : list Z :=
  sort_ints (map fst (map_range reducers)).

(** One period of [reduceEMAClosed]: the map after the update and the events
    so far. *)
Definition reduce_period (key : SeriesKey) (bar : Bar) (revision : Z)
    (acc : gmap Z EMA * list SignalEvent) (period : Z)
  : outcome LaneError (gmap Z EMA * list SignalEvent) :=
  let '(reducers, events) := acc in
  reducer ← lift_panic (reducers !! period);
  let '(reducer, result) := EMA_OnClosed reducer (bClose bar) in
  '(value, ready) ← wrap_err LaneEMA result;
  Ok (<[period := reducer]> reducers,
      if (ready : bool)
      then events ++ [newEMAEvent key bar period (EMA_Samples reducer) value false revision]
      else events).

(** The reducers are updated in place; the callers drop them when an error
    is returned. *)
Definition reduceEMAClosed (key : SeriesKey) (reducers : gmap Z EMA) (bar : Bar) (revision : Z)
  : outcome LaneError (gmap Z EMA * list SignalEvent) :=
  oloop (reduce_period key bar revision) (reducer_periods reducers) (reducers, []).

Definition indicator_state (revision period : Z) (reducer : EMA) : IndicatorState :=
  let '(value, ready) := EMA_Value reducer in
  mkIndicator (emaAlgorithm period) period (if (ready : bool) then Some value else None)
    (EMA_Samples reducer) ready revision.

Definition newMarketEvent (key : SeriesKey) (bar : Bar) (state : MarketState) (revision : Z)
    (reducers : gmap Z EMA) : option SignalEvent :=
  let periods := reducer_periods reducers in
  let algorithm := marketFactsAlgorithm (msAlgorithm state) periods in
  let identity := SeriesKey_String key +:+ "|" +:+ format_rfc3339 (bOpenTime bar) +:+ "|" +:+
    aName algorithm +:+ "|" +:+ aVersion algorithm +:+ "|" +:+ aConfigHash algorithm +:+
    "|false|" +:+ format_uint revision in
  indicators ← mapM (fun period =>
    reducer ← reducers !! period; Some (indicator_state revision period reducer)) periods;
  Some {| evSchema := signalSchema; evCursor := 0; evEventID := sha256_hex identity;
          evEventType := "market.state";
          evDataset := kDataset key; evSymbol := kSymbol key; evTimeframe := kTimeframe key;
          evBarOpenTime := bOpenTime bar; evSourceBar := Some bar;
          evBarRevision := revision; evAnalysisRevision := revision; evProvisional := false;
          evReset := false; evResetHistory := []; evAlgorithm := algorithm;
          evIndicator := None; evMarket := Some state; evIndicators := indicators |}.

Definition reducerSnapshots (reducers : gmap Z EMA) (market : Market) (lastBar : option Bar)
  : outcome LaneError (list ReducerSnapshot) :=
  match lastBar with
  | None => Ok []
  | Some bar =>
      out ← oloop (fun out period =>
              reducer ← lift_panic (reducers !! period);
              state ← wrap_err LaneEMA (EMA_Snapshot reducer);
              Ok (out ++ [mkSnapshot (emaAlgorithm period) period (bOpenTime bar) state]))
            (reducer_periods reducers) [];
      marketState ← wrap_err LaneMarket (Market_Snapshot market);
      Ok (out ++ [mkSnapshot (MarketAlgorithm DefaultMarketConfig) 0 (bOpenTime bar) marketState])
  end.
End WithRuntime.

(** ** Construction and snapshots *)

(** Periods are sorted: positive, and each different from the one before. *)
Fixpoint periods_valid (previous : option Z) (periods : list Z) : bool :=
  match periods with
  | [] => true
  | period :: rest =>
      negb ((period <=? 0) || match previous with Some q => period =? q | None => false end) &&
      periods_valid (Some period) rest
  end.

Definition NewLane (options : LaneOptions) : outcome LaneError Lane :=
  let key := loKey options in
  if (kDataset key =? "")%string || (kSymbol key =? "")%string || (kTimeframe key =? "")%string
  then Fail LaneKeyIncomplete
  else match TimeframeDuration (kTimeframe key) with
  | None => Fail LaneTimeframe
  | Some _ =>
    if len (loPeriods options) =? 0 then Fail LaneNoPeriods
    else if negb (loHasStore options) then Fail LaneNoStore
    else
      let mailboxSize := if loMailboxSize options <=? 0 then 256 else loMailboxSize options in
      let snapshotEvery := if loSnapshotEvery options =? 0 then 100 else loSnapshotEvery options in
      let periods := sort_ints (loPeriods options) in
      if negb (periods_valid None periods) then Fail LanePeriodsInvalid
      else
        reducers ← newReducers periods;
        market ← wrap_err LaneMarket (NewMarket DefaultMarketConfig marketHistoryLimit);
        Ok {| lKey := key; lPeriods := periods; lMailboxSize := mailboxSize;
              lSnapshotEvery := snapshotEvery; lPublisher := loPublisher options;
              lLivePublisher := loLivePublisher options;
              lOutboxDelivery := loOutboxDelivery options; lReducers := reducers;
              lMarket := market; lLastBar := None; lLastClosedRevision := 0; lClosedCount := 0;
              lProvisional := ∅; lFormingTime := None; lFormingBar := None; lFormingRevision := 0;
              lLastErr := None |}
  end.

(** The loop of [makeSeriesSnapshot]: readiness, indicators and provisional
    values after one period. *)
Definition snapshot_step (reducers : gmap Z EMA) (provisional : gmap Z float64)
    (lastClosedRevision formingRevision : Z)
    (acc : bool * list IndicatorState * list IndicatorState) (period : Z)
  : option (bool * list IndicatorState * list IndicatorState) :=
  let '(ready, indicators, projected) := acc in
  reducer ← reducers !! period;
  let state := indicator_state lastClosedRevision period reducer in
  Some (ready && isReady state, indicators ++ [state],
        match provisional !! period with
        | Some value =>
            projected ++ [mkIndicator (emaAlgorithm period) period (Some value)
                            (wrap_u64 (EMA_Samples reducer + 1)) true formingRevision]
        | None => projected
        end).

Definition makeSeriesSnapshot (key : SeriesKey) (periods : list Z) (reducers : gmap Z EMA)
    (market : Market) (lastBar : option Bar) (lastClosedRevision : Z) (formingBar : option Bar)
    (formingTime : option Z) (formingRevision : Z) (provisional : gmap Z float64)
  : option SeriesSnapshot :=
  '(ready, indicators, projected) ←
    loop (snapshot_step reducers provisional lastClosedRevision formingRevision) periods (true, [], []);
  Some {| ssSchema := "signal.snapshot.v1"; ssSeries := key;
          ssLastClosedTime := bOpenTime <$> lastBar; ssLastClosedBar := lastBar;
          ssLastClosedRevision := lastClosedRevision;
          ssFormingOpenTime := formingTime;
          ssFormingBar := match formingTime with Some _ => formingBar | None => None end;
          ssFormingRevision := formingRevision; ssReady := ready;
          ssIndicators := indicators; ssProvisional := projected;
          ssMarket := Some (Market_State market) |}.

Definition Lane_Snapshot (l : Lane) : option SeriesSnapshot :=
  makeSeriesSnapshot (lKey l) (lPeriods l) (lReducers l) (lMarket l) (lLastBar l)
    (lLastClosedRevision l) (lFormingBar l) (lFormingTime l) (lFormingRevision l) (lProvisional l).

(** ** Seeds against history *)

(** The scan of the seed: fingerprints by time and the first time seen, the
    zero time standing for none. *)
Definition seed_overlap (lastBar : Bar) (bars : list Bar) : gmap Z string * Z :=
  foldl (fun '(seed, seedFirst) bar =>
           if negb (bClosed bar) || (bOpenTime lastBar <? bOpenTime bar) then (seed, seedFirst)
           else (<[unix_nano (bOpenTime bar) := barFingerprint bar]> seed,
                 if (seedFirst =? zero_time) || (bOpenTime bar <? seedFirst)
                 then bOpenTime bar else seedFirst))
        (∅, zero_time) bars.

Section Conflicts.
Context `{Runtime}.

Definition seedConflictsWithHistory (l : Lane) (bars : list Bar) : bool :=
  let localBars := Market_Bars (lMarket l) in
  match lLastBar l, localBars with
  | None, _ | _, [] => false
  | Some lastBar, oldest :: _ =>
      let local := foldl (fun local bar =>
        <[unix_nano (bOpenTime bar) := barFingerprint bar]> local) (∅ : gmap Z string) localBars in
      let '(seed, seedFirst) := seed_overlap lastBar bars in
      if seedFirst =? zero_time then false
      else
        existsb (fun '(timestamp, fingerprint) =>
                   match local !! timestamp with
                   | Some existing => negb (existing =? fingerprint)%string
                   | None => unix_nano (bOpenTime oldest) <=? timestamp
                   end) (map_range seed) ||
        existsb (fun bar =>
                   negb ((bOpenTime bar <? seedFirst) || (bOpenTime lastBar <? bOpenTime bar)) &&
                   match seed !! unix_nano (bOpenTime bar) with Some _ => false | None => true end)
          localBars
  end.
End Conflicts.

(** ** The handlers' monad *)

(** A publication: through [publisher] or through [livePublisher]. *)
Inductive output :=
  | Published (event : SignalEvent)
  | LivePublished (event : SignalEvent).

Record World (S : Type) := mkWorld {
  wLane : Lane;
  wStore : S;
  wOut : list output
}.
Arguments mkWorld {S}.
Arguments wLane {S}.
Arguments wStore {S}.
Arguments wOut {S}.

Definition laneM (S A : Type) : Type := World S -> World S * outcome LaneError A.

#[global] Instance laneM_ret {S} : MRet (laneM S) := fun A a w => (w, Ok a).
#[global] Instance laneM_bind {S} : MBind (laneM S) := fun A B f m w =>
  match m w with
  | (w', Ok a) => f a w'
  | (w', Fail e) => (w', Fail e)
  | (w', Panic) => (w', Panic)
  end.

Definition get_lane {S} : laneM S Lane := fun w => (w, Ok (wLane w)).
Definition put_lane {S} (l : Lane) : laneM S unit := fun w => (mkWorld l (wStore w) (wOut w), Ok tt).
Definition fail {S A} (e : LaneError) : laneM S A := fun w => (w, Fail e).
Definition lift {S A} (m : outcome LaneError A) : laneM S A := fun w => (w, m).

(** [publisher.Publish(event)] and [livePublisher.Publish(event)] *)
Definition publish {S} (event : SignalEvent) : laneM S unit := fun w =>
  (mkWorld (wLane w) (wStore w) (wOut w ++ [Published event]), Ok tt).
Definition live_publish {S} (event : SignalEvent) : laneM S unit := fun w =>
  (mkWorld (wLane w) (wStore w) (wOut w ++ [LivePublished event]), Ok tt).

(** A call that changes the store. *)
Definition store_call {S A} (wrap : StoreError -> LaneError)
    (call : S -> S * outcome StoreError A) : laneM S A := fun w =>
  let '(s', r) := call (wStore w) in (mkWorld (wLane w) s' (wOut w), wrap_err wrap r).

Definition when {S} (b : bool) (m : laneM S unit) : laneM S unit := if b then m else mret tt.

(** [for _, a := range l { body }] *)
Fixpoint for_each {S A} (l : list A) (body : A -> laneM S unit) : laneM S unit :=
  match l with
  | [] => mret tt
  | a :: rest => body a ;; for_each rest body
  end.

Fixpoint fold_each {S B A} (body : B -> A -> laneM S B) (l : list A) (b : B) : laneM S B :=
  match l with
  | [] => mret b
  | a :: rest => b' ← body b a; fold_each body rest b'
  end.

(** [if err := m; err != nil { return handler }; return k] *)
Definition try_else {S A B} (m : laneM S A) (k : A -> laneM S B) (handler : laneM S B) : laneM S B :=
  fun w =>
  match m w with
  | (w', Ok a) => k a w'
  | (w', Fail _) => handler w'
  | (w', Panic) => (w', Panic)
  end.

(** ** Rebuilding from a seed *)

Record rebuildState := mkRebuild {
  rbReducers : gmap Z EMA;
  rbMarket : Market;
  rbLastBar : option Bar;
  rbClosedCount : Z;
  rbPoints : list SignalEvent
}.

Section Handlers.
Context `{Runtime}.

Definition rebuild_step (key : SeriesKey) (st : rebuildState) (bar : Bar)
  : outcome LaneError rebuildState :=
  if negb (bClosed bar) then Ok st
  else
    validateBar key bar;;
    let stale := match rbLastBar st with
                 | Some lastBar => negb (bOpenTime lastBar <? bOpenTime bar)
                 | None => false
                 end in
    if (stale : bool) then
      if match rbLastBar st with
         | Some lastBar => (bOpenTime bar =? bOpenTime lastBar) &&
                           (barFingerprint bar =? barFingerprint lastBar)%string
         | None => false
         end
      then Ok st
      else Fail LaneSeedOutOfOrder
    else
      '(reducers, events) ← reduceEMAClosed key (rbReducers st) bar (revisionForBar bar);
      '(market, _) ← lift_panic (Market_OnClosed (rbMarket st) bar);
      Ok (mkRebuild reducers market (Some bar) (wrap_u64 (rbClosedCount st + 1))
            (rbPoints st ++ events)).

(** The reset flavour of the market event: the confirmed history before the
    last bar, and an id of its own. *)
Definition reset_event (event : SignalEvent) (lastBar : Bar) (bars : list Bar)
  : option SignalEvent :=
  let confirmed := List.filter
    (fun candidate => bClosed candidate && (bOpenTime candidate <? bOpenTime lastBar)) bars in
  confirmed ← keep_last marketHistoryLimit confirmed;
  Some {| evSchema := evSchema event; evCursor := evCursor event;
          evEventID := sha256_hex (evEventID event +:+
            String (Ascii.ascii_of_nat 0) "authoritative-reset");
          evEventType := evEventType event; evDataset := evDataset event;
          evSymbol := evSymbol event; evTimeframe := evTimeframe event;
          evBarOpenTime := evBarOpenTime event; evSourceBar := evSourceBar event;
          evBarRevision := evBarRevision event; evAnalysisRevision := evAnalysisRevision event;
          evProvisional := evProvisional event; evReset := true; evResetHistory := confirmed;
          evAlgorithm := evAlgorithm event; evIndicator := evIndicator event;
          evMarket := evMarket event; evIndicators := evIndicators event |}.

(** Everything [rebuildSeed] computes before it calls the store: the state
    after the loop, the events and the snapshots. *)
Definition rebuild_plan (key : SeriesKey) (periods : list Z) (bars : list Bar) (publishReset : bool)
  : outcome LaneError (rebuildState * list SignalEvent * list ReducerSnapshot) :=
  reducers ← newReducers periods;
  market ← wrap_err LaneMarket (NewMarket DefaultMarketConfig marketHistoryLimit);
  st ← oloop (rebuild_step key) bars (mkRebuild reducers market None 0 []);
  points ← match rbLastBar st with
           | None => Ok (rbPoints st)
           | Some lastBar =>
               event ← lift_panic (newMarketEvent key lastBar (Market_State (rbMarket st))
                                     (revisionForBar lastBar) (rbReducers st));
               event ← (if publishReset then lift_panic (reset_event event lastBar bars) else Ok event);
               Ok (rbPoints st ++ [event])
           end;
  snapshots ← reducerSnapshots (rbReducers st) (rbMarket st) (rbLastBar st);
  Ok (st, points, snapshots).

Context {S : Type} `{Store S}.

Definition rebuildSeed (bars : list Bar) (publishReset : bool) : laneM S unit :=
  l ← get_lane;
  '(st, points, snapshots) ← lift (rebuild_plan (lKey l) (lPeriods l) bars publishReset);
  committed ← store_call LaneRebuild
    (fun s => RebuildSeries s (lKey l) points snapshots (rbLastBar st));
  when (lLivePublisher l) (for_each committed live_publish);;
  l ← get_lane;
  put_lane (set_canonical l (rbReducers st) (rbMarket st) (rbLastBar st)
    (match rbLastBar st with Some bar => revisionForBar bar | None => lLastClosedRevision l end)
    (rbClosedCount st)).

(** ** Closed bars *)

(** The tests of a closed bar against the cursor: [true] for the bar that was
    applied last, an error for any other bar that does not follow the cursor. *)
Definition closed_guard (l : Lane) (bar : Bar) : outcome LaneError bool :=
  match lLastBar l with
  | Some lastBar =>
      if negb (bOpenTime lastBar <? bOpenTime bar) then
        if (bOpenTime bar =? bOpenTime lastBar) &&
           (barFingerprint bar =? barFingerprint lastBar)%string
        then Ok true else Fail LaneBarOlder
      else match TimeframeDuration (kTimeframe (lKey l)) with
           | None => Fail LaneTimeframe
           | Some step =>
               if negb (bOpenTime bar =? bOpenTime lastBar + step) then Fail LaneBarGap else Ok false
           end
  | None => Ok false
  end.

(** Everything [applyClosed] computes before it calls the store; [None] is
    the return for a bar already applied. *)
Definition closed_plan (l : Lane) (bar : Bar)
  : outcome LaneError (option (gmap Z EMA * Market * Z * list SignalEvent * list ReducerSnapshot)) :=
  if negb (bClosed bar) then Fail LaneClosedInputOpen
  else
    validateBar (lKey l) bar;;
    reducers ← cloneReducers (lPeriods l) (lReducers l);
    market ← wrap_err LaneMarket (Market_Clone (lMarket l));
    duplicate ← closed_guard l bar;
    if (duplicate : bool) then Ok None
    else
      let revision := revisionForBar bar in
      '(reducers, events) ← reduceEMAClosed (lKey l) reducers bar revision;
      '(market, marketState) ← lift_panic (Market_OnClosed market bar);
      event ← lift_panic (newMarketEvent (lKey l) bar marketState revision reducers);
      let events := events ++ [event] in
      let closedCount := wrap_u64 (lClosedCount l + 1) in
      snapshots ← (if closedCount `mod` lSnapshotEvery l =? 0
                   then reducerSnapshots reducers market (Some bar) else Ok []);
      Ok (Some (reducers, market, closedCount, events, snapshots)).

(** Cloning both reducers, each with its own error, happens under the lock;
    the first error is the one returned. *)
Definition applyClosed (bar : Bar) : laneM S unit :=
  l ← get_lane;
  plan ← lift (closed_plan l bar);
  match plan with
  | None => mret tt
  | Some (reducers, market, closedCount, events, snapshots) =>
      committed ← store_call LaneCommit (fun s => CommitClosed s (lKey l) bar events snapshots);
      when (lLivePublisher l)
        (for_each committed (fun event =>
           when (evEventType event =? "market.state")%string (live_publish event)));;
      l ← get_lane;
      put_lane (set_canonical l reducers market (Some bar) (revisionForBar bar) closedCount);;
      when (lPublisher l && negb (lOutboxDelivery l))
        (for_each committed publish;;
         store_call LaneMark (fun s => MarkPublished s (map evCursor committed)))
  end.
End Handlers.

(** ** Forming bars *)

Section Forming.
Context `{Runtime} {S : Type}.

(** One period: the provisional value and its publication. *)
Definition forming_period (l : Lane) (reducers : gmap Z EMA) (bar : Bar) (revision : Z)
    (provisional : gmap Z float64) (period : Z) : laneM S (gmap Z float64) :=
  reducer ← lift (lift_panic (reducers !! period));
  '(value, ready) ← lift (wrap_err LaneEMA (EMA_Project reducer (bClose bar)));
  if negb (ready : bool) then mret provisional
  else
    when (lPublisher l)
      (publish (newEMAEvent (lKey l) bar period (wrap_u64 (EMA_Samples reducer + 1)) value true revision));;
    mret (<[period := value]> provisional).

(** The loop over [event.Indicators]. *)
Definition provisional_indicator (provisional : gmap Z float64) (i : IndicatorState)
  : IndicatorState :=
  mkIndicator (isAlgorithm i) (isPeriod i) (provisional !! isPeriod i) (wrap_u64 (isSamples i + 1))
    (bool_decide (is_Some (provisional !! isPeriod i))) (isAnalysisRevision i).

Definition provisional_event (event : SignalEvent) (provisional : gmap Z float64) : SignalEvent :=
  {| evSchema := evSchema event; evCursor := evCursor event; evEventID := evEventID event;
     evEventType := evEventType event; evDataset := evDataset event;
     evSymbol := evSymbol event; evTimeframe := evTimeframe event;
     evBarOpenTime := evBarOpenTime event; evSourceBar := evSourceBar event;
     evBarRevision := evBarRevision event; evAnalysisRevision := evAnalysisRevision event;
     evProvisional := true; evReset := evReset event; evResetHistory := evResetHistory event;
     evAlgorithm := evAlgorithm event; evIndicator := evIndicator event;
     evMarket := evMarket event;
     evIndicators := map (provisional_indicator provisional) (evIndicators event) |}.

Definition applyForming (bar : Bar) : laneM S unit :=
  if bClosed bar then fail LaneFormingInputClosed
  else
    l ← get_lane;
    lift (validateBar (lKey l) bar);;
    reducers ← lift (cloneReducers (lPeriods l) (lReducers l));
    let marketState := Market_State (lMarket l) in
    if match lLastBar l with Some lastBar => bOpenTime bar <? bOpenTime lastBar | None => false end
    then mret tt
    else
      let revision := revisionForBar bar in
      provisional ← fold_each (forming_period l reducers bar revision) (lPeriods l) ∅;
      when (lLivePublisher l)
        (event ← lift (lift_panic (newMarketEvent (lKey l) bar (set_occurrences marketState [] [])
                                     revision reducers));
         live_publish (provisional_event event provisional));;
      l ← get_lane;
      put_lane (set_forming l provisional (Some (bOpenTime bar)) (Some bar) revision).
End Forming.

(** ** Recovery *)

(** The loop over the saved snapshots: reducers restored in place, snapshots
    by period, and the last market snapshot. *)
Record restoreState := mkRestore {
  rtReducers : gmap Z EMA;
  rtByPeriod : gmap Z ReducerSnapshot;
  rtMarket : option ReducerSnapshot
}.

Definition restore_snapshot (st : restoreState) (snapshot : ReducerSnapshot)
  : outcome LaneError restoreState :=
  if (rsPeriod snapshot =? 0) && bool_decide (rsAlgorithm snapshot = MarketAlgorithm DefaultMarketConfig)
  then Ok (mkRestore (rtReducers st) (rtByPeriod st) (Some snapshot))
  else match rtReducers st !! rsPeriod snapshot with
  | None => Ok st
  | Some expected =>
      if negb (bool_decide (rsAlgorithm snapshot = emaAlgorithm (rsPeriod snapshot))) then Ok st
      else match rtByPeriod st !! rsPeriod snapshot with
      | Some _ => Fail LaneDuplicateSnapshot
      | None =>
          restored ← wrap_err LaneEMA (EMA_Restore expected (rsState snapshot));
          Ok (mkRestore (<[rsPeriod snapshot := restored]> (rtReducers st))
                (<[rsPeriod snapshot := snapshot]> (rtByPeriod st)) (rtMarket st))
      end
  end.

(** [byPeriod[period].LastOpenTime], of the zero value when absent. *)
Definition last_open (st : restoreState) (period : Z) : Z :=
  match rtByPeriod st !! period with Some snapshot => rsLastOpenTime snapshot | None => zero_time end.

(** The test of one of the other periods against the checkpoint of the first. *)
Definition same_checkpoint (st : restoreState) (snapshotTime closedCount : Z) (_ : unit) (period : Z)
  : outcome LaneError unit :=
  if negb (last_open st period =? snapshotTime) then Fail LaneSnapshotsDisagree
  else
    reducer ← lift_panic (rtReducers st !! period);
    if negb (EMA_Samples reducer =? closedCount) then Fail LaneSnapshotsDisagree else Ok tt.

(** The loop over the seed. *)
Record replayState := mkReplay {
  rpReducers : gmap Z EMA;
  rpLastBar : option Bar;
  rpClosedCount : Z;
  rpFoundSnapshot : bool;
  rpFoundCursor : bool;
  rpMarketBars : list Bar
}.

Section Recovery.
Context `{Runtime}.

Definition replay_step (key : SeriesKey) (snapshotTime : Z) (recovery : SeriesRecovery)
    (st : replayState) (bar : Bar) : outcome LaneError replayState :=
  let marketBars := if bClosed bar && negb (srCursorOpenTime recovery <? bOpenTime bar)
                    then rpMarketBars st ++ [bar] else rpMarketBars st in
  if negb (bClosed bar) || (bOpenTime bar <? snapshotTime)
  then Ok (mkReplay (rpReducers st) (rpLastBar st) (rpClosedCount st) (rpFoundSnapshot st)
             (rpFoundCursor st) marketBars)
  else
    validateBar key bar;;
    st ← (if bOpenTime bar =? snapshotTime
          then Ok (mkReplay (rpReducers st) (Some bar) (rpClosedCount st) true
                     (rpFoundCursor st) marketBars)
          else if (bOpenTime bar <? srCursorOpenTime recovery) ||
                  (bOpenTime bar =? srCursorOpenTime recovery)
          then if negb (rpFoundSnapshot st) then Fail LaneSeedMissesSnapshot
               else
                 '(reducers, _) ← reduceEMAClosed key (rpReducers st) bar (revisionForBar bar);
                 Ok (mkReplay reducers (Some bar) (wrap_u64 (rpClosedCount st + 1))
                       (rpFoundSnapshot st) (rpFoundCursor st) marketBars)
          else Ok (mkReplay (rpReducers st) (rpLastBar st) (rpClosedCount st)
                     (rpFoundSnapshot st) (rpFoundCursor st) marketBars));
    if bOpenTime bar =? srCursorOpenTime recovery
    then if negb (barFingerprint bar =? srCursorHash recovery)%string then Fail LaneCursorConflict
         else Ok (mkReplay (rpReducers st) (rpLastBar st) (rpClosedCount st)
                    (rpFoundSnapshot st) true (rpMarketBars st))
    else Ok st.

(** The market reducer after the loop. *)
Definition restore_market (recovery : SeriesRecovery) (market : Market)
    (marketSnapshot : option ReducerSnapshot) (marketBars : list Bar) : outcome LaneError Market :=
  match marketSnapshot with
  | None => lift_panic (fst <$> Market_Seed market marketBars)
  | Some snapshot =>
      if srCursorOpenTime recovery <? rsLastOpenTime snapshot then Fail LaneMarketSnapshotNewer
      else
        market ← wrap_err LaneMarket (Market_Restore market (rsState snapshot));
        oloop (fun market bar =>
                 if rsLastOpenTime snapshot <? bOpenTime bar
                 then lift_panic (fst <$> Market_OnClosed market bar) else Ok market)
          marketBars market
  end.

(** Everything [restoreRecoverySeed] computes before it assigns the lane. *)
Definition restore_plan (key : SeriesKey) (periods : list Z) (recovery : SeriesRecovery)
    (bars : list Bar) : outcome LaneError (gmap Z EMA * Market * Bar * Z) :=
  reducers ← newReducers periods;
  market ← wrap_err LaneMarket (NewMarket DefaultMarketConfig marketHistoryLimit);
  st ← oloop restore_snapshot (srSnapshots recovery) (mkRestore reducers ∅ None);
  if negb (Z.of_nat (size (rtByPeriod st)) =? len periods) then Fail LaneSnapshotsIncomplete
  else
    first ← lift_panic (idx periods 0);
    let snapshotTime := last_open st first in
    reducer ← lift_panic (rtReducers st !! first);
    let closedCount := EMA_Samples reducer in
    if srCursorOpenTime recovery <? snapshotTime then Fail LaneSnapshotNewer
    else
      oloop (same_checkpoint st snapshotTime closedCount) (drop 1 periods) tt;;
      rp ← oloop (replay_step key snapshotTime recovery) bars
             (mkReplay (rtReducers st) None closedCount false false []);
      match rpLastBar rp with
      | Some lastBar =>
          if negb (rpFoundSnapshot rp) || negb (rpFoundCursor rp) then Fail LaneSeedMissesRange
          else
            market ← restore_market recovery market (rtMarket st) (rpMarketBars rp);
            Ok (rpReducers rp, market, lastBar, rpClosedCount rp)
      | None => Fail LaneSeedMissesRange
      end.

Context {S : Type} `{Store S}.

Definition restoreRecoverySeed (recovery : SeriesRecovery) (bars : list Bar) : laneM S unit :=
  l ← get_lane;
  '(reducers, market, lastBar, closedCount) ←
    lift (restore_plan (lKey l) (lPeriods l) recovery bars);
  put_lane (set_canonical l reducers market (Some lastBar) (revisionForBar lastBar) closedCount).

(** ** Seeds *)

Definition applyCatchUpSeed (bars : list Bar) : laneM S unit :=
  for_each bars (fun bar =>
    if negb (bClosed bar) then mret tt
    else
      l ← get_lane;
      match lLastBar l with
      | Some lastBar =>
          if negb (bOpenTime lastBar <? bOpenTime bar) then
            if (bOpenTime bar =? bOpenTime lastBar) &&
               negb (barFingerprint bar =? barFingerprint lastBar)%string
            then fail LaneSeedConflict else mret tt
          else applyClosed bar
      | None => applyClosed bar
      end).

Definition load_recovery (key : SeriesKey) : laneM S SeriesRecovery := fun w =>
  (w, wrap_err LaneLoad (LoadRecovery (wStore w) key)).

Definition sort_seed (bars : list Bar) : list Bar :=
  sort_stable (fun a b => bOpenTime a <? bOpenTime b) bars.

Definition applySeed (bars : list Bar) : laneM S unit :=
  let bars := sort_seed bars in
  l ← get_lane;
  match lLastBar l with
  | Some _ =>
      if seedConflictsWithHistory l bars then rebuildSeed bars true
      else try_else (applyCatchUpSeed bars) mret (rebuildSeed bars true)
  | None =>
      recovery ← load_recovery (lKey l);
      if srHasCursor recovery then
        try_else (restoreRecoverySeed recovery bars) (fun _ => applyCatchUpSeed bars)
          (rebuildSeed bars true)
      else rebuildSeed bars false
  end.

(** ** Commands *)

Inductive command :=
  | CommandSeed (bars : list Bar)
  | CommandClosed (bar : Bar)
  | CommandForming (bar : Bar).

(** [Seed], [Closed] and [Forming]: the command each submits.  The bars of a
    seed are copied, so that sorting them does not reach the caller's. *)
Definition Lane_Seed (bars : list Bar) : command := CommandSeed bars.
Definition Lane_Closed (bar : Bar) : command := CommandClosed bar.
Definition Lane_Forming (bar : Bar) : command := CommandForming bar.

Definition Lane_LastError (l : Lane) : option LaneError := lLastErr l.

(** One turn of the loop of [Run]: the handler, [lastErr], and the error
    sent back on [done]. *)
Definition run_command (cmd : command) : laneM S (option LaneError) := fun w =>
  let '(w', r) := match cmd with
                  | CommandSeed bars => applySeed bars w
                  | CommandClosed bar => applyClosed bar w
                  | CommandForming bar => applyForming bar w
                  end in
  match r with
  | Panic => (w', Panic)
  | Ok _ => (mkWorld (set_last_err (wLane w') None) (wStore w') (wOut w'), Ok None)
  | Fail e => (mkWorld (set_last_err (wLane w') (Some e)) (wStore w') (wOut w'), Ok (Some e))
  end.
End Recovery.
