(* ===== verification/LaneReducers.v ===== *)
(** * The reducer set of a lane

    The map of EMA reducers, described by a function from periods to reducers,
    and what the helpers of lane.go that walk it compute. *)

From stdpp Require Import prelude gmap strings list sorting.
From Stdlib Require Import ZArith Lia SpecFloat String.
From S2P Require Import Prelude GoFloat GoText Sha256 Model Ema MarketZones MarketStructure.
From S2P Require Import MarketReducer StoreSpec Lane.

#[local] Open Scope string_scope.
#[local] Open Scope list_scope.
#[local] Open Scope Z_scope.

#[local] Opaque sha256_hex.

(** ** Outcomes *)

Lemma obind_Ok {E A B} (f : A -> outcome E B) (m : outcome E A) b :
  m ≫= f = Ok b <-> exists a, m = Ok a /\ f a = Ok b.
Proof. destruct m; cbn; naive_solver. Qed.

Lemma obind_Fail {E A B} (f : A -> outcome E B) (m : outcome E A) e :
  m ≫= f = Fail e <-> m = Fail e \/ exists a, m = Ok a /\ f a = Fail e.
Proof. destruct m; cbn; naive_solver. Qed.

Lemma obind_panic {E A B} (f : A -> outcome E B) (m : outcome E A) :
  is_panic m = false -> (forall a, m = Ok a -> is_panic (f a) = false) -> is_panic (m ≫= f) = false.
Proof. destruct m; cbn; auto. Qed.

Lemma wrap_err_Ok {E F A} (f : E -> F) (m : outcome E A) a : wrap_err f m = Ok a <-> m = Ok a.
Proof. destruct m; cbn; naive_solver. Qed.

Lemma wrap_err_panic {E F A} (f : E -> F) (m : outcome E A) : is_panic (wrap_err f m) = is_panic m.
Proof. by destruct m. Qed.

Lemma oloop_app {E S A} (body : S -> A -> outcome E S) l k s :
  oloop body (l ++ k) s = oloop body l s ≫= oloop body k.
Proof.
  revert s. induction l as [|a l IH]; intros s; cbn; [done|]. destruct (body s a); cbn; [apply IH|done..].
Qed.

(** A loop that cannot fail within an invariant. *)
Lemma oloop_Ok {E S A} (P : S -> Prop) (body : S -> A -> outcome E S) l s :
  P s -> (forall s a, a ∈ l -> P s -> exists s', body s a = Ok s' /\ P s') ->
  exists s', oloop body l s = Ok s' /\ P s'.
Proof.
  revert s. induction l as [|a l IH]; intros s Hs Hb; [by exists s|]. cbn.
  destruct (Hb s a) as (s' & -> & Hs'); [by left|done|]. cbn.
  apply IH; [done|]. intros; apply Hb; [by right|done].
Qed.

(** A loop whose body keeps an invariant and does not panic within it. *)
Lemma oloop_elim {E S A} (P : S -> Prop) (body : S -> A -> outcome E S) l s s' :
  P s -> (forall s a s', a ∈ l -> P s -> body s a = Ok s' -> P s') -> oloop body l s = Ok s' -> P s'.
Proof.
  revert s. induction l as [|a l IH]; intros s Hs Hb; cbn; [by intros [= <-]|].
  intros (s1 & H1 & H2)%obind_Ok. eapply IH; [|intros; eapply Hb; [by right|done..]|exact H2].
  eapply Hb; [by left|done..].
Qed.

Lemma oloop_inv {E S A} (P : S -> Prop) (body : S -> A -> outcome E S) l s :
  P s -> (forall s a, a ∈ l -> P s -> is_panic (body s a) = false /\ forall s', body s a = Ok s' -> P s') ->
  is_panic (oloop body l s) = false /\ forall s', oloop body l s = Ok s' -> P s'.
Proof.
  revert s. induction l as [|a l IH]; intros s Hs Hb; [by split; [|intros ? [= <-]]|]. cbn.
  destruct (Hb s a) as [Hp Ho]; [by left|done|]. destruct (body s a) as [s'|e|]; cbn; [|done..].
  apply IH; [by apply Ho|]. intros; apply Hb; [by right|done].
Qed.

(** ** Reducer sets *)

Definition reducers_of (f : Z -> EMA) (periods : list Z) : gmap Z EMA :=
  list_to_map (map (fun p => (p, f p)) periods).

(** The periods of a lane: sorted, distinct, and each a period a reducer can
    be built with. *)
Record periods_ok (periods : list Z) : Prop := {
  pk_sorted : StronglySorted Z.lt periods;
  pk_valid : Forall valid_period periods;
  pk_nonempty : periods <> []
}.

Lemma lookup_reducers_of f periods p :
  reducers_of f periods !! p = if decide (p ∈ periods) then Some (f p) else None.
Proof.
  unfold reducers_of. induction periods as [|q periods IH]; [done|].
  cbn [map]. rewrite list_to_map_cons. destruct (decide (q = p)) as [->|Hne].
  - rewrite lookup_insert_eq. destruct (decide (p ∈ p :: periods)); set_solver.
  - rewrite lookup_insert_ne, IH by done. destruct (decide (p ∈ periods)), (decide (p ∈ q :: periods)); set_solver.
Qed.

Lemma lookup_reducers_of_Some f periods p : p ∈ periods -> reducers_of f periods !! p = Some (f p).
Proof. intros. rewrite lookup_reducers_of. by destruct (decide _). Qed.

Lemma reducers_of_ext f g periods :
  (forall p, p ∈ periods -> f p = g p) -> reducers_of f periods = reducers_of g periods.
Proof.
  intros Hfg. apply map_eq. intros p. rewrite !lookup_reducers_of.
  destruct (decide _); [|done]. by rewrite Hfg.
Qed.

(** Updating one of the entries. *)
Lemma insert_reducers_of f periods p e :
  p ∈ periods -> <[p := e]> (reducers_of f periods) = reducers_of (fun q => if decide (q = p) then e else f q) periods.
Proof.
  intros Hp. apply map_eq. intros q. rewrite lookup_reducers_of.
  destruct (decide (q = p)) as [->|].
  - rewrite lookup_insert_eq. by destruct (decide _).
  - by rewrite lookup_insert_ne, lookup_reducers_of by done.
Qed.

(** A loop over a set of entries that replaces each of them, reading only the
    entry itself, replaces them all. *)
Lemma oloop_reducers {E B} (body : gmap Z EMA * B -> Z -> outcome E (gmap Z EMA * B))
    (f g : Z -> EMA) (out : Z -> B -> B) periods b :
  NoDup periods ->
  (forall h p b, p ∈ periods -> h p = f p ->
     body (reducers_of h periods, b) p = Ok (<[p := g p]> (reducers_of h periods), out p b)) ->
  oloop body periods (reducers_of f periods, b) =
    Ok (reducers_of g periods, foldl (fun b p => out p b) b periods).
Proof.
  intros Hnd Hbody.
  enough (Hgen : forall seen todo h b, periods = seen ++ todo ->
    (forall p, p ∈ seen -> h p = g p) -> (forall p, p ∈ todo -> h p = f p) ->
    oloop body todo (reducers_of h periods, b) =
      Ok (reducers_of g periods, foldl (fun b p => out p b) b todo)).
  { by apply (Hgen [] periods f b eq_refl); [set_solver|]. }
  clear b. intros seen todo. revert seen. induction todo as [|p todo IH]; intros seen h b Heq Hd Ht; cbn.
  - rewrite app_nil_r in Heq. subst. f_equal. f_equal. by apply reducers_of_ext.
  - rewrite Hbody; [|rewrite Heq; set_solver|apply Ht; by left]. cbn.
    rewrite insert_reducers_of by (rewrite Heq; set_solver).
    assert (Hnp : p ∉ seen ++ todo).
    { rewrite Heq in Hnd. by apply NoDup_app in Hnd as (? & ? & [? ?]%NoDup_cons); set_solver. }
    apply (IH (seen ++ [p])).
    + by rewrite <-app_assoc.
    + intros q [Hq| ->%list_elem_of_singleton]%elem_of_app; [|by destruct (decide _)].
      destruct (decide (q = p)) as [->|]; [done|auto].
    + intros q Hq. destruct (decide (q = p)) as [->|]; [set_solver|]. apply Ht. by right.
Qed.

Lemma sorted_lt_NoDup (l : list Z) : StronglySorted Z.lt l -> NoDup l.
Proof.
  induction 1 as [|x l Hs IH Hx]; constructor; [|done]. rewrite Forall_forall in Hx.
  intros Hin%Hx. lia.
Qed.

Lemma periods_NoDup periods : periods_ok periods -> NoDup periods.
Proof. intros []. by apply sorted_lt_NoDup. Qed.

Lemma sorted_lt_sorted_by (l : list Z) : StronglySorted Z.lt l -> sorted_by Z.ltb l.
Proof.
  unfold sorted_by. induction 1 as [|x l Hs IH Hx]; constructor; [done|].
  eapply Forall_impl; [exact Hx|]. cbn. lia.
Qed.

Lemma reducer_periods_of `{Runtime} f periods :
  StronglySorted Z.lt periods -> reducer_periods (reducers_of f periods) = periods.
Proof.
  intros Hs. unfold reducer_periods.
  rewrite <-(sort_stable_id Z.ltb periods) at 2 by (by apply sorted_lt_sorted_by).
  apply sort_ints_perm_eq. rewrite map_range_perm. unfold reducers_of.
  assert (Hkeys : map fst (map (fun p => (p, f p)) periods) = periods)
    by (rewrite map_map; cbn; apply map_id).
  rewrite map_to_list_to_map; [by rewrite Hkeys|].
  assert (Hf : (map (fun p => (p, f p)) periods).*1 = periods) by exact Hkeys.
  rewrite Hf. by apply sorted_lt_NoDup.
Qed.

(** ** The helpers of lane.go on a reducer set *)

Lemma NewEMA_ok p : valid_period p -> NewEMA p = Ok (new_ema p).
Proof. intros []. unfold NewEMA. by rewrite (proj2 (Z.ltb_ge p 1)) by lia. Qed.

Lemma newReducers_of periods :
  Forall valid_period periods -> newReducers periods = Ok (reducers_of new_ema periods).
Proof.
  unfold newReducers. intros Hv.
  assert (Hgen : forall seen, oloop (fun reducers period =>
      reducer ← wrap_err LaneEMA (NewEMA period); Ok (<[period := reducer]> reducers))
      periods (reducers_of new_ema seen) = Ok (reducers_of new_ema (rev periods ++ seen))).
  { induction Hv as [|p periods Hp Hv IH]; intros seen; [done|]. cbn [oloop].
    rewrite (NewEMA_ok p Hp). cbn [wrap_err mbind outcome_bind].
    replace (<[p := new_ema p]> (reducers_of new_ema seen)) with (reducers_of new_ema (p :: seen)) by done.
    rewrite IH. cbn [rev]. by rewrite <-app_assoc. }
  etrans; [exact (Hgen [])|]. f_equal. apply map_eq. intros p. rewrite !lookup_reducers_of, app_nil_r.
  destruct (decide (p ∈ periods)), (decide (p ∈ rev periods)) as [Hr|Hr]; try done;
    rewrite list_elem_of_In, <-in_rev, <-list_elem_of_In in Hr; done.
Qed.

(** What JSON can carry of a reducer. *)
Definition ema_encodable (e : EMA) : Prop :=
  is_finite (emaSeedSum e) = true /\ is_finite (emaValue e) = true.

Lemma EMA_Snapshot_total e : ema_encodable e -> exists j, EMA_Snapshot e = Ok j.
Proof.
  intros [H1 H2]. pose proof (EMA_Snapshot_ok e) as Ho. rewrite H1, H2 in Ho.
  destruct (EMA_Snapshot e); [eauto|done..].
Qed.

Lemma EMA_Snapshot_no_panic e : is_panic (EMA_Snapshot e) = false.
Proof. unfold EMA_Snapshot. by destruct (marshal_EMASnapshot _). Qed.

Lemma EMA_Restore_no_panic e j : is_panic (EMA_Restore e j) = false.
Proof. unfold EMA_Restore. by repeat case_match. Qed.

(** A set of well-formed reducers, each under its period. *)
Definition reducers_wf (f : Z -> EMA) (periods : list Z) : Prop :=
  forall p, p ∈ periods -> ema_wf (f p) /\ emaPeriod (f p) = p.

(** A clone is the original: serialising loses nothing. *)
Lemma cloneReducers_of f periods :
  periods_ok periods -> reducers_wf f periods ->
  (forall p, p ∈ periods -> ema_encodable (f p)) ->
  cloneReducers periods (reducers_of f periods) = Ok (reducers_of f periods).
Proof.
  intros Hp Hwf He. unfold cloneReducers. rewrite newReducers_of by apply Hp. cbn [mbind outcome_bind].
  set (body := fun cloned period => _).
  assert (Hpair : forall l m, oloop (fun '(m, u) p => m' ← body m p; Ok (m', u)) l (m, tt) =
                            m' ← oloop body l m; Ok (m', tt)).
  { induction l as [|p l IH]; intros m; cbn; [done|]. destruct (body m p); cbn; [apply IH|done..]. }
  assert (Hloop : oloop (fun '(m, u) p => m' ← body m p; Ok (m', u)) periods
                    (reducers_of new_ema periods, tt) = Ok (reducers_of f periods, tt)).
  { rewrite (oloop_reducers _ new_ema f (fun _ u => u) periods tt (periods_NoDup _ Hp)).
    - do 2 f_equal. by destruct (foldl _ _ _).
    - intros h p [] Hin Hh. cbn. unfold body. rewrite !lookup_reducers_of_Some by done.
      cbn [lift_panic mbind outcome_bind].
      destruct (EMA_Snapshot_total (f p) (He p Hin)) as [j Hj]. rewrite Hj. cbn [wrap_err mbind outcome_bind].
      destruct (Hwf p Hin) as [Hw Hper]. rewrite (EMA_Restore_Snapshot (f p) j) by (rewrite ?Hh; done). done. }
  rewrite Hpair in Hloop.
  apply obind_Ok in Hloop as (m & -> & [= ->]). done.
Qed.

Lemma cloneReducers_inv f periods cloned :
  periods_ok periods -> reducers_wf f periods ->
  cloneReducers periods (reducers_of f periods) = Ok cloned ->
  cloned = reducers_of f periods /\ forall p, p ∈ periods -> ema_encodable (f p).
Proof.
  intros Hp Hwf Hc. enough (He : forall p, p ∈ periods -> ema_encodable (f p)).
  { rewrite cloneReducers_of in Hc by done. by simplify_eq. }
  intros p Hin. unfold cloneReducers in Hc. rewrite newReducers_of in Hc by apply Hp.
  cbn [mbind outcome_bind] in Hc. revert Hc. generalize (reducers_of new_ema periods) as m.
  assert (Hgen : forall l m, (forall q, q ∈ l -> q ∈ periods) -> p ∈ l ->
    oloop (fun cloned period =>
           original ← lift_panic (reducers_of f periods !! period);
           state ← wrap_err LaneEMA (EMA_Snapshot original);
           fresh ← lift_panic (cloned !! period);
           restored ← wrap_err LaneEMA (EMA_Restore fresh state);
           Ok (<[period := restored]> cloned)) l m = Ok cloned -> ema_encodable (f p)); [|eauto].
  induction l as [|q l IH]; intros m Hl Hpl; [by apply not_elem_of_nil in Hpl|]. cbn [oloop].
  intros (m' & Hq & Hrest)%obind_Ok. apply elem_of_cons in Hpl as [->|Hpl].
  - rewrite lookup_reducers_of_Some in Hq by (apply Hl; by left). cbn [lift_panic mbind outcome_bind] in Hq.
    apply obind_Ok in Hq as (j & Hj%wrap_err_Ok & _).
    pose proof (EMA_Snapshot_ok (f q)) as Ho. rewrite Hj in Ho. cbn in Ho.
    by symmetry in Ho; apply andb_true_iff in Ho.
  - eapply IH; [|done..]. intros r Hr. apply Hl. by right.
Qed.

(** One closed bar through every reducer. *)
Definition closed_reducers (f : Z -> EMA) (close : float64) (p : Z) : EMA := fst (EMA_OnClosed (f p) close).

(** The event of one period, if its reducer is ready after the bar. *)
Definition period_events (key : SeriesKey) (f : Z -> EMA) (bar : Bar) (revision p : Z)
  : list SignalEvent :=
  match snd (EMA_OnClosed (f p) (bClose bar)) with
  | Ok (value, true) =>
      [newEMAEvent key bar p (EMA_Samples (closed_reducers f (bClose bar) p)) value false revision]
  | _ => []
  end.

Lemma EMA_OnClosed_ok e c : is_finite c = true -> exists r, snd (EMA_OnClosed e c) = Ok r.
Proof.
  intros Hc. unfold EMA_OnClosed. assert (is_nan c || is_inf c = false) as -> by (by destruct c).
  destruct (_ <=? _); [destruct (_ =? _)|]; cbn; eauto.
Qed.

Section Reduce.
Context `{Runtime}.

Lemma foldl_flat_map {A B} (g : A -> list B) l acc :
  foldl (fun out a => out ++ g a) acc l = acc ++ flat_map g l.
Proof.
  revert acc. induction l as [|a l IH]; intros acc; cbn; [by rewrite app_nil_r|]. by rewrite IH, <-app_assoc.
Qed.

Lemma reduceEMAClosed_of key f periods bar revision :
  StronglySorted Z.lt periods -> is_finite (bClose bar) = true ->
  reduceEMAClosed key (reducers_of f periods) bar revision =
    Ok (reducers_of (closed_reducers f (bClose bar)) periods,
        flat_map (period_events key f bar revision) periods).
Proof.
  intros Hs Hc. unfold reduceEMAClosed. rewrite reducer_periods_of by done.
  rewrite (oloop_reducers _ f (closed_reducers f (bClose bar))
    (fun p events => events ++ period_events key f bar revision p)).
  - by rewrite foldl_flat_map.
  - by apply sorted_lt_NoDup.
  - intros h p events Hp Hh. unfold reduce_period. rewrite lookup_reducers_of_Some by done.
    cbn [lift_panic mbind outcome_bind]. rewrite Hh.
    destruct (EMA_OnClosed_ok (f p) (bClose bar) Hc) as [[value ready] Hr].
    unfold period_events, closed_reducers. destruct (EMA_OnClosed (f p) (bClose bar)) as [e r].
    cbn in Hr |- *. rewrite Hr. cbn. destruct ready; [done|]. by rewrite app_nil_r.
Qed.

Lemma closed_reducers_wf f periods c :
  reducers_wf f periods -> (forall p, p ∈ periods -> emaSamples (f p) < 2 ^ 64 - 1) ->
  reducers_wf (closed_reducers f c) periods.
Proof.
  intros Hwf Hs p Hp. destruct (Hwf p Hp) as [Hw Hper]. unfold closed_reducers. split.
  - by apply EMA_OnClosed_wf; [|apply Hs].
  - by rewrite EMA_OnClosed_period.
Qed.

(** The indicators a market event lists: one per period, in order. *)
Lemma mapM_reducers_of {B} (g : Z -> EMA -> B) f periods l :
  (forall p, p ∈ l -> p ∈ periods) ->
  mapM (fun p => e ← reducers_of f periods !! p; Some (g p e)) l = Some (map (fun p => g p (f p)) l).
Proof.
  intros Hl. apply mapM_Some. induction l as [|p l IH]; constructor.
  - by rewrite lookup_reducers_of_Some by (apply Hl; by left).
  - apply IH. intros q Hq. apply Hl. by right.
Qed.

Lemma newMarketEvent_of key bar state revision f periods :
  StronglySorted Z.lt periods ->
  exists event, newMarketEvent key bar state revision (reducers_of f periods) = Some event /\
    evEventType event = "market.state" /\ evReset event = false /\ evProvisional event = false /\
    evCursor event = 0 /\ evSourceBar event = Some bar /\ evMarket event = Some state /\
    evBarRevision event = revision /\
    evIndicators event = map (fun p => indicator_state revision p (f p)) periods.
Proof.
  intros Hs. unfold newMarketEvent. rewrite reducer_periods_of by done.
  rewrite (mapM_reducers_of (indicator_state revision)) by done. cbn. eauto 10.
Qed.

Lemma Market_Snapshot_no_panic m : is_panic (Market_Snapshot m) = false.
Proof. unfold Market_Snapshot. by destruct (marshal_marketSnapshot _). Qed.

Lemma reducerSnapshots_no_panic f periods market lastBar :
  StronglySorted Z.lt periods ->
  is_panic (reducerSnapshots (reducers_of f periods) market lastBar) = false.
Proof.
  intros Hs. unfold reducerSnapshots. destruct lastBar as [bar|]; [|done].
  rewrite reducer_periods_of by done. apply obind_panic.
  - apply (oloop_inv (fun _ => True)); [done|]. intros out p Hp _. split; [|done].
    rewrite lookup_reducers_of_Some by done. cbn [lift_panic mbind outcome_bind].
    apply obind_panic; [by rewrite wrap_err_panic, EMA_Snapshot_no_panic|done].
  - intros out _. apply obind_panic; [|done]. by rewrite wrap_err_panic, Market_Snapshot_no_panic.
Qed.

(** With encodable reducers, the checkpoint holds the snapshot of each
    reducer, in period order, and the market's. *)
Lemma reducerSnapshots_of f periods market bar data :
  StronglySorted Z.lt periods -> (forall p, p ∈ periods -> ema_encodable (f p)) ->
  Market_Snapshot market = Ok data ->
  exists out, reducerSnapshots (reducers_of f periods) market (Some bar) =
      Ok (out ++ [mkSnapshot (MarketAlgorithm DefaultMarketConfig) 0 (bOpenTime bar) data]) /\
    Forall2 (fun p s => exists j, EMA_Snapshot (f p) = Ok j /\
                                  s = mkSnapshot (emaAlgorithm p) p (bOpenTime bar) j) periods out.
Proof.
  intros Hs He Hm. unfold reducerSnapshots. rewrite reducer_periods_of by done. rewrite Hm.
  assert (Hgen : forall l acc, (forall p, p ∈ l -> p ∈ periods) ->
    exists out, oloop (fun out p =>
                reducer ← lift_panic (reducers_of f periods !! p);
                state ← wrap_err LaneEMA (EMA_Snapshot reducer);
                Ok (out ++ [mkSnapshot (emaAlgorithm p) p (bOpenTime bar) state])) l acc = Ok (acc ++ out) /\
      Forall2 (fun p s => exists j, EMA_Snapshot (f p) = Ok j /\
                                    s = mkSnapshot (emaAlgorithm p) p (bOpenTime bar) j) l out).
  { induction l as [|p l IH]; intros acc Hl; [exists []; by rewrite app_nil_r|]. cbn [oloop].
    rewrite lookup_reducers_of_Some by (apply Hl; by left). cbn [lift_panic mbind outcome_bind].
    destruct (EMA_Snapshot_total (f p)) as [j Hj]; [apply He, Hl; by left|]. rewrite Hj.
    cbn [wrap_err mbind outcome_bind].
    destruct (IH (acc ++ [mkSnapshot (emaAlgorithm p) p (bOpenTime bar) j])) as (out & -> & Hout);
      [intros q Hq; apply Hl; by right|].
    exists (mkSnapshot (emaAlgorithm p) p (bOpenTime bar) j :: out). rewrite <-app_assoc.
    split; [done|]. constructor; eauto. }
  destruct (Hgen periods [] (fun _ h => h)) as (out & -> & Hout). cbn. eauto.
Qed.
End Reduce.
