(* ===== verification/LaneProofs.v ===== *)
(** * Properties of the lane

    The invariant of a lane, what each handler does to the lane, the store and
    the publications on every branch, and the absence of panics. *)

From stdpp Require Import prelude gmap strings list sorting.
From Stdlib Require Import ZArith Lia SpecFloat String.
From S2P Require Import Prelude GoFloat GoText Sha256 Model Ema MarketZones MarketStructure.
From S2P Require Import ZonesProofs StructureProofs MarketReducer MarketProofs StoreSpec Lane.
From S2P Require Import LaneReducers.

#[local] Open Scope string_scope.
#[local] Open Scope list_scope.
#[local] Open Scope Z_scope.

#[local] Opaque sha256_hex EvaluateMarket barFingerprint MarketAlgorithm emaAlgorithm.

(** ** Running the monad *)

Lemma bind_run {S A B} (f : A -> laneM S B) (m : laneM S A) w :
  (m ≫= f) w = match m w with
               | (w', Ok a) => f a w'
               | (w', Fail e) => (w', Fail e)
               | (w', Panic) => (w', Panic)
               end.
Proof. done. Qed.

Lemma for_each_live {S} (events : list SignalEvent) (w : World S) :
  for_each events live_publish w =
    (mkWorld (wLane w) (wStore w) (wOut w ++ map LivePublished events), Ok tt).
Proof.
  revert w. induction events as [|e events IH]; intros w; cbn; [rewrite app_nil_r; by destruct w|].
  rewrite bind_run. cbn. rewrite IH. cbn. by rewrite <-app_assoc.
Qed.

Lemma for_each_publish {S} (events : list SignalEvent) (w : World S) :
  for_each events publish w =
    (mkWorld (wLane w) (wStore w) (wOut w ++ map Published events), Ok tt).
Proof.
  revert w. induction events as [|e events IH]; intros w; cbn; [rewrite app_nil_r; by destruct w|].
  rewrite bind_run. cbn. rewrite IH. cbn. by rewrite <-app_assoc.
Qed.

Definition is_market_event (event : SignalEvent) : bool := (evEventType event =? "market.state")%string.

Lemma for_each_live_market {S} (events : list SignalEvent) (w : World S) :
  for_each events (fun event => when (evEventType event =? "market.state")%string (live_publish event)) w =
    (mkWorld (wLane w) (wStore w)
       (wOut w ++ map LivePublished (List.filter is_market_event events)), Ok tt).
Proof.
  revert w. induction events as [|e events IH]; intros w; cbn; [rewrite app_nil_r; by destruct w|].
  rewrite bind_run. unfold when at 1, is_market_event at 1.
  destruct (evEventType e =? "market.state")%string; cbn; rewrite IH; cbn; by rewrite <-?app_assoc.
Qed.

Section Effects.
Context `{Runtime} {S : Type} `{Store S}.

(** The publications of a commit. *)
Definition live_outputs (l : Lane) (committed : list SignalEvent) : list output :=
  if lLivePublisher l then map LivePublished (List.filter is_market_event committed) else [].

(** ** [applyClosed], as one equation *)
Lemma applyClosed_run bar (w : World S) :
  applyClosed bar w =
  match closed_plan (wLane w) bar with
  | Panic => (w, Panic)
  | Fail e => (w, Fail e)
  | Ok None => (w, Ok tt)
  | Ok (Some (reducers, market, closedCount, events, snapshots)) =>
      let l := wLane w in
      match CommitClosed (wStore w) (lKey l) bar events snapshots with
      | (s, Panic) => (mkWorld l s (wOut w), Panic)
      | (s, Fail e) => (mkWorld l s (wOut w), Fail (LaneCommit e))
      | (s, Ok committed) =>
          let l' := set_canonical l reducers market (Some bar) (revisionForBar bar) closedCount in
          let out := wOut w ++ live_outputs l committed in
          if lPublisher l && negb (lOutboxDelivery l) then
            let '(s', r) := MarkPublished s (map evCursor committed) in
            (mkWorld l' s' (out ++ map Published committed), wrap_err LaneMark r)
          else (mkWorld l' s out, Ok tt)
      end
  end.
Proof.
  unfold applyClosed. rewrite bind_run. cbn [get_lane]. rewrite bind_run. cbn [lift].
  destruct (closed_plan (wLane w) bar) as [[[[[[reducers market] count] events] snapshots]|]|e|]; try done.
  rewrite bind_run. unfold store_call at 1.
  destruct (CommitClosed _ _ _ _ _) as [s [committed|e|]]; cbn [wrap_err]; try done.
  rewrite bind_run. unfold live_outputs, when at 1.
  destruct (lLivePublisher (wLane w)); [rewrite for_each_live_market|cbn [mret laneM_ret]; rewrite app_nil_r];
    rewrite bind_run; cbn [get_lane]; rewrite bind_run; cbn [put_lane wLane wStore wOut]; unfold when;
    (destruct (lPublisher (wLane w) && negb (lOutboxDelivery (wLane w))); [|done]);
    rewrite bind_run, for_each_publish; unfold store_call; cbn [wLane wStore wOut];
    by destruct (MarkPublished s (map evCursor committed)) as [s' []].
Qed.

(** ** [rebuildSeed], as one equation *)
Lemma rebuildSeed_run bars publishReset (w : World S) :
  rebuildSeed bars publishReset w =
  let l := wLane w in
  match rebuild_plan (lKey l) (lPeriods l) bars publishReset with
  | Panic => (w, Panic)
  | Fail e => (w, Fail e)
  | Ok (st, points, snapshots) =>
      match RebuildSeries (wStore w) (lKey l) points snapshots (rbLastBar st) with
      | (s, Panic) => (mkWorld l s (wOut w), Panic)
      | (s, Fail e) => (mkWorld l s (wOut w), Fail (LaneRebuild e))
      | (s, Ok committed) =>
          (mkWorld (set_canonical l (rbReducers st) (rbMarket st) (rbLastBar st)
                      (match rbLastBar st with
                       | Some bar => revisionForBar bar | None => lLastClosedRevision l end)
                      (rbClosedCount st))
             s (wOut w ++ (if lLivePublisher l then map LivePublished committed else [])), Ok tt)
      end
  end.
Proof.
  unfold rebuildSeed. rewrite bind_run. cbn [get_lane]. rewrite bind_run. cbn [lift].
  destruct (rebuild_plan _ _ _ _) as [[[st points] snapshots]|e|]; try done.
  rewrite bind_run. unfold store_call at 1.
  destruct (RebuildSeries _ _ _ _ _) as [s [committed|e|]]; cbn [wrap_err]; try done.
  rewrite bind_run. unfold when.
  by destruct (lLivePublisher (wLane w)); [rewrite for_each_live|]; cbn; rewrite ?app_nil_r.
Qed.

(** ** Forming bars never touch canonical state *)

(** What closed bars and recovery own. *)
Definition same_canonical (l l' : Lane) : Prop :=
  lKey l' = lKey l /\ lPeriods l' = lPeriods l /\ lReducers l' = lReducers l /\
  lMarket l' = lMarket l /\ lLastBar l' = lLastBar l /\
  lLastClosedRevision l' = lLastClosedRevision l /\ lClosedCount l' = lClosedCount l.

Lemma forming_period_frame l reducers bar revision provisional period (w w' : World S) r :
  forming_period l reducers bar revision provisional period w = (w', r) ->
  wLane w' = wLane w /\ wStore w' = wStore w /\ wOut w `prefix_of` wOut w'.
Proof.
  unfold forming_period. rewrite bind_run. unfold lift at 1.
  destruct (lift_panic (reducers !! period)) as [e|e|]; try (intros [= <- _]; auto).
  rewrite bind_run. unfold lift.
  destruct (wrap_err LaneEMA (EMA_Project e (bClose bar))) as [[v ready]|err|]; try (intros [= <- _]; auto).
  destruct ready; cbn; [|intros [= <- _]; auto]. rewrite bind_run. unfold when.
  destruct (lPublisher l); cbn; intros [= <- _]; cbn; split_and!; auto. by apply prefix_app_r.
Qed.

Lemma fold_forming_frame l reducers bar revision periods provisional (w w' : World S) r :
  fold_each (forming_period l reducers bar revision) periods provisional w = (w', r) ->
  wLane w' = wLane w /\ wStore w' = wStore w /\ wOut w `prefix_of` wOut w'.
Proof.
  revert provisional w. induction periods as [|p periods IH]; intros provisional w; cbn [fold_each].
  - intros [= <- _]. auto.
  - rewrite bind_run.
    destruct (forming_period l reducers bar revision provisional p w) as [w1 r1] eqn:E.
    apply forming_period_frame in E as (E1 & E2 & E3).
    destruct r1 as [v|e|]; [|by intros [= <- _]..].
    intros (H1 & H2 & H3)%IH. split_and!; [congruence..|by etrans].
Qed.

Lemma applyForming_frame bar (w w' : World S) r :
  applyForming bar w = (w', r) ->
  same_canonical (wLane w) (wLane w') /\ wStore w' = wStore w /\ wOut w `prefix_of` wOut w'.
Proof.
  unfold applyForming. destruct (bClosed bar); [by intros [= <- _]|].
  rewrite bind_run. cbn [get_lane]. rewrite bind_run. unfold lift at 1.
  destruct (validateBar _ _); try (by intros [= <- _]). rewrite bind_run. unfold lift at 1.
  destruct (cloneReducers _ _) as [reducers|e|]; try (by intros [= <- _]).
  destruct (match lLastBar (wLane w) with Some _ => _ | None => _ end); [by intros [= <- _]|].
  rewrite bind_run. destruct (fold_each _ _ _ w) as [w1 r1] eqn:Ef.
  apply fold_forming_frame in Ef as (E1 & E2 & E3). rewrite <-E1.
  destruct r1 as [provisional|e|]; try (intros [= <- _]; by rewrite E1).
  rewrite bind_run. unfold when. rewrite <-E2.
  assert (Hset : forall t b rev out, wOut w `prefix_of` out ->
    same_canonical (wLane w1) (set_forming (wLane w1) provisional t b rev) /\
    wStore w1 = wStore w1 /\ wOut w `prefix_of` out) by done.
  destruct (lLivePublisher (wLane w1)); cbn.
  - rewrite bind_run. unfold lift. destruct (newMarketEvent _ _ _ _ _); cbn; intros [= <- _]; cbn; [|done].
    apply Hset. by apply prefix_app_r.
  - intros [= <- _]. by apply Hset.
Qed.
End Effects.

(** ** The invariant *)

Section Invariant.
Context `{Runtime}.

(** A well-formed reducer set of [count] samples. *)
Definition reducer_set (periods : list Z) (count : Z) (reducers : gmap Z EMA) : Prop :=
  exists f, reducers = reducers_of f periods /\ reducers_wf f periods /\
    forall p, p ∈ periods -> emaSamples (f p) = count.

(** A market reducer as lanes build them. *)
Record lane_market (m : Market) : Prop := {
  lm_wf : market_wf m;
  lm_shape : market_shape DefaultMarketConfig marketHistoryLimit m;
  lm_trades : trades_ok (mkBars m)
}.

Record lane_wf (l : Lane) : Prop := {
  lw_periods : periods_ok (lPeriods l);
  lw_every : 1 <= lSnapshotEvery l;
  lw_count : 0 <= lClosedCount l < 2 ^ 64;
  lw_reducers : reducer_set (lPeriods l) (lClosedCount l) (lReducers l);
  lw_market : lane_market (lMarket l);
  lw_provisional : forall p, is_Some (lProvisional l !! p) -> p ∈ lPeriods l;
  lw_forming : lFormingTime l = bOpenTime <$> lFormingBar l
}.

Definition bar_typed (b : Bar) : Prop := 0 <= bTrades b < 2 ^ 64.

Lemma validateBar_finite key bar : validateBar key bar = Ok tt -> is_finite (bClose bar) = true.
Proof.
  unfold validateBar. destruct (_ || _); [done|]. destruct (_ =? _); [done|].
  destruct (existsb _ _) eqn:He; [done|]. intros _. cbn in He.
  rewrite !orb_false_iff in He. destruct He as (_ & _ & _ & [Hn Hi] & _).
  unfold is_finite. by rewrite Hn, Hi.
Qed.

Lemma validateBar_no_panic key bar : is_panic (validateBar key bar) = false.
Proof. unfold validateBar. by repeat case_match. Qed.

Lemma lane_market_closed m bar :
  lane_market m -> bar_typed bar ->
  exists m', Market_OnClosed m bar = Some (m', mkState m') /\ lane_market m' /\
    mkBars m' = last_n marketHistoryLimit (mkBars m ++ [bar]).
Proof.
  intros [Hwf [Hc Hl] Ht] Hb.
  destruct (Market_OnClosed_ok m bar Hwf) as (m' & -> & Hwf' & Ec & El & Eb & _).
  exists m'. rewrite Hl in Eb. split_and!; [done| |done]. split; [done|split; congruence|].
  unfold trades_ok. rewrite Eb. eapply suffix_Forall; [apply last_n_suffix|].
  apply Forall_app. split; [done|]. by apply Forall_singleton.
Qed.

Lemma reducer_set_closed key periods count reducers bar revision :
  periods_ok periods -> reducer_set periods count reducers -> 0 <= count < 2 ^ 64 - 1 ->
  is_finite (bClose bar) = true ->
  exists reducers' events, reduceEMAClosed key reducers bar revision = Ok (reducers', events) /\
    reducer_set periods (wrap_u64 (count + 1)) reducers'.
Proof.
  intros Hp (f & -> & Hwf & Hs) Hc Hf.
  rewrite reduceEMAClosed_of by (done || apply Hp). eexists _, _. split; [done|].
  eexists. split; [done|]. split.
  - apply closed_reducers_wf; [done|]. intros p Hin. rewrite Hs by done. lia.
  - intros p Hin. unfold closed_reducers. by rewrite EMA_OnClosed_samples, Hs by done.
Qed.

Lemma newMarketEvent_set key bar state revision periods count reducers :
  periods_ok periods -> reducer_set periods count reducers ->
  is_Some (newMarketEvent key bar state revision reducers).
Proof.
  intros Hp (f & -> & _). destruct (newMarketEvent_of key bar state revision f periods) as (e & -> & _);
    [apply Hp|done].
Qed.

Lemma cloneReducers_set periods count reducers :
  periods_ok periods -> reducer_set periods count reducers ->
  is_panic (cloneReducers periods reducers) = false /\
  forall cloned, cloneReducers periods reducers = Ok cloned -> cloned = reducers.
Proof.
  intros Hp (f & -> & Hwf & _). split.
  - unfold cloneReducers. rewrite newReducers_of by apply Hp. cbn [mbind outcome_bind].
    apply (oloop_inv (fun m => exists g, m = reducers_of g periods)); [eauto|].
    intros m p Hin [g ->]. rewrite !lookup_reducers_of_Some by done. cbn [lift_panic mbind outcome_bind]. split.
    + apply obind_panic; [by rewrite wrap_err_panic, EMA_Snapshot_no_panic|]. intros j _.
      apply obind_panic; [by rewrite wrap_err_panic, EMA_Restore_no_panic|done].
    + intros m' (j & _ & Hm)%obind_Ok. apply obind_Ok in Hm as (e & _ & [= <-]).
      rewrite insert_reducers_of by done. eauto.
  - intros cloned Hc. by apply cloneReducers_inv in Hc as [-> _].
Qed.

(** The conditions under which a closed bar extends the history. *)
Definition extends (l : Lane) (bar : Bar) : Prop :=
  bClosed bar = true /\ validateBar (lKey l) bar = Ok tt /\
  forall lastBar, lLastBar l = Some lastBar ->
    bOpenTime lastBar < bOpenTime bar /\
    exists step, TimeframeDuration (kTimeframe (lKey l)) = Some step /\
                 bOpenTime bar = bOpenTime lastBar + step.

(** A closed bar the lane has already applied. *)
Definition already_applied (l : Lane) (bar : Bar) : Prop :=
  exists lastBar, lLastBar l = Some lastBar /\ bOpenTime bar = bOpenTime lastBar /\
    barFingerprint bar = barFingerprint lastBar.

(** What [closed_plan] computes from the lane when it accepts the bar. *)
Record closed_result (l : Lane) (bar : Bar) (reducers : gmap Z EMA) (market : Market)
    (count : Z) (events : list SignalEvent) (snapshots : list ReducerSnapshot) : Prop := {
  cr_extends : extends l bar;
  cr_market : Market_OnClosed (lMarket l) bar = Some (market, mkState market);
  cr_count : count = wrap_u64 (lClosedCount l + 1);
  cr_events : exists points event,
    reduceEMAClosed (lKey l) (lReducers l) bar (revisionForBar bar) = Ok (reducers, points) /\
    newMarketEvent (lKey l) bar (mkState market) (revisionForBar bar) reducers = Some event /\
    events = points ++ [event];
  cr_snapshots : if count `mod` lSnapshotEvery l =? 0
                 then reducerSnapshots reducers market (Some bar) = Ok snapshots else snapshots = []
}.

Lemma closed_guard_cases l bar :
  match closed_guard l bar with
  | Ok true => already_applied l bar
  | Ok false => forall lastBar, lLastBar l = Some lastBar ->
      bOpenTime lastBar < bOpenTime bar /\
      exists step, TimeframeDuration (kTimeframe (lKey l)) = Some step /\
                   bOpenTime bar = bOpenTime lastBar + step
  | Fail _ => True
  | Panic => False
  end.
Proof.
  unfold closed_guard, already_applied. destruct (lLastBar l) as [lastBar|]; [|done].
  destruct (Z.ltb_spec (bOpenTime lastBar) (bOpenTime bar)); cbn.
  - destruct (TimeframeDuration _) as [step|]; [|done].
    destruct (Z.eqb_spec (bOpenTime bar) (bOpenTime lastBar + step)); [|done].
    cbn. intros b [= <-]. eauto.
  - destruct (Z.eqb_spec (bOpenTime bar) (bOpenTime lastBar)); cbn; [|done].
    destruct (String.eqb_spec (barFingerprint bar) (barFingerprint lastBar)); cbn; [eauto|done].
Qed.

(** [closed_plan] on a well-formed lane: no panic, and what it computes. *)
Lemma closed_plan_spec l bar :
  lane_wf l -> lClosedCount l < 2 ^ 64 - 1 -> bar_typed bar ->
  is_panic (closed_plan l bar) = false /\
  (closed_plan l bar = Ok None -> already_applied l bar) /\
  forall reducers market count events snapshots,
    closed_plan l bar = Ok (Some (reducers, market, count, events, snapshots)) ->
    closed_result l bar reducers market count events snapshots.
Proof.
  intros Hwf Hcnt Hb. pose proof (lw_periods _ Hwf) as Hp. pose proof (lw_count _ Hwf). unfold closed_plan.
  destruct (bClosed bar) eqn:Hcl; cbn [negb]; [|done].
  pose proof (validateBar_no_panic (lKey l) bar).
  destruct (validateBar (lKey l) bar) as [[]|e|] eqn:Hv; [|done..]. cbn [mbind outcome_bind].
  destruct (cloneReducers_set _ _ _ Hp (lw_reducers _ Hwf)) as [Hcp Hco].
  destruct (cloneReducers (lPeriods l) (lReducers l)) as [cloned|e|]; [|done..].
  rewrite (Hco cloned eq_refl). cbn [mbind outcome_bind].
  destruct (Market_Clone_inv (lMarket l) (lm_wf _ (lw_market _ Hwf)) (lm_trades _ (lw_market _ Hwf)))
    as [Hmp Hmo].
  destruct (Market_Clone (lMarket l)) as [market|e|]; [|done..].
  destruct (Hmo market eq_refl) as (Heq & _ & _). cbn [wrap_err mbind outcome_bind].
  pose proof (closed_guard_cases l bar) as Hg.
  destruct (closed_guard l bar) as [[]|e|]; cbn [mbind outcome_bind]; [done| |done..].
  destruct (reducer_set_closed (lKey l) (lPeriods l) (lClosedCount l) (lReducers l) bar
    (revisionForBar bar)) as (reducers & points & Hr & Hrs); [done|apply Hwf|lia|by eapply validateBar_finite|].
  rewrite Hr. cbn [mbind outcome_bind]. rewrite (Market_OnClosed_equiv _ _ bar Heq).
  destruct (lane_market_closed (lMarket l) bar (lw_market _ Hwf) Hb) as (market' & Hm & _).
  rewrite Hm. cbn [lift_panic mbind outcome_bind].
  destruct (newMarketEvent_set (lKey l) bar (mkState market') (revisionForBar bar) _ _ _ Hp Hrs) as [event He].
  rewrite He. cbn [lift_panic mbind outcome_bind].
  set (count := wrap_u64 (lClosedCount l + 1)) in *.
  assert (Hsn : is_panic (reducerSnapshots reducers market' (Some bar)) = false)
    by (destruct Hrs as (g & -> & _); apply reducerSnapshots_no_panic, Hp).
  pose proof (conj Hcl (conj Hv Hg)) as Hext. split_and!.
  - destruct (_ =? 0); [|done]. by destruct (reducerSnapshots _ _ _).
  - destruct (_ =? 0); [|done]. by destruct (reducerSnapshots _ _ _).
  - intros r m c ev sn Hok. apply obind_Ok in Hok as (sn' & Hsn' & [= <- <- <- <- <-]).
    split; [done..|by eexists _, _|]. destruct (_ =? 0); [done|by injection Hsn'].
Qed.
End Invariant.

(** ** The handlers keep the invariant and never panic *)

Section Preservation.
Context `{Runtime} {S : Type} `{StoreLaws S}.

(** What a handler that starts from a lane with room for [n] more bars ends
    with: no panic, and a well-formed lane of the same series. *)
Definition handled (l : Lane) (n : Z) (l' : Lane) {A} (r : outcome LaneError A) : Prop :=
  is_panic r = false /\ lane_wf l' /\ lKey l' = lKey l /\ lPeriods l' = lPeriods l /\
  lClosedCount l' <= lClosedCount l + n.

Lemma handled_refl l n {A} (r : outcome LaneError A) :
  lane_wf l -> 0 <= n -> is_panic r = false -> handled l n l r.
Proof. intros. split_and!; try done. lia. Qed.

Lemma set_canonical_wf l reducers market lastBar revision count :
  lane_wf l -> 0 <= count < 2 ^ 64 -> reducer_set (lPeriods l) count reducers -> lane_market market ->
  lane_wf (set_canonical l reducers market lastBar revision count).
Proof.
  intros [] Hc Hr Hm. split; cbn; try done. intros p [v Hv]. by rewrite lookup_empty in Hv.
Qed.

Lemma applyClosed_wf bar (w w' : World S) r :
  lane_wf (wLane w) -> lClosedCount (wLane w) < 2 ^ 64 - 1 -> bar_typed bar ->
  applyClosed bar w = (w', r) -> handled (wLane w) 1 (wLane w') r.
Proof.
  intros Hwf Hc Hb. rewrite applyClosed_run.
  destruct (closed_plan_spec (wLane w) bar Hwf Hc Hb) as (Hp & _ & Hok).
  pose proof (lw_count _ Hwf).
  destruct (closed_plan (wLane w) bar) as [[[[[[reducers market] count] events] snapshots]|]|e|];
    [|intros [= <- <-]; by apply handled_refl; [|lia|]..|done].
  destruct (Hok _ _ _ _ _ eq_refl) as [Hext Hm -> (points & event & Hr & _) _]. cbn zeta.
  pose proof (commit_no_panic (wStore w) (lKey (wLane w)) bar events snapshots) as Hnp.
  destruct (CommitClosed _ _ _ _ _) as [s [committed|e|]]; [|intros [= <- <-]; by apply handled_refl; [|lia|]|done].
  assert (Hl' : lane_wf (set_canonical (wLane w) reducers market (Some bar) (revisionForBar bar)
                  (wrap_u64 (lClosedCount (wLane w) + 1)))).
  { apply set_canonical_wf; [done|apply wrap_u64_range| |].
    - destruct (reducer_set_closed (lKey (wLane w)) (lPeriods (wLane w)) (lClosedCount (wLane w))
        (lReducers (wLane w)) bar (revisionForBar bar)) as (r1 & e1 & Hr1 & Hs1);
        [apply Hwf|apply Hwf|lia|eapply validateBar_finite, Hext|].
      rewrite Hr in Hr1. by injection Hr1 as -> ->.
    - destruct (lane_market_closed (lMarket (wLane w)) bar (lw_market _ Hwf) Hb) as (m1 & Hm1 & Hw1 & _).
      rewrite Hm in Hm1. by injection Hm1 as ->. }
  assert (Hcount : wrap_u64 (lClosedCount (wLane w) + 1) = lClosedCount (wLane w) + 1)
    by (apply wrap_u64_id; lia).
  destruct (lPublisher _ && negb _).
  - pose proof (mark_no_panic s (map evCursor committed)) as Hmk.
    destruct (MarkPublished s (map evCursor committed)) as [s' rm]. intros [= <- <-].
    split_and!; cbn; try done; [by rewrite wrap_err_panic|lia].
  - intros [= <- <-]. split_and!; cbn; try done. lia.
Qed.

(** ** Rebuilding *)

Record rebuild_wf (periods : list Z) (n : Z) (st : rebuildState) : Prop := {
  rw_count : 0 <= rbClosedCount st <= n;
  rw_reducers : reducer_set periods (rbClosedCount st) (rbReducers st);
  rw_market : lane_market (rbMarket st)
}.

Lemma fresh_market_ok :
  exists m, NewMarket DefaultMarketConfig marketHistoryLimit = Ok m /\ lane_market m /\
    mkBars m = [] /\ mkSamples m = 0.
Proof.
  eexists. split; [reflexivity|]. split; [|done]. split.
  - by apply (NewMarket_wf DefaultMarketConfig marketHistoryLimit); [apply DefaultMarketConfig_ok|].
  - done.
  - constructor.
Qed.

Lemma new_reducer_set periods : periods_ok periods -> reducer_set periods 0 (reducers_of new_ema periods).
Proof.
  intros [_ Hv _]. rewrite Forall_forall in Hv. exists new_ema. split_and!; [done| |done].
  intros p Hp. split; [by apply new_ema_wf, Hv|done].
Qed.

Lemma rebuild_step_wf key periods n st bar :
  periods_ok periods -> 0 <= n < 2 ^ 64 - 1 -> bar_typed bar -> rebuild_wf periods n st ->
  is_panic (rebuild_step key st bar) = false /\
  forall st', rebuild_step key st bar = Ok st' -> rebuild_wf periods (n + 1) st'.
Proof.
  intros Hp Hn Hb [Hc Hr Hm]. unfold rebuild_step.
  assert (Hkeep : rebuild_wf periods (n + 1) st) by (split; [lia|done..]).
  destruct (negb (bClosed bar)); [split; [done|by intros ? [= <-]]|].
  pose proof (validateBar_no_panic key bar).
  destruct (validateBar key bar) as [[]|e|] eqn:Hv; [|done..]. cbn [mbind outcome_bind].
  destruct (match rbLastBar st with Some _ => _ | None => _ end).
  { destruct (match rbLastBar st with Some _ => _ | None => _ end); [|done].
    split; [done|by intros ? [= <-]]. }
  destruct (reducer_set_closed key periods (rbClosedCount st) (rbReducers st) bar (revisionForBar bar))
    as (reducers & events & -> & Hrs); [done|done|lia|by eapply validateBar_finite|].
  cbn [mbind outcome_bind].
  destruct (lane_market_closed (rbMarket st) bar Hm Hb) as (m & -> & Hm' & _).
  cbn [lift_panic mbind outcome_bind]. split; [done|]. intros st' [= <-]. split; cbn; try done.
  rewrite wrap_u64_id; lia.
Qed.

Lemma rebuild_loop_wf key periods bars n st :
  periods_ok periods -> 0 <= n -> n + len bars < 2 ^ 64 - 1 -> Forall bar_typed bars ->
  rebuild_wf periods n st ->
  is_panic (oloop (rebuild_step key) bars st) = false /\
  forall st', oloop (rebuild_step key) bars st = Ok st' -> rebuild_wf periods (n + len bars) st'.
Proof.
  intros Hp Hn Hlen Ht. revert n st Hn Hlen. induction Ht as [|b bars Hb Ht IH]; intros n st Hn Hlen Hst; cbn [oloop].
  - split; [done|]. intros st' [= <-]. unfold len. cbn. by rewrite Z.add_0_r.
  - rewrite len_cons in Hlen. pose proof (len_nonneg bars).
    destruct (rebuild_step_wf key periods n st b) as [Hp1 Ho1]; [done|lia|done..|].
    destruct (rebuild_step key st b) as [st1|e|]; [|done..]. cbn [mbind outcome_bind].
    rewrite len_cons. replace (n + (1 + len bars)) with (n + 1 + len bars) by lia.
    apply IH; [lia|lia|]. by apply Ho1.
Qed.

Lemma reset_event_total event lastBar bars : is_Some (reset_event event lastBar bars).
Proof. unfold reset_event. rewrite keep_last_last_n by done. done. Qed.

Lemma rebuild_plan_wf key periods bars publishReset :
  periods_ok periods -> len bars < 2 ^ 64 - 1 -> Forall bar_typed bars ->
  is_panic (rebuild_plan key periods bars publishReset) = false /\
  forall st points snapshots, rebuild_plan key periods bars publishReset = Ok (st, points, snapshots) ->
    rebuild_wf periods (len bars) st.
Proof.
  intros Hp Hlen Ht. unfold rebuild_plan. rewrite newReducers_of by apply Hp. cbn [mbind outcome_bind].
  destruct fresh_market_ok as (m & Hm & Hmw & _). rewrite Hm. cbn [wrap_err mbind outcome_bind].
  destruct (rebuild_loop_wf key periods bars 0 (mkRebuild (reducers_of new_ema periods) m None 0 []))
    as [Hpan Hok]; [done|lia|lia|done|by split; [|apply new_reducer_set|]|].
  destruct (oloop _ _ _) as [st|e|]; [|done..]. cbn [mbind outcome_bind].
  pose proof (Hok st eq_refl) as Hst. cbn in Hst. destruct Hst as [Hc Hr Hmk].
  assert (Hsn : is_panic (reducerSnapshots (rbReducers st) (rbMarket st) (rbLastBar st)) = false)
    by (destruct Hr as (f & -> & _); apply reducerSnapshots_no_panic, Hp).
  assert (Hfin : forall points : list SignalEvent, is_panic (snapshots ← reducerSnapshots (rbReducers st) (rbMarket st) (rbLastBar st);
      Ok (st, points, snapshots)) = false /\
    forall st' pts sn, (snapshots ← reducerSnapshots (rbReducers st) (rbMarket st) (rbLastBar st);
      Ok (st, points, snapshots)) = Ok (st', pts, sn) -> rebuild_wf periods (len bars) st').
  { intros points. split; [by destruct (reducerSnapshots _ _ _)|].
    intros st' pts sn (snaps & _ & [= <- _ _])%obind_Ok. by split. }
  destruct (rbLastBar st) as [bar|]; cbn [mbind outcome_bind]; [|apply Hfin].
  destruct (newMarketEvent_set key bar (Market_State (rbMarket st)) (revisionForBar bar) _ _ _ Hp Hr) as [ev ->].
  cbn [lift_panic mbind outcome_bind]. destruct (reset_event_total ev bar bars) as [rev ->].
  destruct publishReset; cbn [lift_panic mbind outcome_bind]; apply Hfin.
Qed.

Lemma rebuildSeed_wf bars publishReset (w w' : World S) r :
  lane_wf (wLane w) -> len bars < 2 ^ 64 - 1 -> Forall bar_typed bars ->
  rebuildSeed bars publishReset w = (w', r) -> handled (wLane w) (len bars) (wLane w') r.
Proof.
  intros Hwf Hlen Ht. rewrite rebuildSeed_run. cbn zeta. pose proof (len_nonneg bars).
  pose proof (lw_count _ Hwf).
  destruct (rebuild_plan_wf (lKey (wLane w)) (lPeriods (wLane w)) bars publishReset) as [Hp Hok];
    [apply Hwf|done|done|].
  destruct (rebuild_plan _ _ _ _) as [[[st points] snapshots]|e|];
    [|intros [= <- <-]; by apply handled_refl; [|lia|]|done].
  destruct (Hok _ _ _ eq_refl) as [Hc Hr Hm].
  pose proof (rebuild_no_panic (wStore w) (lKey (wLane w)) points snapshots (rbLastBar st)) as Hnp.
  destruct (RebuildSeries _ _ _ _ _) as [s [committed|e|]]; [|intros [= <- <-]; by apply handled_refl; [|lia|]|done].
  intros [= <- <-]. split_and!; cbn; try done; [|lia]. apply set_canonical_wf; [done|lia|done..].
Qed.

(** ** Recovery *)

(** The saved reducers have room for more samples. *)
Definition snapshot_small (bound : Z) (snapshot : ReducerSnapshot) : Prop :=
  forall s, unmarshal_EMASnapshot (rsState snapshot) = Some s -> esSamples s <= bound.

Record restored_wf (periods : list Z) (bound : Z) (reducers : gmap Z EMA) : Prop := {
  rs_of : exists f, reducers = reducers_of f periods /\ reducers_wf f periods /\
    forall p, p ∈ periods -> 0 <= emaSamples (f p) <= bound
}.

Lemma restore_snapshot_wf periods bound st snapshot :
  periods_ok periods -> snapshot_small bound snapshot -> restored_wf periods bound (rtReducers st) ->
  is_panic (restore_snapshot st snapshot) = false /\
  forall st', restore_snapshot st snapshot = Ok st' -> restored_wf periods bound (rtReducers st').
Proof.
  intros Hp Hb [(f & Hf & Hwf & Hs)]. unfold restore_snapshot.
  assert (Hkeep : restored_wf periods bound (rtReducers st)) by (split; eauto).
  destruct (_ && _); [split; [done|by intros ? [= <-]]|]. rewrite Hf, lookup_reducers_of.
  destruct (decide (rsPeriod snapshot ∈ periods)) as [Hin|]; [|split; [done|by intros ? [= <-]]].
  destruct (negb _); [split; [done|by intros ? [= <-]]|].
  destruct (rtByPeriod st !! rsPeriod snapshot); [done|].
  pose proof (EMA_Restore_no_panic (f (rsPeriod snapshot)) (rsState snapshot)).
  destruct (EMA_Restore _ _) as [e|err|] eqn:He; cbn; [|done..]. split; [done|]. intros st' [= <-]. cbn.
  destruct (Hwf _ Hin) as [Hw Hper].
  apply EMA_Restore_wf in He as (Hew & Hep & s & Hs1 & Hs2); [|apply Hw].
  rewrite insert_reducers_of by done. split. eexists. split_and!; [done| |].
  - intros p Hpin. cbn beta. destruct (decide (p = rsPeriod snapshot)) as [->|]; [by rewrite Hep|by apply Hwf].
  - intros p Hpin. cbn beta. destruct (decide (p = rsPeriod snapshot)) as [->|]; [|by apply Hs].
    rewrite Hs2. split; [rewrite <-Hs2; apply Hew|by apply Hb].
Qed.

Lemma Forall_snoc_typed bars b : trades_ok bars -> bar_typed b -> trades_ok (bars ++ [b]).
Proof. intros. apply Forall_app. split; [done|]. by apply Forall_singleton. Qed.

Record replay_wf (periods : list Z) (n : Z) (st : replayState) : Prop := {
  yw_count : 0 <= rpClosedCount st <= n;
  yw_reducers : reducer_set periods (rpClosedCount st) (rpReducers st);
  yw_bars : trades_ok (rpMarketBars st)
}.

Lemma replay_step_wf key periods snapshotTime recovery n st bar :
  periods_ok periods -> 0 <= n < 2 ^ 64 - 1 -> bar_typed bar -> replay_wf periods n st ->
  is_panic (replay_step key snapshotTime recovery st bar) = false /\
  forall st', replay_step key snapshotTime recovery st bar = Ok st' -> replay_wf periods (n + 1) st'.
Proof.
  intros Hp Hn Hb [Hc Hr Hm]. unfold replay_step.
  set (marketBars := if _ && _ then _ else _).
  assert (Hmb : trades_ok marketBars).
  { unfold marketBars. destruct (_ && _); [by apply Forall_snoc_typed|done]. }
  clearbody marketBars.
  destruct (_ || _); [split; [done|]; intros ? [= <-]; split; cbn; [lia|done..]|].
  pose proof (validateBar_no_panic key bar).
  destruct (validateBar key bar) as [[]|e|] eqn:Hv; [|done..]. cbn [mbind outcome_bind].
  destruct (reducer_set_closed key periods (rpClosedCount st) (rpReducers st) bar (revisionForBar bar))
    as (reducers & events & Hred & Hrs); [done|done|lia|by eapply validateBar_finite|].
  assert (Htail : forall st1, replay_wf periods (n + 1) st1 ->
    is_panic (if bOpenTime bar =? srCursorOpenTime recovery
      then if negb (barFingerprint bar =? srCursorHash recovery)%string then Fail LaneCursorConflict
           else Ok (mkReplay (rpReducers st1) (rpLastBar st1) (rpClosedCount st1)
                      (rpFoundSnapshot st1) true (rpMarketBars st1))
      else Ok st1) = false /\
    forall st', (if bOpenTime bar =? srCursorOpenTime recovery
      then if negb (barFingerprint bar =? srCursorHash recovery)%string then Fail LaneCursorConflict
           else Ok (mkReplay (rpReducers st1) (rpLastBar st1) (rpClosedCount st1)
                      (rpFoundSnapshot st1) true (rpMarketBars st1))
      else Ok st1) = Ok st' -> replay_wf periods (n + 1) st').
  { intros st1 [Hd1 Hd2 Hd3]. destruct (_ =? _); [destruct (negb _); [done|]|];
      (split; [done|]; intros ? [= <-]; by split). }
  destruct (_ =? snapshotTime); cbn [mbind outcome_bind]; [apply Htail; split; cbn; [lia|done..]|].
  destruct (_ || _); cbn [mbind outcome_bind]; [|apply Htail; split; cbn; [lia|done..]].
  destruct (negb (rpFoundSnapshot st)); cbn [mbind outcome_bind]; [done|]. rewrite Hred. cbn [mbind outcome_bind].
  apply Htail. split; cbn; [|done..]. rewrite wrap_u64_id; lia.
Qed.

Lemma replay_loop_wf key periods snapshotTime recovery bars n st :
  periods_ok periods -> 0 <= n -> n + len bars < 2 ^ 64 - 1 -> Forall bar_typed bars ->
  replay_wf periods n st ->
  is_panic (oloop (replay_step key snapshotTime recovery) bars st) = false /\
  forall st', oloop (replay_step key snapshotTime recovery) bars st = Ok st' ->
    replay_wf periods (n + len bars) st'.
Proof.
  intros Hp Hn Hlen Ht. revert n st Hn Hlen. induction Ht as [|b bars Hb Ht IH]; intros n st Hn Hlen Hst; cbn [oloop].
  - split; [done|]. intros st' [= <-]. unfold len. cbn. by rewrite Z.add_0_r.
  - rewrite len_cons in Hlen. pose proof (len_nonneg bars).
    destruct (replay_step_wf key periods snapshotTime recovery n st b) as [Hp1 Ho1]; [done|lia|done..|].
    destruct (replay_step _ _ _ st b) as [st1|e|]; [|done..]. cbn [mbind outcome_bind].
    rewrite len_cons. replace (n + (1 + len bars)) with (n + 1 + len bars) by lia.
    apply IH; [lia|lia|]. by apply Ho1.
Qed.

Lemma restore_market_wf recovery market snapshot bars :
  lane_market market -> trades_ok bars -> len bars < 2 ^ 64 ->
  is_panic (restore_market recovery market snapshot bars) = false /\
  forall m, restore_market recovery market snapshot bars = Ok m -> lane_market m.
Proof.
  intros [Hwf [Hc Hl] Ht] Hb Hlen. unfold restore_market. destruct snapshot as [snapshot|].
  - destruct (_ <? _); [done|].
    destruct (Market_Restore_any market (rsState snapshot)) as [Hp Ho]; [apply Hwf| |].
    { rewrite Hc, Hl. by split. }
    destruct (Market_Restore _ _) as [m1|e|]; cbn [wrap_err mbind outcome_bind]; [|done..].
    destruct (Ho m1 eq_refl) as (Hw1 & [Hc1 Hl1] & Ht1). apply (oloop_inv lane_market).
    + split; [done|by rewrite Hc, Hl in *|done].
    + intros m b Hin Hm. destruct (_ <? _); [|split; [done|by intros ? [= <-]]].
      unfold trades_ok in Hb. rewrite Forall_forall in Hb.
      destruct (lane_market_closed m b Hm (Hb b Hin)) as (m' & -> & Hm' & _).
      split; [done|by intros ? [= <-]].
  - destruct (Market_Seed_ok market bars) as (m & -> & Hw & Ec & El & Eb & _);
      [apply Hwf|by apply mw_limit_nonneg|done|apply Hwf|].
    split; [done|]. intros ? [= <-]. cbn. split; [done|split; congruence|]. rewrite Eb.
    eapply suffix_Forall; [apply last_n_suffix|]. apply Forall_forall.
    intros b [Hin _]%list_elem_of_In%filter_In. unfold trades_ok in Hb. rewrite Forall_forall in Hb.
    apply Hb. by apply list_elem_of_In.
Qed.

Lemma replay_market_bars key snapshotTime recovery bars st st' :
  oloop (replay_step key snapshotTime recovery) bars st = Ok st' ->
  len (rpMarketBars st') <= len (rpMarketBars st) + len bars.
Proof.
  revert st. induction bars as [|b bars IH]; intros st; cbn [oloop].
  - intros [= <-]. pose proof (len_nonneg (@nil Bar)). lia.
  - intros (st1 & H1' & H2')%obind_Ok. apply IH in H2'. rewrite len_cons.
    enough (len (rpMarketBars st1) <= len (rpMarketBars st) + 1) by lia. clear -H1'.
    unfold replay_step in H1'. 
    set (marketBars := if _ && _ then _ else _) in *.
    assert (Hmb : len marketBars <= len (rpMarketBars st) + 1).
    { unfold marketBars. destruct (_ && _); rewrite ?len_snoc; lia. }
    clearbody marketBars. destruct (_ || _); [by injection H1' as <-|].
    apply obind_Ok in H1' as ([] & _ & H1'). apply obind_Ok in H1' as (st2 & H2 & H1').
    assert (Hst2 : rpMarketBars st2 = marketBars).
    { destruct (_ =? snapshotTime); [by simplify_eq|]. destruct (_ || _); [|by simplify_eq].
      destruct (negb (rpFoundSnapshot st)); [done|]. by apply obind_Ok in H2 as ([] & _ & [= <-]). }
    rewrite <-Hst2 in Hmb. destruct (_ =? srCursorOpenTime recovery); [|by injection H1' as <-].
    destruct (negb (barFingerprint b =? srCursorHash recovery)%string); [done|]. by injection H1' as <-.
Qed.

Lemma same_checkpoint_samples periods f st snapshotTime count l :
  rtReducers st = reducers_of f periods -> (forall p, p ∈ l -> p ∈ periods) ->
  is_panic (oloop (same_checkpoint st snapshotTime count) l tt) = false /\
  (oloop (same_checkpoint st snapshotTime count) l tt = Ok tt ->
   forall p, p ∈ l -> emaSamples (f p) = count).
Proof.
  intros Hf. induction l as [|p l IH]; intros Hl; cbn [oloop]; [split; [done|set_solver]|].
  assert (Hone : is_panic (same_checkpoint st snapshotTime count tt p) = false /\
    (same_checkpoint st snapshotTime count tt p = Ok tt -> emaSamples (f p) = count)).
  { unfold same_checkpoint. destruct (negb _); [done|].
    rewrite Hf, lookup_reducers_of_Some by set_solver. cbn [lift_panic mbind outcome_bind].
    by destruct (Z.eqb_spec (EMA_Samples (f p)) count). }
  destruct (same_checkpoint st snapshotTime count tt p) as [[]|e|]; cbn [mbind outcome_bind];
    [|done|by destruct Hone].
  destruct IH as [IH1 IH2]; [set_solver|]. split; [done|].
  intros Hok q [->|Hq]%elem_of_cons; [by apply Hone|by apply IH2].
Qed.

Lemma restore_plan_wf key periods recovery bars bound :
  periods_ok periods -> 0 <= bound -> bound + len bars < 2 ^ 64 - 1 -> Forall bar_typed bars ->
  Forall (snapshot_small bound) (srSnapshots recovery) ->
  is_panic (restore_plan key periods recovery bars) = false /\
  forall reducers market lastBar count,
    restore_plan key periods recovery bars = Ok (reducers, market, lastBar, count) ->
    0 <= count <= bound + len bars /\ reducer_set periods count reducers /\ lane_market market.
Proof.
  intros Hp Hb Hlen Ht Hsm. unfold restore_plan. pose proof (len_nonneg bars).
  rewrite newReducers_of by apply Hp. cbn [mbind outcome_bind].
  destruct fresh_market_ok as (m0 & Hm0 & Hmw & _). rewrite Hm0. cbn [wrap_err mbind outcome_bind].
  destruct (oloop_inv (fun st => restored_wf periods bound (rtReducers st)) restore_snapshot
    (srSnapshots recovery) (mkRestore (reducers_of new_ema periods) ∅ None)) as [Hpan Hok].
  { split. destruct (new_reducer_set periods Hp) as (f & Hf & Hwf & Hs). exists f.
    split_and!; [done..|]. intros p Hin. rewrite Hs by done. lia. }
  { intros st s Hin Hst. apply restore_snapshot_wf; [done| |done]. rewrite Forall_forall in Hsm. auto. }
  destruct (oloop restore_snapshot _ _) as [st|e|]; [|done..]. cbn [mbind outcome_bind].
  destruct (Hok st eq_refl) as [(f & Hf & Hwf & Hs)]. destruct (negb _); [done|].
  destruct (idx_is_Some periods 0) as [first Hfirst].
  { destruct Hp as [_ _ Hne]. destruct periods; [done|]. rewrite len_cons. pose proof (len_nonneg periods). lia. }
  pose proof (idx_elem_of _ _ _ Hfirst) as Hin. rewrite Hfirst. cbn [lift_panic mbind outcome_bind].
  rewrite Hf, lookup_reducers_of_Some by done. cbn [lift_panic mbind outcome_bind].
  destruct (_ <? _); [done|].
  destruct (same_checkpoint_samples periods f st (last_open st first) (EMA_Samples (f first))
    (drop 1 periods)) as [Hap Hao]; [done|intros p; apply elem_of_drop_weaken|].
  destruct (oloop (same_checkpoint _ _ _) _ tt) as [[]|e|]; [|done..]. cbn [mbind outcome_bind].
  assert (Hset : reducer_set periods (EMA_Samples (f first)) (reducers_of f periods)).
  { exists f. split_and!; [done..|]. intros p Hpin. destruct periods as [|q periods]; [done|].
    injection Hfirst as ->. apply elem_of_cons in Hpin as [->|Hpin]; [done|]. by apply Hao. }
  pose proof (Hs first Hin) as Hsf.
  destruct (replay_loop_wf key periods (last_open st first) recovery bars bound
    (mkReplay (reducers_of f periods) None (EMA_Samples (f first)) false false [])) as [Hrp Hro];
    [done..|by split; [| |constructor]|].
  pose proof (replay_market_bars key (last_open st first) recovery bars
    (mkReplay (reducers_of f periods) None (EMA_Samples (f first)) false false [])) as Hmb.
  destruct (oloop (replay_step _ _ _) _ _) as [rp|e|]; [|done..]. cbn [mbind outcome_bind].
  destruct (Hro rp eq_refl) as [Hc Hr Hbars]. specialize (Hmb rp eq_refl). cbn [rpMarketBars] in Hmb.
  rewrite len_nil in Hmb. destruct (rpLastBar rp) as [lastBar|]; [|done]. destruct (_ || _); [done|].
  destruct (restore_market_wf recovery m0 (rtMarket st) (rpMarketBars rp)) as [Hmp Hmo]; [done..|lia|].
  destruct (restore_market _ _ _ _) as [market|e|]; [|done..]. cbn [mbind outcome_bind].
  split; [done|]. intros ? ? ? ? [= <- <- <- <-]. auto.
Qed.

(** ** Seeds and commands *)

Lemma handled_trans l1 n1 l2 n2 l3 {A B} (r1 : outcome LaneError A) (r2 : outcome LaneError B) :
  handled l1 n1 l2 r1 -> handled l2 n2 l3 r2 -> handled l1 (n1 + n2) l3 r2.
Proof. intros (? & ? & ? & ? & ?) (? & ? & ? & ? & ?). split_and!; try congruence; try done; lia. Qed.

Lemma handled_weaken l n n' l' {A} (r : outcome LaneError A) :
  handled l n l' r -> n <= n' -> handled l n' l' r.
Proof. intros (? & ? & ? & ? & ?) ?. split_and!; try done. lia. Qed.

Lemma applyCatchUpSeed_wf bars (w w' : World S) r :
  lane_wf (wLane w) -> lClosedCount (wLane w) + len bars < 2 ^ 64 - 1 -> Forall bar_typed bars ->
  applyCatchUpSeed bars w = (w', r) -> handled (wLane w) (len bars) (wLane w') r.
Proof.
  intros Hwf Hc Ht. revert w Hwf Hc. unfold applyCatchUpSeed.
  induction Ht as [|b bars Hb Ht IH]; intros w Hwf Hc; cbn [for_each].
  - intros [= <- <-]. by apply handled_refl.
  - rewrite len_cons in *. pose proof (len_nonneg bars). rewrite bind_run.
    match goal with |- context [match ?m with (_, _) => _ end = _] => destruct m as [w1 r1] eqn:Hstep end.
    assert (Hone : handled (wLane w) 1 (wLane w1) r1).
    { destruct (negb (bClosed b)); [injection Hstep as <- <-; by apply handled_refl|].
      rewrite bind_run in Hstep. cbn [get_lane] in Hstep.
      destruct (lLastBar (wLane w)) as [lastBar|];
        [|eapply applyClosed_wf; [done| |done|done]; lia].
      destruct (negb _); [|eapply applyClosed_wf; [done| |done|done]; lia].
      destruct (_ && _); injection Hstep as <- <-; by apply handled_refl. }
    destruct r1 as [[]|e|]; intros Hrest.
    + apply IH in Hrest; [|apply Hone|destruct Hone as (_ & _ & _ & _ & ?); lia].
      eapply handled_trans; [exact Hone|exact Hrest].
    + injection Hrest as <- <-. eapply handled_weaken; [exact Hone|lia].
    + by destruct Hone.
Qed.

Lemma restoreRecoverySeed_wf recovery bars bound (w w' : World S) r :
  lane_wf (wLane w) -> 0 <= bound -> bound + len bars < 2 ^ 64 - 1 -> Forall bar_typed bars ->
  Forall (snapshot_small bound) (srSnapshots recovery) ->
  restoreRecoverySeed recovery bars w = (w', r) ->
  handled (wLane w) (bound + len bars) (wLane w') r.
Proof.
  intros Hwf Hb Hlen Ht Hsm. unfold restoreRecoverySeed. rewrite bind_run. cbn [get_lane].
  rewrite bind_run. unfold lift. pose proof (len_nonneg bars). pose proof (lw_count _ Hwf).
  destruct (restore_plan_wf (lKey (wLane w)) (lPeriods (wLane w)) recovery bars bound) as [Hp Hok];
    [apply Hwf|done..|].
  destruct (restore_plan _ _ _ _) as [[[[reducers market] lastBar] count]|e|];
    [|intros [= <- <-]; by apply handled_refl; [|lia|]|done].
  destruct (Hok _ _ _ _ eq_refl) as (Hc & Hr & Hm). intros [= <- <-].
  split_and!; cbn; try done; [|lia]. apply set_canonical_wf; [done|lia|done..].
Qed.

Lemma sort_seed_typed bars : Forall bar_typed bars -> Forall bar_typed (sort_seed bars).
Proof. intros Ht. unfold sort_seed. by rewrite sort_stable_perm. Qed.

Lemma sort_seed_len bars : len (sort_seed bars) = len bars.
Proof. unfold sort_seed, len. by rewrite sort_stable_length. Qed.

(** What the store may hold of a series that can be resumed: counts with room
    for more bars. *)
Definition store_small (bound : Z) (s : S) (key : SeriesKey) : Prop :=
  forall recovery, LoadRecovery s key = Ok recovery -> srHasCursor recovery = true ->
    Forall (snapshot_small bound) (srSnapshots recovery).

Lemma applySeed_wf bars bound (w w' : World S) r :
  lane_wf (wLane w) -> 0 <= bound ->
  lClosedCount (wLane w) + bound + 3 * len bars < 2 ^ 64 - 1 -> Forall bar_typed bars ->
  (lLastBar (wLane w) = None -> store_small bound (wStore w) (lKey (wLane w))) ->
  applySeed bars w = (w', r) -> handled (wLane w) (bound + 3 * len bars) (wLane w') r.
Proof.
  intros Hwf Hb Hlen Ht%sort_seed_typed Hsm. unfold applySeed. rewrite <-(sort_seed_len bars) in *.
  revert Hlen Ht. generalize (sort_seed bars) as seed. intros seed Hlen Ht.
  pose proof (len_nonneg seed). pose proof (lw_count _ Hwf). rewrite bind_run. cbn [get_lane].
  destruct (lLastBar (wLane w)) as [lastBar|]; [|specialize (Hsm eq_refl)].
  - destruct (seedConflictsWithHistory (wLane w) seed).
    { intros Hr. apply rebuildSeed_wf in Hr; [|done|lia|done]. eapply handled_weaken; [exact Hr|lia]. }
    unfold try_else. destruct (applyCatchUpSeed seed w) as [w1 r1] eqn:Hcu.
    apply applyCatchUpSeed_wf in Hcu; [|done|lia|done]. destruct r1 as [[]|e|]; [| |by destruct Hcu].
    + intros [= <- <-]. eapply handled_weaken; [exact Hcu|lia].
    + intros Hr. apply rebuildSeed_wf in Hr; [|apply Hcu|lia|done].
      eapply handled_weaken; [exact (handled_trans _ _ _ _ _ _ _ Hcu Hr)|lia].
  - rewrite bind_run. unfold load_recovery.
    pose proof (load_no_panic (wStore w) (lKey (wLane w))) as Hlp.
    destruct (LoadRecovery (wStore w) (lKey (wLane w))) as [recovery|e|] eqn:Hload; cbn [wrap_err];
      [|intros [= <- <-]; by apply handled_refl; [|lia|]|done].
    destruct (srHasCursor recovery) eqn:Hhas.
    + unfold try_else. destruct (restoreRecoverySeed recovery seed w) as [w1 r1] eqn:Hrr.
      apply (restoreRecoverySeed_wf _ _ bound) in Hrr; [|done|done|lia|done|by apply Hsm].
      destruct r1 as [[]|e|]; [| |by destruct Hrr]; intros Hr.
      * apply applyCatchUpSeed_wf in Hr; [|apply Hrr|destruct Hrr as (_ & _ & _ & _ & ?); lia|done].
        eapply handled_weaken; [exact (handled_trans _ _ _ _ _ _ _ Hrr Hr)|lia].
      * apply rebuildSeed_wf in Hr; [|apply Hrr|lia|done].
        eapply handled_weaken; [exact (handled_trans _ _ _ _ _ _ _ Hrr Hr)|lia].
    + intros Hr. apply rebuildSeed_wf in Hr; [|done|lia|done]. eapply handled_weaken; [exact Hr|lia].
Qed.

Lemma forming_fold_wf l reducers bar revision periods provisional (w w' : World S) r :
  is_finite (bClose bar) = true -> (forall p, p ∈ periods -> is_Some (reducers !! p)) ->
  fold_each (forming_period l reducers bar revision) periods provisional w = (w', r) ->
  exists provisional', r = Ok provisional' /\
    forall p, is_Some (provisional' !! p) -> is_Some (provisional !! p) \/ p ∈ periods.
Proof.
  intros Hf. revert provisional w. induction periods as [|p periods IH]; intros provisional w Hl; cbn [fold_each].
  - intros [= _ <-]. eauto.
  - rewrite bind_run. unfold forming_period at 1. rewrite bind_run. unfold lift at 1.
    destruct (Hl p) as [e He]; [by left|]. rewrite He. cbn [lift_panic]. rewrite bind_run. unfold lift at 1.
    unfold EMA_Project. destruct (EMA_OnClosed_ok e (bClose bar) Hf) as [[v ready] ->]. cbn [wrap_err].
    destruct ready; cbn [negb].
    + rewrite bind_run. unfold when.
      assert (Hgo : forall w2, fold_each (forming_period l reducers bar revision) periods
                (<[p := v]> provisional) w2 = (w', r) ->
        exists provisional', r = Ok provisional' /\
          forall q, is_Some (provisional' !! q) -> is_Some (provisional !! q) \/ q ∈ p :: periods).
      { intros w2 Hr. apply IH in Hr as (pr & -> & Hpr); [|intros q Hq; apply Hl; by right].
        exists pr. split; [done|]. intros q [Hq|Hq]%Hpr; [|set_solver].
        apply lookup_insert_is_Some in Hq as [->|[_ Hq]]; set_solver. }
      destruct (lPublisher l); apply Hgo.
    + intros Hr. apply IH in Hr as (pr & -> & Hpr); [|intros q Hq; apply Hl; by right].
      exists pr. split; [done|]. intros q [Hq|Hq]%Hpr; set_solver.
Qed.

Lemma applyForming_wf bar (w w' : World S) r :
  lane_wf (wLane w) -> applyForming bar w = (w', r) -> handled (wLane w) 0 (wLane w') r.
Proof.
  intros Hwf. unfold applyForming. destruct (bClosed bar); [intros [= <- <-]; by apply handled_refl|].
  rewrite bind_run. cbn [get_lane]. rewrite bind_run. unfold lift at 1.
  pose proof (validateBar_no_panic (lKey (wLane w)) bar).
  destruct (validateBar _ _) as [[]|e|] eqn:Hv; [|intros [= <- <-]; by apply handled_refl|done].
  rewrite bind_run. unfold lift at 1.
  destruct (cloneReducers_set _ _ _ (lw_periods _ Hwf) (lw_reducers _ Hwf)) as [Hcp Hco].
  destruct (cloneReducers _ _) as [cloned|e|]; [|intros [= <- <-]; by apply handled_refl|done].
  rewrite (Hco cloned eq_refl).
  destruct (match lLastBar (wLane w) with Some _ => _ | None => _ end);
    [intros [= <- <-]; by apply handled_refl|].
  rewrite bind_run. destruct (fold_each _ _ _ w) as [w1 r1] eqn:Ef.
  pose proof (fold_forming_frame _ _ _ _ _ _ _ _ _ Ef) as (E1 & _).
  apply forming_fold_wf in Ef as (provisional & -> & Hpr); [|by eapply validateBar_finite|].
  2:{ intros p Hp. destruct (lw_reducers _ Hwf) as (f & -> & _). by rewrite lookup_reducers_of_Some. }
  assert (Hset : forall b rev, lane_wf (set_forming (wLane w) provisional (Some (bOpenTime b)) (Some b) rev)).
  { intros b rev. destruct Hwf. split; cbn; try done. intros p [[? Hq]|?]%Hpr; [|done].
    by rewrite lookup_empty in Hq. }
  rewrite bind_run. unfold when. destruct (lLivePublisher (wLane w)).
  - rewrite bind_run. unfold lift.
    destruct (newMarketEvent_set (lKey (wLane w)) bar (set_occurrences (Market_State (lMarket (wLane w))) [] [])
      (revisionForBar bar) _ _ _ (lw_periods _ Hwf) (lw_reducers _ Hwf)) as [event ->].
    cbn. intros [= <- <-]. cbn. rewrite E1. split_and!; cbn; try done. lia.
  - cbn. intros [= <- <-]. cbn. rewrite E1. split_and!; cbn; try done. lia.
Qed.

(** The bars of a command, and how many samples it may add. *)
Definition command_bars (cmd : command) : list Bar :=
  match cmd with
  | CommandSeed bars => bars
  | CommandClosed bar | CommandForming bar => [bar]
  end.

Lemma set_last_err_wf l err : lane_wf l -> lane_wf (set_last_err l err).
Proof. intros []. by split. Qed.

Lemma run_command_wf cmd bound (w w' : World S) r :
  lane_wf (wLane w) -> 0 <= bound ->
  lClosedCount (wLane w) + bound + 3 * len (command_bars cmd) < 2 ^ 64 - 1 ->
  Forall bar_typed (command_bars cmd) ->
  (forall bars, cmd = CommandSeed bars -> lLastBar (wLane w) = None -> store_small bound (wStore w) (lKey (wLane w))) ->
  run_command cmd w = (w', r) ->
  handled (wLane w) (bound + 3 * len (command_bars cmd)) (wLane w') r.
Proof.
  intros Hwf Hb Hlen Ht Hsm. unfold run_command. pose proof (len_nonneg (command_bars cmd)).
  match goal with |- context [let '(_, _) := ?m in _] => destruct m as [w1 r1] eqn:Hrun end.
  assert (Hh : handled (wLane w) (bound + 3 * len (command_bars cmd)) (wLane w1) r1).
  { destruct cmd as [bars|bar|bar]; cbn [command_bars] in *.
    - eapply applySeed_wf; [done..| |exact Hrun]. by apply (Hsm bars).
    - apply Forall_cons in Ht as [Ht _]. change (len [bar]) with 1 in *.
      apply applyClosed_wf in Hrun; [|done|lia|done]. eapply handled_weaken; [exact Hrun|lia].
    - apply applyForming_wf in Hrun; [|done]. eapply handled_weaken; [exact Hrun|lia]. }
  destruct Hh as (Hp & Hw & Hk & Hper & Hc).
  destruct r1 as [[]|e|]; [| |done]; intros [= <- <-];
    (split_and!; cbn; [done|by apply set_last_err_wf|done..]).
Qed.
End Preservation.
