(* ===== verification/LaneRefinement.v ===== *)
(** * What a lane computes: refinement of a history of closed bars

    The specification of a lane's canonical state is the list of closed bars
    applied so far.  A lane refines a history when each EMA reducer holds the
    reference average of all its closes, the market reducer holds its last
    [marketHistoryLimit] bars, and cursor and count are those of the history.
    Live bars, rebuilds and crash recovery all preserve the relation. *)

From stdpp Require Import prelude gmap strings list sorting.
From Stdlib Require Import ZArith Lia SpecFloat String.
From S2P Require Import Prelude GoFloat GoText Sha256 Model Ema MarketZones MarketStructure.
From S2P Require Import ZonesProofs StructureProofs MarketReducer MarketProofs StoreSpec Lane.
From S2P Require Import LaneReducers LaneProofs.

#[local] Open Scope string_scope.
#[local] Open Scope list_scope.
#[local] Open Scope Z_scope.

#[local] Opaque sha256_hex EvaluateMarket barFingerprint MarketAlgorithm emaAlgorithm.

(** The reducers after a history. *)
Definition ema_of (hist : list Bar) (period : Z) : EMA := ema_after period (map bClose hist).
Definition reducers_after (periods : list Z) (hist : list Bar) : gmap Z EMA :=
  reducers_of (ema_of hist) periods.

Record refines (l : Lane) (hist : list Bar) : Prop := {
  rf_reducers : lReducers l = reducers_after (lPeriods l) hist;
  rf_market : mkBars (lMarket l) = last_n marketHistoryLimit hist;
  rf_last : lLastBar l = last hist;
  rf_count : lClosedCount l = len hist;
  rf_revision : forall bar, last hist = Some bar -> lLastClosedRevision l = revisionForBar bar
}.

Lemma map_closes_snoc hist bar : map bClose (hist ++ [bar]) = map bClose hist ++ [bClose bar].
Proof. apply map_app. Qed.

Lemma len_closes hist : len (map bClose hist) = len hist.
Proof. unfold len. by rewrite length_map. Qed.

Lemma ema_of_snoc p hist bar :
  valid_period p -> len hist < 2 ^ 64 - 1 -> is_finite (bClose bar) = true ->
  fst (EMA_OnClosed (ema_of hist p) (bClose bar)) = ema_of (hist ++ [bar]) p.
Proof.
  intros. unfold ema_of. rewrite map_closes_snoc. apply EMA_OnClosed_after; [done| |done].
  by rewrite len_closes.
Qed.

Section Refinement.
Context `{Runtime}.

Lemma reduce_after key periods hist bar revision :
  periods_ok periods -> len hist < 2 ^ 64 - 1 -> is_finite (bClose bar) = true ->
  exists points, reduceEMAClosed key (reducers_after periods hist) bar revision =
    Ok (reducers_after periods (hist ++ [bar]), points).
Proof.
  intros [Hs Hv _] Hl Hc. unfold reducers_after. rewrite reduceEMAClosed_of by done.
  eexists. do 2 f_equal. apply reducers_of_ext. intros p Hp. unfold closed_reducers.
  rewrite Forall_forall in Hv. apply ema_of_snoc; auto.
Qed.

Lemma market_after m bar hist m' st :
  lane_market m -> bar_typed bar -> mkBars m = last_n marketHistoryLimit hist ->
  Market_OnClosed m bar = Some (m', st) ->
  lane_market m' /\ mkBars m' = last_n marketHistoryLimit (hist ++ [bar]) /\ st = mkState m'.
Proof.
  intros Hm Hb Hh Hc. destruct (lane_market_closed m bar Hm Hb) as (m1 & Hc1 & Hm1 & Hb1).
  rewrite Hc in Hc1. injection Hc1 as -> ->. split_and!; [done| |done].
  rewrite Hb1, Hh. by apply last_n_app.
Qed.

(** ** Live bars *)

(** The canonical state that a plan installs is that of one more bar. *)
Lemma closed_plan_refines l bar hist reducers market count events snapshots :
  lane_wf l -> refines l hist -> len hist < 2 ^ 64 - 1 -> bar_typed bar ->
  closed_plan l bar = Ok (Some (reducers, market, count, events, snapshots)) ->
  refines (set_canonical l reducers market (Some bar) (revisionForBar bar) count) (hist ++ [bar]) /\
  extends l bar.
Proof.
  intros Hwf [Hr Hm Hl Hc Hrev] Hlen Hb Hplan.
  destruct (closed_plan_spec l bar Hwf ltac:(lia) Hb) as (_ & _ & Hok).
  destruct (Hok _ _ _ _ _ Hplan) as [Hext Hmc -> (points & event & Hred & _) _]. split; [|done].
  rewrite Hr in Hred.
  destruct (reduce_after (lKey l) (lPeriods l) hist bar (revisionForBar bar))
    as [points' Hred']; [apply Hwf|done|eapply validateBar_finite, Hext|].
  rewrite Hred in Hred'. injection Hred' as -> ->.
  destruct (market_after _ _ _ _ _ (lw_market _ Hwf) Hb Hm Hmc) as (_ & Hmb & _).
  split; cbn; try done.
  - by rewrite last_snoc.
  - rewrite len_snoc, Hc, wrap_u64_id; [done|]. pose proof (len_nonneg hist). lia.
  - rewrite last_snoc. by intros ? [= ->].
Qed.

Context {S : Type} `{StoreLaws S}.

(** Whatever [applyClosed] returns: the lane is as it was, or the bar follows
    the cursor and the history has grown by it. *)
Lemma applyClosed_advances bar hist (w w' : World S) r :
  lane_wf (wLane w) -> refines (wLane w) hist -> len hist < 2 ^ 64 - 1 -> bar_typed bar ->
  applyClosed bar w = (w', r) ->
  (wLane w' = wLane w /\ (r = Ok tt -> w' = w /\ already_applied (wLane w) bar)) \/
  (refines (wLane w') (hist ++ [bar]) /\ extends (wLane w) bar).
Proof.
  intros Hwf Hr Hlen Hb. rewrite applyClosed_run.
  destruct (closed_plan_spec (wLane w) bar Hwf ltac:(rewrite (rf_count _ _ Hr); lia) Hb) as (_ & Hdup & _).
  destruct (closed_plan (wLane w) bar) as [[[[[[reducers market] count] events] snapshots]|]|e|] eqn:Hplan;
    [|intros [= <- <-]; left; by auto..].
  pose proof (closed_plan_refines _ _ _ _ _ _ _ _ Hwf Hr Hlen Hb Hplan) as Hnew. cbn zeta.
  destruct (CommitClosed _ _ _ _ _) as [s [committed|e|]]; [|intros [= <- <-]; by left..].
  intros Hend. right. destruct (_ && _); [|by injection Hend as <- <-].
  destruct (MarkPublished _ _) as [s' rm]. by injection Hend as <- _.
Qed.

(** A closed bar is either the last one again, and nothing changes, or it
    follows the cursor, and the history grows by it. *)
Lemma applyClosed_refines bar hist (w w' : World S) :
  lane_wf (wLane w) -> refines (wLane w) hist -> len hist < 2 ^ 64 - 1 -> bar_typed bar ->
  applyClosed bar w = (w', Ok tt) ->
  (w' = w /\ already_applied (wLane w) bar) \/
  (refines (wLane w') (hist ++ [bar]) /\ extends (wLane w) bar).
Proof.
  intros Hwf Hr Hlen Hb Hrun.
  destruct (applyClosed_advances _ _ _ _ _ Hwf Hr Hlen Hb Hrun) as [[_ Hs]|Hg]; auto.
Qed.

(** ** Rebuilding *)

(** The history a seed denotes: its closed bars, without repetitions. *)
Fixpoint seed_history (hist bars : list Bar) : list Bar :=
  match bars with
  | [] => hist
  | bar :: rest =>
      if bClosed bar && match last hist with
                        | Some lastBar => bOpenTime lastBar <? bOpenTime bar
                        | None => true
                        end
      then seed_history (hist ++ [bar]) rest
      else seed_history hist rest
  end.

Record rebuild_refines (periods : list Z) (st : rebuildState) (hist : list Bar) : Prop := {
  rr_reducers : rbReducers st = reducers_after periods hist;
  rr_lane_market : lane_market (rbMarket st);
  rr_market : mkBars (rbMarket st) = last_n marketHistoryLimit hist;
  rr_last : rbLastBar st = last hist;
  rr_count : rbClosedCount st = len hist
}.

Lemma rebuild_loop_refines key periods bars st st' hist :
  periods_ok periods -> len hist + len bars < 2 ^ 64 - 1 -> Forall bar_typed bars ->
  rebuild_refines periods st hist -> oloop (rebuild_step key) bars st = Ok st' ->
  rebuild_refines periods st' (seed_history hist bars).
Proof.
  intros Hp Hlen Ht. revert st hist Hlen. induction Ht as [|bar bars Hb Ht IH]; intros st hist Hlen Hst; cbn [oloop].
  - by intros [= <-].
  - intros (st1 & H1' & H2')%obind_Ok. rewrite len_cons in Hlen. pose proof (len_nonneg bars).
    pose proof (len_nonneg hist). pose proof Hst as [Hr Hlm Hm Hl Hc]. cbn [seed_history].
    unfold rebuild_step in H1'. rewrite Hl in H1'.
    destruct (bClosed bar); cbn [negb andb] in *; [|injection H1' as <-; eapply IH; eauto; lia].
    apply obind_Ok in H1' as ([] & Hv & H1').
    set (fresh := match last hist with Some b => bOpenTime b <? bOpenTime bar | None => true end).
    assert (Hfresh : match last hist with Some b => negb (bOpenTime b <? bOpenTime bar) | None => false end
                     = negb fresh) by (unfold fresh; by destruct (last hist)).
    rewrite Hfresh in H1'. destruct fresh; cbn [negb] in H1'.
    + destruct (reduce_after key periods hist bar (revisionForBar bar)) as [points Hred];
        [done|lia|by eapply validateBar_finite|].
      rewrite Hr, Hred in H1'. cbn [mbind outcome_bind] in H1'.
      apply obind_Ok in H1' as ([m ms] & Hmc & [= <-]).
      destruct (Market_OnClosed (rbMarket st) bar) as [[m1 ms1]|] eqn:Hmo; [|done].
      injection Hmc as -> ->.
      destruct (market_after _ _ _ _ _ Hlm Hb Hm Hmo) as (Hm1 & Hmb & _).
      eapply IH; [rewrite len_snoc; lia| |done]. split; cbn; try done.
      * by rewrite last_snoc.
      * rewrite len_snoc, Hc, wrap_u64_id; [done|lia].
    + destruct (match last hist with Some _ => _ | None => _ end); [|done].
      injection H1' as <-. eapply IH; eauto. lia.
Qed.

Lemma rebuild_plan_refines key periods bars publishReset st points snapshots :
  periods_ok periods -> len bars < 2 ^ 64 - 1 -> Forall bar_typed bars ->
  rebuild_plan key periods bars publishReset = Ok (st, points, snapshots) ->
  rebuild_refines periods st (seed_history [] bars).
Proof.
  intros Hp Hlen Ht. unfold rebuild_plan. rewrite newReducers_of by apply Hp. cbn [mbind outcome_bind].
  destruct fresh_market_ok as (m & Hm & Hmw & Hmb & _). rewrite Hm. cbn [wrap_err mbind outcome_bind].
  intros (st1 & Hloop & Hrest)%obind_Ok.
  apply obind_Ok in Hrest as (pts & _ & Hrest). apply obind_Ok in Hrest as (sn & _ & [= <- _ _]).
  eapply rebuild_loop_refines; [done| |done| |exact Hloop]; [by rewrite len_nil|].
  split; cbn; try done. apply reducers_of_ext. intros p Hin. unfold ema_of.
  destruct Hp as [_ Hv _]. rewrite Forall_forall in Hv. specialize (Hv p Hin).
  change (new_ema p) with (run_closes (new_ema p) []). by apply run_closes_after.
Qed.

Lemma rebuildSeed_refines bars publishReset (w w' : World S) :
  lane_wf (wLane w) -> len bars < 2 ^ 64 - 1 -> Forall bar_typed bars ->
  rebuildSeed bars publishReset w = (w', Ok tt) ->
  refines (wLane w') (seed_history [] bars).
Proof.
  intros Hwf Hlen Ht. rewrite rebuildSeed_run. cbn zeta.
  destruct (rebuild_plan _ _ _ _) as [[[st points] snapshots]|e|] eqn:Hplan; [|done..].
  apply rebuild_plan_refines in Hplan as [Hr Hlm Hm Hl Hc]; [|apply Hwf|done..].
  destruct (RebuildSeries _ _ _ _ _) as [s [committed|e|]]; [|done..].
  intros [= <-]. split; cbn; try done. rewrite Hl. by intros bar ->.
Qed.

(** A seed of closed bars in strictly increasing order is its own history. *)
Definition increasing (bars : list Bar) : Prop :=
  StronglySorted (fun a b => bOpenTime a < bOpenTime b) bars.

Lemma increasing_app_inv l k :
  increasing (l ++ k) -> increasing l /\ increasing k /\
  forall a b, a ∈ l -> b ∈ k -> bOpenTime a < bOpenTime b.
Proof. intros (? & ? & ?)%StronglySorted_app. auto. Qed.

Lemma seed_history_increasing hist bars :
  increasing (hist ++ bars) -> Forall (fun b => bClosed b = true) bars ->
  seed_history hist bars = hist ++ bars.
Proof.
  intros Hi Hc. revert hist Hi. induction Hc as [|bar bars Hb Hc IH]; intros hist Hi; cbn; [by rewrite app_nil_r|].
  rewrite Hb. cbn.
  assert (Hf : match last hist with Some b => bOpenTime b <? bOpenTime bar | None => true end = true).
  { destruct (last hist) as [b|] eqn:Hl; [|done]. apply last_Some in Hl as [h ->].
    apply increasing_app_inv in Hi as (_ & _ & Hi). apply Z.ltb_lt, Hi; set_solver. }
  rewrite Hf, IH; rewrite <-app_assoc; done.
Qed.

End Refinement.

(** ** Parity

    Two well-formed lanes of one series that refine the same history, run by
    executions that may range over maps in different orders, accept the same
    bars and compute the same reducers, and the same events and state up to the
    order of the zone transitions. *)

Lemma lane_wf_sort (R1 R2 : Runtime) l : same_sort R1 R2 -> @lane_wf R1 l -> @lane_wf R2 l.
Proof.
  intros Hs [H1 H2 H3 H4 [Hm1 Hm2 Hm3] H6 H7]. split; try done. split; try done. exact (market_wf_sort R1 R2 _ Hs Hm1).
Qed.

(** An event with another market state. *)
Definition with_market (e : SignalEvent) (state : MarketState) : SignalEvent :=
  mkEvent (evSchema e) (evCursor e) (evEventID e) (evEventType e) (evDataset e) (evSymbol e) (evTimeframe e)
    (evBarOpenTime e) (evSourceBar e) (evBarRevision e) (evAnalysisRevision e) (evProvisional e) (evReset e)
    (evResetHistory e) (evAlgorithm e) (evIndicator e) (Some state) (evIndicators e).

(** The same event, but for the order of the zone transitions in its state. *)
Definition event_equiv (e1 e2 : SignalEvent) : Prop :=
  e1 = e2 \/ exists s1 s2, evMarket e1 = Some s1 /\ state_equiv s1 s2 /\ e2 = with_market e1 s2.

Lemma newMarketEvent_sort (R1 R2 : Runtime) key bar s1 s2 revision f periods e1 :
  StronglySorted Z.lt periods -> state_equiv s1 s2 ->
  @newMarketEvent R1 key bar s1 revision (reducers_of f periods) = Some e1 ->
  @newMarketEvent R2 key bar s2 revision (reducers_of f periods) = Some (with_market e1 s2) /\ evMarket e1 = Some s1.
Proof.
  intros Hp Hs. unfold newMarketEvent. rewrite !reducer_periods_of by done.
  rewrite (state_equiv_algorithm _ _ Hs). destruct (mapM _ _); [|done]. cbn [mbind option_bind].
  by intros [= <-].
Qed.

(** ** New lanes *)

Lemma periods_valid_sorted previous periods :
  StronglySorted Z.le periods -> periods_valid previous periods = true ->
  StronglySorted Z.lt periods /\ Forall (fun p => 1 <= p) periods.
Proof.
  revert previous. induction periods as [|p periods IH]; intros previous Hs Hv; [split; constructor|].
  apply StronglySorted_inv in Hs as [Hs Hp]. cbn in Hv. apply andb_true_iff in Hv as [Hp1 Hv].
  pose proof (IH _ Hs Hv) as [Hs' Hpos]. apply negb_true_iff, orb_false_iff in Hp1 as [Hp0 _].
  split; constructor; try done; [|lia].
  destruct periods as [|q periods]; [constructor|]. cbn in Hv. apply andb_true_iff in Hv as [Hq _].
  apply negb_true_iff, orb_false_iff in Hq as [_ Hq].
  apply Forall_cons in Hp as [Hpq _]. apply StronglySorted_inv in Hs' as [_ Hqr].
  constructor; [lia|]. eapply Forall_impl; [exact Hqr|]. cbn. lia.
Qed.

Lemma sorted_by_ltb_le l : sorted_by Z.ltb l -> StronglySorted Z.le l.
Proof.
  unfold sorted_by. induction 1 as [|x l Hs IH Hx]; constructor; [done|].
  eapply Forall_impl; [exact Hx|]. cbn. lia.
Qed.

(** A lane that [NewLane] returns is well formed and refines the empty
    history. *)
Lemma NewLane_ok `{Runtime} options l :
  NewLane options = Ok l -> 0 <= loSnapshotEvery options ->
  Forall (fun p => p < 2 ^ 63 - 1) (loPeriods options) ->
  lane_wf l /\ refines l [] /\ lKey l = loKey options /\ lPeriods l ≡ₚ loPeriods options /\
  1 <= lMailboxSize l.
Proof.
  unfold NewLane. destruct (_ || _); [done|]. destruct (TimeframeDuration _); [|done].
  destruct (Z.eqb_spec (len (loPeriods options)) 0) as [|Hne]; [done|]. destruct (negb (loHasStore options)); [done|].
  destruct (periods_valid None (sort_ints (loPeriods options))) eqn:Hv; cbn [negb]; [|done].
  intros Hok Hse Hmax. pose proof (sort_stable_sorted Z.ltb (loPeriods options) strict_weak_ltb) as Hsort.
  assert (Hperm : sort_ints (loPeriods options) ≡ₚ loPeriods options) by apply sort_stable_perm.
  assert (Hle : StronglySorted Z.le (sort_ints (loPeriods options))).
  { by apply sorted_by_ltb_le. }
  destruct (periods_valid_sorted None _ Hle Hv) as [Hs Hpos].
  assert (Hp : periods_ok (sort_ints (loPeriods options))).
  { split; [done| |].
    - apply Forall_forall. intros p Hin. rewrite Forall_forall in Hpos. rewrite Forall_forall in Hmax.
      split; [by apply Hpos|]. apply Hmax. by rewrite <-Hperm.
    - intros Hnil. rewrite Hnil in Hperm. apply Permutation_nil in Hperm. rewrite Hperm in Hne. done. }
  rewrite newReducers_of in Hok by apply Hp. cbn [mbind outcome_bind] in Hok.
  destruct fresh_market_ok as (m & Hm & Hlm & Hmb & _). rewrite Hm in Hok. cbn in Hok. injection Hok as <-.
  split_and!; [| |done|done|cbn; destruct (Z.leb_spec (loMailboxSize options) 0); lia].
  - split; cbn; try done.
    + destruct (Z.eqb_spec (loSnapshotEvery options) 0); lia.
    + by apply new_reducer_set.
    + intros p [v Hpv]. by rewrite lookup_empty in Hpv.
  - split; cbn; try done. apply reducers_of_ext. intros p Hin. unfold ema_of.
    destruct Hp as [_ Hval _]. rewrite Forall_forall in Hval.
    change (new_ema p) with (run_closes (new_ema p) []). apply run_closes_after; [by apply Hval|done|constructor].
Qed.
