(* ===== verification/LaneRecovery.v ===== *)
(** * Crash recovery

    A checkpoint saved after a history, replayed with a seed that covers the
    bars since, yields a lane that refines the whole history. *)

From stdpp Require Import prelude gmap strings list sorting.
From Stdlib Require Import ZArith Lia SpecFloat String.
From S2P Require Import Prelude GoFloat GoText Sha256 Model Ema MarketZones MarketStructure.
From S2P Require Import ZonesProofs StructureProofs MarketReducer MarketProofs StoreSpec Lane.
From S2P Require Import LaneReducers LaneProofs LaneRefinement.

#[local] Open Scope string_scope.
#[local] Open Scope list_scope.
#[local] Open Scope Z_scope.

#[local] Opaque sha256_hex EvaluateMarket barFingerprint MarketAlgorithm emaAlgorithm.

(** ** Restoring the reducers *)

(** A saved snapshot of a reducer of the set [f], or the market's. *)
Definition saved (f : Z -> EMA) (periods : list Z) (t : Z) (data : json) (s : ReducerSnapshot) : Prop :=
  s = mkSnapshot (MarketAlgorithm DefaultMarketConfig) 0 t data \/
  exists p j, p ∈ periods /\ EMA_Snapshot (f p) = Ok j /\ s = mkSnapshot (emaAlgorithm p) p t j.

(** The state of the loop once the snapshots of [seen] have been read. *)
Record restoring (f : Z -> EMA) (periods : list Z) (t : Z) (data : json) (seen : list Z)
    (st : restoreState) : Prop := {
  rg_reducers : rtReducers st =
    reducers_of (fun p => if decide (p ∈ seen) then f p else new_ema p) periods;
  rg_times : forall p s, rtByPeriod st !! p = Some s -> rsLastOpenTime s = t;
  rg_dom : forall p, is_Some (rtByPeriod st !! p) <-> p ∈ seen /\ p ∈ periods;
  rg_market : rtMarket st =
    if decide (0 ∈ seen) then Some (mkSnapshot (MarketAlgorithm DefaultMarketConfig) 0 t data) else None
}.

Lemma restoring_step f periods t data seen st s :
  periods_ok periods -> reducers_wf f periods -> saved f periods t data s -> rsPeriod s ∉ seen ->
  restoring f periods t data seen st ->
  exists st', restore_snapshot st s = Ok st' /\ restoring f periods t data (rsPeriod s :: seen) st'.
Proof.
  intros Hp Hwf Hs Hns [Hr Ht Hd Hm]. pose proof (pk_valid _ Hp) as Hv. rewrite Forall_forall in Hv.
  assert (H0 : 0 ∉ periods) by (intros Hin%Hv; destruct Hin; lia).
  unfold restore_snapshot. destruct Hs as [->|(p & j & Hin & Hj & ->)]; cbn [rsPeriod rsAlgorithm rsState] in *.
  - rewrite Z.eqb_refl, bool_decide_true by done. cbn. eexists. split; [done|]. split; cbn.
    + rewrite Hr. apply reducers_of_ext. intros q Hq.
      destruct (decide (q ∈ seen)), (decide (q ∈ 0 :: seen)); set_solver.
    + done.
    + intros q. rewrite Hd. set_solver.
    + destruct (decide (0 ∈ 0 :: seen)); set_solver.
  - assert (Hp0 : p <> 0) by (intros ->; done). rewrite (proj2 (Z.eqb_neq p 0)) by done. cbn [andb].
    rewrite Hr, lookup_reducers_of_Some by done. rewrite bool_decide_true by done. cbn [negb].
    destruct (decide (p ∈ seen)); [done|].
    destruct (rtByPeriod st !! p) eqn:Hb; [exfalso; destruct (Hd p) as [Hd' _]; destruct Hd'; eauto|].
    destruct (Hwf p Hin) as [Hw Hper].
    rewrite (EMA_Restore_Snapshot (f p) j (new_ema p)) by done. cbn [wrap_err mbind outcome_bind].
    eexists. split; [done|]. split; cbn.
    + rewrite insert_reducers_of by done. apply reducers_of_ext. intros q Hq. cbn beta.
      destruct (decide (q = p)) as [->|]; repeat case_decide; set_solver.
    + intros q s. destruct (decide (q = p)) as [->|].
      * rewrite lookup_insert_eq. by intros [= <-].
      * rewrite lookup_insert_ne by done. apply Ht.
    + intros q. destruct (decide (q = p)) as [->|].
      * rewrite lookup_insert_eq. split; [set_solver|done].
      * rewrite lookup_insert_ne, Hd by done. set_solver.
    + rewrite Hm. destruct (decide (0 ∈ seen)), (decide (0 ∈ p :: seen)); set_solver.
Qed.

Lemma restoring_loop f periods t data snaps seen st :
  periods_ok periods -> reducers_wf f periods -> Forall (saved f periods t data) snaps ->
  NoDup (map rsPeriod snaps ++ seen) -> restoring f periods t data seen st ->
  exists st', oloop restore_snapshot snaps st = Ok st' /\
    restoring f periods t data (rev (map rsPeriod snaps) ++ seen) st'.
Proof.
  intros Hp Hwf Hs. revert seen st. induction Hs as [|s snaps Hs1 Hs IH]; intros seen st Hnd Hst; cbn; [eauto|].
  cbn in Hnd. apply NoDup_cons in Hnd as [Hn Hnd].
  destruct (restoring_step f periods t data seen st s) as (st1 & -> & Hst1); [done..|set_solver|done|].
  cbn [mbind outcome_bind]. destruct (IH (rsPeriod s :: seen) st1) as (st2 & -> & Hst2); [|done|].
  - rewrite <-Permutation_middle. constructor; done.
  - exists st2. split; [done|]. by rewrite <-app_assoc.
Qed.

(** The snapshots of a checkpoint, in any order. *)
Definition checkpoint (f : Z -> EMA) (periods : list Z) (t : Z) (data : json)
    (snaps : list ReducerSnapshot) : Prop :=
  Forall (saved f periods t data) snaps /\ map rsPeriod snaps ≡ₚ 0 :: periods.

Lemma restore_checkpoint f periods t data snaps :
  periods_ok periods -> reducers_wf f periods -> checkpoint f periods t data snaps ->
  exists st, oloop restore_snapshot snaps (mkRestore (reducers_of new_ema periods) ∅ None) = Ok st /\
    rtReducers st = reducers_of f periods /\ Z.of_nat (size (rtByPeriod st)) = len periods /\
    (forall p, p ∈ periods -> last_open st p = t) /\
    rtMarket st = Some (mkSnapshot (MarketAlgorithm DefaultMarketConfig) 0 t data).
Proof.
  intros Hp Hwf [Hs Hperm]. pose proof (periods_NoDup _ Hp) as Hnd.
  assert (H0 : 0 ∉ periods).
  { pose proof (pk_valid _ Hp) as Hv. rewrite Forall_forall in Hv. intros Hin%Hv. destruct Hin; lia. }
  destruct (restoring_loop f periods t data snaps []
    (mkRestore (reducers_of new_ema periods) ∅ None)) as (st & Hst & [Hr Ht Hd Hm]); [done..| | |].
  - rewrite app_nil_r, Hperm. by constructor.
  - split; cbn; try done.
    intros p. rewrite lookup_empty. split; [by intros [? ?]|set_solver].
  - rewrite app_nil_r in *.
    assert (Hseen : forall p, p ∈ rev (map rsPeriod snaps) <-> p ∈ 0 :: periods).
    { intros p. rewrite <-Hperm, !list_elem_of_In. symmetry. apply in_rev. }
    exists st. split_and!; [done| | | |].
    + rewrite Hr. apply reducers_of_ext. intros p Hin. cbn beta. rewrite decide_True; [done|].
      apply Hseen. set_solver.
    + assert (Hdom : dom (rtByPeriod st) = list_to_set periods).
      { apply set_eq. intros p. rewrite elem_of_dom, Hd, Hseen, elem_of_list_to_set. set_solver. }
      rewrite <-size_dom, Hdom, size_list_to_set by done. done.
    + intros p Hin. unfold last_open. destruct (rtByPeriod st !! p) as [s|] eqn:E; [by eapply Ht|].
      exfalso. destruct (Hd p) as [_ Hd']. destruct Hd' as [? Hx]; [split; [apply Hseen; set_solver|done]|congruence].
    + rewrite Hm, decide_True; [done|]. apply Hseen. set_solver.
Qed.

(** ** Replaying the seed *)

Section Replay.
Context `{Runtime}.
Variables (key : SeriesKey) (periods : list Z) (snapshotTime : Z) (recovery : SeriesRecovery).
Hypothesis Hperiods : periods_ok periods.
#[local] Abbreviation cursor := (srCursorOpenTime recovery).

(** Bars before the checkpoint only feed the market history. *)
Lemma replay_before bars st :
  Forall (fun b => bClosed b = true /\ bOpenTime b < snapshotTime) bars -> snapshotTime <= cursor ->
  oloop (replay_step key snapshotTime recovery) bars st =
    Ok (mkReplay (rpReducers st) (rpLastBar st) (rpClosedCount st) (rpFoundSnapshot st)
          (rpFoundCursor st) (rpMarketBars st ++ bars)).
Proof.
  intros Hb Hle. revert st. induction Hb as [|b bars [Hc Ht] Hb IH]; intros st; cbn [oloop].
  - rewrite app_nil_r. by destruct st.
  - assert (Hone : replay_step key snapshotTime recovery st b =
      Ok (mkReplay (rpReducers st) (rpLastBar st) (rpClosedCount st) (rpFoundSnapshot st)
            (rpFoundCursor st) (rpMarketBars st ++ [b]))).
    { unfold replay_step. rewrite Hc. 
      by rewrite (proj2 (Z.ltb_ge cursor (bOpenTime b))), (proj2 (Z.ltb_lt (bOpenTime b) snapshotTime)) by lia. }
    rewrite Hone. cbn [mbind outcome_bind]. rewrite IH. cbn. by rewrite <-app_assoc.
Qed.

(** Bars after the cursor are left to the catch-up. *)
Lemma replay_after bars st :
  Forall (fun b => validateBar key b = Ok tt /\ cursor < bOpenTime b) bars -> snapshotTime <= cursor ->
  oloop (replay_step key snapshotTime recovery) bars st = Ok st.
Proof.
  intros Hb Hle. induction Hb as [|b bars [Hv Ht] Hb IH]; cbn [oloop]; [done|].
  enough (Hone : replay_step key snapshotTime recovery st b = Ok st) by (by rewrite Hone).
  unfold replay_step. 
  rewrite (proj2 (Z.ltb_lt cursor (bOpenTime b))), (proj2 (Z.ltb_ge (bOpenTime b) snapshotTime)) by lia.
  cbn [negb]. rewrite andb_false_r, orb_false_r, Hv. cbn [mbind outcome_bind].
  rewrite (proj2 (Z.eqb_neq (bOpenTime b) snapshotTime)), (proj2 (Z.ltb_ge (bOpenTime b) cursor)),
    (proj2 (Z.eqb_neq (bOpenTime b) cursor)) by lia. cbn.
  by destruct (bClosed b), st.
Qed.

(** The test against the durable cursor that ends each step. *)
Definition at_cursor (b : Bar) : bool := bOpenTime b =? cursor.

(** Bars between checkpoint and cursor extend the history. *)
Lemma replay_between bars st hist :
  Forall (fun b => bClosed b = true /\ validateBar key b = Ok tt /\ snapshotTime < bOpenTime b <= cursor /\
                   (bOpenTime b = cursor -> barFingerprint b = srCursorHash recovery)) bars ->
  len hist + len bars < 2 ^ 64 - 1 ->
  rpReducers st = reducers_after periods hist -> rpClosedCount st = len hist ->
  rpFoundSnapshot st = true -> rpLastBar st = last hist ->
  oloop (replay_step key snapshotTime recovery) bars st =
    Ok (mkReplay (reducers_after periods (hist ++ bars)) (last (hist ++ bars)) (len (hist ++ bars)) true
          (rpFoundCursor st || existsb at_cursor bars) (rpMarketBars st ++ bars)).
Proof.
  intros Hb. revert st hist.
  induction Hb as [|b bars (Hc & Hv & Ht & Hh) Hb IH]; intros st hist Hlen Hr Hn Hf Hl; cbn [oloop].
  - rewrite !app_nil_r, orb_false_r. destruct st; cbn in *; by subst.
  - rewrite len_cons in Hlen. pose proof (len_nonneg bars). pose proof (len_nonneg hist).
    assert (Hone : replay_step key snapshotTime recovery st b =
      Ok (mkReplay (reducers_after periods (hist ++ [b])) (Some b) (len (hist ++ [b])) true
            (rpFoundCursor st || at_cursor b) (rpMarketBars st ++ [b]))).
    { unfold replay_step.  rewrite Hc.
      rewrite (proj2 (Z.ltb_ge cursor (bOpenTime b))), (proj2 (Z.ltb_ge (bOpenTime b) snapshotTime)) by lia.
      cbn [negb andb orb]. rewrite Hv. cbn [mbind outcome_bind].
      rewrite (proj2 (Z.eqb_neq (bOpenTime b) snapshotTime)) by lia.
      replace ((bOpenTime b <? cursor) || (bOpenTime b =? cursor)) with true by lia.
      rewrite Hf. cbn [negb].
      destruct (reduce_after key periods hist b (revisionForBar b)) as [points Hred];
        [done|lia|by eapply validateBar_finite|].
      rewrite Hr, Hred. cbn [mbind outcome_bind]. rewrite Hn, len_snoc, wrap_u64_id by lia. unfold at_cursor.
      destruct (Z.eqb_spec (bOpenTime b) cursor) as [He|]; [|by rewrite orb_false_r].
      rewrite (Hh He), String.eqb_refl. cbn. by rewrite orb_true_r. }
    rewrite Hone. cbn [mbind outcome_bind].
    rewrite (IH _ (hist ++ [b])); cbn; try done; [|rewrite len_snoc; lia|by rewrite last_snoc].
    by rewrite <-!app_assoc, orb_assoc.
Qed.

(** The bar of the checkpoint itself. *)
Lemma replay_checkpoint b st :
  bClosed b = true -> validateBar key b = Ok tt -> bOpenTime b = snapshotTime -> snapshotTime <= cursor ->
  (bOpenTime b = cursor -> barFingerprint b = srCursorHash recovery) ->
  replay_step key snapshotTime recovery st b =
    Ok (mkReplay (rpReducers st) (Some b) (rpClosedCount st) true
          (rpFoundCursor st || at_cursor b) (rpMarketBars st ++ [b])).
Proof.
  intros Hc Hv Ht Hle Hh. unfold replay_step.  rewrite Hc.
  rewrite (proj2 (Z.ltb_ge cursor (bOpenTime b))), (proj2 (Z.ltb_ge (bOpenTime b) snapshotTime)) by lia.
  cbn [negb andb orb]. rewrite Hv. cbn [mbind outcome_bind]. rewrite (proj2 (Z.eqb_eq _ _) Ht).
  cbn [mbind outcome_bind]. unfold at_cursor.
  destruct (Z.eqb_spec (bOpenTime b) cursor) as [He|]; [|by rewrite orb_false_r].
  rewrite (Hh He), String.eqb_refl. cbn. by rewrite orb_true_r.
Qed.
End Replay.

(** ** The market reducer *)

Section Market.
Context `{Runtime}.

Lemma run_later_bars t bars m hist :
  lane_market m -> mkBars m = last_n marketHistoryLimit hist -> trades_ok bars ->
  exists m', oloop (fun market bar =>
               if t <? bOpenTime bar then lift_panic (fst <$> Market_OnClosed market bar)
               else (Ok market : outcome LaneError Market)) bars m = Ok m' /\
    lane_market m' /\
    mkBars m' = last_n marketHistoryLimit (hist ++ List.filter (fun b => t <? bOpenTime b) bars).
Proof.
  intros Hm Hh Hb. revert m hist Hm Hh.
  induction Hb as [|b bars Hb1 Hb IH]; intros m hist Hm Hh; cbn [oloop List.filter].
  - exists m. rewrite app_nil_r. auto.
  - destruct (t <? bOpenTime b); cbn [mbind outcome_bind]; [|by apply IH].
    destruct (lane_market_closed m b Hm Hb1) as (m1 & Hc1 & Hm1 & Hbars).
    rewrite Hc1. cbn [fmap option_fmap option_map lift_panic fst mbind outcome_bind].
    destruct (IH m1 (hist ++ [b]) Hm1) as (m' & -> & Hm' & Hb').
    + rewrite Hbars, Hh. by apply last_n_app.
    + exists m'. rewrite Hb', <-app_assoc. auto.
Qed.

Lemma restore_market_saved recovery saved_market data t fresh bars hist :
  lane_market saved_market -> Forall bar_encodable (mkBars saved_market) ->
  mkBars saved_market = last_n marketHistoryLimit hist ->
  Market_Snapshot saved_market = Ok data ->
  market_shape DefaultMarketConfig marketHistoryLimit fresh ->
  t <= srCursorOpenTime recovery -> trades_ok bars ->
  exists m, restore_market recovery fresh
      (Some (mkSnapshot (MarketAlgorithm DefaultMarketConfig) 0 t data)) bars = Ok m /\
    lane_market m /\
    mkBars m = last_n marketHistoryLimit (hist ++ List.filter (fun b => t <? bOpenTime b) bars).
Proof.
  intros [Hwf [Hc Hl] Ht] He Hh Hd [Hfc Hfl] Hle Hb. unfold restore_market. cbn [rsLastOpenTime rsState].
  rewrite (proj2 (Z.ltb_ge _ _)) by done.
  destruct (Market_Restore_Snapshot saved_market fresh Hwf He) as (data' & m1 & Hd' & Hr & Hq & Hw1);
    [congruence..|]. rewrite Hd in Hd'. injection Hd' as <-. rewrite Hr. cbn [wrap_err mbind outcome_bind].
  destruct Hq as [Q1 Q2 Q3 _ _]. apply run_later_bars; [|congruence|done].
  split; [done|split; congruence|by rewrite <-Q3].
Qed.
End Market.

(** ** Recovery as a whole *)

Lemma ema_of_wf hist periods :
  periods_ok periods -> len hist < 2 ^ 64 -> reducers_wf (ema_of hist) periods.
Proof.
  intros [_ Hv _] Hl p Hp. rewrite Forall_forall in Hv. specialize (Hv p Hp).
  split; [|done]. pose proof (len_nonneg hist). split; cbn; rewrite ?len_closes; [done|lia|].
  intros Hlt. rewrite ema_reference_None by (by rewrite len_closes). done.
Qed.

Lemma increasing_same_time hist a b :
  increasing hist -> a ∈ hist -> b ∈ hist -> bOpenTime a = bOpenTime b -> a = b.
Proof.
  induction 1 as [|x hist Hs IH Hx]; [set_solver|]. rewrite Forall_forall in Hx.
  intros [->|Ha]%elem_of_cons [->|Hb]%elem_of_cons Ht; [done| | |auto].
  - apply Hx in Hb. lia.
  - apply Hx in Ha. lia.
Qed.

Lemma last_app_elem {A} (l k : list A) x : last (l ++ k) = Some x -> k <> [] -> x ∈ k.
Proof.
  intros Hl Hk. destruct k as [|y k _] using rev_ind; [done|]. rewrite app_assoc, last_snoc in Hl.
  injection Hl as ->. set_solver.
Qed.

Lemma filter_all_false {A} (p : A -> bool) l : (forall x, x ∈ l -> p x = false) -> List.filter p l = [].
Proof.
  induction l as [|x l IH]; intros Hp; cbn; [done|]. rewrite Hp by (by left).
  apply IH. intros y Hy. apply Hp. by right.
Qed.

Lemma filter_all_true {A} (p : A -> bool) l : (forall x, x ∈ l -> p x = true) -> List.filter p l = l.
Proof.
  induction l as [|x l IH]; intros Hp; cbn; [done|]. rewrite Hp by (by left). f_equal.
  apply IH. intros y Hy. apply Hp. by right.
Qed.

(** The bars of a series as a seed delivers them. *)
Definition series_bars (key : SeriesKey) (bars : list Bar) : Prop :=
  increasing bars /\
  Forall (fun b => bClosed b = true /\ validateBar key b = Ok tt /\ bar_typed b) bars.

(** A durable checkpoint: taken after [hist1], with the cursor at the end of
    [hist1 ++ hist2]. *)
Record durable (periods : list Z) (hist1 hist2 : list Bar) (recovery : SeriesRecovery)
    (cp cur : Bar) (market : Market) : Prop := {
  du_cp : last hist1 = Some cp;
  du_cur : last (hist1 ++ hist2) = Some cur;
  du_time : srCursorOpenTime recovery = bOpenTime cur;
  du_hash : srCursorHash recovery = barFingerprint cur;
  du_bars : mkBars market = last_n marketHistoryLimit hist1;
  du_encodable : Forall bar_encodable (mkBars market);
  du_snapshots : exists data, Market_Snapshot market = Ok data /\
    checkpoint (ema_of hist1) periods (bOpenTime cp) data (srSnapshots recovery)
}.

(** How the bars of a covered recovery range are ordered. *)
Lemma recovery_order hist1 hist2 pre before cp cur post :
  increasing (hist1 ++ hist2 ++ post) -> hist1 = before ++ pre ++ [cp] -> last (hist1 ++ hist2) = Some cur ->
  (forall b, b ∈ pre -> bOpenTime b < bOpenTime cp) /\
  (forall b, b ∈ hist2 -> bOpenTime cp < bOpenTime b <= bOpenTime cur) /\
  (forall b, b ∈ post -> bOpenTime cur < bOpenTime b) /\
  bOpenTime cp <= bOpenTime cur /\
  (forall b, b ∈ cp :: hist2 -> bOpenTime b = bOpenTime cur -> b = cur) /\
  cur ∈ cp :: hist2.
Proof.
  intros Hinc Hh Hcur. rewrite app_assoc in Hinc. destruct (increasing_app_inv _ _ Hinc) as (Hi12 & _ & Hpost).
  destruct (increasing_app_inv _ _ Hi12) as (Hi1 & _ & H12).
  assert (Hcp : cp ∈ hist1) by (rewrite Hh; set_solver).
  assert (Hcin : cur ∈ cp :: hist2).
  { destruct hist2 as [|b hist2]; [|right; by eapply last_app_elem].
    rewrite app_nil_r, Hh, app_assoc, last_snoc in Hcur. injection Hcur as ->. by left. }
  assert (Hc12 : cur ∈ hist1 ++ hist2) by (apply elem_of_cons in Hcin as [->|?]; apply elem_of_app; auto).
  assert (Hle : forall b, b ∈ hist1 ++ hist2 -> bOpenTime b <= bOpenTime cur).
  { apply last_Some in Hcur as [l Hl]. rewrite Hl in *. destruct (increasing_app_inv _ _ Hi12) as (_ & _ & Hlt).
    intros b [Hb| ->%list_elem_of_singleton]%elem_of_app; [|lia].
    specialize (Hlt b cur Hb ltac:(set_solver)). lia. }
  split_and!.
  - intros b Hb. rewrite Hh, app_assoc in Hi1. apply increasing_app_inv in Hi1 as (_ & _ & Hi1).
    apply Hi1; set_solver.
  - intros b Hb. split; [by apply H12|apply Hle; set_solver].
  - intros b Hb. by apply Hpost.
  - apply Hle. set_solver.
  - intros b Hb Ht. eapply increasing_same_time; [exact Hi12| |done|done]. set_solver.
  - done.
Qed.

Section Recover.
Context `{Runtime}.

Lemma replay_recovers key periods recovery hist1 hist2 pre before cp cur post :
  periods_ok periods -> series_bars key (hist1 ++ hist2 ++ post) -> len (hist1 ++ hist2) < 2 ^ 64 - 1 ->
  hist1 = before ++ pre ++ [cp] -> last (hist1 ++ hist2) = Some cur ->
  srCursorOpenTime recovery = bOpenTime cur -> srCursorHash recovery = barFingerprint cur ->
  oloop (replay_step key (bOpenTime cp) recovery) ((pre ++ [cp]) ++ hist2 ++ post)
    (mkReplay (reducers_after periods hist1) None (len hist1) false false []) =
  Ok (mkReplay (reducers_after periods (hist1 ++ hist2)) (Some cur) (len (hist1 ++ hist2)) true true
        ((pre ++ [cp]) ++ hist2)).
Proof.
  intros Hp [Hinc Hall] Hlen Hh Hcur Htime Hhash. rewrite Forall_forall in Hall.
  destruct (recovery_order _ _ _ _ _ _ _ Hinc Hh Hcur) as (Ho1 & Ho2 & Ho3 & Ho4 & Ho5 & Ho6).
  assert (Hin : forall b, b ∈ pre ++ cp :: hist2 ++ post -> b ∈ hist1 ++ hist2 ++ post)
    by (rewrite Hh; set_solver).
  rewrite <-app_assoc, oloop_app, replay_before; [|apply Forall_forall|lia].
  2:{ intros b Hb. split; [apply Hall, Hin; set_solver|by apply Ho1]. }
  cbn [mbind outcome_bind rpReducers rpLastBar rpClosedCount rpFoundSnapshot rpFoundCursor rpMarketBars app].
  cbn [oloop]. destruct (Hall cp) as (Hc & Hv & _); [apply Hin; set_solver|].
  rewrite replay_checkpoint; [|done|done|done|lia|].
  2:{ intros Ht. rewrite Hhash. f_equal. apply Ho5; [by left|lia]. }
  cbn [mbind outcome_bind rpReducers rpLastBar rpClosedCount rpFoundSnapshot rpFoundCursor rpMarketBars].
  rewrite oloop_app, (replay_between key periods (bOpenTime cp) recovery Hp hist2 _ hist1); try done.
  - cbn [mbind outcome_bind rpFoundCursor rpMarketBars orb]. rewrite Hcur.
    assert (Hfound : at_cursor recovery cp || existsb (at_cursor recovery) hist2 = true).
    { unfold at_cursor. rewrite Htime. apply orb_true_iff. apply elem_of_cons in Ho6 as [->|Hc2].
      - left. apply Z.eqb_refl.
      - right. apply existsb_exists. exists cur. split; [by apply list_elem_of_In|apply Z.eqb_refl]. }
    rewrite Hfound. apply replay_after; [apply Forall_forall|lia]. intros b Hb. rewrite Htime.
    split; [apply Hall, Hin; set_solver|by apply Ho3].
  - apply Forall_forall. intros b Hb. rewrite Htime. destruct (Hall b) as (? & ? & _); [apply Hin; set_solver|].
    split_and!; try done; [by apply Ho2..|]. intros Ht. rewrite Hhash. f_equal. apply Ho5; [by right|done].
  - by rewrite <-len_app.
  - cbn. rewrite Hh, app_assoc, last_snoc. done.
Qed.

Lemma restore_plan_recovers key periods hist1 hist2 pre post cp cur saved_market recovery :
  periods_ok periods -> series_bars key (hist1 ++ hist2 ++ post) -> len (hist1 ++ hist2) < 2 ^ 64 - 1 ->
  lane_market saved_market -> durable periods hist1 hist2 recovery cp cur saved_market ->
  pre <> [] -> pre `suffix_of` hist1 ->
  exists market, restore_plan key periods recovery (pre ++ hist2 ++ post) =
      Ok (reducers_after periods (hist1 ++ hist2), market, cur, len (hist1 ++ hist2)) /\
    lane_market market /\ mkBars market = last_n marketHistoryLimit (hist1 ++ hist2).
Proof.
  intros Hp Hser Hlen Hsm [Hcp Hcur Htime Hhash Hmb Hme (data & Hdata & Hck)] Hpre [before Hsuf].
  assert (exists pre', pre = pre' ++ [cp]) as [pre' ->].
  { destruct pre as [|x pre _] using rev_ind; [done|]. exists pre. f_equal.
    rewrite Hsuf, app_assoc, last_snoc in Hcp. by injection Hcp as ->. }
  destruct Hser as [Hinc Hall].
  destruct (recovery_order _ _ _ _ _ _ _ Hinc Hsuf Hcur) as (Ho1 & Ho2 & _ & Ho4 & _).
  pose proof (len_nonneg hist2). pose proof (len_app hist1 hist2).
  unfold restore_plan. rewrite newReducers_of by apply Hp. cbn [mbind outcome_bind].
  destruct fresh_market_ok as (m0 & Hm0 & Hmw & _). rewrite Hm0. cbn [wrap_err mbind outcome_bind].
  destruct (restore_checkpoint (ema_of hist1) periods (bOpenTime cp) data (srSnapshots recovery))
    as (st & -> & Hr & Hsize & Hopen & Hmk); [done|apply ema_of_wf; [done|lia]|done|].
  cbn [mbind outcome_bind]. rewrite Hsize, Z.eqb_refl. cbn [negb].
  destruct (idx_is_Some periods 0) as [first Hfirst].
  { destruct Hp as [_ _ Hne]. destruct periods; [done|]. rewrite len_cons. pose proof (len_nonneg periods). lia. }
  pose proof (idx_elem_of _ _ _ Hfirst) as Hin. rewrite Hfirst. cbn [lift_panic mbind outcome_bind].
  rewrite Hr, (lookup_reducers_of_Some _ _ _ Hin), (Hopen first Hin). cbn [lift_panic mbind outcome_bind].
  assert (Hcount : EMA_Samples (ema_of hist1 first) = len hist1) by (cbn; apply len_closes).
  rewrite Hcount, Htime, (proj2 (Z.ltb_ge _ _)) by lia.
  assert (Hagree : oloop (same_checkpoint st (bOpenTime cp) (len hist1)) (drop 1 periods) tt = Ok tt).
  { destruct (oloop_Ok (fun _ => True) (same_checkpoint st (bOpenTime cp) (len hist1)) (drop 1 periods) tt)
      as ([] & ? & _); [done| |done].
    intros [] p Hpin%elem_of_drop_weaken _. exists tt. split; [|done]. unfold same_checkpoint.
    rewrite (Hopen p Hpin), Z.eqb_refl, Hr, lookup_reducers_of_Some by done. cbn.
    by rewrite len_closes, Z.eqb_refl. }
  rewrite Hagree. cbn [mbind outcome_bind].
  assert (Hreplay := replay_recovers key periods recovery hist1 hist2 pre' before cp cur post Hp
    (conj Hinc Hall) Hlen Hsuf Hcur Htime Hhash).
  unfold reducers_after in Hreplay at 1. rewrite Hreplay. cbn [mbind outcome_bind rpLastBar rpFoundSnapshot rpFoundCursor negb orb].
  rewrite Hmk. cbn [rpMarketBars rpReducers rpClosedCount].
  destruct (restore_market_saved recovery saved_market data (bOpenTime cp) m0 ((pre' ++ [cp]) ++ hist2) hist1)
    as (m & -> & Hm & Hb); [done..|apply Hmw|lia| |].
  { unfold trades_ok. apply Forall_forall. intros b Hb. rewrite Forall_forall in Hall.
    apply Hall. rewrite Hsuf. set_solver. }
  cbn [mbind outcome_bind]. exists m. split_and!; [done..|]. rewrite Hb. f_equal. f_equal.
  rewrite List.filter_app, filter_all_false, filter_all_true; [done|..].
  - intros b Hb2%Ho2. lia.
  - intros b [Hb2%Ho1| ->%list_elem_of_singleton]%elem_of_app; lia.
Qed.
End Recover.

(** ** Seeds in any order *)

Lemma strict_weak_time : StrictWeak (fun a b : Bar => bOpenTime a <? bOpenTime b).
Proof. exact (strict_weak_key bOpenTime). Qed.

Lemma increasing_sorted_by bars : increasing bars -> sorted_by (fun a b => bOpenTime a <? bOpenTime b) bars.
Proof.
  unfold sorted_by, increasing. induction 1 as [|b bars Hs IH Hb]; constructor; [done|].
  eapply Forall_impl; [exact Hb|]. cbn. lia.
Qed.

(** The order in which a seed arrives does not matter. *)
Lemma sort_seed_perm bars seed : increasing bars -> seed ≡ₚ bars -> sort_seed seed = bars.
Proof.
  intros Hi Hperm. unfold sort_seed. eapply StronglySorted_unique_strong.
  2: apply (sort_stable_sorted _ _ strict_weak_time).
  2: by apply increasing_sorted_by.
  2: by rewrite sort_stable_perm.
  cbn. intros a b Ha Hb H1 H2. rewrite sort_stable_perm, Hperm in Ha.
  eapply increasing_same_time; [exact Hi|done|done|]. lia.
Qed.

Section Catchup.
Context `{Runtime} {S : Type} `{StoreLaws S}.

(** A catch-up over bars that are all applied already does nothing. *)
Lemma applyCatchUpSeed_noop bars (w : World S) lastBar :
  lLastBar (wLane w) = Some lastBar ->
  Forall (fun b => bOpenTime b < bOpenTime lastBar \/ b = lastBar) bars ->
  applyCatchUpSeed bars w = (w, Ok tt).
Proof.
  intros Hl Hb. unfold applyCatchUpSeed. induction Hb as [|b bars Hb1 Hb IH]; cbn [for_each]; [done|].
  rewrite bind_run. destruct (negb (bClosed b)); [exact IH|]. rewrite bind_run. cbn [get_lane]. rewrite Hl.
  destruct Hb1 as [Hlt| ->].
  - rewrite (proj2 (Z.ltb_ge _ _)), (proj2 (Z.eqb_neq _ _)) by lia. exact IH.
  - rewrite Z.ltb_irrefl, Z.eqb_refl, String.eqb_refl. exact IH.
Qed.

(** A fresh lane recovers the whole history from the checkpoint and a seed
    that reaches from the checkpoint to the cursor, without publishing or
    writing anything. *)
Lemma applySeed_recovers hist1 hist2 pre cp cur saved_market recovery seed (w : World S) :
  lane_wf (wLane w) -> lLastBar (wLane w) = None ->
  LoadRecovery (wStore w) (lKey (wLane w)) = Ok recovery -> srHasCursor recovery = true ->
  series_bars (lKey (wLane w)) (hist1 ++ hist2) -> len (hist1 ++ hist2) < 2 ^ 64 - 1 ->
  lane_market saved_market ->
  durable (lPeriods (wLane w)) hist1 hist2 recovery cp cur saved_market ->
  pre <> [] -> pre `suffix_of` hist1 -> seed ≡ₚ pre ++ hist2 ->
  exists w', applySeed seed w = (w', Ok tt) /\ refines (wLane w') (hist1 ++ hist2) /\
    wStore w' = wStore w /\ wOut w' = wOut w.
Proof.
  intros Hwf Hl Hload Hcur Hser Hlen Hsm Hdu Hpre Hsuf Hseed.
  assert (Hsort : sort_seed seed = pre ++ hist2).
  { apply sort_seed_perm; [|done]. destruct Hsuf as [b Hb]. destruct Hser as [Hi _].
    rewrite Hb, <-app_assoc in Hi. by apply increasing_app_inv in Hi as (_ & Hi & _). }
  unfold applySeed. rewrite Hsort, bind_run. cbn [get_lane]. rewrite Hl, bind_run. unfold load_recovery.
  rewrite Hload. cbn [wrap_err]. rewrite Hcur. unfold try_else, restoreRecoverySeed.
  rewrite bind_run. cbn [get_lane]. rewrite bind_run. unfold lift.
  destruct (restore_plan_recovers (lKey (wLane w)) (lPeriods (wLane w)) hist1 hist2 pre [] cp cur
    saved_market recovery) as (m & Hplan & Hm & Hmb); [apply Hwf|by rewrite app_nil_r|done..|].
  rewrite app_nil_r in Hplan. rewrite Hplan. cbn [put_lane].
  eexists. split; [apply (applyCatchUpSeed_noop _ _ cur); [done|]|].
  - destruct Hser as [Hi _]. destruct Hdu as [_ Hlast _ _ _ _ _]. apply last_Some in Hlast as [l Hlast].
    apply Forall_forall. intros b Hb. assert (Hb' : b ∈ hist1 ++ hist2).
    { apply elem_of_app in Hb as [Hb|Hb]; [|set_solver]. apply elem_of_app. left. by eapply suffix_elem_of. }
    rewrite Hlast in Hb', Hi. apply increasing_app_inv in Hi as (_ & _ & Hi).
    apply elem_of_app in Hb' as [Hb'|Hb']; [left; apply Hi; [done|by left]|right; set_solver].
  - split_and!; try done. destruct Hdu. split; cbn; try done. rewrite du_cur0. by intros ? [= ->].
Qed.
End Catchup.
