(* ===== verification/LaneResume.v ===== *)
(** * Lanes that resume

    What a lane makes of whatever an earlier lane of the series left in the
    store: a seed that [restoreRecoverySeed] accepts takes the lane to the
    history of the checkpoint followed by the seed's bars up to the cursor, and
    snapshots that do not cover the lane's periods are refused. *)

From stdpp Require Import prelude gmap strings list sorting.
From Stdlib Require Import ZArith Lia SpecFloat String.
From S2P Require Import Prelude GoFloat GoText Sha256 Model Ema MarketZones MarketStructure.
From S2P Require Import ZonesProofs StructureProofs MarketReducer MarketProofs StoreSpec Lane.
From S2P Require Import LaneReducers LaneProofs LaneRefinement LaneRecovery.

#[local] Open Scope string_scope.
#[local] Open Scope list_scope.
#[local] Open Scope Z_scope.

#[local] Opaque sha256_hex EvaluateMarket barFingerprint MarketAlgorithm emaAlgorithm.

(** ** The snapshots a lane reads *)

(** The snapshots of the lane's own periods and algorithms, and the market's:
    the store may hold others, of a configuration that has changed since. *)
Definition read_by (periods : list Z) (s : ReducerSnapshot) : bool :=
  ((rsPeriod s =? 0) && bool_decide (rsAlgorithm s = MarketAlgorithm DefaultMarketConfig)) ||
  (bool_decide (rsPeriod s ∈ periods) && bool_decide (rsAlgorithm s = emaAlgorithm (rsPeriod s))).

Lemma restore_snapshot_dom st s st' :
  restore_snapshot st s = Ok st' -> dom (rtReducers st') = dom (rtReducers st).
Proof.
  unfold restore_snapshot. destruct (_ && _); [by intros [= <-]|].
  destruct (rtReducers st !! rsPeriod s) eqn:E; [|by intros [= <-]]. destruct (negb _); [by intros [= <-]|].
  destruct (rtByPeriod st !! rsPeriod s); [done|]. intros (e' & _ & [= <-])%obind_Ok. cbn.
  rewrite dom_insert_L. apply elem_of_dom_2 in E. set_solver.
Qed.

Lemma restore_snapshot_other periods st s :
  dom (rtReducers st) = list_to_set periods -> read_by periods s = false -> restore_snapshot st s = Ok st.
Proof.
  intros Hd Hr. unfold read_by in Hr. apply orb_false_iff in Hr as [Hm He]. unfold restore_snapshot. rewrite Hm.
  destruct (rtReducers st !! rsPeriod s) eqn:E; [|done]. apply elem_of_dom_2 in E. rewrite Hd, elem_of_list_to_set in E.
  rewrite (bool_decide_true (_ ∈ periods)) in He by done. cbn in He. by rewrite He.
Qed.

(** The other snapshots are passed over. *)
Lemma restore_reads periods snaps st :
  dom (rtReducers st) = list_to_set periods ->
  oloop restore_snapshot snaps st = oloop restore_snapshot (List.filter (read_by periods) snaps) st.
Proof.
  revert st. induction snaps as [|s snaps IH]; intros st Hd; cbn [oloop List.filter]; [done|].
  destruct (read_by periods s) eqn:Hr.
  - cbn [oloop]. destruct (restore_snapshot st s) as [st'|e|] eqn:E; cbn [mbind outcome_bind]; [|done..].
    apply IH. by rewrite (restore_snapshot_dom _ _ _ E).
  - rewrite (restore_snapshot_other _ _ _ Hd Hr). cbn [mbind outcome_bind]. by apply IH.
Qed.

(** Only snapshots that were read are entered by their period. *)
Lemma restore_entered periods snaps st st' p :
  dom (rtReducers st) = list_to_set periods ->
  oloop restore_snapshot snaps st = Ok st' -> is_Some (rtByPeriod st' !! p) ->
  is_Some (rtByPeriod st !! p) \/ p ∈ periods /\ p ∈ map rsPeriod (List.filter (read_by periods) snaps).
Proof.
  revert st. induction snaps as [|s snaps IH]; intros st Hd; cbn [oloop]; [intros [= <-]; by left|].
  intros (st1 & H1 & Hrest)%obind_Ok Hp.
  assert (Hd1 : dom (rtReducers st1) = list_to_set periods) by (by rewrite (restore_snapshot_dom _ _ _ H1)).
  destruct (read_by periods s) eqn:Hr; cbn [List.filter]; rewrite Hr.
  - destruct (IH st1 Hd1 Hrest Hp) as [H1p|Hin]; [|right; cbn; set_solver].
    unfold restore_snapshot in H1. destruct (_ && _); [injection H1 as <-; by left|].
    destruct (rtReducers st !! rsPeriod s) eqn:E; [|injection H1 as <-; by left]. destruct (negb _); [injection H1 as <-; by left|].
    destruct (rtByPeriod st !! rsPeriod s); [done|]. apply obind_Ok in H1 as (e' & _ & [= <-]). cbn in H1p.
    apply elem_of_dom_2 in E. rewrite Hd, elem_of_list_to_set in E.
    apply lookup_insert_is_Some in H1p as [<-|[_ ?]]; [right; cbn; set_solver|by left].
  - rewrite (restore_snapshot_other _ _ _ Hd Hr) in H1. injection H1 as <-. by apply IH.
Qed.

(** Snapshots that miss a period of the lane. *)
Definition incomplete (periods : list Z) (snaps : list ReducerSnapshot) : Prop :=
  exists p, p ∈ periods /\ p ∉ map rsPeriod (List.filter (read_by periods) snaps).

Lemma dom_new_reducers periods : dom (reducers_of new_ema periods) = list_to_set periods.
Proof.
  apply set_eq. intros p. rewrite elem_of_dom, elem_of_list_to_set, lookup_reducers_of.
  destruct (decide (p ∈ periods)); split; (done || by intros [? ?]).
Qed.

Section Resume.
Context `{Runtime}.

Lemma restore_plan_incomplete key periods recovery bars plan :
  periods_ok periods -> incomplete periods (srSnapshots recovery) -> restore_plan key periods recovery bars <> Ok plan.
Proof.
  intros Hp (p & Hin & Hout) Hplan. unfold restore_plan in Hplan. rewrite newReducers_of in Hplan by apply Hp.
  cbn [mbind outcome_bind] in Hplan. apply obind_Ok in Hplan as (m & _ & Hplan).
  apply obind_Ok in Hplan as (st & Hst & Hplan).
  assert (Hsub : dom (rtByPeriod st) ⊆ (list_to_set periods : gset Z) ∖ {[p]}).
  { intros q Hq%elem_of_dom. destruct (restore_entered periods _ (mkRestore (reducers_of new_ema periods) ∅ None) st q (dom_new_reducers periods) Hst Hq) as [[? Hx]|[? ?]];
      [cbn in Hx; by rewrite lookup_empty in Hx|]. set_solver. }
  apply subseteq_size in Hsub. rewrite size_dom, size_difference, size_singleton, size_list_to_set in Hsub;
    [|by apply periods_NoDup|set_solver].
  assert (Datatypes.length periods <> 0%nat) by (by destruct periods; [set_solver|]).
  destruct (Z.eqb_spec (Z.of_nat (size (rtByPeriod st))) (len periods)) as [He|]; [unfold len in He; lia|done].
Qed.

(** ** What a replay has applied *)

Variables (key : SeriesKey) (periods : list Z) (snapshotTime : Z) (recovery : SeriesRecovery).
Hypothesis Hperiods : periods_ok periods.
#[local] Abbreviation cursor := (srCursorOpenTime recovery).
Hypothesis Hcursor : snapshotTime <= cursor.

(** Closed bars up to the cursor: all of them, from the checkpoint on, and
    after it. *)
Definition up_to (cursor : Z) (b : Bar) : bool := bClosed b && (bOpenTime b <=? cursor).
Definition from_to (first cursor : Z) (b : Bar) : bool := up_to cursor b && (first <=? bOpenTime b).
Definition after_to (first cursor : Z) (b : Bar) : bool := up_to cursor b && (first <? bOpenTime b).

Lemma replay_one st st' b hist :
  replay_step key snapshotTime recovery st b = Ok st' -> len hist < 2 ^ 64 - 1 ->
  rpReducers st = reducers_after periods hist -> rpClosedCount st = len hist ->
  let hist' := hist ++ List.filter (after_to snapshotTime cursor) [b] in
  rpReducers st' = reducers_after periods hist' /\ rpClosedCount st' = len hist' /\
  rpMarketBars st' = rpMarketBars st ++ List.filter (up_to cursor) [b] /\
  rpLastBar st' = (if from_to snapshotTime cursor b then Some b else rpLastBar st) /\
  (from_to snapshotTime cursor b = true -> bOpenTime b = cursor -> barFingerprint b = srCursorHash recovery) /\
  rpFoundCursor st' = rpFoundCursor st || (from_to snapshotTime cursor b && (bOpenTime b =? cursor)).
Proof.
  intros Hs Hlen Hr Hn hist'. subst hist'. unfold replay_step in Hs. cbn [List.filter].
  unfold from_to, after_to, up_to. rewrite <-Z.leb_antisym in Hs. pose proof (len_nonneg hist).
  destruct (bClosed b); cbn [negb andb orb] in *; [|injection Hs as <-; rewrite !app_nil_r, orb_false_r; done].
  destruct (Z.ltb_spec (bOpenTime b) snapshotTime) as [Hlt|Hge].
  { injection Hs as <-. cbn. rewrite (proj2 (Z.leb_le (bOpenTime b) cursor)), (proj2 (Z.leb_gt snapshotTime _)),
      (proj2 (Z.ltb_ge snapshotTime _)) by lia. cbn. rewrite !app_nil_r, orb_false_r. done. }
  apply obind_Ok in Hs as ([] & Hv & Hs). apply obind_Ok in Hs as (st2 & H2 & Hs).
  rewrite (proj2 (Z.leb_le snapshotTime _)) by lia.
  assert (Hst' : rpReducers st' = rpReducers st2 /\ rpClosedCount st' = rpClosedCount st2 /\
    rpMarketBars st' = rpMarketBars st2 /\ rpLastBar st' = rpLastBar st2 /\
    (bOpenTime b = cursor -> barFingerprint b = srCursorHash recovery) /\
    rpFoundCursor st' = rpFoundCursor st2 || (bOpenTime b =? cursor)).
  { destruct (Z.eqb_spec (bOpenTime b) cursor); [|injection Hs as <-; by rewrite orb_false_r].
    destruct (String.eqb_spec (barFingerprint b) (srCursorHash recovery)); [|done]. injection Hs as <-.
    by rewrite orb_true_r. }
  clear Hs. destruct Hst' as (-> & -> & -> & -> & Hfp & ->).
  destruct (Z.eqb_spec (bOpenTime b) snapshotTime) as [He|Hne].
  { injection H2 as <-. cbn. rewrite (proj2 (Z.leb_le (bOpenTime b) cursor)), (proj2 (Z.ltb_ge snapshotTime _)) by lia.
    cbn. rewrite !app_nil_r. done. }
  rewrite (proj2 (Z.ltb_lt snapshotTime _)) by lia.
  destruct (Z.leb_spec (bOpenTime b) cursor) as [Hle|Hgt].
  - replace ((bOpenTime b <? cursor) || (bOpenTime b =? cursor)) with true in H2 by lia.
    destruct (negb (rpFoundSnapshot st)); [done|].
    destruct (reduce_after key periods hist b (revisionForBar b)) as [points Hred];
      [done|lia|by eapply validateBar_finite|].
    rewrite Hr, Hred in H2. injection H2 as <-. cbn. rewrite len_snoc, Hn, wrap_u64_id by lia. done.
  - replace ((bOpenTime b <? cursor) || (bOpenTime b =? cursor)) with false in H2 by lia.
    rewrite (proj2 (Z.eqb_neq (bOpenTime b) cursor)) by lia. injection H2 as <-. cbn.
    rewrite !app_nil_r, !orb_false_r. done.
Qed.

Lemma replay_all bars st st' hist :
  oloop (replay_step key snapshotTime recovery) bars st = Ok st' -> len hist + len bars < 2 ^ 64 - 1 ->
  rpReducers st = reducers_after periods hist -> rpClosedCount st = len hist ->
  let hist' := hist ++ List.filter (after_to snapshotTime cursor) bars in
  rpReducers st' = reducers_after periods hist' /\ rpClosedCount st' = len hist' /\
  rpMarketBars st' = rpMarketBars st ++ List.filter (up_to cursor) bars /\
  rpLastBar st' = match last (List.filter (from_to snapshotTime cursor) bars) with
                  | Some b => Some b | None => rpLastBar st end /\
  Forall (fun b => from_to snapshotTime cursor b = true -> bOpenTime b = cursor ->
                   barFingerprint b = srCursorHash recovery) bars /\
  rpFoundCursor st' = rpFoundCursor st ||
    existsb (fun b => from_to snapshotTime cursor b && (bOpenTime b =? cursor)) bars.
Proof.
  revert st hist. induction bars as [|b bars IH]; intros st hist Hl Hlen Hr Hn hist'; subst hist'.
  - injection Hl as <-. cbn. rewrite !app_nil_r, orb_false_r. split_and!; done.
  - cbn [oloop] in Hl. apply obind_Ok in Hl as (st1 & H1 & Hl). rewrite len_cons in Hlen. pose proof (len_nonneg bars).
    destruct (replay_one _ _ _ hist H1) as (Hr1 & Hn1 & Hm1 & Hb1 & Hf1 & Hc1); [lia|done..|].
    destruct (IH st1 (hist ++ List.filter (after_to snapshotTime cursor) [b]) Hl) as (Hr2 & Hn2 & Hm2 & Hb2 & Hf2 & Hc2); [|exact Hr1|exact Hn1|].
    { rewrite len_app. cbn [List.filter]. destruct (after_to _ _ b); rewrite ?len_cons, len_nil; lia. }
    rewrite <-app_assoc, <-List.filter_app in Hr2, Hn2. cbn [app] in Hr2, Hn2.
    rewrite Hm1, <-app_assoc, <-List.filter_app in Hm2. cbn [app] in Hm2.
    split_and!; [done..| |by constructor|].
    + rewrite Hb2, Hb1. cbn [List.filter]. destruct (from_to snapshotTime cursor b); [|done].
      destruct (List.filter (from_to snapshotTime cursor) bars) as [|x l] eqn:E; [done|].
      rewrite last_cons_cons. by destruct (last (x :: l)) eqn:El; [|apply last_None in El].
    + rewrite Hc2, Hc1. cbn [existsb]. by rewrite orb_assoc.
Qed.
End Resume.

(** ** What an earlier lane left *)

(** The snapshots that a lane of these periods reads are the checkpoint that
    was saved after [hist1], whose last bar is [cp]. *)
Record left_by `{Runtime} (periods : list Z) (recovery : SeriesRecovery) (hist1 : list Bar) (cp : Bar) : Prop := {
  lb_order : increasing hist1;
  lb_last : last hist1 = Some cp;
  lb_saved : exists market data, lane_market market /\ mkBars market = last_n marketHistoryLimit hist1 /\
    Forall bar_encodable (mkBars market) /\ Market_Snapshot market = Ok data /\
    checkpoint (ema_of hist1) periods (bOpenTime cp) data (List.filter (read_by periods) (srSnapshots recovery))
}.

(** A seed that the checkpoint can be continued with: no two closed bars after
    the checkpoint and up to the cursor share a time, and when the cursor is at
    the checkpoint, only the bar of the checkpoint has the cursor's hash. *)
Record continues (recovery : SeriesRecovery) (cp : Bar) (bars : list Bar) : Prop := {
  ct_once : NoDup (map bOpenTime (List.filter (after_to (bOpenTime cp) (srCursorOpenTime recovery)) bars));
  ct_same : forall b, b ∈ bars -> bClosed b = true -> bOpenTime b = bOpenTime cp ->
    srCursorOpenTime recovery = bOpenTime cp -> barFingerprint b = srCursorHash recovery -> b = cp
}.

Definition in_order : list Bar -> Prop := sorted_by (fun a b => bOpenTime a <? bOpenTime b).

Lemma in_order_cons b bars :
  in_order (b :: bars) -> in_order bars /\ forall x, x ∈ bars -> bOpenTime b <= bOpenTime x.
Proof.
  intros [Hs Hf]%StronglySorted_inv. split; [exact Hs|]. intros x Hx. rewrite Forall_forall in Hf.
  specialize (Hf x Hx). lia.
Qed.

Lemma in_order_increasing (p : Bar -> bool) bars :
  in_order bars -> NoDup (map bOpenTime (List.filter p bars)) -> increasing (List.filter p bars).
Proof.
  induction bars as [|b bars IH]; intros Hs; cbn [List.filter]; [constructor|].
  apply in_order_cons in Hs as [Hs Hle]. destruct (p b); [|by apply IH]. cbn [map].
  intros [Hn Hnd]%NoDup_cons. constructor; [by apply IH|]. apply Forall_forall. intros x Hx.
  assert (Hx' : x ∈ bars) by (apply list_elem_of_In, filter_In in Hx as [Hx _]; by apply list_elem_of_In).
  specialize (Hle x Hx'). assert (bOpenTime b <> bOpenTime x); [|lia].
  intros He. apply Hn. rewrite He. by apply list_elem_of_fmap_2.
Qed.

(** In order, the last bar from the checkpoint on is the last one after it,
    if there is any. *)
Lemma last_from_after first cursor bars b :
  in_order bars -> last (List.filter (from_to first cursor) bars) = Some b ->
  List.filter (after_to first cursor) bars <> [] -> last (List.filter (after_to first cursor) bars) = Some b.
Proof.
  induction bars as [|x bars IH]; intros Hs Hl Hne; [done|]. apply in_order_cons in Hs as [Hs Hle].
  cbn [List.filter] in *. unfold from_to at 1 in Hl. unfold after_to at 1 in Hne. unfold after_to at 1.
  destruct (up_to cursor x); cbn [andb] in *; [|by apply IH].
  destruct (Z.ltb_spec first (bOpenTime x)) as [Hlt|Hge].
  - rewrite (proj2 (Z.leb_le _ _)) in Hl by lia.
    assert (Heq : List.filter (after_to first cursor) bars = List.filter (from_to first cursor) bars).
    { apply filter_ext_in. intros y Hy%list_elem_of_In%Hle. unfold after_to, from_to. f_equal. lia. }
    by rewrite Heq.
  - apply IH; [done| |done]. destruct (first <=? bOpenTime x); [|done].
    destruct (List.filter (from_to first cursor) bars) as [|y l] eqn:E; [|by rewrite last_cons_cons in Hl].
    exfalso. destruct (List.filter (after_to first cursor) bars) as [|z l] eqn:E2; [done|].
    assert (Hz : z ∈ List.filter (after_to first cursor) bars) by (rewrite E2; by left).
    apply list_elem_of_In, filter_In in Hz as [Hz Ha]. assert (Hf : z ∈ List.filter (from_to first cursor) bars).
    { apply list_elem_of_In, filter_In. split; [done|]. unfold after_to, from_to in *. rewrite andb_true_iff in *. split; [tauto|lia]. }
    rewrite E in Hf. set_solver.
Qed.

Lemma filter_twice {A} (p q : A -> bool) l :
  List.filter p (List.filter q l) = List.filter (fun x => q x && p x) l.
Proof. induction l as [|x l IH]; cbn [List.filter]; [done|]. destruct (q x); cbn; by rewrite IH. Qed.

Lemma in_order_last bars b x : in_order bars -> last bars = Some b -> x ∈ bars -> bOpenTime x <= bOpenTime b.
Proof.
  induction bars as [|y bars IH]; intros Hs Hl Hx; [done|]. apply in_order_cons in Hs as [Hs Hle].
  destruct bars as [|z bars]; [injection Hl as ->; set_solver|]. rewrite last_cons_cons in Hl.
  apply elem_of_cons in Hx as [->|Hx]; [|by apply IH]. apply Hle. by apply last_Some_elem_of.
Qed.

Lemma in_order_filter (p : Bar -> bool) bars : in_order bars -> in_order (List.filter p bars).
Proof.
  induction 1 as [|b bars Hs IH Hb]; cbn [List.filter]; [constructor|]. destruct (p b); [|done].
  constructor; [done|]. apply Forall_forall. intros x [Hx _]%list_elem_of_In%filter_In. rewrite Forall_forall in Hb.
  by apply Hb, list_elem_of_In.
Qed.

(** The history a replay ends at: ordered, and up to the cursor. *)
Lemma continued_history recovery bars hist1 cp b :
  increasing hist1 -> last hist1 = Some cp -> continues recovery cp bars -> in_order bars ->
  bOpenTime cp <= srCursorOpenTime recovery ->
  last (List.filter (from_to (bOpenTime cp) (srCursorOpenTime recovery)) bars) = Some b ->
  Forall (fun b => from_to (bOpenTime cp) (srCursorOpenTime recovery) b = true -> bOpenTime b = srCursorOpenTime recovery ->
                   barFingerprint b = srCursorHash recovery) bars ->
  existsb (fun b => from_to (bOpenTime cp) (srCursorOpenTime recovery) b && (bOpenTime b =? srCursorOpenTime recovery)) bars = true ->
  let hist := hist1 ++ List.filter (after_to (bOpenTime cp) (srCursorOpenTime recovery)) bars in
  last hist = Some b /\ increasing hist /\
  bOpenTime b = srCursorOpenTime recovery /\ barFingerprint b = srCursorHash recovery.
Proof.
  intros Hi Hl [Honce Hsame] Hord Hle Hlast Hfp (c & Hc%list_elem_of_In & Hcc)%existsb_exists hist. subst hist.
  apply andb_true_iff in Hcc as [Hcf Hct]. rewrite Forall_forall in Hfp.
  assert (Hb : b ∈ bars /\ from_to (bOpenTime cp) (srCursorOpenTime recovery) b = true).
  { apply last_Some_elem_of in Hlast. rewrite list_elem_of_In, filter_In in Hlast. by rewrite list_elem_of_In. }
  destruct Hb as [Hb Hbf].
  assert (Hcb : bOpenTime c <= bOpenTime b).
  { eapply in_order_last; [by apply in_order_filter|exact Hlast|]. apply list_elem_of_In, filter_In. by rewrite <-list_elem_of_In. }
  assert (Hbr : bClosed b = true /\ bOpenTime cp <= bOpenTime b <= srCursorOpenTime recovery)
    by (unfold from_to, up_to in Hbf; rewrite !andb_true_iff in Hbf; destruct Hbf as [[? ?] ?]; split; [done|lia]).
  assert (Hbt : bOpenTime b = srCursorOpenTime recovery) by lia. pose proof (Hfp b Hb Hbf Hbt) as Hbh.
  split_and!; [|apply StronglySorted_app_2; [|done|by apply in_order_increasing]|done|done].
  - destruct (decide (List.filter (after_to (bOpenTime cp) (srCursorOpenTime recovery)) bars = [])) as [Hn|Hn].
    + rewrite Hn, app_nil_r, Hl. f_equal. symmetry. apply Hsame; [done|apply Hbr|..|done].
      all: destruct (Z.lt_ge_cases (bOpenTime cp) (bOpenTime b)) as [Hlt|]; [exfalso|lia].
      all: assert (Hin : b ∈ List.filter (after_to (bOpenTime cp) (srCursorOpenTime recovery)) bars)
        by (apply list_elem_of_In, filter_In; split; [by apply list_elem_of_In|]; unfold after_to, up_to; rewrite (proj1 Hbr); lia).
      all: rewrite Hn in Hin; set_solver.
    + rewrite last_app, (last_from_after _ _ _ b); done.
  - intros x y Hx [_ Hy]%list_elem_of_In%filter_In. apply last_Some in Hl as [h ->].
    assert (bOpenTime x <= bOpenTime cp); [|unfold after_to in Hy; apply andb_true_iff in Hy as [_ Hy]; lia].
    apply elem_of_app in Hx as [Hx| ->%list_elem_of_singleton]; [|lia].
    apply increasing_app_inv in Hi as (_ & _ & Hi). specialize (Hi x cp Hx ltac:(set_solver)). lia.
Qed.

Section Restored.
Context `{Runtime}.

(** A recovery that goes through has taken the lane to the history of the
    checkpoint and the bars of the seed up to the cursor. *)
Lemma restore_plan_history key periods recovery bars hist1 cp reducers market lastBar count :
  periods_ok periods -> len hist1 + len bars < 2 ^ 64 - 1 -> Forall bar_typed bars -> in_order bars ->
  left_by periods recovery hist1 cp -> continues recovery cp bars ->
  restore_plan key periods recovery bars = Ok (reducers, market, lastBar, count) ->
  let hist := hist1 ++ List.filter (after_to (bOpenTime cp) (srCursorOpenTime recovery)) bars in
  reducers = reducers_after periods hist /\ mkBars market = last_n marketHistoryLimit hist /\
  last hist = Some lastBar /\ count = len hist /\ increasing hist /\
  bOpenTime lastBar = srCursorOpenTime recovery /\ barFingerprint lastBar = srCursorHash recovery.
Proof.
  intros Hp Hlen Ht Hord [Hi1 Hlast (saved_market & data & Hsm & Hmb & Hme & Hdata & Hck)] Hct Hplan hist. subst hist.
  pose proof (len_nonneg bars). unfold restore_plan in Hplan. rewrite newReducers_of in Hplan by apply Hp. cbn [mbind outcome_bind] in Hplan.
  destruct fresh_market_ok as (m0 & Hm0 & Hmw & _). rewrite Hm0 in Hplan. cbn [wrap_err mbind outcome_bind] in Hplan.
  rewrite (restore_reads periods) in Hplan by apply dom_new_reducers.
  destruct (restore_checkpoint (ema_of hist1) periods (bOpenTime cp) data (List.filter (read_by periods) (srSnapshots recovery)))
    as (st & Hst & Hr & Hsize & Hopen & Hmk); [done|apply ema_of_wf; [done|lia]|done|].
  rewrite Hst in Hplan. cbn [mbind outcome_bind] in Hplan. rewrite Hsize, Z.eqb_refl in Hplan. cbn [negb] in Hplan.
  apply obind_Ok in Hplan as (first & Hfirst & Hplan).
  assert (Hin : first ∈ periods) by (destruct (idx periods 0) eqn:E; [injection Hfirst as ->; by eapply idx_elem_of|done]).
  rewrite Hr, (lookup_reducers_of_Some _ _ _ Hin), (Hopen first Hin) in Hplan. cbn [lift_panic mbind outcome_bind] in Hplan.
  change (EMA_Samples (ema_of hist1 first)) with (len (map bClose hist1)) in Hplan. rewrite len_closes in Hplan.
  destruct (Z.ltb_spec (srCursorOpenTime recovery) (bOpenTime cp)) as [|Hle]; [done|].
  apply obind_Ok in Hplan as ([] & _ & Hplan). apply obind_Ok in Hplan as (rp & Hrp & Hplan).
  destruct (replay_all key periods (bOpenTime cp) recovery Hp Hle bars _ rp hist1 Hrp) as (R1 & R2 & R3 & R4 & R5 & R6); [done..|].
  cbn [rpMarketBars rpLastBar rpFoundCursor app orb] in R3, R4, R6.
  destruct (rpLastBar rp) as [b|]; [|done]. destruct (negb (rpFoundSnapshot rp)); [done|]. cbn [orb] in Hplan.
  destruct (rpFoundCursor rp); [|done]. cbn [negb] in Hplan. apply obind_Ok in Hplan as (m & Hm & [= <- <- <- <-]).
  rewrite Hmk in Hm.
  destruct (restore_market_saved recovery saved_market data (bOpenTime cp) m0 (rpMarketBars rp) hist1)
    as (m' & Hm' & _ & Hbars); [done..|apply Hmw|done| |].
  { rewrite R3. apply Forall_forall. intros x [Hx _]%list_elem_of_In%filter_In. rewrite Forall_forall in Ht. by apply Ht, list_elem_of_In. }
  rewrite Hm in Hm'. injection Hm' as <-.
  destruct (continued_history recovery bars hist1 cp b) as (C1 & C2 & C3 & C4); [done|done|done|done|done| |done|by rewrite <-R6|].
  { destruct (last (List.filter _ bars)); congruence. }
  split_and!; try done. rewrite Hbars, R3, filter_twice. done.
Qed.
End Restored.
