(* ===== verification/LaneHistory.v ===== *)
(** * Lanes as state machines

    A lane that starts from [NewLane] and runs commands, on an empty store or
    on what an earlier lane left: whatever the commands, their errors included,
    its canonical state is that of one history of closed bars, and times only
    grow along that history. *)

From stdpp Require Import prelude gmap strings list sorting.
From Stdlib Require Import ZArith Lia SpecFloat String.
From S2P Require Import Prelude GoFloat GoText Sha256 Model Ema MarketZones MarketStructure.
From S2P Require Import ZonesProofs StructureProofs MarketReducer MarketProofs StoreSpec Lane.
From S2P Require Import LaneReducers LaneProofs LaneRefinement LaneRecovery LaneResume.

#[local] Open Scope string_scope.
#[local] Open Scope list_scope.
#[local] Open Scope Z_scope.

#[local] Opaque sha256_hex EvaluateMarket barFingerprint MarketAlgorithm emaAlgorithm.

Lemma increasing_snoc hist bar :
  increasing hist -> (forall b, last hist = Some b -> bOpenTime b < bOpenTime bar) ->
  increasing (hist ++ [bar]).
Proof.
  intros Hi Hl. unfold increasing in *. apply StronglySorted_app_2; [|done|by repeat constructor].
  intros x y Hx ->%list_elem_of_singleton. destruct (last hist) as [b|] eqn:E; [|apply last_None in E; set_solver].
  specialize (Hl b eq_refl). apply last_Some in E as [h ->]. apply increasing_app_inv in Hi as (_ & _ & Hlt).
  apply elem_of_app in Hx as [Hx| ->%list_elem_of_singleton]; [|done]. specialize (Hlt x b Hx ltac:(set_solver)). lia.
Qed.

(** What a command may do to the history: append bars of its own, in order, or
    replace it by the history of its seed. *)
Definition grows (hist hist' : list Bar) (bars : list Bar) : Prop :=
  exists more, hist' = hist ++ more /\ Forall (fun b => b ∈ bars /\ bClosed b = true) more.

Lemma grows_refl hist bars : grows hist hist bars.
Proof. exists []. rewrite app_nil_r. auto. Qed.

Lemma grows_trans h1 h2 h3 bars : grows h1 h2 bars -> grows h2 h3 bars -> grows h1 h3 bars.
Proof.
  intros (m1 & -> & F1) (m2 & -> & F2). exists (m1 ++ m2). rewrite app_assoc. split; [done|]. by apply Forall_app.
Qed.

Lemma grows_subset h1 h2 bars bars' : (forall b, b ∈ bars -> b ∈ bars') -> grows h1 h2 bars -> grows h1 h2 bars'.
Proof. intros Hs (m & -> & F). exists m. split; [done|]. eapply Forall_impl; [exact F|]. cbn. naive_solver. Qed.

Lemma seed_history_ordered hist bars : increasing hist -> increasing (seed_history hist bars).
Proof.
  revert hist. induction bars as [|b bars IH]; intros hist Hi; cbn; [done|].
  destruct (bClosed b && _) eqn:E; [|by apply IH]. apply IH, increasing_snoc; [done|]. intros x Hx.
  rewrite Hx in E. apply andb_true_iff in E as [_ E]. lia.
Qed.

(** A lane at a history: well formed, refining it, with increasing times. *)
Definition lane_at {S} (w : World S) (hist : list Bar) : Prop :=
  refines (wLane w) hist /\ increasing hist.

Section History.
Context `{Runtime} {S : Type} `{StoreLaws S}.

(** [applyClosed], whatever it returns. *)
Lemma applyClosed_history bar hist (w w' : World S) r :
  lane_wf (wLane w) -> lane_at w hist -> len hist < 2 ^ 64 - 1 -> bar_typed bar ->
  applyClosed bar w = (w', r) -> exists hist', lane_at w' hist' /\ grows hist hist' [bar] /\ len hist' <= len hist + 1.
Proof.
  intros Hwf [Hr Hi] Hlen Hb Hrun.
  destruct (applyClosed_advances _ _ _ _ _ Hwf Hr Hlen Hb Hrun) as [[E _]|[Href (Hc & _ & Hn)]].
  - exists hist. split_and!; [by split; rewrite ?E|apply grows_refl|lia].
  - exists (hist ++ [bar]). split_and!; [split; [done|]| |rewrite len_snoc; lia].
    + apply increasing_snoc; [done|]. intros b Hlb. apply Hn. by rewrite (rf_last _ _ Hr).
    + exists [bar]. split; [done|]. apply Forall_singleton. split; [set_solver|done].
Qed.

Lemma applyCatchUpSeed_history bars hist (w w' : World S) r :
  lane_wf (wLane w) -> lane_at w hist -> len hist + len bars < 2 ^ 64 - 1 -> Forall bar_typed bars ->
  applyCatchUpSeed bars w = (w', r) ->
  exists hist', lane_at w' hist' /\ grows hist hist' bars /\ len hist' <= len hist + len bars.
Proof.
  intros Hwf Hat Hlen Ht. revert w hist Hwf Hat Hlen. unfold applyCatchUpSeed.
  induction Ht as [|b bars Hb Ht IH]; intros w hist Hwf Hat Hlen; cbn [for_each].
  - intros [= <- <-]. exists hist. split_and!; [done|apply grows_refl|rewrite len_nil; lia].
  - rewrite len_cons in *. pose proof (len_nonneg bars). rewrite bind_run.
    match goal with |- context [match ?m with (_, _) => _ end = _] => destruct m as [w1 r1] eqn:Hstep end.
    assert (Hcount : lClosedCount (wLane w) = len hist) by apply Hat.
    assert (Hone : lane_wf (wLane w1) /\
      exists h1, lane_at w1 h1 /\ grows hist h1 [b] /\ len h1 <= len hist + 1).
    { assert (Hstay : w1 = w -> lane_wf (wLane w1) /\
        exists h1, lane_at w1 h1 /\ grows hist h1 [b] /\ len h1 <= len hist + 1)
        by (intros ->; split; [done|]; exists hist; split_and!; [done|apply grows_refl|lia]).
      assert (Happly : applyClosed b w = (w1, r1) -> lane_wf (wLane w1) /\
        exists h1, lane_at w1 h1 /\ grows hist h1 [b] /\ len h1 <= len hist + 1).
      { intros Hrun. split; [|eapply applyClosed_history; [done|done|lia|done..]].
        eapply applyClosed_wf in Hrun; [apply Hrun|done|lia|done]. }
      destruct (negb (bClosed b)); [injection Hstep as <- <-; auto|].
      rewrite bind_run in Hstep. cbn [get_lane] in Hstep.
      destruct (lLastBar (wLane w)) as [lastBar|]; [|auto].
      destruct (negb (bOpenTime lastBar <? bOpenTime b)); [|auto].
      destruct (_ && _); injection Hstep as <- <-; auto. }
    destruct Hone as (Hwf1 & h1 & Hat1 & Hg1 & Hl1).
    assert (Hg1' : grows hist h1 (b :: bars)) by (eapply grows_subset; [|exact Hg1]; set_solver).
    destruct r1 as [[]|e|]; [|intros [= <- <-]; exists h1; split_and!; [done..|lia]..].
    intros (h2 & Hat2 & Hg2 & Hl2)%(IH w1 h1); [|done|done|lia]. exists h2. split_and!; [done| |lia].
    eapply grows_trans; [exact Hg1'|]. eapply grows_subset; [|exact Hg2]. set_solver.
Qed.

Lemma rebuildSeed_history bars publishReset hist (w w' : World S) r :
  lane_wf (wLane w) -> lane_at w hist -> len bars < 2 ^ 64 - 1 -> Forall bar_typed bars ->
  rebuildSeed bars publishReset w = (w', r) ->
  lane_at w' hist \/ lane_at w' (seed_history [] bars).
Proof.
  intros Hwf [Hr Hi] Hlen Ht Hrun. pose proof Hrun as Hrun'. rewrite rebuildSeed_run in Hrun. cbn zeta in Hrun.
  assert (Hsame : wLane w' = wLane w -> lane_at w' hist) by (intros E; by split; rewrite ?E).
  destruct (rebuild_plan _ _ _ _) as [[[st points] snapshots]|e|];
    [|injection Hrun as <- <-; left; by apply Hsame..].
  destruct (RebuildSeries _ _ _ _ _) as [s [committed|e|]]; [|injection Hrun as <- <-; left; by apply Hsame..].
  right. injection Hrun as <- <-. split; [by eapply rebuildSeed_refines|]. apply seed_history_ordered. constructor.
Qed.

(** The history of a command. *)
Inductive evolves (hist : list Bar) : command -> list Bar -> Prop :=
  | evolves_grow cmd hist' : grows hist hist' (command_bars cmd) -> evolves hist cmd hist'
  | evolves_rebuild bars : evolves hist (CommandSeed bars) (seed_history [] (sort_seed bars)).

(** What the store may hold of a series whose lane is new: counts with room
    for more bars, and either snapshots that do not cover the lane's periods or
    the checkpoint of an earlier history, for a seed that continues it. *)
Definition resumable (bound : Z) (periods : list Z) (recovery : SeriesRecovery) (bars : list Bar) : Prop :=
  Forall (snapshot_small bound) (srSnapshots recovery) /\
  (incomplete periods (srSnapshots recovery) \/
   exists hist1 cp, left_by periods recovery hist1 cp /\ len hist1 <= bound /\ continues recovery cp bars).

(** The history of a lane that resumes: that of the saved checkpoint, the bars
    of the seed up to the durable cursor, whose hash the last of them has, then
    more bars of the seed. *)
Inductive resumes (w : World S) : command -> list Bar -> Prop :=
  | resumes_saved bars recovery hist1 cp upto cur hist' :
      lLastBar (wLane w) = None -> LoadRecovery (wStore w) (lKey (wLane w)) = Ok recovery ->
      srHasCursor recovery = true -> left_by (lPeriods (wLane w)) recovery hist1 cp ->
      grows hist1 upto bars -> last upto = Some cur -> bOpenTime cur = srCursorOpenTime recovery ->
      barFingerprint cur = srCursorHash recovery -> grows upto hist' bars ->
      resumes w (CommandSeed bars) hist'.

Lemma Permutation_filter_bool {A} (p : A -> bool) l k : l ≡ₚ k -> List.filter p l ≡ₚ List.filter p k.
Proof.
  induction 1 as [|x l k _ IH|x y l|l k m _ IH1 _ IH2]; cbn [List.filter]; [done| | |by rewrite IH1].
  - destruct (p x); by rewrite IH.
  - destruct (p x), (p y); try done. apply Permutation_swap.
Qed.

Lemma continues_perm recovery cp bars bars' : bars ≡ₚ bars' -> continues recovery cp bars -> continues recovery cp bars'.
Proof.
  intros Hp [Ho Hs]. split; [by rewrite <-(Permutation_filter_bool _ _ _ Hp)|]. intros b Hb. apply Hs. by rewrite Hp.
Qed.

(** [restoreRecoverySeed], when it goes through. *)
Lemma restoreRecoverySeed_history recovery bars hist1 cp (w w' : World S) :
  lane_wf (wLane w) -> len hist1 + len bars < 2 ^ 64 - 1 -> Forall bar_typed bars -> in_order bars ->
  left_by (lPeriods (wLane w)) recovery hist1 cp -> continues recovery cp bars ->
  restoreRecoverySeed recovery bars w = (w', Ok tt) ->
  exists upto cur, lane_at w' upto /\ grows hist1 upto bars /\ len upto <= len hist1 + len bars /\
    last upto = Some cur /\ bOpenTime cur = srCursorOpenTime recovery /\ barFingerprint cur = srCursorHash recovery.
Proof.
  intros Hwf Hlen Ht Ho Hl Hc. unfold restoreRecoverySeed. rewrite bind_run. cbn [get_lane]. rewrite bind_run. unfold lift.
  destruct (restore_plan _ _ _ _) as [[[[reducers market] cur] count]|e|] eqn:Hplan; [|done..]. intros [= <-].
  destruct (restore_plan_history _ _ _ _ _ _ _ _ _ _ (lw_periods _ Hwf) Hlen Ht Ho Hl Hc Hplan)
    as (-> & Hm & Hlast & -> & Hinc & Hcur & Hfp).
  eexists _, cur. split_and!; [split; [|exact Hinc]| | |done|done|done].
  - split; cbn; try done. rewrite Hlast. by intros ? [= ->].
  - eexists. split; [reflexivity|]. apply Forall_forall. intros b [Hb Ha]%list_elem_of_In%filter_In.
    split; [by apply list_elem_of_In|]. unfold after_to, up_to in Ha. by destruct (bClosed b).
  - rewrite len_app. pose proof (List.filter_length_le (after_to (bOpenTime cp) (srCursorOpenTime recovery)) bars). unfold len. lia.
Qed.

Lemma sort_seed_elem b bars : b ∈ sort_seed bars -> b ∈ bars.
Proof. unfold sort_seed. by rewrite sort_stable_perm. Qed.

Lemma seed_grows bars hist hist' : grows hist hist' (sort_seed bars) -> evolves hist (CommandSeed bars) hist'.
Proof. intros Hg. constructor. eapply grows_subset; [|exact Hg]. intros b. apply sort_seed_elem. Qed.

(** A seed that grows the history and then rebuilds. *)
Lemma seed_rebuilt bars reset hist hist1 (w w' : World S) r :
  lane_wf (wLane w) -> lane_at w hist1 -> grows hist hist1 (sort_seed bars) -> len (sort_seed bars) < 2 ^ 64 - 1 ->
  Forall bar_typed (sort_seed bars) -> rebuildSeed (sort_seed bars) reset w = (w', r) ->
  exists hist', lane_at w' hist' /\ evolves hist (CommandSeed bars) hist'.
Proof.
  intros Hwf Hat Hg Hlen Ht Hrun. destruct (rebuildSeed_history _ _ _ _ _ _ Hwf Hat Hlen Ht Hrun) as [Hh|Hh].
  - exists hist1. split; [done|by apply seed_grows].
  - eexists. split; [exact Hh|]. apply evolves_rebuild.
Qed.

(** A seed for a lane that has a last bar. *)
Lemma catch_up_history bars hist lastBar (w w' : World S) r :
  lane_wf (wLane w) -> lane_at w hist -> len hist + len (sort_seed bars) < 2 ^ 64 - 1 ->
  Forall bar_typed (sort_seed bars) -> lLastBar (wLane w) = Some lastBar -> applySeed bars w = (w', r) ->
  exists hist', lane_at w' hist' /\ evolves hist (CommandSeed bars) hist'.
Proof.
  intros Hwf Hat Hls Ht Hlast. unfold applySeed. rewrite bind_run. cbn [get_lane]. rewrite Hlast.
  pose proof (len_nonneg hist). assert (Hl1 : len (sort_seed bars) < 2 ^ 64 - 1) by lia.
  destruct (seedConflictsWithHistory (wLane w) (sort_seed bars)).
  { intros Hrun. eapply seed_rebuilt; [done|done|apply grows_refl|done|done|exact Hrun]. }
  unfold try_else. destruct (applyCatchUpSeed (sort_seed bars) w) as [w1 r1] eqn:Hcu.
  rewrite <-(rf_count _ _ (proj1 Hat)) in Hls. pose proof (applyCatchUpSeed_wf _ _ _ _ Hwf Hls Ht Hcu) as (Hnp & Hw1 & _).
  rewrite (rf_count _ _ (proj1 Hat)) in Hls.
  destruct (applyCatchUpSeed_history _ _ _ _ _ Hwf Hat Hls Ht Hcu) as (h1 & Hh1 & Hg1 & _).
  destruct r1 as [[]|e|]; [|by intros Hrun; eapply seed_rebuilt|done].
  intros [= <- <-]. exists h1. split; [done|by apply seed_grows].
Qed.

(** A seed for a new lane whose series has a cursor: the recovery and the
    catch-up, or, when the recovery fails, the rebuild. *)
Lemma resume_history bars bound recovery hist (w w' : World S) r :
  lane_wf (wLane w) -> lane_at w hist -> 0 <= bound -> bound + 2 * len (sort_seed bars) < 2 ^ 64 - 1 ->
  Forall bar_typed (sort_seed bars) -> lLastBar (wLane w) = None ->
  LoadRecovery (wStore w) (lKey (wLane w)) = Ok recovery -> srHasCursor recovery = true ->
  resumable bound (lPeriods (wLane w)) recovery bars ->
  try_else (restoreRecoverySeed recovery (sort_seed bars)) (fun _ => applyCatchUpSeed (sort_seed bars))
    (rebuildSeed (sort_seed bars) true) w = (w', r) ->
  exists hist', lane_at w' hist' /\ (evolves hist (CommandSeed bars) hist' \/ resumes w (CommandSeed bars) hist').
Proof.
  intros Hwf Hat Hb0 Hlen Ht Hnone Hload Hhas [Hsmall Hkind]. pose proof (len_nonneg (sort_seed bars)). unfold try_else.
  destruct (restoreRecoverySeed recovery (sort_seed bars) w) as [w1 r1] eqn:Hrr.
  pose proof (restoreRecoverySeed_wf recovery (sort_seed bars) bound w w1 r1 Hwf Hb0 ltac:(lia) Ht Hsmall Hrr) as (Hnp & Hw1 & _).
  pose proof Hrr as Hplan. unfold restoreRecoverySeed in Hplan. rewrite bind_run in Hplan. cbn [get_lane] in Hplan.
  rewrite bind_run in Hplan. unfold lift in Hplan.
  destruct (restore_plan _ _ _ _) as [plan|e|] eqn:Heq; [|injection Hplan as <- <-..]; [|intros Hrun|done].
  2:{ destruct (seed_rebuilt bars true hist hist w w' r) as (h & Hh & Hev); [done|done|apply grows_refl|lia|done|done|eauto]. }
  destruct Hkind as [Hinc|(hist1 & cp & Hleft & Hbound & Hcont)].
  { exfalso. by apply (restore_plan_incomplete _ _ _ _ _ (lw_periods _ Hwf) Hinc) in Heq. }
  destruct plan as [[[reducers market] lastBar] count]. assert (r1 = Ok tt) as -> by (by injection Hplan). clear Hplan.
  destruct (restoreRecoverySeed_history recovery (sort_seed bars) hist1 cp w w1) as (upto & cur & Hup & Hg1 & Hlu & Hrest);
    [done|lia|done|apply (sort_stable_sorted _ _ strict_weak_time)|done| |done|].
  { eapply continues_perm; [|exact Hcont]. unfold sort_seed. by rewrite sort_stable_perm. }
  intros (h2 & Hh2 & Hg2 & _)%(applyCatchUpSeed_history _ upto); [|done|done|lia|done].
  exists h2. split; [done|]. right. destruct Hrest as (? & ? & ?). pose proof (fun b => sort_seed_elem b bars) as Hsub.
  eapply (resumes_saved w bars recovery hist1 cp upto cur); try done; by eapply grows_subset.
Qed.

Lemma applySeed_history bars bound hist (w w' : World S) r :
  lane_wf (wLane w) -> lane_at w hist -> 0 <= bound -> len hist + bound + 3 * len bars < 2 ^ 64 - 1 -> Forall bar_typed bars ->
  (forall recovery, lLastBar (wLane w) = None -> LoadRecovery (wStore w) (lKey (wLane w)) = Ok recovery ->
     srHasCursor recovery = true -> resumable bound (lPeriods (wLane w)) recovery bars) ->
  applySeed bars w = (w', r) ->
  exists hist', lane_at w' hist' /\ (evolves hist (CommandSeed bars) hist' \/ resumes w (CommandSeed bars) hist').
Proof.
  intros Hwf Hat Hb0 Hlen Ht%sort_seed_typed Hns Hrun. pose proof (sort_seed_len bars). pose proof (len_nonneg bars).
  pose proof (len_nonneg hist). destruct (lLastBar (wLane w)) as [lastBar|] eqn:Hnone.
  { destruct (catch_up_history bars hist lastBar w w' r) as (h & Hh & Hev); [done|done|lia|done|done|done|eauto]. }
  revert Hrun. unfold applySeed. rewrite bind_run. cbn [get_lane]. rewrite Hnone, bind_run. unfold load_recovery.
  destruct (LoadRecovery (wStore w) (lKey (wLane w))) as [recovery|e|] eqn:Hload; cbn [wrap_err].
  2-3: intros [= <- <-]; exists hist; split; [done|left; apply seed_grows, grows_refl].
  destruct (srHasCursor recovery) eqn:Hhas; intros Hrun.
  - eapply (resume_history bars bound recovery hist w); [done|done|done|lia|done|done|done|done|by apply Hns|exact Hrun].
  - destruct (seed_rebuilt bars false hist hist w w' r) as (h & Hh & Hev); [done|done|apply grows_refl|lia|done|done|eauto].
Qed.

Lemma run_command_history cmd bound hist (w w' : World S) r :
  lane_wf (wLane w) -> lane_at w hist -> 0 <= bound -> len hist + bound + 3 * len (command_bars cmd) < 2 ^ 64 - 1 ->
  Forall bar_typed (command_bars cmd) ->
  (forall bars recovery, cmd = CommandSeed bars -> lLastBar (wLane w) = None ->
     LoadRecovery (wStore w) (lKey (wLane w)) = Ok recovery -> srHasCursor recovery = true ->
     resumable bound (lPeriods (wLane w)) recovery bars) ->
  run_command cmd w = (w', r) -> exists hist', lane_at w' hist' /\ (evolves hist cmd hist' \/ resumes w cmd hist').
Proof.
  intros Hwf Hat Hb0 Hlen Ht Hns. unfold run_command.
  match goal with |- context [let '(_, _) := ?m in _] => destruct m as [w1 r1] eqn:Hrun end.
  assert (Hh : exists hist', lane_at w1 hist' /\ (evolves hist cmd hist' \/ resumes w cmd hist')).
  { destruct cmd as [bars|bar|bar]; cbn [command_bars] in *.
    - eapply applySeed_history; [done|done|exact Hb0|done|done| |exact Hrun]. intros recovery. by apply (Hns bars).
    - apply Forall_cons in Ht as [Ht _]. change (len [bar]) with 1 in *.
      eapply applyClosed_history in Hrun as (h & Hh & Hg & _); [|done..|lia|done].
      exists h. split; [done|]. left. by constructor.
    - apply applyForming_frame in Hrun as ((E1 & E2 & E3 & E4 & E5 & E6 & E7) & _).
      exists hist. split; [|left; constructor; apply grows_refl]. destruct Hat as [[] Hi]. split; [|done].
      split; rewrite ?E2, ?E3, ?E4, ?E5, ?E6, ?E7; done. }
  destruct Hh as (h & [[] Hi] & Hev). destruct r1 as [[]|e|]; intros [= <- <-]; exists h; by split; [split; [split|]|].
Qed.

(** ** Reachable lanes *)

(** A command that the integer widths leave room for; when it is the first
    seed of a lane whose series has a cursor in the store, what is saved can be
    resumed from. *)
Definition admissible (w : World S) (cmd : command) : Prop :=
  exists bound, 0 <= bound /\ lClosedCount (wLane w) + bound + 3 * len (command_bars cmd) < 2 ^ 64 - 1 /\
  Forall bar_typed (command_bars cmd) /\
  forall bars recovery, cmd = CommandSeed bars -> lLastBar (wLane w) = None ->
    LoadRecovery (wStore w) (lKey (wLane w)) = Ok recovery -> srHasCursor recovery = true ->
    resumable bound (lPeriods (wLane w)) recovery bars.

(** A store that holds nothing a new lane would resume from. *)
Definition nothing_saved (s : S) (key : SeriesKey) : Prop :=
  forall recovery, LoadRecovery s key = Ok recovery -> srHasCursor recovery = false.

Lemma admissible_unsaved (w : World S) cmd :
  lClosedCount (wLane w) + 3 * len (command_bars cmd) < 2 ^ 64 - 1 -> Forall bar_typed (command_bars cmd) ->
  (lLastBar (wLane w) = None -> nothing_saved (wStore w) (lKey (wLane w))) -> admissible w cmd.
Proof.
  intros Hlen Ht Hns. exists 0. split_and!; [done|lia|done|]. intros bars recovery _ Hnone Hload Hhas.
  by rewrite (Hns Hnone _ Hload) in Hhas.
Qed.

(** The states a lane goes through: started by [NewLane] on a store in any
    state, then command by command. *)
Inductive reachable (options : LaneOptions) : World S -> Prop :=
  | reach_new l s : NewLane options = Ok l -> reachable options (mkWorld l s [])
  | reach_command w cmd w' r :
      reachable options w -> admissible w cmd -> run_command cmd w = (w', r) -> reachable options w'.

Lemma admissible_step cmd hist (w w' : World S) r :
  lane_wf (wLane w) -> lane_at w hist -> admissible w cmd -> run_command cmd w = (w', r) ->
  (exists err, r = Ok err /\ lLastErr (wLane w') = err) /\ lane_wf (wLane w') /\
  exists hist', lane_at w' hist' /\ (evolves hist cmd hist' \/ resumes w cmd hist').
Proof.
  intros Hwf Hat (bound & Hb0 & Hlen & Ht & Hns) Hrun.
  pose proof (run_command_wf cmd bound w w' r Hwf) as Hh.
  destruct Hh as (Hp & Hwf' & _); [done|lia|done| |done|].
  { intros bars -> Hnone recovery Hload Hhas. by apply (Hns bars recovery eq_refl Hnone Hload Hhas). }
  rewrite (rf_count _ _ (proj1 Hat)) in Hlen.
  split_and!; [|done|by apply (run_command_history cmd bound hist w w' r Hwf Hat Hb0 Hlen Ht)].
  unfold run_command in Hrun.
  destruct (match cmd with CommandSeed _ => _ | CommandClosed _ => _ | CommandForming _ => _ end)
    as [w1 [[]|e|]]; injection Hrun as <- <-; [by eexists..|done].
Qed.

Lemma reachable_ok options w :
  0 <= loSnapshotEvery options -> Forall (fun p => p < 2 ^ 63 - 1) (loPeriods options) ->
  reachable options w -> lane_wf (wLane w) /\ exists hist, lane_at w hist.
Proof.
  intros Hse Hp. induction 1 as [l s Hn|w cmd w' r _ [Hwf [hist Hat]] Hadm Hrun].
  - apply NewLane_ok in Hn as (Hwf & Hr & _); [|done..]. split; [done|]. exists []. split; [done|constructor].
  - destruct (admissible_step _ _ _ _ _ Hwf Hat Hadm Hrun) as (_ & Hwf' & hist' & Hat' & _). eauto.
Qed.
End History.
