(* ===== verification/LaneAccept.v ===== *)
(** * What a lane accepts

    A bar that follows the cursor goes through: the whole of [applyClosed]
    succeeds, on the in-memory store down to the publications.  Then the
    comparison of a seed with the history, the authoritative reset, and the
    snapshot a lane serves. *)

From stdpp Require Import prelude gmap strings list sorting.
From Stdlib Require Import ZArith Lia SpecFloat String.
From S2P Require Import Prelude GoFloat GoText Sha256 Model Ema MarketZones MarketStructure.
From S2P Require Import ZonesProofs StructureProofs MarketReducer MarketProofs StoreSpec Memory.
From S2P Require Import MemoryProofs Lane LaneReducers LaneProofs LaneRefinement LaneRecovery.

#[local] Open Scope string_scope.
#[local] Open Scope list_scope.
#[local] Open Scope Z_scope.

#[local] Opaque sha256_hex EvaluateMarket barFingerprint MarketAlgorithm emaAlgorithm.

(** What a lane must be able to write down to take one more bar: averages
    that did not overflow and bars JSON can carry. *)
Record encodable (l : Lane) (hist : list Bar) (bar : Bar) : Prop := {
  ec_before : forall p, p ∈ lPeriods l -> ema_encodable (ema_of hist p);
  ec_after : forall p, p ∈ lPeriods l -> ema_encodable (ema_of (hist ++ [bar]) p);
  ec_bars : Forall bar_encodable (mkBars (lMarket l));
  ec_bar : bar_encodable bar
}.

Lemma extends_guard l bar : extends l bar -> closed_guard l bar = Ok false.
Proof.
  intros (_ & _ & Hn). unfold closed_guard. destruct (lLastBar l) as [lastBar|]; [|done].
  destruct (Hn _ eq_refl) as (Hlt & step & -> & Ht).
  rewrite (proj2 (Z.ltb_lt _ _)) by done. by rewrite Ht, Z.eqb_refl.
Qed.

Section Accept.
Context `{Runtime}.

Lemma Market_Snapshot_total m :
  market_wf m -> Forall bar_encodable (mkBars m) -> exists data, Market_Snapshot m = Ok data.
Proof.
  intros Hwf He. destruct (Market_Restore_Snapshot m m Hwf He) as (data & _ & Hs & _); [done..|]. eauto.
Qed.

Lemma period_events_le key f bar revision p :
  len (period_events key f bar revision p) <= 1.
Proof. unfold period_events, len. by repeat case_match. Qed.

Lemma flat_map_le {A B} (g : A -> list B) l :
  (forall a, len (g a) <= 1) -> len (flat_map g l) <= len l.
Proof.
  intros Hg. induction l as [|a l IH]; cbn [flat_map]; [done|].
  rewrite len_app, len_cons. specialize (Hg a). lia.
Qed.

Lemma closed_plan_total l bar hist :
  lane_wf l -> refines l hist -> len hist < 2 ^ 64 - 1 -> bar_typed bar -> extends l bar ->
  encodable l hist bar ->
  exists reducers market count events snapshots,
    closed_plan l bar = Ok (Some (reducers, market, count, events, snapshots)) /\
    len events <= len (lPeriods l) + 1.
Proof.
  intros Hwf Hr Hlen Hb Hext [He1 He2 Hbe Hbar]. pose proof (extends_guard _ _ Hext) as Hg.
  destruct Hext as (Hcl & Hv & _). pose proof (lw_periods _ Hwf) as Hp. pose proof (lw_market _ Hwf) as Hlm.
  unfold closed_plan. rewrite Hcl, Hv. cbn [negb mbind outcome_bind].
  rewrite (rf_reducers _ _ Hr). unfold reducers_after.
  rewrite cloneReducers_of by (try apply ema_of_wf; try done; lia). cbn [mbind outcome_bind].
  destruct (Market_Clone_ok (lMarket l) (lm_wf _ Hlm) Hbe) as (clone & Hclone & Heq & _). rewrite Hclone.
  cbn [wrap_err mbind outcome_bind]. rewrite Hg. cbn [mbind outcome_bind].
  rewrite reduceEMAClosed_of by (apply Hp || by eapply validateBar_finite). cbn [mbind outcome_bind].
  rewrite (Market_OnClosed_proper clone (lMarket l) (symmetry Heq) bar bar eq_refl).
  destruct (lane_market_closed (lMarket l) bar Hlm Hb) as (m' & -> & Hlm' & Hmb). cbn [lift_panic mbind outcome_bind].
  set (g := closed_reducers (ema_of hist) (bClose bar)).
  destruct (newMarketEvent_of (lKey l) bar (mkState m') (revisionForBar bar) g (lPeriods l)) as (event & -> & _);
    [apply Hp|]. cbn [lift_panic mbind outcome_bind].
  destruct (Market_Snapshot_total m' (lm_wf _ Hlm')) as [data Hdata].
  { rewrite Hmb. eapply suffix_Forall; [apply last_n_suffix|]. apply Forall_app. split; [done|].
    by apply Forall_singleton. }
  destruct (reducerSnapshots_of g (lPeriods l) m' bar data) as (out & Hout & _); [apply Hp| |done|].
  { intros p Hin. pose proof (pk_valid _ Hp) as Hval. rewrite Forall_forall in Hval. unfold g, closed_reducers.
    rewrite ema_of_snoc by (auto || by eapply validateBar_finite). by apply He2. }
  assert (Hle : len (flat_map (period_events (lKey l) (ema_of hist) bar (revisionForBar bar)) (lPeriods l) ++ [event])
    <= len (lPeriods l) + 1).
  { rewrite len_snoc. pose proof (flat_map_le (period_events (lKey l) (ema_of hist) bar (revisionForBar bar))
      (lPeriods l) (period_events_le _ _ _ _)). lia. }
  destruct (_ =? 0); [rewrite Hout|]; cbn [mbind outcome_bind]; eauto 10.
Qed.
End Accept.

(** ** On the in-memory store *)

Section OnMemory.
Context `{Runtime}.

(** A bar that follows the cursor is committed, becomes the cursor of lane and
    store, and its events go out: the market event live, and all of them
    through the publisher unless the outbox delivers. *)
Lemma applyClosed_memory bar hist (w : World Memory) :
  lane_wf (wLane w) -> refines (wLane w) hist -> len hist < 2 ^ 64 - 1 -> bar_typed bar ->
  extends (wLane w) bar -> encodable (wLane w) hist bar ->
  memory_wf (wStore w) -> meNext (wStore w) + len (lPeriods (wLane w)) + 1 < 2 ^ 63 - 1 ->
  (forall current, meCursors (wStore w) !! SeriesKey_String (lKey (wLane w)) = Some current ->
     bOpenTime current < bOpenTime bar) ->
  exists w' reducers market count events snapshots committed,
    closed_plan (wLane w) bar = Ok (Some (reducers, market, count, events, snapshots)) /\
    applyClosed bar w = (w', Ok tt) /\
    refines (wLane w') (hist ++ [bar]) /\ lane_wf (wLane w') /\ memory_wf (wStore w') /\
    meCursors (wStore w') !! SeriesKey_String (lKey (wLane w)) = Some bar /\
    Forall2 (fun e e' => evEventID e' = evEventID e /\ 0 < evCursor e') events committed /\
    wOut w' = wOut w ++ live_outputs (wLane w) committed ++
      (if lPublisher (wLane w) && negb (lOutboxDelivery (wLane w)) then map Published committed else []).
Proof.
  intros Hwf Hr Hlen Hb Hext Henc Hm Hn Hcur.
  destruct (closed_plan_total (wLane w) bar hist Hwf Hr Hlen Hb Hext Henc)
    as (reducers & market & count & events & snapshots & Hplan & Hle).
  destruct (Memory_CommitClosed_ok (wStore w) (lKey (wLane w)) bar events snapshots Hm ltac:(lia) Hcur)
    as (s' & committed & Hcommit & Hm' & Hc' & Hev).
  assert (Hrun : exists w', applyClosed bar w = (w', Ok tt) /\ memory_wf (wStore w') /\
    meCursors (wStore w') = meCursors s' /\ wOut w' = wOut w ++ live_outputs (wLane w) committed ++
      (if lPublisher (wLane w) && negb (lOutboxDelivery (wLane w)) then map Published committed else [])).
  { rewrite applyClosed_run, Hplan. cbn zeta. change (@CommitClosed Memory memory_store) with Memory_CommitClosed.
    rewrite Hcommit. destruct (_ && _).
    - change (@MarkPublished Memory memory_store) with Memory_MarkPublished.
      pose proof (MarkPublished_wf s' (map evCursor committed) Hm') as Hmk.
      eexists. split; [reflexivity|]. cbn [wStore wOut]. by rewrite app_assoc.
    - eexists. split; [reflexivity|]. cbn [wStore wOut]. by rewrite app_nil_r. }
  destruct Hrun as (w' & Hrun & Hmw & Hcw & Hout).
  exists w', reducers, market, count, events, snapshots, committed.
  pose proof (applyClosed_wf bar w w' (Ok tt) Hwf) as Hwf'. rewrite (rf_count _ _ Hr) in Hwf'.
  destruct (Hwf' Hlen Hb Hrun) as (_ & Hlw & _).
  destruct (applyClosed_refines bar hist w w' Hwf Hr Hlen Hb Hrun) as [[-> Happ]|[Href _]].
  - exfalso. destruct Happ as (lastBar & Hl & Ht & _). destruct Hext as (_ & _ & Hn').
    destruct (Hn' _ Hl) as [Hlt _]. lia.
  - split_and!; try done. by rewrite Hcw.
Qed.
End OnMemory.

(** ** Seeds against the history *)

Definition same_bar (a b : Bar) : Prop :=
  bOpenTime a = bOpenTime b /\ barFingerprint a = barFingerprint b.

(** Instants that [UnixNano] can represent. *)
Definition nano_ok (b : Bar) : Prop := - 2 ^ 63 <= bOpenTime b < 2 ^ 63.

Definition bar_map (bars : list Bar) : gmap Z string :=
  foldl (fun m bar => <[unix_nano (bOpenTime bar) := barFingerprint bar]> m) ∅ bars.

Lemma increasing_unique bars a b :
  increasing bars -> a ∈ bars -> b ∈ bars -> bOpenTime a = bOpenTime b -> a = b.
Proof.
  unfold increasing. induction 1 as [|x bars Hs IH Hx]; [set_solver|]. rewrite Forall_forall in Hx.
  intros [->|Ha]%elem_of_cons [->|Hb]%elem_of_cons Ht; auto.
  - specialize (Hx _ Hb). lia.
  - specialize (Hx _ Ha). lia.
Qed.

Lemma lookup_bar_map bars t f :
  increasing bars -> Forall nano_ok bars ->
  bar_map bars !! t = Some f <-> exists b, b ∈ bars /\ bOpenTime b = t /\ barFingerprint b = f.
Proof.
  unfold bar_map. induction bars as [|x bars IH] using rev_ind; intros Hi Hn.
  - cbn. rewrite lookup_empty. split; [done|]. intros (b & Hb & _). set_solver.
  - apply Forall_app in Hn as [Hn Hx]. rewrite Forall_singleton in Hx.
    pose proof (increasing_app_inv _ _ Hi) as (Hi' & _ & Hlt).
    rewrite foldl_snoc. assert (Hu : unix_nano (bOpenTime x) = bOpenTime x) by (apply wrap_i64_id; unfold nano_ok in Hx; done). rewrite Hu.
    destruct (decide (bOpenTime x = t)) as [<-|Hne].
    + rewrite lookup_insert_eq. split; [intros [= <-]; exists x; set_solver|].
      intros (b & Hb & Ht & <-). f_equal. f_equal. apply (increasing_unique (bars ++ [x])); set_solver.
    + rewrite lookup_insert_ne by done. rewrite IH by done. split; intros (b & Hb & ? & ?); exists b; set_solver.
Qed.

Definition in_overlap (lastBar b : Bar) : bool := bClosed b && negb (bOpenTime lastBar <? bOpenTime b).

Lemma filter_increasing (p : Bar -> bool) bars : increasing bars -> increasing (List.filter p bars).
Proof.
  unfold increasing. induction 1 as [|x bars Hs IH Hx]; cbn; [constructor|]. destruct (p x); [|done].
  constructor; [done|]. rewrite Forall_forall in *. intros b Hb. apply Hx.
  apply list_elem_of_In in Hb. apply list_elem_of_In. by apply filter_In in Hb as [? _].
Qed.

Lemma seed_overlap_spec lastBar bars :
  increasing bars -> Forall nano_ok bars ->
  seed_overlap lastBar bars =
    (bar_map (List.filter (in_overlap lastBar) bars),
     match List.filter (in_overlap lastBar) bars with [] => zero_time | b :: _ => bOpenTime b end).
Proof.
  unfold seed_overlap, bar_map. induction bars as [|x bars IH] using rev_ind; intros Hi Hn; [done|].
  apply Forall_app in Hn as [Hn Hx]. rewrite Forall_singleton in Hx.
  pose proof (increasing_app_inv _ _ Hi) as (Hi' & _ & Hlt).
  rewrite foldl_snoc, IH, List.filter_app by done. cbn [List.filter].
  assert (Hc : negb (bClosed x) || (bOpenTime lastBar <? bOpenTime x) = negb (in_overlap lastBar x))
    by (unfold in_overlap; by destruct (bClosed x), (_ <? _)).
  rewrite Hc. destruct (in_overlap lastBar x); cbn [negb]; [|by rewrite app_nil_r].
  rewrite foldl_snoc. f_equal.
  destruct (List.filter (in_overlap lastBar) bars) as [|b rest] eqn:E; cbn [app]; [by rewrite Z.eqb_refl|].
  assert (Hb : b ∈ bars).
  { apply list_elem_of_In. eapply (proj1 (filter_In (in_overlap lastBar) b bars)). rewrite E. by left. }
  rewrite Forall_forall in Hn. destruct (Hn b Hb). unfold zero_time, second.
  rewrite (proj2 (Z.eqb_neq _ _)) by lia.
  rewrite (proj2 (Z.ltb_ge _ _)); [done|]. specialize (Hlt b x Hb ltac:(set_solver)). lia.
Qed.

Lemma existsb_map_range `{Runtime} (m : gmap Z string) (p : Z * string -> bool) :
  existsb p (map_range m) = false <-> forall t f, m !! t = Some f -> p (t, f) = false.
Proof.
  rewrite <-not_true_iff_false, existsb_exists. split.
  - intros Hn t f Hm. apply not_true_iff_false. intros Ht. apply Hn. exists (t, f). split; [|done].
    apply list_elem_of_In. rewrite map_range_perm. by apply elem_of_map_to_list.
  - intros Hall ([t f] & Hin & Ht). apply list_elem_of_In in Hin. rewrite map_range_perm in Hin.
    apply elem_of_map_to_list in Hin. by rewrite Hall in Ht.
Qed.

Lemma bar_map_None bars t :
  increasing bars -> Forall nano_ok bars ->
  bar_map bars !! t = None <-> forall b, b ∈ bars -> bOpenTime b <> t.
Proof.
  intros Hi Hn. rewrite eq_None_not_Some. unfold is_Some. setoid_rewrite lookup_bar_map; [|done..]. naive_solver.
Qed.

(** Seed and history agree where they overlap: from the oldest bar the lane
    holds, each closed bar of the seed up to the cursor is a bar of the
    history; from the first closed bar of the seed, each bar of the history is
    in the seed. *)
Definition seed_agrees (lastBar oldest : Bar) (history seed : list Bar) : Prop :=
  (forall b, b ∈ seed -> bClosed b = true -> bOpenTime oldest <= bOpenTime b <= bOpenTime lastBar ->
     exists b', b' ∈ history /\ same_bar b b') /\
  (forall first b, first ∈ seed -> bClosed first = true -> b ∈ history ->
     bOpenTime first <= bOpenTime b <= bOpenTime lastBar ->
     exists b', b' ∈ seed /\ bClosed b' = true /\ same_bar b b').

Lemma and_iff_left (P Q R : Prop) : (P -> (Q <-> R)) -> (P /\ Q <-> P /\ R).
Proof. tauto. Qed.

Section Conflict.
Context `{Runtime}.

Lemma in_overlap_spec lastBar bars b :
  b ∈ List.filter (in_overlap lastBar) bars <->
  b ∈ bars /\ bClosed b = true /\ bOpenTime b <= bOpenTime lastBar.
Proof.
  rewrite !list_elem_of_In, filter_In. unfold in_overlap. rewrite andb_true_iff, negb_true_iff, Z.ltb_ge. tauto.
Qed.

Context (lastBar oldest : Bar) (rest bars : list Bar).
#[local] Abbreviation history := (oldest :: rest).
#[local] Abbreviation kept := (List.filter (in_overlap lastBar) bars).
Context (Hih : increasing history) (Hnh : Forall nano_ok history)
        (His : increasing bars) (Hns : Forall nano_ok bars).

Lemma kept_increasing : increasing kept.
Proof. by apply filter_increasing. Qed.

Lemma kept_nano : Forall nano_ok kept.
Proof. rewrite Forall_forall in *. intros b Hb%in_overlap_spec. apply Hns. tauto. Qed.

Lemma history_nano b : b ∈ history -> unix_nano (bOpenTime b) = bOpenTime b.
Proof. rewrite Forall_forall in Hnh. intros Hb. apply wrap_i64_id, (Hnh b Hb). Qed.

Lemma head_least b l : increasing (b :: l) -> forall x, x ∈ b :: l -> bOpenTime b <= bOpenTime x.
Proof.
  intros [_ Hall]%StronglySorted_inv x [->|Hx]%elem_of_cons; [done|].
  rewrite Forall_forall in Hall. specialize (Hall _ Hx). cbn in Hall. lia.
Qed.

(** The loop over the seed finds nothing. *)
Lemma seed_loop_spec :
  (forall t f, bar_map kept !! t = Some f ->
     match bar_map history !! t with
     | Some existing => negb (existing =? f)%string
     | None => bOpenTime oldest <=? t
     end = false) <->
  (forall b, b ∈ bars -> bClosed b = true -> bOpenTime oldest <= bOpenTime b <= bOpenTime lastBar ->
     exists b', b' ∈ history /\ same_bar b b').
Proof.
  pose proof kept_increasing as Hik. pose proof kept_nano as Hnk. split.
  - intros H1 b Hb Hc Ht. assert (Hbk : b ∈ kept) by (apply in_overlap_spec; split_and!; [done..|lia]).
    specialize (H1 (bOpenTime b) (barFingerprint b)).
    rewrite lookup_bar_map in H1 by done. specialize (H1 ltac:(eauto)).
    destruct (bar_map history !! bOpenTime b) as [f|] eqn:Ef; [|lia].
    apply negb_false_iff, String.eqb_eq in H1 as ->.
    apply lookup_bar_map in Ef as (b' & Hb' & Ht' & Hf'); [|done..]. exists b'. by split_and!.
  - intros H1 t f Hf. apply lookup_bar_map in Hf as (b & Hbk & <- & <-); [|done..].
    pose proof (proj1 (in_overlap_spec _ _ b) Hbk) as (Hb & Hc & Ht).
    destruct (bar_map history !! bOpenTime b) as [fp|] eqn:Efp.
    + apply lookup_bar_map in Efp as (b' & Hb' & Ht' & <-); [|done..].
      pose proof (head_least _ _ Hih b' Hb').
      destruct (H1 b Hb Hc ltac:(lia)) as (b2 & Hb2 & Ht2 & Hf2).
      assert (b2 = b') as -> by (apply (increasing_unique _ _ _ Hih); [done..|lia]).
      by rewrite Hf2, String.eqb_refl.
    + rewrite bar_map_None in Efp by done. apply Z.leb_gt, Z.nle_gt. intros Hge.
      destruct (H1 b Hb Hc ltac:(lia)) as (b2 & Hb2 & Ht2 & _). by apply (Efp b2 Hb2).
Qed.

(** The loop over the history finds no bar that the seed leaves out. *)
Lemma history_loop_spec first more :
  kept = first :: more ->
  existsb (fun bar =>
    negb ((bOpenTime bar <? bOpenTime first) || (bOpenTime lastBar <? bOpenTime bar)) &&
    match bar_map kept !! unix_nano (bOpenTime bar) with Some _ => false | None => true end) history = false <->
  (forall b, b ∈ history -> bOpenTime first <= bOpenTime b <= bOpenTime lastBar ->
     exists b', b' ∈ kept /\ bOpenTime b' = bOpenTime b).
Proof.
  intros Ek. pose proof kept_increasing as Hik. pose proof kept_nano as Hnk.
  rewrite <-not_true_iff_false, existsb_exists. split.
  - intros Hno b Hb Ht. destruct (bar_map kept !! bOpenTime b) as [fp|] eqn:Efp.
    + apply lookup_bar_map in Efp as (b' & Hb' & Ht' & _); [|done..]. eauto.
    + exfalso. apply Hno. exists b. split; [by apply list_elem_of_In|]. rewrite history_nano, Efp by done.
      rewrite andb_true_r, negb_true_iff, orb_false_iff, !Z.ltb_ge. lia.
  - intros Hall (b & Hb%list_elem_of_In & [Hrange Hmiss]%andb_true_iff).
    apply negb_true_iff, orb_false_iff in Hrange as [Hr1%Z.ltb_ge Hr2%Z.ltb_ge].
    destruct (Hall b Hb ltac:(lia)) as (b' & Hb' & Ht'). rewrite history_nano in Hmiss by done.
    destruct (bar_map kept !! bOpenTime b) as [?|] eqn:E; [done|].
    rewrite bar_map_None in E by done. by apply (E b').
Qed.

Lemma seedConflicts_spec l :
  lLastBar l = Some lastBar -> mkBars (lMarket l) = history ->
  seedConflictsWithHistory l bars = false <-> seed_agrees lastBar oldest history bars.
Proof.
  intros Hl Hm. unfold seedConflictsWithHistory, Market_Bars. rewrite Hl, Hm.
  fold (bar_map history). rewrite seed_overlap_spec by done. rewrite (history_nano oldest) by set_solver.
  unfold seed_agrees. rewrite <-seed_loop_spec. pose proof history_loop_spec as Hloop.
  pose proof kept_nano as Hnk. pose proof kept_increasing as Hik.
  assert (Hin : forall b, b ∈ kept <-> b ∈ bars /\ bClosed b = true /\ bOpenTime b <= bOpenTime lastBar)
    by (intros; apply in_overlap_spec).
  destruct kept as [|first more].
  { rewrite Z.eqb_refl. split; [|done]. intros _. split; [intros t f Ht; unfold bar_map in Ht; cbn [foldl] in Ht; by rewrite lookup_empty in Ht|].
    intros f b Hf Hc Hb Ht. assert (Hnil : f ∈ @nil Bar) by (apply Hin; split_and!; [done..|lia]). set_solver. }
  assert (Hnz : (bOpenTime first =? zero_time) = false).
  { apply Forall_cons in Hnk as [Hfn _]. unfold nano_ok in Hfn. apply Z.eqb_neq. unfold zero_time, second. lia. }
  rewrite Hnz, orb_false_iff, existsb_map_range, (Hloop first more eq_refl).
  apply and_iff_left. intros H1. split.
  - intros H2 f b Hf Hc Hb Ht. assert (Hfk : f ∈ first :: more) by (apply Hin; split_and!; [done..|lia]).
    pose proof (head_least _ _ Hik f Hfk). destruct (H2 b Hb ltac:(lia)) as (b' & Hb' & Ht').
    pose proof (proj1 (Hin b') Hb') as (? & ? & ?). exists b'. split_and!; [done..|]. split; [done|].
    specialize (H1 (bOpenTime b) (barFingerprint b')). rewrite (proj2 (lookup_bar_map history _ (barFingerprint b) Hih Hnh)) in H1
      by eauto. apply String.eqb_eq, negb_false_iff, H1, lookup_bar_map; eauto.
  - intros H2 b Hb Ht. destruct (proj1 (Hin first)) as (Hf & Hc & _); [set_solver|].
    destruct (H2 first b Hf Hc Hb Ht) as (b' & Hb' & Hc' & Ht' & _). exists b'. split; [|done].
    apply Hin. split_and!; [done..|lia].
Qed.
End Conflict.

(** ** Rebuilding and resetting *)

Section Rebuild.
Context `{Runtime}.

Definition plain_point (e : SignalEvent) : Prop :=
  evReset e = false /\ evCursor e = 0 /\ evEventType e = "indicator.point" /\ evProvisional e = false.

Lemma reduceEMAClosed_plain key reducers bar revision reducers' events :
  reduceEMAClosed key reducers bar revision = Ok (reducers', events) -> Forall plain_point events.
Proof.
  unfold reduceEMAClosed. intros Hl.
  apply (oloop_elim (fun acc => Forall plain_point (snd acc))) in Hl; [done|constructor|].
  intros [m out] p [m' out'] _ Hout Hstep. unfold reduce_period in Hstep.
  apply obind_Ok in Hstep as (e & _ & Hstep). destruct (EMA_OnClosed e (bClose bar)) as [e' r].
  apply obind_Ok in Hstep as ([v ready] & _ & [= <- <-]). cbn in *.
  destruct ready; [|done]. apply Forall_app. split; [done|]. by repeat constructor.
Qed.

Lemma rebuild_points_plain key bars st st' :
  Forall plain_point (rbPoints st) -> oloop (rebuild_step key) bars st = Ok st' ->
  Forall plain_point (rbPoints st').
Proof.
  intros Hp. apply (oloop_elim (fun st => Forall plain_point (rbPoints st))); [done|].
  intros s bar s' _ Hs. unfold rebuild_step. destruct (negb (bClosed bar)); [by intros [= <-]|].
  intros (? & _ & Hstep)%obind_Ok. destruct (match rbLastBar s with Some _ => _ | None => false end).
  { destruct (match rbLastBar s with Some _ => _ | None => false end); [|done]. by injection Hstep as <-. }
  apply obind_Ok in Hstep as ([r events] & Hr & Hstep). apply obind_Ok in Hstep as ([m ms] & _ & [= <-]).
  cbn. apply Forall_app. split; [done|]. by eapply reduceEMAClosed_plain.
Qed.

Lemma reset_history bars lastBar event :
  increasing (bars ++ [lastBar]) -> Forall (fun b => bClosed b = true) bars ->
  exists event', reset_event event lastBar (bars ++ [lastBar]) = Some event' /\
    evReset event' = true /\ evResetHistory event' = last_n marketHistoryLimit bars /\
    evSourceBar event' = evSourceBar event /\ evMarket event' = evMarket event /\
    evBarRevision event' = evBarRevision event /\ evCursor event' = evCursor event /\
    evEventType event' = evEventType event /\ evIndicators event' = evIndicators event.
Proof.
  intros (_ & _ & Hlt)%increasing_app_inv Hc. unfold reset_event.
  rewrite List.filter_app. cbn [List.filter]. rewrite Z.ltb_irrefl, andb_false_r, app_nil_r.
  rewrite filter_all_true.
  - rewrite keep_last_last_n by done. cbn [mbind option_bind]. eexists. split; [done|]. by cbn.
  - intros b Hb. rewrite Forall_forall in Hc. rewrite Hc, (proj2 (Z.ltb_lt _ _)); [done| |done].
    apply Hlt; set_solver.
Qed.

(** A rebuild with a reset: EMA points, then one reset of the market state at
    the last bar, carrying the bars before it. *)
Lemma rebuild_plan_reset key periods bars lastBar st points snapshots :
  periods_ok periods -> len (bars ++ [lastBar]) < 2 ^ 64 - 1 ->
  Forall bar_typed (bars ++ [lastBar]) -> increasing (bars ++ [lastBar]) ->
  Forall (fun b => bClosed b = true) (bars ++ [lastBar]) ->
  rebuild_plan key periods (bars ++ [lastBar]) true = Ok (st, points, snapshots) ->
  exists event, points = rbPoints st ++ [event] /\ Forall plain_point (rbPoints st) /\
    evReset event = true /\ evResetHistory event = last_n marketHistoryLimit bars /\
    evSourceBar event = Some lastBar /\ evMarket event = Some (mkState (rbMarket st)) /\
    evBarRevision event = revisionForBar lastBar /\ evCursor event = 0.
Proof.
  intros Hp Hlen Ht Hi Hc Hplan. pose proof (rebuild_plan_refines _ _ _ _ _ _ _ Hp Hlen Ht Hplan) as Href.
  rewrite seed_history_increasing in Href by done. cbn [app] in Href.
  destruct Href as [Hr _ _ Hl _]. rewrite last_snoc in Hl.
  unfold rebuild_plan in Hplan. apply obind_Ok in Hplan as (r0 & _ & Hplan).
  apply obind_Ok in Hplan as (m0 & _ & Hplan). apply obind_Ok in Hplan as (st' & Hloop & Hplan).
  apply obind_Ok in Hplan as (pts & Hpts & Hplan). apply obind_Ok in Hplan as (sn & _ & [= -> -> ->]).
  rewrite Hl, Hr in Hpts. apply obind_Ok in Hpts as (ev & Hev & Hpts).
  destruct (newMarketEvent_of key lastBar (Market_State (rbMarket st)) (revisionForBar lastBar)
    (ema_of (bars ++ [lastBar])) periods) as (ev' & Hev' & E1 & E2 & E3 & E4 & E5 & E6 & E7 & _); [apply Hp|].
  unfold reducers_after in Hev. rewrite Hev' in Hev. injection Hev as <-.
  apply Forall_app in Hc as [Hc _].
  destruct (reset_history bars lastBar ev' Hi Hc) as (event & He & R1 & R2 & R3 & R4 & R5 & R6 & _).
  apply obind_Ok in Hpts as (ev2 & Hev2 & [= <-]). rewrite He in Hev2. injection Hev2 as <-.
  exists event. split_and!; try done; try congruence; [|by rewrite R4].
  eapply rebuild_points_plain; [|exact Hloop]. constructor.
Qed.

Lemma reduce_points_le key periods hist bar revision reducers points :
  periods_ok periods -> is_finite (bClose bar) = true ->
  reduceEMAClosed key (reducers_after periods hist) bar revision = Ok (reducers, points) ->
  len points <= len periods.
Proof.
  intros Hp Hc. unfold reducers_after. rewrite reduceEMAClosed_of by (apply Hp || done).
  intros [= _ <-]. apply flat_map_le, period_events_le.
Qed.

(** A seed of valid closed bars in order goes through the loop. *)
Lemma rebuild_loop_total key periods bars st hist :
  periods_ok periods -> rebuild_refines periods st hist -> increasing (hist ++ bars) ->
  len hist + len bars < 2 ^ 64 - 1 ->
  Forall (fun b => bClosed b = true /\ validateBar key b = Ok tt /\ bar_typed b) bars ->
  exists st', oloop (rebuild_step key) bars st = Ok st' /\
    len (rbPoints st') <= len (rbPoints st) + len bars * len periods.
Proof.
  intros Hp Hst Hi Hlen Hb. revert st hist Hst Hi Hlen.
  induction Hb as [|b bars (Hc & Hv & Ht) Hb IH]; intros st hist Hst Hi Hlen;
    [exists st; split; [done|unfold len at 3; cbn; lia]|].
  rewrite len_cons in Hlen. pose proof (len_nonneg bars). pose proof (len_nonneg hist).
  destruct (reduce_after key periods hist b (revisionForBar b)) as [points Hred];
    [done|lia|by eapply validateBar_finite|].
  pose proof (reduce_points_le _ _ _ _ _ _ _ Hp (validateBar_finite _ _ Hv) Hred).
  destruct (lane_market_closed (rbMarket st) b (rr_lane_market _ _ _ Hst) Ht) as (m & Hm & Hlm & Hmb).
  assert (Hone : rebuild_step key st b = Ok (mkRebuild (reducers_after periods (hist ++ [b])) m (Some b)
      (wrap_u64 (rbClosedCount st + 1)) (rbPoints st ++ points))).
  { unfold rebuild_step. rewrite Hc, Hv. cbn [negb mbind outcome_bind]. rewrite (rr_last _ _ _ Hst).
    assert (Hfresh : match last hist with Some x => negb (bOpenTime x <? bOpenTime b) | None => false end = false).
    { destruct (last hist) as [x|] eqn:Hl; [|done]. apply last_Some in Hl as [h ->].
      apply increasing_app_inv in Hi as (_ & _ & Hi). rewrite (proj2 (Z.ltb_lt _ _)); [done|]. apply Hi; set_solver. }
    rewrite Hfresh, (rr_reducers _ _ _ Hst), Hred. cbn [mbind outcome_bind]. rewrite Hm. done. }
  cbn [oloop]. rewrite Hone. cbn [mbind outcome_bind].
  edestruct (IH (mkRebuild (reducers_after periods (hist ++ [b])) m (Some b)
    (wrap_u64 (rbClosedCount st + 1)) (rbPoints st ++ points)) (hist ++ [b])) as (st' & Hst' & Hle);
    [|by rewrite <-app_assoc|rewrite len_snoc; lia|exists st'; split; [done|];
      cbn [rbPoints] in Hle; rewrite len_app in Hle; rewrite len_cons; lia].
  split; cbn; [done|done| | |].
  - rewrite Hmb, (rr_market _ _ _ Hst). by apply last_n_app.
  - by rewrite last_snoc.
  - rewrite (rr_count _ _ _ Hst), len_snoc. apply wrap_u64_id. lia.
Qed.

Lemma fresh_rebuild_refines periods m :
  periods_ok periods -> lane_market m -> mkBars m = [] ->
  rebuild_refines periods (mkRebuild (reducers_of new_ema periods) m None 0 []) [].
Proof.
  intros Hp Hm Hmb. split; cbn; try done. apply reducers_of_ext. intros p Hin. unfold ema_of.
  destruct Hp as [_ Hv _]. rewrite Forall_forall in Hv. specialize (Hv p Hin).
  change (new_ema p) with (run_closes (new_ema p) []). by apply run_closes_after.
Qed.

Lemma rebuild_plan_total key periods bars publishReset :
  periods_ok periods -> series_bars key bars -> len bars < 2 ^ 64 - 1 ->
  Forall bar_encodable bars -> (forall p, p ∈ periods -> ema_encodable (ema_of bars p)) ->
  exists st points snapshots, rebuild_plan key periods bars publishReset = Ok (st, points, snapshots) /\
    len points <= len bars * len periods + 1.
Proof.
  intros Hp [Hi Hall] Hlen Henc Hema. unfold rebuild_plan. rewrite newReducers_of by apply Hp. cbn [mbind outcome_bind].
  destruct fresh_market_ok as (m & -> & Hmw & Hmb & _). cbn [wrap_err mbind outcome_bind].
  pose proof (fresh_rebuild_refines periods m Hp Hmw Hmb) as H0.
  destruct (rebuild_loop_total key periods bars _ [] Hp H0) as (st & Hst & Hpts); [done|by rewrite len_nil|done|].
  cbn [rbPoints] in Hpts. rewrite len_nil in Hpts.
  assert (Htyped : Forall bar_typed bars) by (eapply Forall_impl; [exact Hall|]; cbn; tauto).
  pose proof (rebuild_loop_refines key periods bars _ st [] Hp ltac:(by rewrite len_nil) Htyped H0 Hst) as Href.
  assert (Hclosed : Forall (fun b => bClosed b = true) bars) by (eapply Forall_impl; [exact Hall|]; cbn; tauto).
  rewrite seed_history_increasing in Href by done.
  cbn [app] in Href. destruct Href as [Hr Hlm Hm Hl _]. rewrite Hst. cbn [mbind outcome_bind].
  destruct (rbLastBar st) as [lastBar|].
  - rewrite Hr. destruct (newMarketEvent_of key lastBar (Market_State (rbMarket st)) (revisionForBar lastBar)
      (ema_of bars) periods) as (ev & Hev & _); [apply Hp|]. unfold reducers_after. rewrite Hev. cbn [lift_panic mbind outcome_bind].
    destruct (reset_event_total ev lastBar bars) as [ev' Hev'].
    destruct (Market_Snapshot_total (rbMarket st) (lm_wf _ Hlm)) as [data Hdata].
    { rewrite Hm. eapply suffix_Forall; [apply last_n_suffix|done]. }
    destruct (reducerSnapshots_of (ema_of bars) periods (rbMarket st) lastBar data) as (out & Hout & _);
      [apply Hp|done..|]. rewrite Hout.
    destruct publishReset; [rewrite Hev'|]; cbn [lift_panic mbind outcome_bind];
      (do 3 eexists; split; [reflexivity|rewrite len_snoc; lia]).
  - cbn [mbind outcome_bind reducerSnapshots]. do 3 eexists. split; [reflexivity|lia].
Qed.
End Rebuild.

(** ** A rebuild on the in-memory store *)

Section RebuildOnMemory.
Context `{Runtime}.

Lemma plain_points_reset points : Forall plain_point points ->
  List.filter evReset points = [] /\ Forall (fun e => evCursor e = 0) points.
Proof.
  intros Hp. split; [|eapply Forall_impl; [exact Hp|]; by intros e (_ & ? & _)].
  apply filter_all_false. intros e He. rewrite Forall_forall in Hp. by destruct (Hp e He).
Qed.

(** A correct seed replaces the history: the lane holds it, the store's cursor
    is its last bar, and one reset goes out with the bars before it. *)
Lemma rebuildSeed_memory bars lastBar (w : World Memory) :
  lane_wf (wLane w) -> series_bars (lKey (wLane w)) (bars ++ [lastBar]) -> len (bars ++ [lastBar]) < 2 ^ 64 - 1 ->
  Forall bar_encodable (bars ++ [lastBar]) ->
  (forall p, p ∈ lPeriods (wLane w) -> ema_encodable (ema_of (bars ++ [lastBar]) p)) ->
  memory_wf (wStore w) ->
  meNext (wStore w) + len (bars ++ [lastBar]) * len (lPeriods (wLane w)) + 1 < 2 ^ 63 - 1 ->
  (forall current, meCursors (wStore w) !! SeriesKey_String (lKey (wLane w)) = Some current ->
     bOpenTime current <= bOpenTime lastBar) ->
  exists w' event, rebuildSeed (bars ++ [lastBar]) true w = (w', Ok tt) /\
    refines (wLane w') (bars ++ [lastBar]) /\ memory_wf (wStore w') /\
    meCursors (wStore w') !! SeriesKey_String (lKey (wLane w)) = Some lastBar /\
    meEvents (wStore w') = meEvents (wStore w) ++ [event] /\ meNext (wStore w) < evCursor event /\
    wOut w' = wOut w ++ (if lLivePublisher (wLane w) then [LivePublished event] else []) /\
    evReset event = true /\ evResetHistory event = last_n marketHistoryLimit bars /\
    evSourceBar event = Some lastBar /\ evMarket event = Some (mkState (lMarket (wLane w'))).
Proof.
  intros Hwf Hser Hlen Henc Hema Hm Hn Hcur. pose proof (lw_periods _ Hwf) as Hp. pose proof Hser as [Hi Hall].
  assert (Htyped : Forall bar_typed (bars ++ [lastBar])) by (eapply Forall_impl; [exact Hall|]; cbn; tauto).
  assert (Hclosed : Forall (fun b => bClosed b = true) (bars ++ [lastBar]))
    by (eapply Forall_impl; [exact Hall|]; cbn; tauto).
  destruct (rebuild_plan_total (lKey (wLane w)) (lPeriods (wLane w)) (bars ++ [lastBar]) true)
    as (st & points & snapshots & Hplan & Hle); [done..|].
  destruct (rebuild_plan_reset _ _ _ _ _ _ _ Hp Hlen Htyped Hi Hclosed Hplan)
    as (event & Hpts & Hplain & R1 & R2 & R3 & R4 & _ & R6).
  destruct (plain_points_reset _ Hplain) as [Hnone Hzero].
  pose proof (rebuild_plan_refines _ _ _ _ _ _ _ Hp Hlen Htyped Hplan) as Href.
  rewrite seed_history_increasing in Href by done. cbn [app] in Href. pose proof (rr_last _ _ _ Href) as Hlast.
  rewrite last_snoc in Hlast.
  destruct (Memory_RebuildSeries_ok (wStore w) (lKey (wLane w)) points snapshots lastBar)
    as (s' & committed & Hreb & Hm' & Hc' & He' & Hev); [done|lia| |done|].
  { rewrite Hpts. apply Forall_app. split; [done|]. by apply Forall_singleton. }
  rewrite Hpts, List.filter_app, Hnone in Hev. cbn [app List.filter] in Hev. rewrite R1 in Hev.
  apply Forall2_cons_inv_l in Hev as (event' & rest & [Heq Hnum] & Hrest & ->).
  apply Forall2_nil_inv_l in Hrest as ->.
  assert (Hrun : rebuildSeed (bars ++ [lastBar]) true w =
    (mkWorld (set_canonical (wLane w) (rbReducers st) (rbMarket st) (Some lastBar) (revisionForBar lastBar)
                (rbClosedCount st)) s'
       (wOut w ++ (if lLivePublisher (wLane w) then [LivePublished event'] else [])), Ok tt)).
  { rewrite rebuildSeed_run. cbn zeta. rewrite Hplan, Hlast.
    change (@RebuildSeries Memory memory_store) with Memory_RebuildSeries. by rewrite Hreb. }
  eexists _, event'. split; [exact Hrun|]. pose proof (rebuildSeed_refines _ _ _ _ Hwf Hlen Htyped Hrun) as Href'.
  rewrite seed_history_increasing in Href' by done. cbn [app] in Href'.
  split_and!; [exact Href'|exact Hm'|exact Hc'|exact He'|exact Hnum|reflexivity|..];
    rewrite Heq; cbn; done.
Qed.
End RebuildOnMemory.

(** ** Snapshots *)

Section Served.
Context `{Runtime}.

(** The provisional entry of a period, if a forming bar gave it a value. *)
Definition projected_state (l : Lane) (hist : list Bar) (p : Z) : list IndicatorState :=
  match lProvisional l !! p with
  | Some value => [mkIndicator (emaAlgorithm p) p (Some value) (wrap_u64 (len hist + 1)) true (lFormingRevision l)]
  | None => []
  end.

Lemma snapshot_loop l hist periods acc :
  periods_ok (lPeriods l) -> refines l hist -> (forall p, p ∈ periods -> p ∈ lPeriods l) ->
  loop (snapshot_step (lReducers l) (lProvisional l) (lLastClosedRevision l) (lFormingRevision l)) periods acc =
    Some (acc.1.1 && forallb (fun p => p <=? len hist) periods,
          acc.1.2 ++ map (fun p => indicator_state (lLastClosedRevision l) p (ema_of hist p)) periods,
          acc.2 ++ flat_map (projected_state l hist) periods).
Proof.
  intros Hp Hr. revert acc. induction periods as [|p periods IH]; intros [[ready ind] proj] Hin; cbn [loop].
  - cbn. by rewrite andb_true_r, !app_nil_r.
  - assert (Hone : snapshot_step (lReducers l) (lProvisional l) (lLastClosedRevision l) (lFormingRevision l)
        (ready, ind, proj) p =
      Some (ready && (p <=? len hist), ind ++ [indicator_state (lLastClosedRevision l) p (ema_of hist p)],
            proj ++ projected_state l hist p)).
    { pose proof (pk_valid _ Hp) as Hv. rewrite Forall_forall in Hv. specialize (Hv p (Hin p (list_elem_of_here _ _))).
      unfold snapshot_step. rewrite (rf_reducers _ _ Hr). unfold reducers_after.
      rewrite lookup_reducers_of_Some by (apply Hin; by left). cbn [mbind option_bind].
      unfold indicator_state, projected_state, EMA_Value, EMA_Ready, ema_of. cbn. rewrite len_closes.
      rewrite wrap_u64_id by (destruct Hv; lia). by destruct (lProvisional l !! p); rewrite ?app_nil_r. }
    rewrite Hone. cbn [mbind option_bind].
    rewrite IH by (intros; apply Hin; by right). cbn [fst snd forallb map flat_map].
    by rewrite andb_assoc, <-!app_assoc.
Qed.

Lemma Lane_Snapshot_spec l hist :
  periods_ok (lPeriods l) -> refines l hist ->
  exists snapshot, Lane_Snapshot l = Some snapshot /\ ssSeries snapshot = lKey l /\
    ssLastClosedBar snapshot = last hist /\
    ssReady snapshot = forallb (fun p => p <=? len hist) (lPeriods l) /\
    ssIndicators snapshot =
      map (fun p => indicator_state (lLastClosedRevision l) p (ema_of hist p)) (lPeriods l) /\
    ssProvisional snapshot = flat_map (projected_state l hist) (lPeriods l) /\
    ssMarket snapshot = Some (mkState (lMarket l)).
Proof.
  intros Hp Hr. unfold Lane_Snapshot, makeSeriesSnapshot. rewrite (snapshot_loop l hist) by done.
  cbn. rewrite (rf_last _ _ Hr). eexists. split; [done|]. by cbn.
Qed.
End Served.

(** ** Forming bars *)

Section Projection.
Context `{Runtime} {S : Type}.

(** The provisional value of a period: what its average would be if the bar
    closed now. *)
Definition projection (hist : list Bar) (bar : Bar) (p : Z) : option float64 :=
  ema_reference p (map bClose (hist ++ [bar])).

Lemma ema_project hist bar p :
  valid_period p -> len hist < 2 ^ 64 - 1 -> is_finite (bClose bar) = true ->
  EMA_Project (ema_of hist p) (bClose bar) =
    Ok (default f0 (projection hist bar p), bool_decide (is_Some (projection hist bar p))).
Proof.
  intros Hp Hl Hc. unfold EMA_Project, ema_of, projection. rewrite map_closes_snoc.
  rewrite (proj2 (EMA_OnClosed_after p (map bClose hist) (bClose bar) Hp ltac:(by rewrite len_closes) Hc)).
  do 2 f_equal. unfold ema_reference. rewrite len_snoc.
  destruct (Z.ltb_spec (len (map bClose hist) + 1) p).
  - rewrite bool_decide_false by (by intros [? ?]). lia.
  - rewrite bool_decide_true by eauto. lia.
Qed.

Lemma fold_forming_values l periods hist bar revision ps provisional (w : World S) :
  Forall valid_period periods -> len hist < 2 ^ 64 - 1 -> is_finite (bClose bar) = true ->
  (forall p, p ∈ ps -> p ∈ periods) ->
  exists w', fold_each (forming_period l (reducers_after periods hist) bar revision) ps provisional w =
    (w', Ok (foldl (fun m p => match projection hist bar p with Some v => <[p := v]> m | None => m end)
               provisional ps)).
Proof.
  intros Hv Hl Hc. revert provisional w. induction ps as [|p ps IH]; intros provisional w Hin; cbn [fold_each foldl]; [eauto|].
  rewrite bind_run. unfold forming_period at 1. rewrite bind_run. unfold lift at 1, reducers_after at 1.
  rewrite lookup_reducers_of_Some by (apply Hin; by left). cbn [lift_panic]. rewrite bind_run. unfold lift at 1.
  rewrite Forall_forall in Hv. rewrite ema_project; [|apply Hv, Hin; by left|done..]. cbn [wrap_err].
  destruct (projection hist bar p) as [v|].
  - rewrite bool_decide_true by eauto. cbn [negb default]. rewrite bind_run. unfold when.
    destruct (lPublisher l); apply IH; intros; apply Hin; by right.
  - rewrite bool_decide_false by (by intros [? ?]). cbn [negb]. apply IH. intros; apply Hin; by right.
Qed.

Lemma lookup_projections hist bar ps (m : gmap Z float64) p :
  foldl (fun m p => match projection hist bar p with Some v => <[p := v]> m | None => m end) m ps !! p =
  if decide (p ∈ ps) then match projection hist bar p with Some v => Some v | None => m !! p end else m !! p.
Proof.
  revert m. induction ps as [|q ps IH]; intros m; cbn [foldl]; [done|]. rewrite IH.
  destruct (decide (q = p)) as [->|Hne].
  - rewrite (decide_True (P := p ∈ p :: ps)) by set_solver.
    destruct (projection hist bar p); [rewrite lookup_insert_eq|]; by destruct (decide (p ∈ ps)).
  - assert (Hm : (match projection hist bar q with Some v => <[q := v]> m | None => m end) !! p = m !! p)
      by (destruct (projection hist bar q); [by rewrite lookup_insert_ne|done]).
    rewrite Hm. destruct (decide (p ∈ ps)), (decide (p ∈ q :: ps)); set_solver.
Qed.

Lemma applyForming_projects bar hist (w : World S) :
  lane_wf (wLane w) -> refines (wLane w) hist -> len hist < 2 ^ 64 - 1 ->
  bClosed bar = false -> validateBar (lKey (wLane w)) bar = Ok tt ->
  (forall lastBar, lLastBar (wLane w) = Some lastBar -> bOpenTime lastBar <= bOpenTime bar) ->
  (forall p, p ∈ lPeriods (wLane w) -> ema_encodable (ema_of hist p)) ->
  exists w', applyForming bar w = (w', Ok tt) /\ lFormingBar (wLane w') = Some bar /\
    forall p, p ∈ lPeriods (wLane w) -> lProvisional (wLane w') !! p = projection hist bar p.
Proof.
  intros Hwf Hr Hlen Hc Hv Hlast Henc. pose proof (lw_periods _ Hwf) as Hp.
  unfold applyForming. rewrite Hc, bind_run. cbn [get_lane]. rewrite bind_run. unfold lift at 1. rewrite Hv.
  assert (Hclone : cloneReducers (lPeriods (wLane w)) (lReducers (wLane w)) =
                   Ok (reducers_after (lPeriods (wLane w)) hist)).
  { rewrite (rf_reducers _ _ Hr). apply cloneReducers_of; [done|apply ema_of_wf; [done|lia]|done]. }
  rewrite bind_run. unfold lift at 1. rewrite Hclone.
  assert (Hold : match lLastBar (wLane w) with
                 | Some lastBar => bOpenTime bar <? bOpenTime lastBar | None => false end = false).
  { destruct (lLastBar (wLane w)) as [lastBar|]; [|done]. apply Z.ltb_ge. by apply Hlast. }
  rewrite Hold, bind_run.
  destruct (fold_forming_values (wLane w) (lPeriods (wLane w)) hist bar (revisionForBar bar) (lPeriods (wLane w)) ∅ w)
    as [w1 Hfold]; [apply Hp|done|by eapply validateBar_finite|done|]. rewrite Hfold.
  rewrite bind_run. unfold when.
  assert (Hvals : forall p, p ∈ lPeriods (wLane w) ->
    foldl (fun m p => match projection hist bar p with Some v => <[p := v]> m | None => m end) (∅ : gmap Z float64)
      (lPeriods (wLane w)) !! p = projection hist bar p).
  { intros p Hin. rewrite lookup_projections, decide_True by done.
    destruct (projection hist bar p); [done|]. by rewrite lookup_empty. }
  destruct (lLivePublisher (wLane w)).
  - destruct (newMarketEvent_of (lKey (wLane w)) bar (set_occurrences (Market_State (lMarket (wLane w))) [] [])
      (revisionForBar bar) (ema_of hist) (lPeriods (wLane w))) as (ev & Hev & _); [apply Hp|].
    rewrite bind_run. unfold lift, reducers_after. rewrite Hev. cbn. eauto.
  - cbn. eauto.
Qed.
End Projection.

(** ** Parity *)

Section Parity.
Context `{Runtime}.

Lemma refines_same_cursor l1 l2 hist bar :
  lKey l1 = lKey l2 -> refines l1 hist -> refines l2 hist -> extends l1 bar -> extends l2 bar.
Proof.
  intros Hk R1 R2 (Hc & Hv & Hn). unfold extends. rewrite <-Hk. split_and!; [done..|].
  rewrite (rf_last _ _ R2), <-(rf_last _ _ R1). done.
Qed.

Lemma refines_same_encodable l1 l2 hist bar :
  lPeriods l1 = lPeriods l2 -> refines l1 hist -> refines l2 hist ->
  encodable l1 hist bar -> encodable l2 hist bar.
Proof.
  intros Hp R1 R2 [H1 H2 H3 H4]. split; rewrite <-?Hp; try done.
  by rewrite (rf_market _ _ R2), <-(rf_market _ _ R1).
Qed.

End Parity.

(** The zones of the market state are those of its history. *)
Lemma refines_state_equiv (R : Runtime) l1 l2 hist bar m1 s1 :
  lane_wf l1 -> lane_wf l2 -> refines l1 hist -> refines l2 hist ->
  Market_OnClosed (lMarket l1) bar = Some (m1, s1) ->
  exists m2, Market_OnClosed (lMarket l2) bar = Some (m2, s1).
Proof.
  intros Hw1 Hw2 [_ Hm1 _ _ _] [_ Hm2 _ _ _].
  destruct (lw_market _ Hw1) as [[_ _ _ _ (z1 & Hs1 & Hz1)] [Hc1 Hl1] _].
  destruct (lw_market _ Hw2) as [[_ _ _ _ (z2 & Hs2 & Hz2)] [Hc2 Hl2] _].
  rewrite Hm1, Hc1 in Hs1. rewrite Hm2, Hc2 in Hs2. unfold Market_OnClosed. rewrite Hc1, Hc2, Hl1, Hl2, Hm1, Hm2.
  destruct (keep_last _ _) as [bars|]; [|done]. cbn [mbind option_bind].
  destruct (EvaluateMarket bars _) as [s|]; [|done]. cbn [mbind option_bind].
  rewrite (zoneTransitions_proper (mkState (lMarket l1)) (mkState (lMarket l2))) by congruence.
  intros [= <- <-]. eexists. reflexivity.
Qed.

(** Two lanes at one history take the next bar alike, in executions that sort
    alike. *)
Lemma lanes_agree (R1 R2 : Runtime) l1 l2 hist bar :
  same_sort R1 R2 -> lKey l1 = lKey l2 -> lPeriods l1 = lPeriods l2 -> @lane_wf R1 l1 -> @lane_wf R2 l2 ->
  refines l1 hist -> refines l2 hist -> len hist < 2 ^ 64 - 1 -> bar_typed bar ->
  extends l1 bar -> encodable l1 hist bar ->
  exists reducers count ev1 ev2 m1 sn1 m2 sn2,
    @closed_plan R1 l1 bar = Ok (Some (reducers, m1, count, ev1, sn1)) /\
    @closed_plan R2 l2 bar = Ok (Some (reducers, m2, count, ev2, sn2)) /\
    state_equiv (mkState m1) (mkState m2) /\ Forall2 event_equiv ev1 ev2.
Proof.
  intros Hs Hk Hp Hw1 Hw2 Rf1 Rf2 Hlen Hb Hext Henc.
  destruct (@closed_plan_total R1 l1 bar hist Hw1 Rf1 Hlen Hb Hext Henc) as (r1 & m1 & c1 & ev1 & sn1 & P1 & _).
  destruct (@closed_plan_total R2 l2 bar hist Hw2 Rf2 Hlen Hb) as (r2 & m2 & c2 & ev2 & sn2 & P2 & _).
  { exact (refines_same_cursor l1 l2 hist bar Hk Rf1 Rf2 Hext). }
  { exact (refines_same_encodable l1 l2 hist bar Hp Rf1 Rf2 Henc). }
  pose proof (rf_count _ _ Rf1) as Hc1. pose proof (rf_count _ _ Rf2) as Hc2.
  pose proof P1 as Q1. pose proof P2 as Q2.
  apply (@closed_plan_spec R1) in Q1 as [_ Mo1 Hct1 (p1 & e1 & Red1 & Ne1 & Hev1) _]; [|done|lia|done].
  apply (@closed_plan_spec R2) in Q2 as [_ Mo2 Hct2 (p2 & e2 & Red2 & Ne2 & Hev2) _]; [|done|lia|done].
  assert (Hsp : StronglySorted Z.lt (lPeriods l2)) by apply (@lw_periods R2 l2 Hw2).
  rewrite (rf_reducers _ _ Rf1), Hk, Hp in Red1. rewrite (rf_reducers _ _ Rf2) in Red2. unfold reducers_after in Red1, Red2.
  assert (Hfin : is_finite (bClose bar) = true) by (destruct Hext as (_ & Hv & _); by eapply validateBar_finite).
  rewrite (@reduceEMAClosed_of R1) in Red1 by done. rewrite (@reduceEMAClosed_of R2) in Red2 by done.
  injection Red1 as <- <-. injection Red2 as <- <-.
  destruct (refines_state_equiv R1 l1 l2 hist bar m1 (mkState m1) Hw1 ltac:(by eapply lane_wf_sort; [|exact Hw2]; intros ? ? ?; rewrite Hs) Rf1 Rf2 Mo1)
    as [m1' Mo1'].
  destruct (Market_OnClosed_sort R1 R2 (lMarket l2) (lMarket l2) bar m1' (mkState m1) Hs (reflexivity _) Mo1')
    as (m2' & s2 & Mo2' & _ & Hst). rewrite Mo2 in Mo2'. injection Mo2' as <- <-.
  rewrite Hk in Ne1. destruct (newMarketEvent_sort R1 R2 _ _ _ _ _ _ _ _ Hsp Hst Ne1) as [Ne2' Hm1].
  rewrite Ne2 in Ne2'. injection Ne2' as ->. subst ev1 ev2 c1 c2. rewrite Hc1 in P1. rewrite Hc2 in P2.
  eexists _, _, _, _, m1, sn1, m2, sn2. split_and!; [exact P1|exact P2|exact Hst|].
  apply Forall2_app; [|constructor; [right; by exists (mkState m1), (mkState m2)|constructor]].
  apply Forall_Forall2_diag, Forall_true. intros e. by left.
Qed.

