(* ===== verification/LaneCursor.v ===== *)
(** * A lane and the cursor of its series

    The in-memory store keeps the last bar of every series as its cursor.  A
    lane and the store agree on it: whatever command the lane runs, and however
    it ends, the cursor of its series is the lane's last bar, and no other
    cursor moves. *)

From stdpp Require Import prelude gmap strings list sorting.
From Stdlib Require Import ZArith Lia SpecFloat String.
From S2P Require Import Prelude GoFloat GoText Sha256 Model Ema MarketZones MarketStructure MarketReducer MarketProofs.
From S2P Require Import StoreSpec Memory MemoryProofs Lane LaneReducers LaneProofs LaneRefinement LaneHistory.

#[local] Open Scope string_scope.
#[local] Open Scope list_scope.
#[local] Open Scope Z_scope.

#[local] Opaque barHash.

(** ** Cursors of the store *)

Lemma commit_events_cursors events s committed :
  meCursors (foldl commit_event (s, committed) events).1 = meCursors s.
Proof.
  revert s committed. induction events as [|e events IH]; intros s committed; cbn [foldl]; [done|].
  rewrite commit_event_cases.
  assert (Happ : meCursors (append_committed s e) = meCursors s).
  { unfold append_committed. cbn zeta. cbn [meCursors].
    match goal with |- context [persistEventState ?a ?b] => by destruct (persistEventState_frame a b) as (_ & _ & -> & _) end. }
  destruct (eventByID s (evEventID e)) as [existing|]; [destruct (0 <? evCursor existing)|]; by rewrite IH.
Qed.

Lemma rebuild_events_cursors events s committed :
  meCursors (foldl rebuild_event (s, committed) events).1 = meCursors s.
Proof.
  revert s committed. induction events as [|e events IH]; intros s committed; cbn [foldl]; [done|].
  cbn [rebuild_event]. destruct (evReset e); rewrite IH; cbn [meCursors];
    by destruct (persistEventState_frame s e) as (_ & _ & -> & _).
Qed.

(** A commit of a bar ahead of the cursor succeeds and moves that cursor. *)
Lemma CommitClosed_cursors s key bar events snapshots s' r :
  (forall current, meCursors s !! SeriesKey_String key = Some current -> bOpenTime current < bOpenTime bar) ->
  Memory_CommitClosed s key bar events snapshots = (s', r) ->
  meCursors s' = <[SeriesKey_String key := bar]> (meCursors s) /\ is_ok r = true.
Proof.
  intros Hcur. unfold Memory_CommitClosed. pose proof (commit_events_cursors events s []) as Hc.
  destruct (foldl commit_event (s, []) events) as [s1 committed]. cbn [fst] in Hc.
  destruct (meCursors s !! SeriesKey_String key) as [current|] eqn:E.
  - rewrite (proj2 (Z.ltb_lt _ _)) by (by apply Hcur). cbn [negb]. intros [= <- <-]. cbn [meCursors]. by rewrite Hc.
  - intros [= <- <-]. cbn [meCursors]. by rewrite Hc.
Qed.

Lemma RebuildSeries_cursors s key events snapshots lastBar s' r :
  Memory_RebuildSeries s key events snapshots lastBar = (s', r) ->
  match r with
  | Ok _ => meCursors s' = match lastBar with
                           | Some bar => <[SeriesKey_String key := bar]> (meCursors s)
                           | None => meCursors s
                           end
  | _ => s' = s
  end.
Proof.
  unfold Memory_RebuildSeries. destruct (match lastBar with Some _ => _ | None => _ end); [by intros [= <- <-]|].
  cbn zeta. set (s1 := mkMemory _ _ _ _ _ _ _). pose proof (rebuild_events_cursors events s1 []) as Hc.
  destruct (foldl rebuild_event (s1, []) events) as [s2 committed]. cbn [fst] in Hc.
  intros [= <- <-]. cbn [meCursors]. rewrite Hc. by destruct lastBar.
Qed.

(** ** The lane in step with its store *)

Definition in_step (w : World Memory) : Prop :=
  meCursors (wStore w) !! SeriesKey_String (lKey (wLane w)) = lLastBar (wLane w).

(** From one world to another of the same lane: in step again, and the other
    series as they were. *)
Record steps_along (w w' : World Memory) : Prop := {
  sa_key : lKey (wLane w') = lKey (wLane w);
  sa_step : in_step w -> in_step w';
  sa_others : forall k, k <> SeriesKey_String (lKey (wLane w)) -> meCursors (wStore w') !! k = meCursors (wStore w) !! k
}.

Lemma steps_along_refl w : steps_along w w.
Proof. by split. Qed.

Lemma steps_along_trans w1 w2 w3 : steps_along w1 w2 -> steps_along w2 w3 -> steps_along w1 w3.
Proof.
  intros [K1 S1 O1] [K2 S2 O2]. split; [congruence|auto|]. intros k Hk. rewrite O2 by congruence. by apply O1.
Qed.

Lemma steps_along_same w w' :
  lKey (wLane w') = lKey (wLane w) -> lLastBar (wLane w') = lLastBar (wLane w) ->
  meCursors (wStore w') = meCursors (wStore w) -> steps_along w w'.
Proof. intros Hk Hl Hc. split; [done| |by intros; rewrite Hc]. unfold in_step. by rewrite Hk, Hl, Hc. Qed.

Section Along.
Context `{Runtime}.

Lemma applyClosed_along bar hist (w w' : World Memory) r :
  lane_wf (wLane w) -> lane_at w hist -> len hist < 2 ^ 64 - 1 -> bar_typed bar -> in_step w ->
  applyClosed bar w = (w', r) -> steps_along w w'.
Proof.
  intros Hwf [Hr _] Hlen Hb Hin. rewrite applyClosed_run.
  destruct (closed_plan (wLane w) bar) as [[[[[[reducers market] count] events] snapshots]|]|e|] eqn:Hplan;
    [|intros [= <- <-]; apply steps_along_refl..].
  destruct (closed_plan_refines _ _ _ _ _ _ _ _ Hwf Hr Hlen Hb Hplan) as [_ (_ & _ & Hn)]. cbn zeta.
  change (@CommitClosed Memory memory_store) with Memory_CommitClosed.
  destruct (Memory_CommitClosed _ _ _ _ _) as [s res] eqn:Hc. apply CommitClosed_cursors in Hc as [Hc Hok].
  2:{ intros current. rewrite Hin. apply Hn. }
  assert (Hdone : forall l' s' out, lKey l' = lKey (wLane w) -> lLastBar l' = Some bar -> meCursors s' = meCursors s ->
    steps_along w (mkWorld l' s' out)).
  { intros l' s' out Hk Hl Hs. split; cbn [wLane wStore]; [done| |].
    - intros _. unfold in_step. cbn [wLane wStore]. rewrite Hk, Hl, Hs, Hc. apply lookup_insert_eq.
    - intros k Hne. rewrite Hs, Hc. by apply lookup_insert_ne. }
  destruct res as [committed|e|]; [|done..]. destruct (_ && _).
  - destruct (MarkPublished s _) as [s' r'] eqn:Hm. injection Hm as <- <-. intros [= <- <-]. by apply Hdone.
  - intros [= <- <-]. by apply Hdone.
Qed.

Lemma applyCatchUpSeed_along bars hist (w w' : World Memory) r :
  lane_wf (wLane w) -> lane_at w hist -> len hist + len bars < 2 ^ 64 - 1 -> Forall bar_typed bars -> in_step w ->
  applyCatchUpSeed bars w = (w', r) -> steps_along w w'.
Proof.
  intros Hwf Hat Hlen Ht. revert w hist Hwf Hat Hlen. unfold applyCatchUpSeed.
  induction Ht as [|b bars Hb Ht IH]; intros w hist Hwf Hat Hlen Hin; cbn [for_each].
  { intros [= <- <-]. apply steps_along_refl. }
  rewrite len_cons in Hlen. pose proof (len_nonneg bars). rewrite bind_run.
  match goal with |- context [match ?m with (_, _) => _ end = _] => destruct m as [w1 r1] eqn:Hstep end.
  assert (Hone : w1 = w \/ applyClosed b w = (w1, r1)).
  { destruct (negb (bClosed b)); [injection Hstep as <- <-; by left|]. rewrite bind_run in Hstep. cbn [get_lane] in Hstep.
    destruct (lLastBar (wLane w)) as [lastBar|]; [|by right].
    destruct (negb (bOpenTime lastBar <? bOpenTime b)); [|by right].
    destruct (_ && _); injection Hstep as <- <-; by left. }
  assert (Hnext : steps_along w w1 /\ lane_wf (wLane w1) /\ exists h1, lane_at w1 h1 /\ len h1 <= len hist + 1).
  { destruct Hone as [->|Hrun].
    - split_and!; [apply steps_along_refl|done|]. exists hist. split; [done|lia].
    - pose proof (proj1 Hat) as Hrf. split; [eapply applyClosed_along; [done|done|lia|done..]|].
      pose proof (applyClosed_wf b w w1 r1 Hwf) as Hw1. rewrite (rf_count _ _ Hrf) in Hw1.
      destruct (Hw1 ltac:(lia) Hb Hrun) as (_ & Hwf1 & _). split; [done|].
      destruct (applyClosed_history b hist w w1 r1 Hwf Hat ltac:(lia) Hb Hrun) as (h1 & Hh & _ & Hl). eauto. }
  destruct Hnext as (Ha & Hwf1 & h1 & Hat1 & Hl1).
  destruct r1 as [[]|e|]; [|by intros [= <- <-]..].
  intros Hrest. eapply steps_along_trans; [exact Ha|]. eapply IH; [exact Hwf1|exact Hat1|lia| |exact Hrest].
  by apply Ha.
Qed.

(** ** Seeds without a closed bar *)

Lemma catch_up_nothing bars (w : World Memory) :
  Forall (fun b => bClosed b = false) bars -> applyCatchUpSeed bars w = (w, Ok tt).
Proof.
  unfold applyCatchUpSeed. induction 1 as [|b bars Hb _ IH]; cbn [for_each]; [done|]. rewrite Hb. cbn [negb].
  rewrite bind_run. exact IH.
Qed.

Lemma no_conflict_nothing l bars :
  Forall (fun b => bClosed b = false) bars -> seedConflictsWithHistory l bars = false.
Proof.
  intros Hall. unfold seedConflictsWithHistory.
  destruct (lLastBar l) as [lastBar|]; [|done]. destruct (Market_Bars (lMarket l)) as [|oldest local]; [done|].
  assert (seed_overlap lastBar bars = (∅, zero_time)) as ->; [|done].
  unfold seed_overlap. induction Hall as [|b bars Hb _ IH]; cbn [foldl]; [done|]. by rewrite Hb.
Qed.

Lemma seed_history_some hist bars :
  hist <> [] \/ Exists (fun b => bClosed b = true) bars -> seed_history hist bars <> [].
Proof.
  revert hist. induction bars as [|b bars IH]; intros hist [Hh|Hx]; cbn [seed_history]; [done|by inversion Hx|..].
  - destruct (_ && _); apply IH; left; [|done]. by destruct hist.
  - destruct (bClosed b) eqn:Hb; cbn [andb].
    + destruct (last hist) as [lastBar|] eqn:El.
      * destruct (_ <? _); apply IH; left; [by destruct hist|]. intros ->. done.
      * apply IH. left. by destruct hist.
    + apply IH. right. inversion Hx; [congruence|done].
Qed.

Lemma rebuildSeed_along bars reset (w w' : World Memory) r :
  lane_wf (wLane w) -> len bars < 2 ^ 64 - 1 -> Forall bar_typed bars ->
  (lLastBar (wLane w) = None \/ Exists (fun b => bClosed b = true) bars) ->
  rebuildSeed bars reset w = (w', r) -> steps_along w w'.
Proof.
  intros Hwf Hlen Ht Hor Hrun. pose proof Hrun as Hrun'. rewrite rebuildSeed_run in Hrun. cbn zeta in Hrun.
  destruct (rebuild_plan _ _ _ _) as [[[st points] snapshots]|e|]; [|injection Hrun as <- <-; apply steps_along_refl..].
  change (@RebuildSeries Memory memory_store) with Memory_RebuildSeries in Hrun.
  destruct (Memory_RebuildSeries _ _ _ _ _) as [s res] eqn:Hb. apply RebuildSeries_cursors in Hb.
  destruct res as [committed|e|]; [|injection Hrun as <- <-; subst s; by apply steps_along_same..].
  injection Hrun as Hw Hr. subst r. pose proof (rebuildSeed_refines _ _ _ _ Hwf Hlen Ht Hrun') as Href.
  pose proof (rf_last _ _ Href) as Hlast. rewrite <-Hw in Hlast |- *. cbn [wLane set_canonical lLastBar] in Hlast.
  split; cbn [wLane wStore set_canonical lKey lLastBar]; [done| |].
  - unfold in_step. cbn [wLane wStore set_canonical lKey lLastBar]. intros Hin.
    destruct (rbLastBar st) as [bar|]; rewrite Hb; [apply lookup_insert_eq|]. rewrite Hin.
    destruct Hor as [Hnone|Hx]; [done|]. symmetry in Hlast. apply last_None in Hlast.
    by destruct (seed_history_some [] bars (or_intror Hx)).
  - intros k Hk. rewrite Hb. destruct (rbLastBar st); [by apply lookup_insert_ne|done].
Qed.

(** A lane that is in step with its store never finds something to resume from
    unless it has a last bar. *)
Lemma in_step_nothing_saved (w : World Memory) :
  in_step w -> lLastBar (wLane w) = None -> nothing_saved (wStore w) (lKey (wLane w)).
Proof.
  unfold in_step. intros Hin Hnone recovery Hload. cbn [LoadRecovery memory_store] in Hload. unfold Memory_LoadRecovery in Hload.
  rewrite Hin, Hnone in Hload. by injection Hload as <-.
Qed.

Lemma applySeed_along bars hist (w w' : World Memory) r :
  lane_wf (wLane w) -> lane_at w hist -> len hist + 3 * len bars < 2 ^ 64 - 1 -> Forall bar_typed bars -> in_step w ->
  applySeed bars w = (w', r) -> steps_along w w'.
Proof.
  intros Hwf Hat Hlen Ht%sort_seed_typed Hin. unfold applySeed. pose proof (len_nonneg hist).
  rewrite <-(sort_seed_len bars) in Hlen. revert Ht Hlen. generalize (sort_seed bars) as seed. intros seed Ht Hlen.
  pose proof (len_nonneg seed). rewrite bind_run. cbn [get_lane]. destruct (lLastBar (wLane w)) as [lastBar|] eqn:Hl.
  2:{ pose proof (in_step_nothing_saved w Hin Hl) as Hns. rewrite bind_run. unfold load_recovery.
      destruct (LoadRecovery (wStore w) (lKey (wLane w))) as [recovery|e|] eqn:Hload; cbn [wrap_err];
        [|intros [= <- <-]; apply steps_along_refl..].
      rewrite (Hns _ Hload). intros Hrun. eapply (rebuildSeed_along seed); [done|lia|done|by left|exact Hrun]. }
  destruct (decide (Exists (fun b => bClosed b = true) seed)) as [Hx|Hx].
  2:{ assert (Hno : Forall (fun b => bClosed b = false) seed).
      { apply not_Exists_Forall in Hx; [|solve_decision]. eapply Forall_impl; [exact Hx|]. intros b. cbn. by destruct (bClosed b). }
      rewrite no_conflict_nothing by done. unfold try_else. rewrite catch_up_nothing by done.
      intros [= <- <-]. apply steps_along_refl. }
  destruct (seedConflictsWithHistory (wLane w) seed).
  { intros Hrun. eapply (rebuildSeed_along seed); [done|lia|done|by right|exact Hrun]. }
  unfold try_else. destruct (applyCatchUpSeed seed w) as [w1 r1] eqn:Hcu.
  pose proof (applyCatchUpSeed_along seed hist w w1 r1 Hwf Hat ltac:(lia) Ht Hin Hcu) as Ha.
  pose proof (applyCatchUpSeed_wf seed w w1 r1 Hwf) as Hw1. rewrite (rf_count _ _ (proj1 Hat)) in Hw1.
  destruct (Hw1 ltac:(lia) Ht Hcu) as (Hnp & Hwf1 & _).
  destruct r1 as [[]|e|]; [by intros [= <- <-]| |done].
  intros Hrun. eapply steps_along_trans; [exact Ha|]. eapply (rebuildSeed_along seed); [done|lia|done|by right|exact Hrun].
Qed.

(** Every command, however it ends. *)
Lemma run_command_along cmd hist (w w' : World Memory) r :
  lane_wf (wLane w) -> lane_at w hist -> len hist + 3 * len (command_bars cmd) < 2 ^ 64 - 1 ->
  Forall bar_typed (command_bars cmd) -> in_step w -> run_command cmd w = (w', r) -> steps_along w w'.
Proof.
  intros Hwf Hat Hlen Ht Hin. unfold run_command.
  match goal with |- context [let '(_, _) := ?m in _] => destruct m as [w1 r1] eqn:Hrun end.
  assert (Ha : steps_along w w1).
  { destruct cmd as [bars|bar|bar]; cbn [command_bars] in *.
    - by eapply applySeed_along.
    - apply Forall_cons in Ht as [Ht _]. change (len [bar]) with 1 in *.
      eapply applyClosed_along; [done|done|lia|done..].
    - apply applyForming_frame in Hrun as ((E1 & _ & _ & _ & E5 & _) & Es & _). apply steps_along_same; [done|done|by rewrite Es]. }
  destruct r1 as [[]|e|]; intros [= <- <-]; (eapply steps_along_trans; [exact Ha|]); by apply steps_along_same.
Qed.
End Along.
