(* ===== verification/Outbox.v ===== *)
(** * The outbox dispatcher (internal/outbox/dispatcher.go)

    [Flush] over any store and publisher that offer what the dispatcher calls,
    and its behaviour on the in-memory store: everything pending is published
    in cursor order, and a failure loses nothing. *)

From stdpp Require Import prelude gmap strings list sorting.
From Stdlib Require Import ZArith Lia SpecFloat String.
From S2P Require Import Prelude GoFloat GoText Monitor Model Ema StoreSpec Memory MemoryProofs.

#[local] Open Scope string_scope.
#[local] Open Scope list_scope.
#[local] Open Scope Z_scope.

(** The store as the dispatcher sees it. *)
Class OutboxStore (S : Type) := {
  ob_pending : S -> Z -> outcome StoreError (list SignalEvent);
  ob_mark : S -> list Z -> S * outcome StoreError unit
}.

(** The publisher: its state, and [Publish]. *)
Class OutboxPublisher (P : Type) := {
  ob_publish : P -> SignalEvent -> P * outcome string unit
}.

#[global] Instance memory_outbox : OutboxStore Memory := {|
  ob_pending s limit := Ok (Memory_PendingEvents s limit);
  ob_mark := Memory_MarkPublished
|}.

(** What a flush reports to the metrics, when the dispatcher has any. *)
Definition recordSuccess (metrics : option Metrics) : option Metrics :=
  m ← metrics; Some (SetOutboxHealthy m true).
Definition recordFailure (metrics : option Metrics) : option Metrics :=
  m ← metrics; Some (RecordOutboxError (SetOutboxHealthy m false)).

Section Dispatcher.
Context {S P : Type} `{OutboxStore S} `{OutboxPublisher P}.

(** The loop over one batch: it stops at the first failed publication. *)
Fixpoint publish_batch (p : P) (events : list SignalEvent) : P * outcome string unit :=
  match events with
  | [] => (p, Ok tt)
  | event :: rest =>
      match ob_publish p event with
      | (p', Ok _) => publish_batch p' rest
      | (p', Fail e) => (p', Fail e)
      | (p', Panic) => (p', Panic)
      end
  end.

(** [Flush]; a turn of the loop that goes on has published 250 events. *)
Fixpoint Flush (fuel : nat) (s : S) (p : P) : option (S * P * outcome string unit) :=
  match fuel with
  | O => None
  | Datatypes.S fuel' =>
      match ob_pending s 250 with
      | Fail e => Some (s, p, Fail e)
      | Panic => Some (s, p, Panic)
      | Ok events =>
          if len events =? 0 then Some (s, p, Ok tt)
          else
            match publish_batch p events with
            | (p', Ok _) =>
                match ob_mark s (map evCursor events) with
                | (s', Ok _) => if len events <? 250 then Some (s', p', Ok tt) else Flush fuel' s' p'
                | (s', Fail e) => Some (s', p', Fail e)
                | (s', Panic) => Some (s', p', Panic)
                end
            | (p', Fail e) => Some (s, p', Fail e)
            | (p', Panic) => Some (s, p', Panic)
            end
      end
  end.
End Dispatcher.

(** ** Publishers that keep a log

    A publisher that appends each event it accepts and fails at the positions
    of [script]; the empty script never fails. *)
Record LogPublisher := mkLog {
  lgEvents : list SignalEvent;
  lgScript : list bool
}.

#[global] Instance log_publisher : OutboxPublisher LogPublisher := {|
  ob_publish p event :=
    match lgScript p with
    | true :: rest => (mkLog (lgEvents p) rest, Fail "publish failed")
    | _ :: rest => (mkLog (lgEvents p ++ [event]) rest, Ok tt)
    | [] => (mkLog (lgEvents p ++ [event]) [], Ok tt)
    end
|}.

Lemma publish_batch_log events log :
  publish_batch (mkLog log []) events = (mkLog (log ++ events) [], Ok tt).
Proof.
  revert log. induction events as [|e events IH]; intros log; cbn; [by rewrite app_nil_r|].
  rewrite IH. by rewrite <-app_assoc.
Qed.

(** Whatever fails, the events accepted are a prefix of the batch. *)
Lemma publish_batch_prefix events p p' r :
  publish_batch p events = (p', r) ->
  exists sent, lgEvents p' = lgEvents p ++ sent /\ sent `prefix_of` events /\ (r = Ok tt -> sent = events).
Proof.
  revert p. induction events as [|e events IH]; intros [log script]; cbn.
  - intros [= <- <-]. exists []. cbn. rewrite app_nil_r. auto.
  - destruct script as [|[] script]; cbn.
    + intros (sent & Hs & Hp & Hr)%IH. cbn in Hs. exists (e :: sent). rewrite Hs, <-app_assoc.
      split_and!; [done|by apply prefix_cons|]. intros ->%Hr. done.
    + intros [= <- <-]. exists []. cbn. rewrite app_nil_r. split_and!; [done|apply prefix_nil|done].
    + intros (sent & Hs & Hp & Hr)%IH. cbn in Hs. exists (e :: sent). rewrite Hs, <-app_assoc.
      split_and!; [done|by apply prefix_cons|]. intros ->%Hr. done.
Qed.

Lemma Flush_memory fuel s log :
  memory_wf s -> (List.length (pending s) / 250 < fuel)%nat ->
  exists s', Flush fuel s (mkLog log []) = Some (s', mkLog (log ++ pending s) [], Ok tt) /\
    pending s' = [] /\ memory_wf s' /\ meEvents s' = meEvents s.
Proof.
  revert s log. induction fuel as [|fuel IH]; intros s log Hwf Hf; [lia|]. cbn [Flush ob_pending memory_outbox].
  rewrite Memory_PendingEvents_eq by lia. set (batch := take (Z.to_nat 250) (pending s)).
  destruct (Z.eqb_spec (len batch) 0) as [Hz|Hnz].
  { assert (Hnil : pending s = []).
    { destruct (pending s) as [|e l] eqn:E; [done|]. unfold batch, len in Hz. by cbn in Hz. }
    exists s. rewrite Hnil, app_nil_r. auto. }
  rewrite publish_batch_log. cbn [ob_mark memory_outbox].
  pose proof (pending_drop s (Z.to_nat 250) Hwf) as Hd. fold batch in Hd.
  pose proof (MarkPublished_wf s (map evCursor batch) Hwf) as Hwf'.
  destruct (Memory_MarkPublished s (map evCursor batch)) as [s1 r1] eqn:Hmark. cbn [fst] in *.
  assert (r1 = Ok tt /\ meEvents s1 = meEvents s) as [-> Hev] by (by injection Hmark as <- <-).
  assert (Hlen : List.length batch = Nat.min 250 (List.length (pending s))) by (unfold batch; by rewrite length_take).
  destruct (Z.ltb_spec (len batch) 250) as [Hlt|Hge].
  - exists s1. assert (Hall : batch = pending s).
    { unfold batch. apply take_ge. unfold len in Hlt. lia. }
    rewrite Hd, Hall. split_and!; try done. apply drop_ge. unfold len in Hlt. lia.
  - assert (Hle : (250 <= List.length (pending s))%nat) by (unfold len in Hge; lia).
    destruct (IH s1 (log ++ batch) Hwf') as (s2 & -> & Hp2 & Hw2 & He2).
    + rewrite Hd, length_drop. change (Z.to_nat 250) with 250%nat.
      replace (List.length (pending s)) with (List.length (pending s) - 250 + 1 * 250)%nat in Hf by lia.
      rewrite Nat.div_add in Hf by lia. lia.
    + exists s2. rewrite Hd, <-app_assoc. unfold batch. rewrite take_drop. split_and!; try done. congruence.
Qed.

Lemma publish_batch_app {P} `{OutboxPublisher P} p a b p' :
  publish_batch p a = (p', Ok tt) -> publish_batch p (a ++ b) = publish_batch p' b.
Proof.
  revert p. induction a as [|e a IH]; intros p; cbn; [by intros [= <-]|].
  destruct (ob_publish p e) as [p1 [[]| |]]; [apply IH|done|done].
Qed.

Lemma publish_batch_fail {P} `{OutboxPublisher P} (p : P) a b p' r :
  publish_batch p a = (p', r) -> is_ok r = false -> publish_batch p (a ++ b) = (p', r).
Proof.
  revert p. induction a as [|e a IH]; intros p; cbn; [by intros [= _ <-]|].
  destruct (ob_publish p e) as [p1 [[]| |]]; [apply IH|done|done].
Qed.

(** ** Any outbox

    What a store promises the dispatcher: it hands out the first events of a
    queue in cursor order, and marking those takes them off the queue. *)
Class OutboxLaws (S : Type) `{OutboxStore S} := {
  ob_ready : S -> Prop;
  ob_queue : S -> list SignalEvent;
  ob_queue_sorted : forall s, ob_ready s -> StronglySorted Z.lt (map evCursor (ob_queue s));
  ob_pending_first : forall s, ob_ready s -> ob_pending s 250 = Ok (take 250 (ob_queue s));
  ob_mark_first : forall s n, ob_ready s -> exists s',
    ob_mark s (map evCursor (take n (ob_queue s))) = (s', Ok tt) /\ ob_ready s' /\ ob_queue s' = drop n (ob_queue s)
}.

#[global] Instance memory_outbox_laws : OutboxLaws Memory.
Proof.
  refine {| ob_ready := memory_wf; ob_queue := pending |}.
  - apply pending_sorted.
  - intros s _. cbn. by rewrite Memory_PendingEvents_eq.
  - intros s n Hwf. exists (Memory_MarkPublished s (map evCursor (take n (pending s)))).1. split_and!; [done| |].
    + by apply MarkPublished_wf.
    + by apply pending_drop.
Defined.

(** What a flush does, whatever the store and the publisher: it publishes the
    queue up to the first failure, and takes whole batches off it. *)
Lemma Flush_spec {S P} `{OutboxLaws S} `{OutboxPublisher P} fuel (s : S) (p : P) :
  ob_ready s -> (List.length (ob_queue s) / 250 < fuel)%nat ->
  exists s' p' r k, Flush fuel s p = Some (s', p', r) /\ publish_batch p (ob_queue s) = (p', r) /\
    ob_ready s' /\ ob_queue s' = drop k (ob_queue s) /\ (r = Ok tt -> ob_queue s' = []) /\
    is_ok (publish_batch p (take k (ob_queue s))).2 = true.
Proof.
  revert s p. induction fuel as [|fuel IH]; intros s p Hr Hf; [lia|]. cbn [Flush]. rewrite ob_pending_first by done.
  set (batch := take 250 (ob_queue s)).
  assert (Hlen : List.length batch = Nat.min 250 (List.length (ob_queue s))) by apply length_take.
  destruct (Z.eqb_spec (len batch) 0) as [Hz|Hnz].
  { assert (Hnil : ob_queue s = []).
    { destruct (ob_queue s); [done|]. unfold len in Hz. rewrite Hlen in Hz. cbn [List.length] in Hz. lia. }
    exists s, p, (Ok tt), 0%nat. by rewrite Hnil. }
  destruct (ob_mark_first s 250 Hr) as (s1 & Hmark & Hr1 & Hq1). fold batch in Hmark.
  assert (Hsplit : ob_queue s = batch ++ ob_queue s1) by (rewrite Hq1; symmetry; apply take_drop).
  destruct (publish_batch p batch) as [p1 [[]|e|]] eqn:Hpub.
  - rewrite Hmark. pose proof (publish_batch_app p batch (ob_queue s1) p1 Hpub) as Happ. rewrite <-Hsplit in Happ.
    destruct (Z.ltb_spec (len batch) 250) as [Hlt|Hge].
    + assert (Hnil : ob_queue s1 = []) by (rewrite Hq1; apply drop_ge; unfold len in Hlt; lia).
      exists s1, p1, (Ok tt), 250%nat. rewrite Happ, Hnil. fold batch. rewrite Hpub. split_and!; try done. congruence.
    + destruct (IH s1 p1 Hr1) as (s' & p' & r & k & HF & HP & Hr' & Hq' & Hok & Hk).
      { rewrite Hq1, length_drop. unfold len in Hge.
        replace (List.length (ob_queue s)) with (List.length (ob_queue s) - 250 + 1 * 250)%nat in Hf by lia.
        rewrite Nat.div_add in Hf by lia. lia. }
      exists s', p', r, (250 + k)%nat. rewrite Happ. split_and!; try done.
      * by rewrite Hq', Hq1, drop_drop.
      * rewrite <-take_take_drop. fold batch. rewrite (publish_batch_app _ _ _ _ Hpub), <-Hq1. done.
  - exists s, p1, (Fail e), 0%nat. rewrite Hsplit, (publish_batch_fail _ _ _ _ _ Hpub) by done. by rewrite <-Hsplit.
  - exists s, p1, Panic, 0%nat. rewrite Hsplit, (publish_batch_fail _ _ _ _ _ Hpub) by done. by rewrite <-Hsplit.
Qed.

(** A failed flush marks only events that were all published: what stays
    pending is a suffix, and everything before it was sent. *)
Lemma Flush_failure fuel s p s' p' e :
  memory_wf s -> Flush fuel s p = Some (s', p', Fail e) ->
  exists n sent, pending s' = drop n (pending s) /\ lgEvents p' = lgEvents p ++ sent /\
    take n (pending s) `prefix_of` sent /\ sent `prefix_of` pending s.
Proof.
  revert s p. induction fuel as [|fuel IH]; intros s p Hwf; [done|]. cbn [Flush ob_pending memory_outbox].
  rewrite Memory_PendingEvents_eq by lia. set (batch := take (Z.to_nat 250) (pending s)).
  destruct (len batch =? 0); [done|].
  assert (Hbatch : batch `prefix_of` pending s) by (unfold batch; apply prefix_take).
  destruct (publish_batch p batch) as [p1 r1] eqn:Hpub.
  destruct (publish_batch_prefix _ _ _ _ Hpub) as (sent & Hs & Hp & Hr).
  destruct r1 as [[]|e1|].
  - cbn [ob_mark memory_outbox].
    pose proof (pending_drop s (Z.to_nat 250) Hwf) as Hd. fold batch in Hd.
    pose proof (MarkPublished_wf s (map evCursor batch) Hwf) as Hwf'.
    destruct (Memory_MarkPublished s (map evCursor batch)) as [s1 rm] eqn:Hmark. cbn [fst] in *.
    assert (rm = Ok tt) as -> by (by injection Hmark as <- <-).
    destruct (len batch <? 250); [done|]. intros (n & more & Hn & Hm & Hpre & Hsuf)%IH; [|done].
    exists (Z.to_nat 250 + n)%nat, (batch ++ more). rewrite (Hr eq_refl) in Hs.
    rewrite Hn, Hd, drop_drop, Hm, Hs, <-app_assoc. split_and!; [done|done| |].
    + rewrite <-take_take_drop. fold batch. apply prefix_app. by rewrite <-Hd.
    + rewrite <-(take_drop (Z.to_nat 250) (pending s)). fold batch. apply prefix_app. by rewrite <-Hd.
  - intros [= <- <- <-]. exists 0%nat, sent. rewrite drop_0. split_and!; try done; [apply prefix_nil|by etrans].
  - done.
Qed.
