(* ===== verification/OutboxRun.v ===== *)
(** * The loop of the outbox dispatcher (internal/outbox/dispatcher.go)

    [New] and [Run]: a flush at the start and one per tick, each reporting its
    outcome to the metrics.  Between two ticks the rest of the service commits
    events, publishes live frames and counts its own input. *)

From stdpp Require Import prelude gmap strings list sorting.
From Stdlib Require Import ZArith Lia SpecFloat String.
From S2P Require Import Prelude GoFloat GoText Monitor Model Ema StoreSpec Memory MemoryProofs Outbox.

#[local] Open Scope string_scope.
#[local] Open Scope list_scope.
#[local] Open Scope Z_scope.

Section Loop.
Context {S P : Type} `{OutboxStore S} `{OutboxPublisher P}.

Record Dispatcher := mkDispatcher {
  dsStore : S;
  dsPublisher : P;
  dsInterval : Z;
  dsMetrics : option Metrics
}.

Definition New (store : S) (publisher : P) (interval : Z) (metrics : option Metrics) : Dispatcher :=
  let interval := if interval <=? 0 then 250 * millisecond else interval in
  mkDispatcher store publisher interval metrics.

(** A flush and what it reports; [None] when it has not ended within its
    fuel.  A panic reports nothing. *)
Definition flush_turn (fuel : nat) (d : Dispatcher) : option (Dispatcher * outcome string unit) :=
  '(s, p, r) ← Flush fuel (dsStore d) (dsPublisher d);
  let metrics := match r with
                 | Ok _ => recordSuccess (dsMetrics d)
                 | Fail _ => recordFailure (dsMetrics d)
                 | Panic => dsMetrics d
                 end in
  Some (mkDispatcher s p (dsInterval d) metrics, r).

(** The loop of [Run]: one function per tick, what the others have done since
    the flush before it.  At the end of the list the context is done.  The
    result holds the outcome of every flush. *)
Fixpoint run_ticks (fuel : nat) (d : Dispatcher) (ticks : list (Dispatcher -> Dispatcher))
  : option (Dispatcher * list (outcome string unit)) :=
  match ticks with
  | [] => Some (d, [])
  | others :: rest =>
      '(d, r) ← flush_turn fuel (others d);
      if is_panic r then Some (d, [r])
      else '(d, results) ← run_ticks fuel d rest; Some (d, r :: results)
  end.

Definition Run (fuel : nat) (d : Dispatcher) (ticks : list (Dispatcher -> Dispatcher))
  : option (Dispatcher * list (outcome string unit)) :=
  run_ticks fuel d (id :: ticks).
End Loop.
Arguments Dispatcher : clear implicits.
Arguments mkDispatcher {S P}.
Arguments dsStore {S P}.
Arguments dsPublisher {S P}.
Arguments dsInterval {S P}.
Arguments dsMetrics {S P}.

(** ** What the metrics tell *)

Definition failures (results : list (outcome string unit)) : Z :=
  len (List.filter (fun r => negb (is_ok r)) results).

Section Health.
Context {S P : Type} `{OutboxLaws S} `{OutboxPublisher P}.

(** The others keep the store in order, add at most [growth] events, and leave
    the outbox's own metrics alone. *)
Record tolerable (growth : nat) (others : Dispatcher S P -> Dispatcher S P) : Prop := {
  to_ready d : ob_ready (dsStore d) -> ob_ready (dsStore (others d));
  to_queue d : ob_ready (dsStore d) ->
    (List.length (ob_queue (dsStore (others d))) <= List.length (ob_queue (dsStore d)) + growth)%nat;
  to_metrics d m : dsMetrics d = Some m -> exists m', dsMetrics (others d) = Some m' /\
    OutboxHealthy m' = OutboxHealthy m /\ mtOutboxErrors m' = mtOutboxErrors m
}.

Lemma tolerable_id growth : tolerable growth id.
Proof. split; unfold id; [done|lia|eauto]. Qed.

Lemma publish_batch_no_panic (Hpub : forall p e, (ob_publish (P := P) p e).2 <> Panic) p events :
  (publish_batch p events).2 <> Panic.
Proof.
  revert p. induction events as [|e events IH]; intros p; cbn; [done|].
  specialize (Hpub p e). destruct (ob_publish p e) as [p' [| |]]; cbn in *; [apply IH|done|done].
Qed.

(** What the dispatcher shows after a flush with outcome [r]. *)
Record reports (d' : Dispatcher S P) (r : outcome string unit) (m' : Metrics) : Prop := {
  rp_metrics : dsMetrics d' = Some m';
  rp_healthy : OutboxHealthy m' = is_ok r;
  rp_drained : is_ok r = true -> ob_queue (dsStore d') = []
}.

Lemma flush_turn_spec (Hpub : forall p e, (ob_publish (P := P) p e).2 <> Panic) fuel (d : Dispatcher S P) m :
  ob_ready (dsStore d) -> (List.length (ob_queue (dsStore d)) / 250 < fuel)%nat -> dsMetrics d = Some m ->
  exists d' r m', flush_turn fuel d = Some (d', r) /\ r <> Panic /\ reports d' r m' /\
    ob_ready (dsStore d') /\ (List.length (ob_queue (dsStore d')) <= List.length (ob_queue (dsStore d)))%nat /\
    mtOutboxErrors m' = if is_ok r then mtOutboxErrors m else wrap_u64 (mtOutboxErrors m + 1).
Proof.
  intros Hr Hf Hm. destruct (Flush_spec fuel (dsStore d) (dsPublisher d) Hr Hf)
    as (s' & p' & r & k & HF & HP & Hr' & Hq & Hnil & _).
  assert (Hnp : r <> Panic) by (rewrite <-(f_equal snd HP : _ = r); by apply publish_batch_no_panic).
  unfold flush_turn. rewrite HF, Hm. cbn [mbind option_bind].
  assert (Hle : (List.length (ob_queue s') <= List.length (ob_queue (dsStore d)))%nat) by (rewrite Hq, length_drop; lia).
  destruct r as [[]|e|]; [| |done]; cbn [recordSuccess recordFailure mbind option_bind];
    eexists _, _, _; (split; [done|]); (split; [done|]); (split; [split|]); auto; done.
Qed.

Lemma run_ticks_spec (Hpub : forall p e, (ob_publish (P := P) p e).2 <> Panic) growth fuel ticks (d : Dispatcher S P) m :
  ob_ready (dsStore d) -> dsMetrics d = Some m -> Forall (tolerable growth) ticks ->
  ((List.length (ob_queue (dsStore d)) + List.length ticks * growth) / 250 < fuel)%nat ->
  exists d' results m', run_ticks fuel d ticks = Some (d', results) /\
    List.length results = List.length ticks /\ dsMetrics d' = Some m' /\ ob_ready (dsStore d') /\
    (mtOutboxErrors m' = if failures results =? 0 then mtOutboxErrors m
                         else wrap_u64 (mtOutboxErrors m + failures results)) /\
    forall r, last results = Some r -> r <> Panic /\ reports d' r m'.
Proof.
  revert d m. induction ticks as [|others ticks IH]; intros d m Hr Hm Ht Hf.
  { exists d, [], m. by split_and!. }
  apply Forall_cons in Ht as [[Hkeep Hgrow Hmet] Ht]. cbn [List.length] in Hf.
  destruct (Hmet d m Hm) as (m1 & Hm1 & Hh1 & He1). specialize (Hgrow d Hr).
  destruct (flush_turn_spec Hpub fuel (others d) m1) as (d2 & r & m2 & Hrun & Hnp & Hrep & Hr2 & Hq2 & He2);
    [by apply Hkeep| |done|].
  { eapply Nat.le_lt_trans; [|exact Hf]. apply Nat.Div0.div_le_mono. lia. }
  destruct (IH d2 m2) as (d' & results & m' & Hrest & Hlen & Hm' & Hr' & He' & Hlast);
    [done|by destruct Hrep|done| |].
  { eapply Nat.le_lt_trans; [|exact Hf]. apply Nat.Div0.div_le_mono. lia. }
  exists d', (r :: results), m'. cbn [run_ticks]. rewrite Hrun. cbn [mbind option_bind].
  replace (is_panic r) with false by (by destruct r). rewrite Hrest. cbn [mbind option_bind].
  split_and!; [done|cbn; by rewrite Hlen|done|done| |].
  - assert (Hcons : failures (r :: results) = (if is_ok r then 0 else 1) + failures results).
    { unfold failures. cbn [List.filter]. destruct (is_ok r); cbn [negb]; [done|]. rewrite len_cons. lia. }
    assert (Hnn : 0 <= failures results) by apply len_nonneg.
    rewrite Hcons, He', He2, He1. destruct (is_ok r); [done|].
    destruct (Z.eqb_spec (1 + failures results) 0); [lia|].
    destruct (Z.eqb_spec (failures results) 0) as [->|]; [done|]. unfold wrap_u64.
    rewrite Zplus_mod_idemp_l. f_equal. lia.
  - destruct results as [|r2 results]; [|by apply Hlast]. cbn. intros x [= <-].
    destruct ticks; [|done]. cbn in Hrest. injection Hrest as ->. split; [done|]. destruct Hrep.
    split; [done| |done]. congruence.
Qed.
End Health.
