(* ===== verification/PostgresOutbox.v ===== *)
(** * The outbox of the Postgres store

    The outbox as the dispatcher and the event queries read it: a queue in
    cursor order to which commits append and from which marking removes. *)

From stdpp Require Import prelude gmap strings list sorting.
From Stdlib Require Import ZArith Lia SpecFloat Ascii String.
From S2P Require Import Prelude GoFloat GoText Sha256 GoStrings Monitor Model Ema StoreSpec Memory MemoryProofs.
From S2P Require Import Postgres PostgresProofs PostgresRuns Outbox.

#[local] Open Scope string_scope.
#[local] Open Scope list_scope.
#[local] Open Scope Z_scope.

Section PostgresOutbox.
Context `{Codec}.

#[global] Instance postgres_outbox : OutboxStore Postgres := {|
  ob_pending := Postgres_PendingEvents;
  ob_mark := Postgres_MarkPublished
|}.

(** ** Rows and events *)

Definition unpublished (p : Postgres) : list outboxRow :=
  List.filter (fun r => negb (orPublished r)) (tbOutbox (pgTables p)).

(** Every pending payload decodes. *)
Definition decodable (p : Postgres) : Prop := is_ok (scanEvents (unpublished p)) = true.

Definition pg_queue (p : Postgres) : list SignalEvent :=
  match scanEvents (unpublished p) with Ok events => events | _ => [] end.

Lemma scanEvents_ok rows events :
  scanEvents rows = Ok events <->
  Forall2 (fun r e => exists d, unmarshal_event (orPayload r) = Some d /\ e = set_cursor d (orCursor r)) rows events.
Proof.
  revert events. induction rows as [|r rows IH]; intros events; cbn [scanEvents].
  - split; [by intros [= <-]|]. by intros ->%Forall2_nil_inv_l.
  - split.
    + destruct (unmarshal_event (orPayload r)) as [d|] eqn:Hd; [|done].
      destruct (scanEvents rows) as [l|e|]; [|done|done]. cbn. intros [= <-].
      constructor; [by exists d|]. by apply IH.
    + intros (e & l & (d & Hd & ->) & Hl & ->)%Forall2_cons_inv_l. rewrite Hd. apply IH in Hl. by rewrite Hl.
Qed.

Lemma scanEvents_cursors rows events : scanEvents rows = Ok events -> map evCursor events = map orCursor rows.
Proof.
  intros Hs%scanEvents_ok. induction Hs as [|r e rows events (d & _ & ->) _ IH]; [done|]. cbn. by rewrite IH.
Qed.

Lemma scanEvents_app a b la lb : scanEvents a = Ok la -> scanEvents b = Ok lb -> scanEvents (a ++ b) = Ok (la ++ lb).
Proof. rewrite !scanEvents_ok. apply Forall2_app. Qed.

Lemma scanEvents_take n rows events : scanEvents rows = Ok events -> scanEvents (take n rows) = Ok (take n events).
Proof. rewrite !scanEvents_ok. apply Forall2_take. Qed.

Lemma scanEvents_drop n rows events : scanEvents rows = Ok events -> scanEvents (drop n rows) = Ok (drop n events).
Proof. rewrite !scanEvents_ok. apply Forall2_drop. Qed.

(** Rows in cursor order are what [ORDER BY cursor] returns. *)
Lemma sort_rows rows : StronglySorted Z.lt (map orCursor rows) -> sort_stable cursor_before rows = rows.
Proof.
  intros Hs. apply sort_stable_id. unfold sorted_by, cursor_before. induction rows as [|r rows IH]; [constructor|].
  cbn [map] in Hs. apply StronglySorted_inv in Hs as [Hs Hr]. constructor; [by apply IH|].
  rewrite Forall_forall in Hr. apply Forall_forall. intros x Hx. apply Z.ltb_ge.
  assert (orCursor r < orCursor x) by (apply Hr, list_elem_of_fmap; eauto). lia.
Qed.

Lemma unpublished_sorted p : pg_wf p -> StronglySorted Z.lt (map orCursor (unpublished p)).
Proof. intros [_ [[Hs _ _] _ _ _]]. by apply sorted_filter. Qed.

(** ** Marking *)

Lemma mark_rows_unpublished cursors rows :
  List.filter (fun r => negb (orPublished r)) (map (mark_row cursors) rows) =
  List.filter (fun r => negb (bool_decide (orCursor r ∈ cursors))) (List.filter (fun r => negb (orPublished r)) rows).
Proof.
  induction rows as [|r rows IH]; [done|]. cbn [map List.filter]. unfold mark_row at 1 2.
  case_bool_decide as Hin; cbn [orPublished negb].
  - destruct (orPublished r); cbn [negb List.filter]; [done|]. by rewrite bool_decide_eq_true_2.
  - destruct (orPublished r); cbn [negb List.filter]; [done|]. rewrite bool_decide_eq_false_2 by done. cbn [negb]. by rewrite IH.
Qed.

Lemma mark_first_rows n p p' r :
  pg_wf p -> pgFaults p = [] -> Postgres_MarkPublished p (map orCursor (take n (unpublished p))) = (p', r) ->
  r = Ok tt /\ pg_wf p' /\ pgFaults p' = [] /\ unpublished p' = drop n (unpublished p).
Proof.
  intros Hwf Hf Hm. destruct (safe_mark (map orCursor (take n (unpublished p))) p) as (_ & _ & Hw). rewrite Hm in Hw.
  specialize (Hw Hwf). cbn in Hw. revert Hm. unfold Postgres_MarkPublished.
  destruct (Z.eqb_spec (len (map orCursor (take n (unpublished p)))) 0) as [Hz|_].
  - intros [= <- <-]. split_and!; try done. unfold len in Hz. rewrite length_map, length_take in Hz.
    destruct n as [|n]; [by rewrite drop_0|]. destruct (unpublished p); [done|]. cbn in Hz. lia.
  - unfold statement, update. rewrite Hf. cbn. intros [= <- <-]. split_and!; try done.
    unfold unpublished at 1. cbn [pgTables tbOutbox]. rewrite mark_rows_unpublished.
    apply (filter_taken orCursor n (unpublished p)), unpublished_sorted, Hwf.
Qed.

(** The outbox keeps what the dispatcher relies on, while the database
    answers. *)
#[global] Instance postgres_outbox_laws : OutboxLaws Postgres.
Proof.
  refine {| ob_ready := fun p => pg_wf p /\ pgFaults p = [] /\ decodable p; ob_queue := pg_queue |}.
  - intros p (Hwf & _ & Hd). unfold pg_queue, decodable in *.
    destruct (scanEvents (unpublished p)) as [events| |] eqn:Hs; try done.
    rewrite (scanEvents_cursors _ _ Hs). by apply unpublished_sorted.
  - intros p (Hwf & Hf & Hd). cbn. unfold Postgres_PendingEvents, query, pg_queue, decodable in *. rewrite Hf. cbn.
    fold (unpublished p). rewrite sort_rows by (by apply unpublished_sorted).
    destruct (scanEvents (unpublished p)) as [events| |] eqn:Hs; try done. by apply scanEvents_take.
  - intros p n (Hwf & Hf & Hd). cbn. unfold pg_queue, decodable in *.
    destruct (scanEvents (unpublished p)) as [events| |] eqn:Hs; try done.
    rewrite (scanEvents_cursors _ _ (scanEvents_take n _ _ Hs)).
    destruct (Postgres_MarkPublished p _) as [p' r] eqn:Hm.
    destruct (mark_first_rows n p p' r Hwf Hf Hm) as (-> & Hw & Hf' & Hu). exists p'.
    pose proof (scanEvents_drop n _ _ Hs) as Hs'. rewrite <-Hu in Hs'. by rewrite Hs'.
Defined.

(** ** Commits *)

(** Reading back what was written: the [jsonb] column keeps the event. *)
Definition faithful (e : SignalEvent) : Prop :=
  forall payload, marshal_event e = Some payload -> unmarshal_event payload = Some e.

(** New events join the queue at its end, in the order of the commit. *)
Lemma commit_appends p p' key bar events snapshots committed :
  Postgres_CommitClosed p key bar events snapshots = (p', Ok committed) -> newer (pgTables p) key bar ->
  NoDup (map evEventID events) -> Forall (fun e => evEventID e ∉ map orEventID (tbOutbox (pgTables p))) events ->
  Forall faithful events -> decodable p ->
  decodable p' /\ pg_queue p' = pg_queue p ++ committed.
Proof.
  intros Hc Hnew Hnd Hfr Hfaith Hdec.
  destruct (commit_runs _ _ _ _ _ _ _ Hc Hnew) as (t1 & t2 & n1 & n2 & u & H1 & H2 & H3).
  apply commit_events_runs in H1 as (new & rows & -> & _ & _ & Hout & Hq & Hfresh). cbn [app].
  destruct (Hfresh Hnd Hfr) as [Hrows Hcs].
  apply snapshots_run in H2 as (_ & _ & Ho2 & _). apply upsertCursor_runs in H3 as (_ & _ & Ho3 & _).
  assert (Hun : unpublished p' = unpublished p ++ rows).
  { unfold unpublished. rewrite Ho3, Ho2, Hout, List.filter_app. f_equal. clear -Hrows.
    induction Hrows as [|e r es rows (pl & _ & ->) _ IH]; [done|]. cbn. by rewrite IH. }
  assert (Hscan : scanEvents rows = Ok new).
  { apply scanEvents_ok. clear -Hrows Hcs Hq Hfaith. revert new Hq Hcs.
    induction Hrows as [|e r es rows (pl & Hm & Hr) _ IH]; intros new Hq Hcs.
    - apply Forall2_nil_inv_l in Hq as ->. constructor.
    - apply Forall2_cons_inv_l in Hq as (e' & new' & [Hs _] & Hq & ->). apply Forall_cons in Hfaith as [Hf1 Hf2].
      cbn in Hcs. injection Hcs as Hc1 Hc2. constructor; [|by apply IH]. exists e. rewrite <-Hc1, Hr. cbn. by rewrite (Hf1 pl Hm). }
  unfold decodable, pg_queue in *. destruct (scanEvents (unpublished p)) as [l| |] eqn:Hl; try done.
  by rewrite Hun, (scanEvents_app _ _ _ _ Hl Hscan).
Qed.

(** ** Rebuilds *)

(** A reset whose id the outbox already has adds nothing to it. *)
Lemma rebuild_events_known events : forall committed out t n t' n',
  runs (rebuild_events events committed) t n out t' n' ->
  (forall e, e ∈ events -> evReset e = true -> evEventID e ∈ map orEventID (tbOutbox t)) ->
  tbOutbox t' = tbOutbox t.
Proof.
  induction events as [|e events IH]; intros committed out t n t' n'; cbn [rebuild_events].
  { by intros (_ & -> & _)%runs_ret. }
  intros ([] & t1 & n1 & H1 & Hr)%runs_bind Hids. apply persist_runs in H1 as (_ & Ho1 & ->).
  destruct (evReset e) eqn:He.
  - apply runs_bind in Hr as (e' & t2 & n2 & H2 & Hr). apply enqueue_runs in H2 as (c & pl & _ & _ & _ & _ & _ & Hrow).
    assert (Ho2 : tbOutbox t2 = tbOutbox t).
    { destruct Hrow as [(row & _ & _ & _ & Ho2)|(Hn & _)]; [congruence|]. destruct Hn. rewrite Ho1.
      apply Hids; [set_solver|done]. }
    rewrite <-Ho2. eapply IH; [exact Hr|]. intros x Hx Hres. rewrite Ho2. apply Hids; [set_solver|done].
  - rewrite <-Ho1. eapply IH; [exact Hr|]. intros x Hx Hres. rewrite Ho1. apply Hids; [set_solver|done].
Qed.

Lemma rebuild_outbox_known p p' key events snapshots lastBar committed :
  Postgres_RebuildSeries p key events snapshots lastBar = (p', Ok committed) ->
  (forall e, e ∈ events -> evReset e = true -> evEventID e ∈ map orEventID (tbOutbox (pgTables p))) ->
  tbOutbox (pgTables p') = tbOutbox (pgTables p).
Proof.
  unfold Postgres_RebuildSeries. intros Hr%runs_intro%runs_transaction Hids.
  assert (Hlock : forall text k u t n t' n', runs (context text (advisory_lock k)) t n u t' n' -> t' = t /\ n' = n).
  { intros * Hl%runs_context%runs_statement. by apply runs_ret in Hl as (_ & -> & ->). }
  apply runs_bind in Hr as ([] & t1 & n1 & H1 & Hr).
  assert (t1 = pgTables p) as -> by (destruct (existsb _ _); [by apply Hlock in H1 as [-> _]|by apply runs_ret in H1 as (_ & -> & _)]).
  apply runs_bind in Hr as ([] & t2 & n2 & H2 & Hr). apply Hlock in H2 as [-> ->].
  apply runs_bind in Hr as ([] & t3 & n3 & H3 & Hr). apply runs_context, runs_statement, runs_update in H3 as [[= <-] ->].
  apply runs_bind in Hr as ([] & t4 & n4 & H4 & Hr). apply runs_context, runs_statement, runs_update in H4 as [[= <-] ->].
  apply runs_bind in Hr as (out & t5 & n5 & H5 & Hr). apply rebuild_events_known in H5; [|done].
  apply runs_bind in Hr as ([] & t6 & n6 & H6 & Hr). apply snapshots_run in H6 as (_ & _ & Ho6 & _).
  apply runs_bind in Hr as ([] & t7 & n7 & H7 & Hr). apply runs_ret in Hr as (_ & <- & _).
  assert (tbOutbox (pgTables p') = tbOutbox t6) as ->.
  { destruct lastBar; [by apply upsertCursor_runs in H7 as (_ & _ & ? & _)|by apply runs_ret in H7 as (_ & -> & _)]. }
  by rewrite Ho6, H5.
Qed.
End PostgresOutbox.
