(* ===== verification/StoreMirror.v ===== *)
(** * The two stores side by side

    A simulation between the Postgres store and the in-memory store: the same
    commits and marks keep the outbox of one and the log of the other in
    step, and both then answer the dispatcher and the event queries alike. *)

From stdpp Require Import prelude gmap strings list sorting.
From Stdlib Require Import ZArith Lia SpecFloat Ascii String.
From S2P Require Import Prelude GoFloat GoText Sha256 GoStrings Monitor Model Ema StoreSpec Memory MemoryProofs.
From S2P Require Import Postgres PostgresProofs PostgresRuns Outbox PostgresOutbox.

#[local] Open Scope string_scope.
#[local] Open Scope list_scope.
#[local] Open Scope Z_scope.

Section Mirror.
Context `{Codec}.

(** A row of the outbox and the event the memory store keeps in its place. *)
Record row_event (m : Memory) (r : outboxRow) (e : SignalEvent) : Prop := {
  re_decode : exists d, unmarshal_event (orPayload r) = Some d /\ e = set_cursor d (orCursor r);
  re_id : orEventID r = evEventID e;
  re_series : orSeries r = event_series e;
  re_period : orPeriod r = eventPeriod e;
  re_type : orEventType r = evEventType e;
  re_analysis : payload_analysis (orPayload r) = Some (aName (evAlgorithm e));
  re_published : orPublished r = is_published m (evCursor e)
}.

(** The outbox table with the sequence, and the log with its counter. *)
Record mirrors (m : Memory) (t : Tables) (n : Z) : Prop := {
  mi_rows : Forall2 (row_event m) (tbOutbox t) (meEvents m);
  mi_next : meNext m = n;
  mi_nonneg : 0 <= n;
  mi_unmarked : forall c, n < c -> is_published m c = false
}.

(** What the payload column keeps of an event. *)
Definition kept (e : SignalEvent) : Prop := forall payload, marshal_event e = Some payload ->
  unmarshal_event payload = Some e /\ payload_analysis payload = Some (aName (evAlgorithm e)).

(** ** Reading *)

Lemma selects_excluded wanted x : selects wanted x = negb (excluded wanted x).
Proof. unfold selects, excluded. by destruct (wanted =? "")%string, (x =? wanted)%string. Qed.

Lemma row_event_matches m filter r e : row_event m r e -> row_matches filter r = event_matches filter e.
Proof.
  intros [(d & _ & ->) _ Hs Hp Ht Ha _]. unfold row_matches, event_matches. rewrite Hs, Hp, Ht, Ha.
  set (e := set_cursor d (orCursor r)). change (evCursor e) with (orCursor r).
  change ((efAnalysis filter =? "")%string || (aName (evAlgorithm e) =? efAnalysis filter)%string)
    with (selects (efAnalysis filter) (aName (evAlgorithm e))).
  rewrite !selects_excluded, !negb_orb, negb_andb, !negb_involutive, <-Z.ltb_antisym. done.
Qed.

Lemma rows_filter m (p : outboxRow -> bool) (q : SignalEvent -> bool) rows events :
  (forall r e, row_event m r e -> p r = q e) -> Forall2 (row_event m) rows events ->
  Forall2 (row_event m) (List.filter p rows) (List.filter q events).
Proof.
  intros Hpq Hr. induction Hr as [|r e rows events Hre _ IH]; [constructor|]. cbn. rewrite (Hpq r e Hre).
  destruct (q e); [by constructor|done].
Qed.

Lemma rows_scan m rows events : Forall2 (row_event m) rows events -> scanEvents rows = Ok events.
Proof. intros Hr. apply scanEvents_ok. eapply Forall2_impl; [exact Hr|]. by intros r e []. Qed.

Lemma outbox_filter_sorted t n (p : outboxRow -> bool) :
  tables_wf t n -> sort_stable cursor_before (List.filter p (tbOutbox t)) = List.filter p (tbOutbox t).
Proof. intros [[Hs _ _] _ _ _]. by apply sort_rows, sorted_filter. Qed.

Lemma mirror_query m p filter :
  mirrors m (pgTables p) (pgSequence p) -> pg_wf p -> head (pgFaults p) <> Some true -> fits_i32 (efPeriod filter) = true ->
  Postgres_QueryEvents p filter = Ok (Memory_QueryEvents m filter).
Proof.
  intros Hm [_ Hwf] Hf Hper. unfold Postgres_QueryEvents, query. rewrite Hper. cbn [negb].
  assert (Hrows : scanEvents (take (Z.to_nat (normalize_limit (efLimit filter)))
    (sort_stable cursor_before (List.filter (row_matches filter) (tbOutbox (pgTables p))))) = Ok (Memory_QueryEvents m filter)).
  { rewrite (outbox_filter_sorted _ _ _ Hwf). eapply (rows_scan m), Forall2_take, rows_filter; [|apply Hm].
    intros r e. apply row_event_matches. }
  by destruct (pgFaults p) as [|[] faults].
Qed.

Lemma mirror_pending m p limit :
  mirrors m (pgTables p) (pgSequence p) -> pg_wf p -> head (pgFaults p) <> Some true -> limit <= 1000 ->
  Postgres_PendingEvents p limit = Ok (Memory_PendingEvents m limit).
Proof.
  intros Hm [_ Hwf] Hf Hl. unfold Postgres_PendingEvents, Memory_PendingEvents, query.
  rewrite (proj2 (Z.ltb_ge 1000 limit)) by lia. rewrite orb_false_r.
  assert (Hrows : scanEvents (take (Z.to_nat (if limit <=? 0 then 100 else limit))
    (sort_stable cursor_before (List.filter (fun r => negb (orPublished r)) (tbOutbox (pgTables p))))) =
    Ok (take (Z.to_nat (if limit <=? 0 then 100 else limit))
      (List.filter (fun event => negb (is_published m (evCursor event))) (meEvents m)))).
  { rewrite (outbox_filter_sorted _ _ _ Hwf). eapply (rows_scan m), Forall2_take, rows_filter; [|apply Hm].
    intros r e []. congruence. }
  by destruct (pgFaults p) as [|[] faults].
Qed.

(** ** Marking *)

Lemma is_published_marked m cursors c :
  is_published (Memory_MarkPublished m cursors).1 c = bool_decide (c ∈ cursors) || is_published m c.
Proof.
  unfold is_published, Memory_MarkPublished. cbn. rewrite mark_lookup. by destruct (decide (c ∈ cursors)) as [Hin|Hin];
    [rewrite bool_decide_eq_true_2|rewrite bool_decide_eq_false_2].
Qed.

Lemma mark_row_event m cursors r e :
  row_event m r e -> row_event (Memory_MarkPublished m cursors).1 (mark_row cursors r) e.
Proof.
  intros [(d & Hd & ->) Hi Hs Hp Ht Ha Hpub].
  assert (Hc : evCursor (set_cursor d (orCursor r)) = orCursor r) by done.
  unfold mark_row. case_bool_decide as Hin; split; cbn [orPayload orCursor orEventID orSeries orPeriod orEventType orPublished];
    try done; try (by exists d); rewrite is_published_marked, Hc.
  - by rewrite bool_decide_eq_true_2.
  - rewrite bool_decide_eq_false_2 by done. by rewrite Hpub, Hc.
Qed.

Lemma mirror_mark m p cursors p' :
  mirrors m (pgTables p) (pgSequence p) -> Forall (fun c => c <= pgSequence p) cursors ->
  Postgres_MarkPublished p cursors = (p', Ok tt) -> mirrors (Memory_MarkPublished m cursors).1 (pgTables p') (pgSequence p').
Proof.
  intros [Hr Hn Hnn Hu] Hc Hm.
  assert (Hp' : tbOutbox (pgTables p') = map (mark_row cursors) (tbOutbox (pgTables p)) /\ pgSequence p' = pgSequence p).
  { revert Hm. unfold Postgres_MarkPublished. destruct (Z.eqb_spec (len cursors) 0) as [Hz|_].
    - intros [= <-]. split; [|done]. destruct cursors as [|c cursors]; [|unfold len in Hz; cbn in Hz; lia].
      rewrite <-(List.map_id (tbOutbox (pgTables p))) at 1. apply List.map_ext. intros r. unfold mark_row.
      rewrite bool_decide_eq_false_2; [done|apply not_elem_of_nil].
    - unfold statement, update. destruct (pgFaults p) as [|[] faults]; [|done|]; cbn; by intros [= <-]. }
  destruct Hp' as [Ho ->]. split; [|done|done|].
  - change (meEvents (Memory_MarkPublished m cursors).1) with (meEvents m). rewrite Ho. apply Forall2_fmap_l. eapply Forall2_impl; [exact Hr|]. intros r e. apply mark_row_event.
  - intros c Hlt. rewrite is_published_marked, Hu by done. rewrite bool_decide_eq_false_2; [done|].
    intros Hin. rewrite Forall_forall in Hc. specialize (Hc c Hin). cbn in Hc. lia.
Qed.

(** ** Committing *)

Lemma mirror_events events : forall m done out t n t' n',
  runs (commit_events events done) t n out t' n' -> mirrors m t n ->
  NoDup (map evEventID events) -> (forall e, e ∈ events -> eventByID m (evEventID e) = None) -> Forall kept events ->
  exists m', foldl commit_event (m, done) events = (m', out) /\ mirrors m' t' n'.
Proof.
  induction events as [|e events IH]; intros m done out t n t' n'; cbn [commit_events foldl].
  { intros (-> & -> & ->)%runs_ret Hm _ _ _. by exists m. }
  intros ([] & t1 & n1 & H1 & Hr)%runs_bind Hm Hnd Hfr Hk. apply runs_bind in Hr as (e' & t2 & n2 & H2 & Hr).
  apply persist_runs in H1 as (_ & Ho1 & ->).
  apply enqueue_runs in H2 as (cursor & payload & -> & Hp & _ & -> & Hmax & Hrow). rewrite Ho1 in Hrow.
  destruct Hm as [Hrows Hnext Hnn Hun]. pose proof (Hfr e ltac:(set_solver)) as Hnone.
  destruct (eventByID_none _ _ Hnone) as [_ Hid]. apply Forall_cons in Hk as [Hk1 Hk]. destruct (Hk1 payload Hp) as [Hu Ha].
  assert (Hids : map orEventID (tbOutbox t) = map evEventID (meEvents m)).
  { clear -Hrows. induction Hrows as [|r x rows xs [] _ IH]; [done|]. cbn. congruence. }
  destruct Hrow as [(row & Hin & Hrid & _)|(_ & -> & Ho2)].
  { destruct Hid. rewrite <-Hids, <-Hrid. by apply list_elem_of_In, in_map, list_elem_of_In. }
  rewrite commit_event_cases, Hnone, Hnext, (wrap_i64_id (n + 1)) by lia.
  destruct (append_committed_fields m e ltac:(lia)) as (Hn' & Hpub & Hev). rewrite Hnext in *.
  cbn [map] in Hnd. apply NoDup_cons in Hnd as [Hne Hnd].
  eapply IH; [exact Hr| |done| |done].
  - assert (Hispub : forall c, is_published (append_committed m e) c = is_published m c) by (intros c; unfold is_published; by rewrite Hpub).
    split; [|done|lia|intros c Hc; rewrite Hispub; apply Hun; lia]. rewrite Ho2, Hev. apply Forall2_app.
    + eapply Forall2_impl; [exact Hrows|]. intros r x []. split; try done. by rewrite Hispub.
    + constructor; [|constructor]. split; try done; [by exists e|]. rewrite Hispub. symmetry. apply Hun. cbn. lia.
  - intros x Hx. apply append_committed_unknown; [|apply Hfr; set_solver]. intros Heq. apply Hne. rewrite <-Heq.
    by apply list_elem_of_In, in_map, list_elem_of_In.
Qed.

Lemma mirror_commit m p key bar events snapshots p' committed :
  mirrors m (pgTables p) (pgSequence p) -> newer (pgTables p) key bar ->
  (forall current, meCursors m !! SeriesKey_String key = Some current -> bOpenTime current < bOpenTime bar) ->
  NoDup (map evEventID events) -> (forall e, e ∈ events -> eventByID m (evEventID e) = None) -> Forall kept events ->
  Postgres_CommitClosed p key bar events snapshots = (p', Ok committed) ->
  exists m', Memory_CommitClosed m key bar events snapshots = (m', Ok committed) /\
    mirrors m' (pgTables p') (pgSequence p').
Proof.
  intros Hm Hnew Hcur Hnd Hfr Hk Hc. destruct (commit_runs _ _ _ _ _ _ _ Hc Hnew) as (t1 & t2 & n1 & n2 & u & H1 & H2 & H3).
  destruct (mirror_events _ _ _ _ _ _ _ _ H1 Hm Hnd Hfr Hk) as (m1 & Hfold & [Hr Hn Hnn Hun]).
  apply snapshots_run in H2 as (_ & _ & Ho2 & ->). apply upsertCursor_runs in H3 as (_ & _ & Ho3 & ->).
  unfold Memory_CommitClosed. rewrite Hfold.
  assert ((match meCursors m !! SeriesKey_String key with
    | Some current => if negb (bOpenTime current <? bOpenTime bar) then Some current else None
    | None => None end) = None) as ->.
  { destruct (meCursors m !! SeriesKey_String key) as [current|]; [|done].
    by rewrite (proj2 (Z.ltb_lt _ _) (Hcur current eq_refl)). }
  eexists. split; [reflexivity|]. split; cbn; try done. rewrite Ho3, Ho2.
  eapply Forall2_impl; [exact Hr|]. intros r x []. by split.
Qed.
End Mirror.
