(* ===== verification/Registry.v ===== *)
(** * The registry (internal/engine/registry.go)

    The registry builds the lanes of the configured series and routes each
    input to one of them, as the command that lane is to run. *)

From stdpp Require Import prelude gmap strings list sorting.
From Stdlib Require Import ZArith Lia SpecFloat String.
From S2P Require Import Prelude GoFloat GoText Model Ema MarketZones MarketReducer StoreSpec Lane.

#[local] Open Scope string_scope.
#[local] Open Scope list_scope.
#[local] Open Scope Z_scope.

(** ** The registry *)

Record RegistryOptions := mkRegistryOptions {
  roSeries : list SeriesKey;
  roPeriods : list Z;
  roMailboxSize : Z;
  roSnapshotEvery : Z;
  roHasStore : bool;
  roPublisher : bool;
  roLivePublisher : bool;
  roOutboxDelivery : bool
}.

Record Registry := mkRegistry {
  rgLanes : gmap string Lane;
  rgKeys : list SeriesKey
}.

Inductive RegistryError :=
  | RegistryNoSeries
  | RegistryDuplicate (key : SeriesKey)
  | RegistryLane (e : LaneError)
  | RegistryNotConfigured (symbol timeframe : string).

Definition lookupKey (symbol timeframe : string) : string := symbol +:+ "|" +:+ timeframe.

Definition lane_options (options : RegistryOptions) (key : SeriesKey) : LaneOptions :=
  mkLaneOptions key (roPeriods options) (roMailboxSize options) (roSnapshotEvery options)
    (roHasStore options) (roPublisher options) (roLivePublisher options) (roOutboxDelivery options).

(** One series of the loop of [NewRegistry]. *)
Definition add_series (options : RegistryOptions) (r : Registry) (key : SeriesKey)
  : outcome RegistryError Registry :=
  let lookup := lookupKey (kSymbol key) (kTimeframe key) in
  match rgLanes r !! lookup with
  | Some _ => Fail (RegistryDuplicate key)
  | None =>
      lane ← wrap_err RegistryLane (NewLane (lane_options options key));
      Ok (mkRegistry (<[lookup := lane]> (rgLanes r)) (rgKeys r ++ [key]))
  end.

Section WithRuntime.
Context `{Runtime}.

Definition NewRegistry (options : RegistryOptions) : outcome RegistryError Registry :=
  if len (roSeries options) =? 0 then Fail RegistryNoSeries
  else
    r ← oloop (add_series options) (roSeries options) (mkRegistry ∅ []);
    Ok (mkRegistry (rgLanes r)
          (sort_slice (fun a b => String.ltb (SeriesKey_String a) (SeriesKey_String b)) (rgKeys r))).
End WithRuntime.

Definition Registry_Keys (r : Registry) : list SeriesKey := rgKeys r.

Definition Registry_lane (r : Registry) (symbol timeframe : string) : outcome RegistryError Lane :=
  match rgLanes r !! lookupKey symbol timeframe with
  | Some lane => Ok lane
  | None => Fail (RegistryNotConfigured symbol timeframe)
  end.

(** [Seed], [Closed] and [Forming]: the lane an input goes to, and the command
    it is given to run. *)
Definition Registry_Seed (r : Registry) (symbol timeframe : string) (bars : list Bar)
  : outcome RegistryError (Lane * command) :=
  lane ← Registry_lane r symbol timeframe; Ok (lane, Lane_Seed bars).

Definition Registry_Closed (r : Registry) (bar : Bar) : outcome RegistryError (Lane * command) :=
  lane ← Registry_lane r (bSymbol bar) (bTimeframe bar); Ok (lane, Lane_Closed bar).

Definition Registry_Forming (r : Registry) (bar : Bar) : outcome RegistryError (Lane * command) :=
  lane ← Registry_lane r (bSymbol bar) (bTimeframe bar); Ok (lane, Lane_Forming bar).

(** [None] inside for a panic of [Snapshot]. *)
Definition Registry_Snapshot (r : Registry) (symbol timeframe : string) : option (option SeriesSnapshot) :=
  match Registry_lane r symbol timeframe with
  | Ok lane => snapshot ← Lane_Snapshot lane; Some (Some snapshot)
  | _ => Some None
  end.

Definition Registry_Snapshots (r : Registry) : option (list SeriesSnapshot) :=
  mapM (fun key => lane ← rgLanes r !! lookupKey (kSymbol key) (kTimeframe key); Lane_Snapshot lane) (rgKeys r).

Definition Registry_Ready (r : Registry) : option bool :=
  snapshots ← Registry_Snapshots r;
  Some (forallb (fun s => ssReady s && bool_decide (is_Some (ssLastClosedTime s))) snapshots).

(** ** What [NewRegistry] builds *)

Definition series_lookup (key : SeriesKey) : string := lookupKey (kSymbol key) (kTimeframe key).

(** The registry after some series: one lane for each, under its own key. *)
Record registry_of (options : RegistryOptions) (series : list SeriesKey) (r : Registry) : Prop := {
  ro_keys : rgKeys r ≡ₚ series;
  ro_distinct : NoDup (map series_lookup series);
  ro_lane : forall key, key ∈ series ->
    exists lane, rgLanes r !! series_lookup key = Some lane /\ NewLane (lane_options options key) = Ok lane;
  ro_only : forall lookup, is_Some (rgLanes r !! lookup) -> lookup ∈ map series_lookup series
}.

Lemma add_series_of options series r key r' :
  registry_of options series r -> add_series options r key = Ok r' ->
  registry_of options (series ++ [key]) r'.
Proof.
  intros [Hk Hd Hl Ho]. unfold add_series. fold (series_lookup key).
  destruct (rgLanes r !! series_lookup key) eqn:E; [done|].
  destruct (NewLane (lane_options options key)) as [lane|e|] eqn:Hn; [|done..].
  cbn. intros [= <-].
  assert (Hnew : series_lookup key ∉ map series_lookup series).
  { intros (k & Hkk & Hin)%list_elem_of_In%in_map_iff.
    destruct (Hl k) as (lane' & Hlane & _); [by apply list_elem_of_In|]. rewrite Hkk in Hlane. congruence. }
  assert (Hmap : map series_lookup (series ++ [key]) = map series_lookup series ++ [series_lookup key])
    by apply map_app.
  split; cbn; rewrite ?Hmap.
  - by rewrite Hk.
  - apply NoDup_app. split_and!; [done|set_solver|apply NoDup_singleton].
  - intros k [Hin| ->%list_elem_of_singleton]%elem_of_app.
    + destruct (Hl k Hin) as (lane' & Hlane & Hok). exists lane'. split; [|done].
      rewrite lookup_insert_ne; [done|]. intros Heq. by rewrite Heq, Hlane in E.
    + exists lane. by rewrite lookup_insert_eq.
  - intros lookup. rewrite lookup_insert_is_Some. intros [<-|[_ Hs]]; [set_solver|].
    apply Ho in Hs. set_solver.
Qed.

Lemma add_all_of options done_series series r r' :
  registry_of options done_series r -> oloop (add_series options) series r = Ok r' ->
  registry_of options (done_series ++ series) r'.
Proof.
  revert done_series r. induction series as [|key series IH]; intros before r Hr; cbn.
  - intros [= <-]. by rewrite app_nil_r.
  - destruct (add_series options r key) as [r1|e|] eqn:E; cbn; [|done..]. intros Hrest.
    apply (IH (before ++ [key])) in Hrest; [by rewrite <-app_assoc in Hrest|]. by eapply add_series_of.
Qed.

Lemma NewRegistry_of `{Runtime} options r :
  NewRegistry options = Ok r -> registry_of options (roSeries options) r /\ roSeries options <> [].
Proof.
  unfold NewRegistry. destruct (Z.eqb_spec (len (roSeries options)) 0) as [|Hne]; [done|].
  destruct (oloop _ _ _) as [r0|e|] eqn:E; cbn; [|done..]. intros [= <-].
  apply (add_all_of options []) in E as [Hk Hd Hl Ho].
  - split; [|by intros Hnil; rewrite Hnil in Hne]. split; cbn; [|done..]. by rewrite sort_slice_perm.
  - split; cbn; try done; [constructor|set_solver|].
    intros lookup. rewrite lookup_empty. by intros [? ?].
Qed.
