(* ===== verification/ConfigProofs.v ===== *)
(** * A configuration that loads, starts

    What [load] guarantees of the settings it returns, and that the lanes of
    every configured series can be built from them. *)

From stdpp Require Import prelude gmap strings list sorting.
From Stdlib Require Import ZArith Lia SpecFloat Ascii String.
From S2P Require Import Prelude GoFloat GoText Sha256 GoStrings Model Ema MarketZones MarketReducer.
From S2P Require Import StoreSpec Lane LaneReducers LaneProofs LaneRefinement Registry Config.

#[local] Open Scope string_scope.
#[local] Open Scope list_scope.
#[local] Open Scope Z_scope.

(** ** Periods *)

Definition period_allowed (p : Z) : Prop := 1 <= p <= 100000.

Lemma parse_periods_ok parts periods out :
  Forall period_allowed periods -> NoDup periods -> parse_periods periods parts = Ok out ->
  Forall period_allowed out /\ NoDup out /\ periods `prefix_of` out /\ List.length out = (List.length periods + List.length parts)%nat.
Proof.
  revert periods. induction parts as [|part parts IH]; intros periods Hp Hn; cbn [parse_periods].
  { intros [= <-]. split_and!; [done..|]. cbn. lia. }
  destruct (atoi part) as [period|]; [|done]. destruct (_ || _) eqn:Hb; [done|].
  destruct (bool_decide_reflect (period ∈ periods)) as [|Hnew]; [done|]. intros Hrun.
  assert (period_allowed period) by (unfold period_allowed; lia).
  apply IH in Hrun as (H1 & H2 & H3 & H4).
  - split_and!; [done|done|etrans; [|done]; by eexists|]. rewrite H4, length_app. cbn. lia.
  - apply Forall_app. split; [done|by constructor].
  - apply NoDup_app. split_and!; [done|set_solver|apply NoDup_singleton].
Qed.

Lemma sorted_distinct (l : list Z) : sorted_by Z.ltb l -> NoDup l -> StronglySorted Z.lt l.
Proof.
  unfold sorted_by. induction 1 as [|x l Hs IH Hx]; intros Hn; [constructor|]. apply NoDup_cons in Hn as [Hnx Hn].
  constructor; [by apply IH|]. rewrite Forall_forall in *. intros y Hy. specialize (Hx y Hy).
  assert (x <> y) by (by intros ->). lia.
Qed.

Lemma parsePeriods_ok value periods :
  parsePeriods value = Ok periods ->
  StronglySorted Z.lt periods /\ Forall period_allowed periods /\ periods <> [].
Proof.
  unfold parsePeriods. destruct (Z.eqb_spec (len (splitNonEmpty value)) 0) as [|Hne]; [done|].
  destruct (parse_periods [] (splitNonEmpty value)) as [l|e|] eqn:E; cbn; [|done..]. intros [= <-].
  apply parse_periods_ok in E as (Ha & Hn & _ & Hl); [|constructor|constructor].
  assert (Hp : sort_ints l ≡ₚ l) by apply sort_stable_perm.
  split_and!.
  - apply sorted_distinct; [apply (sort_stable_sorted Z.ltb _ strict_weak_ltb)|]. by rewrite Hp.
  - by rewrite Hp.
  - intros Hnil. rewrite Hnil in Hp. apply Permutation_nil in Hp. subst l.
    cbn [List.length] in Hl. unfold len in Hne. lia.
Qed.

(** ** Series *)

Definition series_ok (dataset : string) (key : SeriesKey) : Prop :=
  kDataset key = dataset /\ kSymbol key <> "" /\ is_Some (TimeframeDuration (kTimeframe key)).

(** The parts of a list are trimmed and not empty. *)
Lemma splitNonEmpty_elem value part :
  part ∈ splitNonEmpty value -> part <> "" /\ exists x, part = trim_space x.
Proof.
  unfold splitNonEmpty. intros [Hin Hne]%list_elem_of_In%filter_In.
  apply in_map_iff in Hin as (x & <- & _). split; [|by exists x].
  intros Hx. by rewrite Hx in Hne.
Qed.

Lemma parse_series_ok dataset parts series out :
  (forall part, part ∈ parts -> exists x, part = trim_space x) ->
  Forall (series_ok dataset) series -> NoDup (map SeriesKey_String series) ->
  parse_series dataset series parts = Ok out ->
  Forall (series_ok dataset) out /\ NoDup (map SeriesKey_String out) /\
  List.length out = (List.length series + List.length parts)%nat.
Proof.
  revert series. induction parts as [|part parts IH]; intros series Htrim Hs Hn; cbn [parse_series].
  { intros [= <-]. split_and!; [done..|]. cbn. lia. }
  destruct (cut_last ":" part) as [[before after]|] eqn:Hc; [|done].
  destruct (String.eqb_spec before "") as [|Hb]; [done|]. destruct (String.eqb_spec after "") as [|Ha]; [done|]. cbn [orb].
  set (key := mkKey dataset (trim_space before) (trim_space after)).
  destruct (TimeframeDuration (kTimeframe key)) as [d|] eqn:Hd; [|done].
  destruct (bool_decide_reflect (SeriesKey_String key ∈ map SeriesKey_String series)) as [|Hnew]; [done|].
  intros Hrun. apply IH in Hrun as (H1 & H2 & H3).
  - split_and!; [done..|]. rewrite H3, length_app. cbn. lia.
  - intros p Hp. apply Htrim. set_solver.
  - apply Forall_app. split; [done|]. constructor; [|constructor]. split_and!; [done| |by rewrite Hd].
    destruct (Htrim part) as [x Hx]; [set_solver|]. apply cut_last_spec in Hc. rewrite Hx in Hc.
    by eapply trim_space_prefix.
  - rewrite map_app. apply NoDup_app. split_and!; [done|cbn; set_solver|apply NoDup_singleton].
Qed.

Lemma parseSeries_ok dataset value series :
  parseSeries dataset value = Ok series ->
  Forall (series_ok dataset) series /\ NoDup (map SeriesKey_String series) /\ series <> [].
Proof.
  unfold parseSeries. destruct (Z.eqb_spec (len (splitNonEmpty value)) 0) as [|Hne]; [done|]. intros Hrun.
  apply parse_series_ok in Hrun as (H1 & H2 & H3); [|intros p Hp; by apply splitNonEmpty_elem in Hp as [_ ?]|constructor|constructor].
  split_and!; [done..|]. intros ->. cbn [List.length] in H3. unfold len in Hne. lia.
Qed.

(** ** The whole configuration *)

Record config_valid (c : Config) : Prop := {
  cv_dataset : cfDataset c <> "";
  cv_periods : StronglySorted Z.lt (cfPeriods c) /\ Forall period_allowed (cfPeriods c) /\ cfPeriods c <> [];
  cv_series : Forall (series_ok (cfDataset c)) (cfSeries c) /\ NoDup (map SeriesKey_String (cfSeries c)) /\ cfSeries c <> [];
  cv_seed : Forall (fun p => p <= cfSeedBars c) (cfPeriods c);
  cv_bounds : 1 <= cfDatabaseMaxConns c <= 100 /\ 1 <= cfSeedBars c <= 25000 /\ 1 <= cfMailboxSize c <= 100000 /\
    1 <= cfSnapshotEvery c <= 1000000 /\ 1 <= cfNATSReplicas c <= 5 /\ 0 < cfShutdownTimeout c /\ 0 < cfOutboxPollInterval c;
  cv_token : cfInsecureNoAuth c = true \/ cfAPIAuthToken c <> "";
  cv_store : cfDatabaseURL c <> "" \/ cfAllowMemoryStore c = true;
  cv_origins : cfAllowedOrigins c <> [];
  cv_nats : cfNATSURL c = "" \/ (32 <= String.length (cfNATSToken c))%nat
}.

Lemma intValue_ok lookup name fallback lo hi v : intValue lookup name fallback lo hi = Ok v -> lo <= v <= hi.
Proof.
  unfold intValue. destruct (atoi _) as [n|]; [|done]. destruct (_ || _) eqn:E; [done|]. intros [= <-]. lia.
Qed.

Lemma durationValue_ok lookup name fallback v : durationValue lookup name fallback = Ok v -> 0 < v.
Proof.
  unfold durationValue. destruct (parse_duration _) as [n|]; [|done].
  destruct (Z.leb_spec n 0); [done|]. by intros [= <-].
Qed.

Ltac load_step H :=
  match type of H with
  | (?m ≫= _) = Ok _ => let E := fresh "E" in destruct m as [?v|?e|] eqn:E; [|discriminate H..]; cbn [mbind outcome_bind] in H
  end.

(** The last of sorted periods is the largest. *)
Lemma last_largest (l : list Z) largest : StronglySorted Z.lt l -> last l = Some largest -> Forall (fun p => p <= largest) l.
Proof.
  intros Hs [front ->]%last_Some. apply StronglySorted_app in Hs as (Hlt & _ & _). apply Forall_forall.
  intros p [Hp| ->%list_elem_of_singleton]%elem_of_app; [|done]. apply Z.lt_le_incl, Hlt; [done|set_solver].
Qed.

Lemma load_valid lookup c : load lookup = Ok c -> config_valid c.
Proof.
  unfold load. intros H. do 11 load_step H.
  destruct (last v8) as [largest|] eqn:Hlast; [|done].
  destruct (Z.ltb_spec v0 largest) as [|Hseed]; [done|].
  destruct (negb v4 && _) eqn:Htok; [done|]. destruct (_ && negb v3) eqn:Hdb; [done|].
  destruct (String.eqb_spec (valueOr lookup "SIGNALD_DATASET" "live") "") as [|Hds]; [done|].
  destruct (Z.eqb_spec (len (splitNonEmpty (valueOr lookup "SIGNALD_ALLOWED_ORIGINS" default_origins))) 0) as [|Hor]; [done|].
  destruct (negb _ && (String.length _ <? 32)%nat) eqn:Hnats; [done|].
  load_step H. injection H as <-.
  apply intValue_ok in E, E0, E1, E2, E7. apply durationValue_ok in E5, E6.
  pose proof (parsePeriods_ok _ _ E8) as Hp. apply parseSeries_ok in E9.
  split; cbn; try done.
  - eapply Forall_impl; [apply (last_largest v8 largest); [apply Hp|done]|]. cbn. lia.
  - unfold wrap_u64. rewrite Z.mod_small by lia. lia.
  - destruct v4; [by left|right]. cbn in Htok. by apply String.eqb_neq.
  - destruct v3; [by right|left]. rewrite andb_true_r in Hdb. by apply String.eqb_neq.
  - intros Hnil. rewrite Hnil in Hor. done.
  - destruct (String.eqb_spec (valueOr lookup "SIGNALD_NATS_URL" "") "") as [|]; [by left|right].
    cbn in Hnats. by apply Nat.ltb_ge.
Qed.

(** ** Lanes from a configuration *)

Lemma periods_valid_lt previous periods :
  StronglySorted Z.lt periods -> Forall period_allowed periods ->
  match previous with Some q => Forall (fun p => q < p) periods | None => True end ->
  periods_valid previous periods = true.
Proof.
  intros Hs. revert previous. induction Hs as [|p periods Hs IH Hp]; intros previous Ha Hq; [done|].
  apply Forall_cons in Ha as [Ha1 Ha]. cbn [periods_valid]. rewrite (IH (Some p) Ha Hp), andb_true_r.
  unfold period_allowed in Ha1. rewrite (proj2 (Z.leb_gt p 0)) by lia. destruct previous as [q|]; [|done].
  apply Forall_cons in Hq as [Hq _]. by rewrite (proj2 (Z.eqb_neq p q)) by lia.
Qed.

Lemma sort_ints_sorted l : StronglySorted Z.lt l -> sort_ints l = l.
Proof. intros Hs. apply sort_stable_id. by apply sorted_lt_sorted_by. Qed.

Lemma NewLane_total options :
  kDataset (loKey options) <> "" -> series_ok (kDataset (loKey options)) (loKey options) ->
  StronglySorted Z.lt (loPeriods options) -> Forall period_allowed (loPeriods options) -> loPeriods options <> [] ->
  loHasStore options = true -> exists l, NewLane options = Ok l.
Proof.
  intros Hd (_ & Hsym & Htf) Hs Ha Hne Hst. unfold NewLane.
  rewrite (proj2 (String.eqb_neq _ _) Hd), (proj2 (String.eqb_neq _ _) Hsym). cbn [orb].
  destruct (String.eqb_spec (kTimeframe (loKey options)) "") as [Ht|]; [rewrite Ht in Htf; by destruct Htf|].
  destruct Htf as [d ->]. destruct (Z.eqb_spec (len (loPeriods options)) 0) as [Hz|].
  { destruct (loPeriods options); [done|]. unfold len in Hz. cbn in Hz. lia. }
  rewrite Hst. cbn [negb]. rewrite sort_ints_sorted by done. rewrite periods_valid_lt by done. cbn [negb].
  rewrite newReducers_of.
  - cbn [mbind outcome_bind]. destruct fresh_market_ok as (m & -> & _). cbn. eauto.
  - eapply Forall_impl; [exact Ha|]. unfold period_allowed, valid_period. cbn. lia.
Qed.

(** ** The registry of a configuration *)

Lemma add_series_total options r key :
  rgLanes r !! series_lookup key = None -> (exists l, NewLane (lane_options options key) = Ok l) ->
  exists r', add_series options r key = Ok r' /\ rgKeys r' = rgKeys r ++ [key] /\
    forall lookup, is_Some (rgLanes r' !! lookup) <-> is_Some (rgLanes r !! lookup) \/ lookup = series_lookup key.
Proof.
  intros Hnone [l Hl]. unfold add_series. fold (series_lookup key). rewrite Hnone, Hl. cbn. eexists. split; [done|].
  split; [done|]. intros lookup. cbn. rewrite lookup_insert_is_Some. destruct (decide (series_lookup key = lookup)); naive_solver.
Qed.

Lemma add_all_total options series r :
  NoDup (map series_lookup series) -> Forall (fun key => rgLanes r !! series_lookup key = None) series ->
  Forall (fun key => exists l, NewLane (lane_options options key) = Ok l) series ->
  exists r', oloop (add_series options) series r = Ok r' /\ rgKeys r' = rgKeys r ++ series /\
    forall lookup, is_Some (rgLanes r' !! lookup) <-> is_Some (rgLanes r !! lookup) \/ lookup ∈ map series_lookup series.
Proof.
  revert r. induction series as [|key series IH]; intros r Hn Hf Hl; cbn [oloop].
  { exists r. rewrite app_nil_r. set_solver. }
  cbn [map] in Hn. apply NoDup_cons in Hn as [Hnk Hn]. apply Forall_cons in Hf as [Hf1 Hf]. apply Forall_cons in Hl as [Hl1 Hl].
  destruct (add_series_total options r key Hf1 Hl1) as (r1 & -> & Hk1 & Hr1). cbn [mbind outcome_bind].
  destruct (IH r1) as (r' & Hr' & Hk' & Hl'); [done| |done|].
  - rewrite Forall_forall in *. intros k Hk. apply eq_None_not_Some. rewrite Hr1.
    intros [Hs|Heq]; [by eapply eq_None_not_Some; [apply (Hf k Hk)|]|]. apply Hnk. rewrite <-Heq.
    by apply list_elem_of_In, in_map, list_elem_of_In.
  - exists r'. split_and!; [done|by rewrite Hk', Hk1, <-app_assoc|]. intros lookup. rewrite Hl', Hr1. cbn [map]. set_solver.
Qed.

(** Names with the dataset in front are distinct only when those without are. *)
Lemma series_lookup_distinct dataset series :
  Forall (series_ok dataset) series -> NoDup (map SeriesKey_String series) -> NoDup (map series_lookup series).
Proof.
  induction series as [|key series IH]; intros Hs Hn; [constructor|]. cbn [map] in *.
  apply Forall_cons in Hs as [[Hk _] Hs]. apply NoDup_cons in Hn as [Hnk Hn]. constructor; [|by apply IH].
  intros (k & Heq & Hin)%list_elem_of_In%in_map_iff. apply Hnk. rewrite Forall_forall in Hs.
  assert (SeriesKey_String key = SeriesKey_String k) as ->; [|by apply list_elem_of_In, in_map].
  apply list_elem_of_In, Hs in Hin as [Hk' _]. unfold SeriesKey_String. rewrite Hk, Hk'.
  unfold series_lookup, lookupKey in Heq. by rewrite Heq.
Qed.
