(* ===== verification/Input.v ===== *)
(** * The market-data input (internal/input/ohlc.go)

    Messages of the OHLC server, their dispatch to a sink, and the backoff of
    the reconnect loop.  Dialling, reading frames, pings and decoding JSON are
    left to the network and the libraries; a message arrives decoded. *)

From stdpp Require Import prelude strings list.
From Stdlib Require Import ZArith Lia Ascii String.
From S2P Require Import Prelude GoFloat GoText Monitor Model.

#[local] Open Scope string_scope.
#[local] Open Scope list_scope.
#[local] Open Scope Z_scope.

Record serverMessage := mkMessage {
  smType : string;
  smKey : string;
  smBars : list Bar;
  smBar : option Bar;
  smErr : string
}.

(** The sink of the client, over the errors it returns. *)
Class Sink (S E : Type) := {
  sink_Seed : S -> string -> string -> list Bar -> S * outcome E unit;
  sink_Closed : S -> Bar -> S * outcome E unit;
  sink_Forming : S -> Bar -> S * outcome E unit
}.

Inductive InputError (E : Type) :=
  | InputSeed (e : E)
  | InputClosed (e : E)
  | InputForming (e : E)
  | InputInvalidClosed
  | InputInvalidForming
  | InputServer (text : string)
  | InputUnsupported (type : string)
  | InputNoIdentity
  | InputDial
  | InputSubscribe (key : SeriesKey)
  | InputRead
  | InputDecode.
Arguments InputSeed {E}.
Arguments InputClosed {E}.
Arguments InputForming {E}.
Arguments InputInvalidClosed {E}.
Arguments InputInvalidForming {E}.
Arguments InputServer {E}.
Arguments InputUnsupported {E}.
Arguments InputNoIdentity {E}.
Arguments InputDial {E}.
Arguments InputSubscribe {E}.
Arguments InputRead {E}.
Arguments InputDecode {E}.

(** The loop over the bytes of the key: the first separator with a byte on
    each side.  [before] is what was read, last byte first. *)
Fixpoint split_key (before : list Ascii.ascii) (rest : string) : option (string * string) :=
  match rest with
  | EmptyString => None
  | String c tail =>
      if Ascii.eqb c "|"%char && negb (len before =? 0) && negb (tail =? "")%string
      then Some (string_of_list_ascii (rev before), tail)
      else split_key (c :: before) tail
  end.

Definition seriesFromMessage {E} (message : serverMessage) : outcome (InputError E) (string * string) :=
  match smBars message with
  | bar :: _ => Ok (bSymbol bar, bTimeframe bar)
  | [] => match split_key [] (smKey message) with
          | Some series => Ok series
          | None => Fail InputNoIdentity
          end
  end.

Section Dispatch.
Context {S E : Type} `{Sink S E}.

(** The switch of [dispatch]. *)
Definition dispatch_sink (s : S) (message : serverMessage) : S * outcome (InputError E) unit :=
  if (smType message =? "seed")%string then
    match seriesFromMessage message with
    | Ok (symbol, timeframe) =>
        let '(s', r) := sink_Seed s symbol timeframe (smBars message) in (s', wrap_err InputSeed r)
    | Fail e => (s, Fail e)
    | Panic => (s, Panic)
    end
  else if (smType message =? "closed")%string then
    match smBar message with
    | Some bar => if negb (bClosed bar) then (s, Fail InputInvalidClosed)
                  else let '(s', r) := sink_Closed s bar in (s', wrap_err InputClosed r)
    | None => (s, Fail InputInvalidClosed)
    end
  else if (smType message =? "forming")%string then
    match smBar message with
    | Some bar => if bClosed bar then (s, Fail InputInvalidForming)
                  else let '(s', r) := sink_Forming s bar in (s', wrap_err InputForming r)
    | None => (s, Fail InputInvalidForming)
    end
  else if (smType message =? "error")%string then (s, Fail (InputServer (smErr message)))
  else (s, Fail (InputUnsupported (smType message))).

Definition dispatch (now : Z) (s : S) (m : Metrics) (message : serverMessage)
  : S * Metrics * outcome (InputError E) unit :=
  match dispatch_sink s message with
  | (s', Ok u) => (s', RecordInput m now (smType message), Ok u)
  | (s', r) => (s', m, r)
  end.

(** The read loop of [runConnection] over the frames of one connection, each
    with its arrival time and decoded ([None] when it does not decode): the
    loop ends at the first error, at the latest when reading fails. *)
Fixpoint run_messages (s : S) (m : Metrics) (frames : list (Z * option serverMessage))
  : S * Metrics * outcome (InputError E) unit :=
  match frames with
  | [] => (s, m, Fail InputRead)
  | (_, None) :: _ => (s, m, Fail InputDecode)
  | (now, Some message) :: rest =>
      match dispatch now s m message with
      | (s', m', Ok _) => run_messages s' m' rest
      | (s', m', r) => (s', m', r)
      end
  end.
End Dispatch.

(** ** Connecting *)

Record OHLCOptions := mkOHLCOptions {
  ooURL : string;
  ooSeries : list SeriesKey;
  ooSeedBars : Z;
  ooHasSink : bool;
  ooMinBackoff : Z;
  ooMaxBackoff : Z;
  ooHandshakeWait : Z
}.

(** The options [NewOHLCClient] keeps, [None] when it refuses them. *)
Definition NewOHLCClient (options : OHLCOptions) : option OHLCOptions :=
  if (ooURL options =? "")%string || negb (ooHasSink options) || (len (ooSeries options) =? 0) ||
     (ooSeedBars options <=? 0) then None
  else
    let minBackoff := if ooMinBackoff options <=? 0 then second else ooMinBackoff options in
    let maxBackoff := if ooMaxBackoff options <? minBackoff then 30 * second else ooMaxBackoff options in
    let handshakeWait := if ooHandshakeWait options <=? 0 then 10 * second else ooHandshakeWait options in
    Some (mkOHLCOptions (ooURL options) (ooSeries options) (ooSeedBars options) true
            minBackoff maxBackoff handshakeWait).

Record subscribeMessage := mkSubscribeMessage {
  sbAction : string;
  sbSymbol : string;
  sbTimeframe : string;
  sbSeedBars : Z
}.

(** What the network makes of one attempt: whether dialling succeeds, how many
    subscriptions can be written, and the frames that arrive. *)
Record attempt := mkAttempt {
  atDialed : bool;
  atWrites : nat;
  atFrames : list (Z * option serverMessage)
}.

(** The subscriptions that go out, and the series whose write failed. *)
Fixpoint subscribe_all (seedBars : Z) (writes : nat) (series : list SeriesKey)
  : list subscribeMessage * option SeriesKey :=
  match series, writes with
  | [], _ => ([], None)
  | key :: _, O => ([], Some key)
  | key :: rest, Datatypes.S writes' =>
      let '(sent, failed) := subscribe_all seedBars writes' rest in
      (mkSubscribeMessage "subscribe" (kSymbol key) (kTimeframe key) seedBars :: sent, failed)
  end.

Section Connection.
Context {S E : Type} `{Sink S E}.

(** [runConnection]: the state after it, the subscriptions sent, whether it had
    connected, and the error it always ends with. *)
Definition runConnection (options : OHLCOptions) (a : attempt) (s : S) (m : Metrics)
  : S * Metrics * list subscribeMessage * bool * outcome (InputError E) unit :=
  if negb (atDialed a) then (s, m, [], false, Fail InputDial)
  else
    match subscribe_all (ooSeedBars options) (atWrites a) (ooSeries options) with
    | (sent, Some key) => (s, m, sent, true, Fail (InputSubscribe key))
    | (sent, None) =>
        let '(s, m, r) := run_messages s (SetConnected m true) (atFrames a) in (s, m, sent, true, r)
    end.

(** One turn of [Run] after a connection ended, [jitter] being the random part:
    the wait before the next attempt and the backoff after it. *)
Definition backoff_turn (options : OHLCOptions) (backoff : Z) (connected : bool) (jitter : Z) : Z * Z :=
  let backoff := if connected then ooMinBackoff options else backoff in
  let doubled := wrap_i64 (backoff * 2) in
  (wrap_i64 (backoff + jitter), if ooMaxBackoff options <? doubled then ooMaxBackoff options else doubled).

Definition connection_ended (m : Metrics) : Metrics :=
  RecordReconnect (RecordInputError (SetConnected m false)).

(** [Run] over attempts, each with the jitter drawn after it, until the context
    ends: the state, the waits, and the backoff. *)
Fixpoint run_attempts (options : OHLCOptions) (backoff : Z) (s : S) (m : Metrics) (attempts : list (attempt * Z))
  : S * Metrics * list Z * Z :=
  match attempts with
  | [] => (s, m, [], backoff)
  | (a, jitter) :: rest =>
      let '(s, m, _, connected, _) := runConnection options a s m in
      let '(wait, next) := backoff_turn options backoff connected jitter in
      let '(s, m, waits, last) := run_attempts options next s (connection_ended m) rest in
      (s, m, wait :: waits, last)
  end.

Definition client_Run (options : OHLCOptions) (s : S) (m : Metrics) (attempts : list (attempt * Z)) :=
  run_attempts options (ooMinBackoff options) s m attempts.
End Connection.

(** ** Proofs *)

Lemma split_key_spec before symbol timeframe :
  "|"%char ∉ list_ascii_of_string symbol -> (before ++ list_ascii_of_string symbol <> []) -> timeframe <> "" ->
  split_key before (symbol +:+ "|" +:+ timeframe) =
    Some (string_of_list_ascii (rev before ++ list_ascii_of_string symbol), timeframe).
Proof.
  revert before. induction symbol as [|c symbol IH]; intros before Hni Hne Ht; cbn [String.append list_ascii_of_string] in *.
  - rewrite app_nil_r in *. change ("" +:+ "|" +:+ timeframe) with (String "|" timeframe). cbn [split_key].
    assert ((len before =? 0) = false) as -> by (destruct before; [done|]; apply Z.eqb_neq; unfold len; cbn; lia).
    assert ((timeframe =? "")%string = false) as -> by (by apply String.eqb_neq). done.
  - change (String c symbol +:+ "|" +:+ timeframe) with (String c (symbol +:+ "|" +:+ timeframe)). cbn [split_key].
    assert (Ascii.eqb c "|" = false) as -> by (apply Ascii.eqb_neq; set_solver). cbn [andb].
    rewrite IH; [|set_solver|done|done]. cbn [rev]. by rewrite <-app_assoc.
Qed.

(** The part of the wait after attempt [k] that is not random: the minimum,
    doubled for every attempt since the last one that connected, up to the
    maximum; [missed] attempts were made before these. *)
Definition wait_base (options : OHLCOptions) (missed : nat) (attempts : list (attempt * Z)) (k : nat) (base : Z) : Prop :=
  (exists c a, (c <= k)%nat /\ attempts !! c = Some a /\ atDialed a.1 = true /\
     (forall i b, (c < i <= k)%nat -> attempts !! i = Some b -> atDialed b.1 = false) /\
     base = Z.min (ooMinBackoff options * 2 ^ Z.of_nat (k - c)) (ooMaxBackoff options)) \/
  ((forall i b, (i <= k)%nat -> attempts !! i = Some b -> atDialed b.1 = false) /\
   base = Z.min (ooMinBackoff options * 2 ^ Z.of_nat (missed + k)) (ooMaxBackoff options)).

(** The jitters drawn along a run of attempts, each at most a quarter of the
    wait it is added to. *)
Definition jitters_drawn (options : OHLCOptions) (missed : nat) (attempts : list (attempt * Z)) : Prop :=
  forall k a jitter base, attempts !! k = Some (a, jitter) -> wait_base options missed attempts k base ->
  0 <= jitter <= base / 4.

Lemma wait_base_first options missed a jitter rest :
  wait_base options missed ((a, jitter) :: rest) 0
    (Z.min (ooMinBackoff options * 2 ^ Z.of_nat (if atDialed a then 0 else missed)) (ooMaxBackoff options)).
Proof.
  destruct (atDialed a) eqn:Ha.
  - left. exists 0%nat, (a, jitter). split_and!; try done. intros. lia.
  - right. split; [|by rewrite Nat.add_0_r]. intros i b Hi. replace i with 0%nat by lia. by intros [= <-].
Qed.

Lemma wait_base_next options missed a jitter rest k base :
  wait_base options (Datatypes.S (if atDialed a then 0 else missed)) rest k base ->
  wait_base options missed ((a, jitter) :: rest) (Datatypes.S k) base.
Proof.
  intros [(c & x & Hc & Hx & Hd & Hafter & ->)|[Hnone ->]].
  - left. exists (Datatypes.S c), x. split_and!; [lia|done|done| |done].
    intros [|i] b Hi; [lia|]. apply Hafter. lia.
  - destruct (atDialed a) eqn:Ha.
    + left. exists 0%nat, (a, jitter). split_and!; [lia|done|done| |].
      * intros [|i] b Hi; [lia|]. apply Hnone. lia.
      * by rewrite Nat.sub_0_r.
    + right. split.
      * intros [|i] b Hi; [by intros [= <-]|]. apply Hnone. lia.
      * by replace (missed + Datatypes.S k)%nat with (Datatypes.S missed + k)%nat by lia.
Qed.

(** Jitters of at most a quarter of the minimum are always in range. *)
Lemma jitters_small options missed attempts :
  0 < ooMinBackoff options <= ooMaxBackoff options ->
  Forall (fun '(_, jitter) => 0 <= jitter <= ooMinBackoff options / 4) attempts -> jitters_drawn options missed attempts.
Proof.
  intros Hm Hall k a jitter base Hk Hb. rewrite Forall_lookup in Hall. specialize (Hall k _ Hk). cbn in Hall.
  assert (forall n, 1 <= 2 ^ Z.of_nat n) as Hpow by (intros n; pose proof (Z.pow_pos_nonneg 2 (Z.of_nat n)); lia).
  assert (ooMinBackoff options <= base).
  { destruct Hb as [(c & _ & _ & _ & _ & _ & ->)|[_ ->]]; [specialize (Hpow (k - c)%nat)|specialize (Hpow (missed + k)%nat)]; nia. }
  Z.to_euclidean_division_equations; lia.
Qed.

Section Runs.
Context {S E : Type} `{Sink S E}.

Lemma runConnection_connected options a (s : S) m s' m' sent connected r :
  runConnection options a s m = (s', m', sent, connected, r) -> connected = atDialed a.
Proof.
  unfold runConnection. destruct (atDialed a); cbn [negb]; [|by intros [= _ _ _ <- _]].
  destruct (subscribe_all _ _ _) as [sent' [key|]]; [by intros [= _ _ _ <- _]|].
  destruct (run_messages _ _ _) as [[? ?] ?]. by intros [= _ _ _ <- _].
Qed.

(** One turn: nothing wraps around. *)
Lemma backoff_turn_exact options missed connected jitter :
  0 < ooMinBackoff options <= ooMaxBackoff options -> ooMaxBackoff options < 2 ^ 61 ->
  let base n := Z.min (ooMinBackoff options * 2 ^ Z.of_nat n) (ooMaxBackoff options) in
  let now := base (if (connected : bool) then 0 else missed)%nat in
  0 <= jitter <= now / 4 ->
  backoff_turn options (base missed) connected jitter =
    (now + jitter, base (Datatypes.S (if connected then 0 else missed))) /\
  ooMinBackoff options <= now + jitter <= 5 * ooMaxBackoff options / 4.
Proof.
  intros Hm Hmax base now Hj. unfold backoff_turn.
  assert (Hnow : (if connected then ooMinBackoff options else base missed) = now).
  { unfold now, base. destruct connected; [|done]. cbn. lia. }
  assert (Hpow : forall n, 1 <= 2 ^ Z.of_nat n) by (intros n; pose proof (Z.pow_pos_nonneg 2 (Z.of_nat n)); lia).
  assert (Hr : ooMinBackoff options <= now <= ooMaxBackoff options).
  { unfold now, base. specialize (Hpow (if connected then 0 else missed)%nat). nia. }
  rewrite Hnow. split.
  - unfold wrap_i64. rewrite !Z.mod_small by (Z.to_euclidean_division_equations; lia). f_equal; [lia|].
    unfold base. rewrite Nat2Z.inj_succ, Z.pow_succ_r by lia.
    replace (ooMinBackoff options * (2 * 2 ^ Z.of_nat (if connected then 0 else missed)%nat))
      with (2 * (ooMinBackoff options * 2 ^ Z.of_nat (if connected then 0 else missed)%nat)) by lia.
    unfold now, base in *. destruct (Z.ltb_spec (ooMaxBackoff options)
      (Z.min (ooMinBackoff options * 2 ^ Z.of_nat (if connected then 0 else missed)%nat) (ooMaxBackoff options) * 2 +
       2 ^ 63 - 2 ^ 63)); lia.
  - Z.to_euclidean_division_equations; lia.
Qed.

(** Every wait of a run of attempts is what its past says, plus the jitter. *)
Lemma run_attempts_waits options missed (s s' : S) m m' attempts waits last :
  0 < ooMinBackoff options <= ooMaxBackoff options -> ooMaxBackoff options < 2 ^ 61 ->
  jitters_drawn options missed attempts ->
  run_attempts options (Z.min (ooMinBackoff options * 2 ^ Z.of_nat missed) (ooMaxBackoff options)) s m attempts =
    (s', m', waits, last) ->
  List.length waits = List.length attempts /\
  forall k a jitter, attempts !! k = Some (a, jitter) -> exists base,
    wait_base options missed attempts k base /\ waits !! k = Some (base + jitter) /\
    ooMinBackoff options <= base + jitter <= 5 * ooMaxBackoff options / 4.
Proof.
  intros Hm Hmax. revert missed s m waits.
  induction attempts as [|[a jitter] rest IH]; intros missed s m waits Hj; cbn [run_attempts].
  { intros [= _ _ <- _]. by split; [|intros []]. }
  destruct (runConnection options a s m) as [[[[s1 m1] sent] connected] r] eqn:Hrc.
  apply runConnection_connected in Hrc as ->.
  pose proof (wait_base_first options missed a jitter rest) as Hfirst.
  destruct (backoff_turn_exact options missed (atDialed a) jitter Hm Hmax) as [Hturn Hb];
    [by apply (Hj 0%nat a jitter)|]. rewrite Hturn.
  destruct (run_attempts options _ s1 (connection_ended m1) rest) as [[[s2 m2] ws] l] eqn:Hr.
  intros [= <- <- <- <-]. destruct (IH _ _ _ _ ltac:(intros k b j base Hk Hbase; eapply (Hj (Datatypes.S k)); [exact Hk|by apply wait_base_next]) Hr) as [Hl Hall].
  split; [cbn; by rewrite Hl|]. intros [|k] b j Hk.
  - injection Hk as <- <-. eexists. split_and!; [exact Hfirst|done|apply Hb..].
  - destruct (Hall k b j Hk) as (base & Hbase & Hw & Hbd). exists base. split_and!; [by apply wait_base_next|done|apply Hbd..].
Qed.

(** The state after some messages that the sink accepts, in order. *)
Inductive applied : S -> list (Z * serverMessage) -> S -> Prop :=
  | applied_nil s : applied s [] s
  | applied_cons s now message rest s1 s2 :
      dispatch_sink s message = (s1, Ok tt) -> applied s1 rest s2 ->
      applied s ((now, message) :: rest) s2.

Definition count_kind (kind : string) (messages : list (Z * serverMessage)) : Z :=
  len (List.filter (fun '(_, message) => smType message =? kind)%string messages).

(** What the metrics are after some accepted messages. *)
Definition recorded (m : Metrics) (messages : list (Z * serverMessage)) : Metrics :=
  foldl (fun m '(now, message) => RecordInput m now (smType message)) m messages.

Lemma run_messages_spec frames (s s' : S) m m' r :
  run_messages s m frames = (s', m', r) ->
  exists done_ rest s1, frames = map (fun '(now, message) => (now, Some message)) done_ ++ rest /\
    applied s done_ s1 /\ m' = recorded m done_ /\
    match rest with
    | [] => s' = s1 /\ r = Fail InputRead
    | (_, None) :: _ => s' = s1 /\ r = Fail InputDecode
    | (_, Some message) :: _ => dispatch_sink s1 message = (s', r) /\ r <> Ok tt
    end.
Proof.
  revert s m. induction frames as [|[now [message|]] frames IH]; intros s m; cbn [run_messages].
  - intros [= <- <- <-]. exists [], [], s. by split_and!; try constructor.
  - unfold dispatch. destruct (dispatch_sink s message) as [s1 [[]|e|]] eqn:E1.
    + intros (done_ & rest & s2 & -> & Ha & -> & Hr)%IH.
      exists ((now, message) :: done_), rest, s2. split_and!; [done|by econstructor|done|done].
    + intros [= <- <- <-]. exists [], ((now, Some message) :: frames), s. split_and!; [done|constructor|done| |done].
      by rewrite E1.
    + intros [= <- <- <-]. exists [], ((now, Some message) :: frames), s. split_and!; [done|constructor|done| |done].
      by rewrite E1.
  - intros [= <- <- <-]. exists [], ((now, None) :: frames), s. by split_and!; try constructor.
Qed.

Lemma recorded_counts m messages :
  0 <= mtSeed m -> 0 <= mtClosed m -> 0 <= mtForming m ->
  mtSeed m + len messages < 2 ^ 64 -> mtClosed m + len messages < 2 ^ 64 -> mtForming m + len messages < 2 ^ 64 ->
  mtSeed (recorded m messages) = mtSeed m + count_kind "seed" messages /\
  mtClosed (recorded m messages) = mtClosed m + count_kind "closed" messages /\
  mtForming (recorded m messages) = mtForming m + count_kind "forming" messages.
Proof.
  unfold recorded, count_kind. revert m. induction messages as [|[now message] messages IH]; intros m H1 H2 H3 Hs Hc Hf.
  { cbn [foldl List.filter]. rewrite !len_nil. lia. }
  rewrite len_cons in *. pose proof (len_nonneg messages). cbn [foldl List.filter].
  destruct (IH (RecordInput m now (smType message))) as (-> & -> & ->);
    unfold RecordInput; cbn [mtSeed mtClosed mtForming];
    destruct (smType message =? "seed")%string eqn:E1; destruct (smType message =? "closed")%string eqn:E2;
    destruct (smType message =? "forming")%string eqn:E3; cbn beta iota; unfold wrap_u64;
    rewrite ?Z.mod_small by lia; rewrite ?len_cons; lia.
Qed.
End Runs.
