(* ===== verification/Contract.v ===== *)
(** * The public contract (internal/api/contract.go)

    How internal events become the CloudEvents that subscribers and brokers
    see: the wire types, the identities, the market outputs and the events of a
    snapshot.  A value of type [any] is one of the shapes the code stores in
    it; a map literal is the list of its entries. *)

From stdpp Require Import prelude gmap strings list.
From Stdlib Require Import ZArith Lia SpecFloat Ascii String.
From S2P Require Import Prelude GoFloat GoText Sha256 GoStrings Model Ema MarketZones.

#[local] Open Scope string_scope.
#[local] Open Scope list_scope.
#[local] Open Scope Z_scope.

Definition protocolVersion : string := "signals.v1".
Definition analysisSchema : string := "urn:ytstack:signals:schema:analysis:v1".
Definition analysisEventType : string := "io.ytstack.signals.analysis.updated.v1".

(** ** Wire types *)

Record analysisBar := mkAnalysisBar {
  abOpenTime : Z;
  abCloseTime : Z;
  abRevision : Z;
  abStatus : string;
  abSourceID : string;
  abOpen : float64;
  abHigh : float64;
  abLow : float64;
  abClose : float64;
  abVolume : float64;
  abTrades : Z
}.

(** [Parameters]: the only entry the code writes is the period. *)
Record analysisRef := mkAnalysisRef {
  arName : string;
  arParameters : option Z
}.

Record implementationRef := mkImplementationRef {
  irEngine : string;
  irEngineVersion : string;
  irAlgorithmVersion : string;
  irConfigHash : string
}.

Record displayHint := mkDisplay {
  dhKind : string;
  dhPane : string;
  dhGroup : string;
  dhOrder : Z
}.

Inductive attribute :=
  | AText (text : string)
  | ANumber (value : float64)
  | AInt (value : Z).

Record pointPrimitive := mkPoint {
  ppID : string;
  ppTime : Z;
  ppValue : option float64;
  ppLabel : string;
  ppDirection : string;
  ppConfirmedAt : option Z;
  ppAttributes : list (string * attribute)
}.

Record zonePrimitive := mkZonePrimitive {
  zpID : string;
  zpStartTime : Z;
  zpEndTime : Z;
  zpUpper : float64;
  zpLower : float64;
  zpLabel : string;
  zpDirection : string;
  zpState : string;
  zpAttributes : list (string * attribute)
}.

Record levelPrimitive := mkLevelPrimitive {
  lpID : string;
  lpValue : float64;
  lpLabel : string;
  lpDirection : string;
  lpAttributes : list (string * attribute)
}.

Inductive outputValue :=
  | VText (text : string)
  | VNumber (value : float64)
  | VPoints (points : list pointPrimitive)
  | VZones (zones : list zonePrimitive)
  | VLevels (levels : list levelPrimitive).

Record analysisOutput := mkOutput {
  aoName : string;
  aoType : string;
  aoUnit : string;
  aoValue : outputValue;
  aoDisplay : displayHint
}.

Record analysisData := mkAnalysisData {
  adSeries : SeriesKey;
  adBar : analysisBar;
  adReset : bool;
  adHistory : list analysisBar;
  adAnalysis : analysisRef;
  adAnalysisRevision : Z;
  adOutputs : list analysisOutput;
  adReady : bool;
  adSamples : Z;
  adRequiredSamples : Z;
  adImplementation : implementationRef
}.

Record analysisEvent := mkAnalysisEvent {
  aeSpecVersion : string;
  aeID : string;
  aeSource : string;
  aeType : string;
  aeSubject : string;
  aeTime : Z;
  aeDataContentType : string;
  aeDataSchema : string;
  aeData : analysisData;
  aeCorrelationID : string
}.

Inductive ContractError :=
  | ContractTimeframe
  | ContractNoIndicator (eventID : string)
  | ContractNoMarket (eventID : string)
  | ContractUnsupported (eventType : string).

(** ** Identities *)

Definition revisionForWireBar (bar : Bar) : Z :=
  if bClosed bar && (bTrades bar <? uint64_max) then bTrades bar + 1 else bTrades bar.

Definition candleSourceID (dataset symbol timeframe : string) (openTime revision : Z) : string :=
  sha256_hex (dataset +:+ "|" +:+ symbol +:+ "|" +:+ timeframe +:+ "|" +:+
    format_rfc3339 openTime +:+ "|" +:+ format_uint revision).

Definition primitiveID (kind identity : string) (at_ : Z) (value : float64) : string :=
  sha256_hex (kind +:+ "|" +:+ identity +:+ "|" +:+ format_rfc3339 at_ +:+ "|" +:+ format_g value).

Definition syntheticEventID (series : SeriesKey) (barTime : Z) (algorithm : AlgorithmRef) (suffix : string) : string :=
  sha256_hex (SeriesKey_String series +:+ "|" +:+ format_rfc3339 barTime +:+ "|" +:+
    aName algorithm +:+ "|" +:+ aVersion algorithm +:+ "|" +:+ aConfigHash algorithm +:+ "|" +:+ suffix).

(** [json.Marshal] of the parameters. *)
Definition marshal_parameters (parameters : option Z) : string :=
  match parameters with
  | None => "{}"
  | Some period => String "{" (String (Ascii.ascii_of_nat 34) "period" +:+
                     String (Ascii.ascii_of_nat 34) ":" +:+ itoa period +:+ "}")
  end.

Definition analysisEventID (data : analysisData) : string :=
  sha256_hex (SeriesKey_String (adSeries data) +:+ "|" +:+ format_rfc3339 (abOpenTime (adBar data)) +:+ "|" +:+
    arName (adAnalysis data) +:+ "|" +:+ marshal_parameters (arParameters (adAnalysis data)) +:+ "|" +:+
    irConfigHash (adImplementation data) +:+ "|" +:+ abStatus (adBar data) +:+ "|" +:+
    format_uint (adAnalysisRevision data)).

Definition indicatorConfigHash (name version : string) (period : Z) : string :=
  "sha256:" +:+ sha256_hex (name +:+ "|" +:+ version +:+ "|" +:+ itoa period +:+ "|sma-seed").

Definition wire_marketFactsAlgorithm (base : AlgorithmRef) (periods : list Z) : AlgorithmRef :=
  let identity := foldl (fun identity period =>
    identity +:+ "|" +:+ indicatorConfigHash "ema" EMAAlgorithmVersion period) (aConfigHash base) periods in
  mkAlgorithm (aName base) (aVersion base) ("sha256:" +:+ sha256_hex identity).

Definition eventSource (dataset : string) : string :=
  "urn:ytstack:signals:dataset:" +:+ base64_url (bytes_of dataset).

Definition eventCursor (event : SignalEvent) : string :=
  if evCursor event <=? 0 then "" else itoa (evCursor event).

(** ** Market outputs *)

Definition canonicalDirection (value : string) : string :=
  if bool_decide (value ∈ ["H"; "down"; "sell_side"; "bear"; "bearish"]) then "bearish"
  else if bool_decide (value ∈ ["L"; "up"; "buy_side"; "bull"; "bullish"]) then "bullish"
  else "neutral".

Definition zoneState (value : string) : string := if (value =? "")%string then "active" else value.

Definition zonePrimitiveFrom (value : PriceZone) : zonePrimitive :=
  mkZonePrimitive (zID value) (zFromTime value) (zToTime value) (zTop value) (zBottom value) (zKind value)
    (canonicalDirection (zSide value)) (zoneState (zState value))
    [("grade", AText (zGrade value)); ("source_direction", AText (zSide value))].

Definition zonePrimitives (values : list PriceZone) : list zonePrimitive := map zonePrimitiveFrom values.

Definition zoneTransitionPrimitives (values : list ZoneTransition) : list pointPrimitive :=
  map (fun value =>
    let zone := ztZone value in
    let price := ((zTop zone + zBottom zone) / of_int 2)%F in
    mkPoint (primitiveID "zone_transition" (zID zone +:+ "|" +:+ ztTransition value) (ztAt value) price)
      (ztAt value) (Some price) (ztTransition value) (canonicalDirection (zSide zone)) None
      [("zone_id", AText (zID zone)); ("kind", AText (zKind zone)); ("transition", AText (ztTransition value));
       ("upper", ANumber (zTop zone)); ("lower", ANumber (zBottom zone));
       ("source_direction", AText (zSide zone))]) values.

Definition swingPrimitives (values : list Swing) : list pointPrimitive :=
  map (fun value =>
    mkPoint (primitiveID "swing" (swType value) (swTime value) (swPrice value)) (swTime value)
      (Some (swPrice value)) (swLabel value) (canonicalDirection (swType value)) (Some (swConfirmTime value))
      [("kind", AText (swType value))]) values.

Definition structurePrimitives (values : list StructureEvent) : list pointPrimitive :=
  map (fun value =>
    mkPoint (primitiveID "structure" (seKind value +:+ "|" +:+ seSide value) (seTime value) (sePrice value))
      (seTime value) (Some (sePrice value)) (seKind value) (canonicalDirection (seSide value)) None
      [("kind", AText (seKind value)); ("source_direction", AText (seSide value))]) values.

Definition structureZonePrimitives (values : list StructureEvent) : list zonePrimitive :=
  omap (fun value => zonePrimitiveFrom <$> seZone value) values.

Definition patternPrimitives (values : list PatternEvent) : list pointPrimitive :=
  map (fun value =>
    mkPoint (primitiveID "pattern" (peKind value +:+ "|" +:+ peSide value) (peTime value) f0) (peTime value)
      None (peKind value) (canonicalDirection (peSide value)) None
      [("kind", AText (peKind value)); ("source_direction", AText (peSide value))]) values.

Definition levelPrimitives (values : list PriceLevel) : list levelPrimitive :=
  map (fun value =>
    mkLevelPrimitive (primitiveID "level" (plKind value +:+ "|" +:+ plSide value) zero_time (plPrice value))
      (plPrice value) (plKind value) (canonicalDirection (plSide value))
      [("touches", AInt (plTouches value)); ("source_direction", AText (plSide value))]) values.

Definition premiumDiscountPrimitives (value : option PremiumDiscount) : list zonePrimitive :=
  match value with
  | None => []
  | Some value =>
      let base (id label direction : string) (upper lower : float64) :=
        mkZonePrimitive id (pdFromTime value) (pdToTime value) upper lower label
          (canonicalDirection direction) "active" [("trend", AText (pdTrend value))] in
      [base "premium" "premium" "down" (pdHigh value) (pdEquilibrium value);
       base "discount" "discount" "up" (pdEquilibrium value) (pdLow value);
       base "poi" "poi" (pdTrend value) (pdPOITop value) (pdPOIBottom value)]
  end.

Definition marketOutputs (market : MarketState) : list analysisOutput :=
  [mkOutput "trend" "text" "" (VText (msTrend market)) (mkDisplay "state" "status" "" 0);
   mkOutput "swings" "points" "" (VPoints (swingPrimitives (msSwings market)))
     (mkDisplay "polyline" "price" "structure" 0);
   mkOutput "structure" "markers" "" (VPoints (structurePrimitives (msStructure market)))
     (mkDisplay "markers" "price" "structure" 0);
   mkOutput "structure_zones" "zones" "" (VZones (structureZonePrimitives (msStructure market)))
     (mkDisplay "zones" "price" "structure" 0);
   mkOutput "ranges" "zones" "" (VZones (zonePrimitives (msRanges market))) (mkDisplay "zones" "price" "ranges" 0);
   mkOutput "key_levels" "levels" "" (VLevels (levelPrimitives (msKeyLevels market)))
     (mkDisplay "levels" "price" "ranges" 0);
   mkOutput "fvgs" "zones" "" (VZones (zonePrimitives (msFVGs market))) (mkDisplay "zones" "price" "fvg" 0);
   mkOutput "order_blocks" "zones" "" (VZones (zonePrimitives (msOrderBlocks market)))
     (mkDisplay "zones" "price" "order_blocks" 0);
   mkOutput "liquidity" "levels" "" (VLevels (levelPrimitives (msLiquidity market)))
     (mkDisplay "levels" "price" "liquidity" 0);
   mkOutput "liquidity_sweeps" "markers" "" (VPoints (patternPrimitives (msLiquiditySweeps market)))
     (mkDisplay "markers" "price" "liquidity" 0);
   mkOutput "patterns" "markers" "" (VPoints (patternPrimitives (msPatterns market)))
     (mkDisplay "markers" "price" "patterns" 0);
   mkOutput "pattern_occurrences" "markers" "" (VPoints (patternPrimitives (msPatternOccurrences market)))
     (mkDisplay "markers" "price" "patterns" 0);
   mkOutput "zone_transitions" "markers" "" (VPoints (zoneTransitionPrimitives (msZoneTransitions market)))
     (mkDisplay "markers" "price" "zones" 0);
   mkOutput "premium_discount" "zones" "" (VZones (premiumDiscountPrimitives (msPremiumDiscount market)))
     (mkDisplay "zones" "price" "premium_discount" 0)].

(** Name, type, unit and display of each output. *)
Definition marketOutputCatalog : list (string * string * string * displayHint) :=
  map (fun output => (aoName output, aoType output, aoUnit output, aoDisplay output))
    (marketOutputs zero_market_state).

(** ** Events *)

Definition wire_bar (event : SignalEvent) (duration : Z) (bar : Bar) : analysisBar :=
  let revision := revisionForWireBar bar in
  mkAnalysisBar (bOpenTime bar) (bOpenTime bar + duration) revision "confirmed"
    (candleSourceID (evDataset event) (evSymbol event) (evTimeframe event) (bOpenTime bar) revision)
    (bOpen bar) (bHigh bar) (bLow bar) (bClose bar) (bVolume bar) (bTrades bar).

(** [data.Bar]: prices are zero without a source bar. *)
Definition event_bar (event : SignalEvent) (duration : Z) : analysisBar :=
  let from {A} (zero : A) (field : Bar -> A) := match evSourceBar event with Some bar => field bar | None => zero end in
  mkAnalysisBar (evBarOpenTime event) (evBarOpenTime event + duration) (evBarRevision event)
    (if evProvisional event then "provisional" else "confirmed")
    (candleSourceID (evDataset event) (evSymbol event) (evTimeframe event) (evBarOpenTime event) (evBarRevision event))
    (from f0 bOpen) (from f0 bHigh) (from f0 bLow) (from f0 bClose) (from f0 bVolume) (from 0 bTrades).

(** The output of one indicator of a market event. *)
Definition indicator_output (state : IndicatorState) : option analysisOutput :=
  match isValue state with
  | Some value =>
      if isReady state
      then Some (mkOutput ("ema_" +:+ itoa (isPeriod state)) "number" "price" (VNumber value) (mkDisplay "" "" "" 0))
      else None
  | None => None
  end.

(** The switch on the event type: analysis, outputs, readiness and samples. *)
Definition event_payload (event : SignalEvent)
  : outcome ContractError (analysisRef * list analysisOutput * bool * Z * Z) :=
  if (evEventType event =? "indicator.point")%string then
    match evIndicator event with
    | None => Fail (ContractNoIndicator (evEventID event))
    | Some payload =>
        Ok (mkAnalysisRef (aName (evAlgorithm event)) (Some (ipPeriod payload)),
            if ipReady payload
            then [mkOutput "value" "number" "price" (VNumber (ipValue payload))
                    (mkDisplay "line" "price" (aName (evAlgorithm event)) (ipPeriod payload))]
            else [],
            ipReady payload, ipSamples payload, wrap_u64 (ipPeriod payload))
    end
  else if (evEventType event =? "market.state")%string then
    match evMarket event with
    | None => Fail (ContractNoMarket (evEventID event))
    | Some market =>
        Ok (mkAnalysisRef (aName (evAlgorithm event)) None,
            marketOutputs market ++ omap indicator_output (evIndicators event), true, 0, 0)
    end
  else Fail (ContractUnsupported (evEventType event)).

Definition toAnalysisEvent (event : SignalEvent) (emittedAt : Z) : outcome ContractError analysisEvent :=
  match TimeframeDuration (evTimeframe event) with
  | None => Fail ContractTimeframe
  | Some duration =>
      '(analysis, outputs, ready, samples, required) ← event_payload event;
      let algorithm := evAlgorithm event in
      let data := mkAnalysisData (mkKey (evDataset event) (evSymbol event) (evTimeframe event))
        (event_bar event duration) (evReset event) (map (wire_bar event duration) (evResetHistory event))
        analysis (evAnalysisRevision event) outputs ready samples required
        (mkImplementationRef "ytstack-native" (aVersion algorithm) (aVersion algorithm) (aConfigHash algorithm)) in
      let eventTime := if negb (evProvisional event) && negb (evReset event)
                       then abCloseTime (adBar data) else emittedAt in
      Ok (mkAnalysisEvent "1.0" (analysisEventID data) (eventSource (evDataset event)) analysisEventType
            (evDataset event +:+ "/" +:+ evSymbol event +:+ "/" +:+ evTimeframe event) eventTime
            "application/json" analysisSchema data (abSourceID (adBar data)))
  end.

Fixpoint toAnalysisEvents (events : list SignalEvent) (emittedAt : Z)
  : outcome ContractError (list analysisEvent) :=
  match events with
  | [] => Ok []
  | event :: rest =>
      converted ← toAnalysisEvent event emittedAt;
      out ← toAnalysisEvents rest emittedAt;
      Ok (converted :: out)
  end.

(** ** Snapshots *)

(** Zero values of the fields a synthetic event leaves out. *)
Definition snapshotIndicatorEvent (series : SeriesKey) (barTime : Z) (state : IndicatorState)
    (provisional : bool) (sourceBar : option Bar) : SignalEvent :=
  {| evSchema := ""; evCursor := 0;
     evEventID := syntheticEventID series barTime (isAlgorithm state)
       (itoa (isPeriod state) +:+ "|" +:+ format_bool provisional);
     evEventType := "indicator.point"; evDataset := kDataset series; evSymbol := kSymbol series;
     evTimeframe := kTimeframe series; evBarOpenTime := barTime; evSourceBar := sourceBar;
     evBarRevision := isAnalysisRevision state; evAnalysisRevision := isAnalysisRevision state;
     evProvisional := provisional; evReset := false; evResetHistory := []; evAlgorithm := isAlgorithm state;
     evIndicator := Some (mkPayload (isPeriod state) (default f0 (isValue state)) (isSamples state) (isReady state));
     evMarket := None; evIndicators := [] |}.

Definition set_revision (state : IndicatorState) (revision : Z) : IndicatorState :=
  mkIndicator (isAlgorithm state) (isPeriod state) (isValue state) (isSamples state) (isReady state) revision.

Definition snapshot_market_event (snapshot : SeriesSnapshot) (market : MarketState) : SignalEvent :=
  let periods := sort_ints (map isPeriod (ssIndicators snapshot)) in
  let algorithm := wire_marketFactsAlgorithm (msAlgorithm market) periods in
  {| evSchema := ""; evCursor := 0;
     evEventID := syntheticEventID (ssSeries snapshot) (msAsOf market) algorithm "market";
     evEventType := "market.state"; evDataset := kDataset (ssSeries snapshot);
     evSymbol := kSymbol (ssSeries snapshot); evTimeframe := kTimeframe (ssSeries snapshot);
     evBarOpenTime := msAsOf market; evSourceBar := ssLastClosedBar snapshot;
     evBarRevision := ssLastClosedRevision snapshot; evAnalysisRevision := ssLastClosedRevision snapshot;
     evProvisional := false; evReset := false; evResetHistory := []; evAlgorithm := algorithm;
     evIndicator := None; evMarket := Some market; evIndicators := ssIndicators snapshot |}.

(** The events before conversion. *)
Definition snapshot_events (snapshot : SeriesSnapshot) : list SignalEvent :=
  match ssLastClosedTime snapshot with
  | Some time => map (fun state => snapshotIndicatorEvent (ssSeries snapshot) time
                        (set_revision state (ssLastClosedRevision snapshot)) false (ssLastClosedBar snapshot))
                   (ssIndicators snapshot)
  | None => []
  end ++
  match ssFormingOpenTime snapshot with
  | Some time => map (fun state => snapshotIndicatorEvent (ssSeries snapshot) time state true (ssFormingBar snapshot))
                   (ssProvisional snapshot)
  | None => []
  end ++
  match ssMarket snapshot with
  | Some market => if msAsOf market =? zero_time then [] else [snapshot_market_event snapshot market]
  | None => []
  end.

Definition snapshotAnalysisEvents (snapshot : SeriesSnapshot) (generatedAt : Z)
  : outcome ContractError (list analysisEvent) :=
  toAnalysisEvents (snapshot_events snapshot) generatedAt.
