(* ===== verification/ContractProofs.v ===== *)
(** * Properties of the public contract

    The wire identities agree with the engine's, and the snapshot a lane serves
    after a bar converts to the very events that went out for it. *)

From stdpp Require Import prelude gmap strings list sorting.
From Stdlib Require Import ZArith Lia SpecFloat Ascii String.
From S2P Require Import Prelude GoFloat GoText Sha256 Model Ema MarketZones MarketStructure.
From S2P Require Import ZonesProofs StructureProofs MarketReducer MarketProofs StoreSpec Memory.
From S2P Require Import MemoryProofs Lane LaneReducers LaneProofs LaneRefinement LaneRecovery.
From S2P Require Import LaneAccept Contract.

#[local] Open Scope string_scope.
#[local] Open Scope list_scope.
#[local] Open Scope Z_scope.

(** ** Agreement with the engine *)

Lemma wire_algorithm base periods : wire_marketFactsAlgorithm base periods = marketFactsAlgorithm base periods.
Proof. reflexivity. Qed.

Lemma wire_revision bar : revisionForWireBar bar = revisionForBar bar.
Proof. reflexivity. Qed.

#[local] Opaque sha256_hex EvaluateMarket MarketAlgorithm emaAlgorithm barFingerprint marketFactsAlgorithm.

(** ** The time of a market state *)

Lemma evaluate_structure_time `{Runtime} closed config s s' :
  evaluate_structure closed config s = Some s' -> msAsOf s' = msAsOf s.
Proof.
  unfold evaluate_structure. intros Hs.
  destruct (if RecentBars config <? len closed then _ else _) as [[bars offset]|]; [|done]. cbn [mbind option_bind] in Hs.
  destruct (_ <? _); [by injection Hs as <-|].
  repeat match type of Hs with
  | (?m ≫= _) = Some _ => destruct m as [?|]; [|done]; cbn [mbind option_bind] in Hs
  end.
  cbn zeta in Hs. by injection Hs as <-.
Qed.

Lemma validateBar_time key bar : validateBar key bar = Ok tt -> bOpenTime bar <> zero_time.
Proof. unfold validateBar. destruct (_ || _); [done|]. by destruct (Z.eqb_spec (bOpenTime bar) zero_time). Qed.

#[local] Transparent EvaluateMarket.

Lemma EvaluateMarket_time `{Runtime} bars bar config s :
  bClosed bar = true -> EvaluateMarket (bars ++ [bar]) config = Some s -> msAsOf s = bOpenTime bar.
Proof.
  intros Hc. unfold EvaluateMarket. rewrite List.filter_app. cbn [List.filter]. rewrite Hc.
  rewrite len_snoc, (proj2 (Z.eqb_neq _ _)) by (pose proof (len_nonneg (List.filter bClosed bars)); lia).
  rewrite idx_last_snoc. cbn [mbind option_bind]. intros Hs.
  repeat match type of Hs with
  | (?m ≫= _) = Some _ => destruct m as [?|]; [|done]; cbn [mbind option_bind] in Hs
  end.
  destruct p as [liquidity sweeps]. by apply evaluate_structure_time in Hs.
Qed.

#[local] Opaque EvaluateMarket.

Lemma last_n_snoc {A} n (l : list A) x : 0 < n -> exists k, last_n n (l ++ [x]) = k ++ [x].
Proof.
  intros Hn. exists (drop (Z.to_nat (len (l ++ [x]) - n)) l). unfold last_n.
  rewrite drop_app_le; [done|]. rewrite len_snoc. unfold len. lia.
Qed.

Lemma Market_OnClosed_time `{Runtime} m bar m' s :
  0 < mkHistoryLimit m -> bClosed bar = true -> Market_OnClosed m bar = Some (m', s) -> msAsOf s = bOpenTime bar.
Proof.
  intros Hl Hc. unfold Market_OnClosed. rewrite keep_last_last_n by lia. cbn [mbind option_bind].
  destruct (last_n_snoc (mkHistoryLimit m) (mkBars m) bar Hl) as [k ->].
  destruct (EvaluateMarket (k ++ [bar]) (mkConfig m)) as [s0|] eqn:E; [|done]. cbn [mbind option_bind].
  intros [= _ <-]. cbn. by eapply EvaluateMarket_time.
Qed.

(** ** A snapshot speaks for the events of its bar *)

(** Two events that the wire cannot tell apart. *)
Definition wire_equal (a b : SignalEvent) : Prop := forall t, toAnalysisEvent a t = toAnalysisEvent b t.

Section Snapshots.
Context `{Runtime}.

(** A ready indicator of the snapshot and the point that was published for it. *)
Lemma indicator_wire_equal key bar p f revision e :
  e ∈ period_events key f bar revision p -> is_finite (bClose bar) = true ->
  valid_period p -> ema_wf (f p) -> emaPeriod (f p) = p -> emaSamples (f p) < 2 ^ 64 - 1 ->
  wire_equal (snapshotIndicatorEvent key (bOpenTime bar)
                (set_revision (indicator_state revision p (closed_reducers f (bClose bar) p)) revision) false (Some bar)) e.
Proof.
  intros He Hc Hp Hwf Hper Hs. unfold period_events, closed_reducers in *.
  unfold EMA_OnClosed in *. assert (is_nan (bClose bar) || is_inf (bClose bar) = false) as Hn by (by destruct (bClose bar)).
  rewrite Hn in *. rewrite Hper in *. destruct Hp as [Hp1 Hp2]. pose proof (wf_samples _ Hwf).
  rewrite (wrap_u64_id p), (wrap_u64_id (emaSamples (f p) + 1)) in * by lia.
  destruct (Z.leb_spec (emaSamples (f p) + 1) p).
  - destruct (Z.eqb_spec (emaSamples (f p) + 1) p) as [Heq|]; cbn in He; [|set_solver].
    apply list_elem_of_singleton in He as ->.
    intros t. unfold indicator_state, EMA_Value, EMA_Ready, toAnalysisEvent. cbn.
    rewrite ?Hper, (wrap_u64_id p), Heq, Z.leb_refl by lia. reflexivity.
  - cbn in He. apply list_elem_of_singleton in He as ->.
    intros t. unfold indicator_state, EMA_Value, EMA_Ready, toAnalysisEvent. cbn.
    rewrite ?Hper, (wrap_u64_id p), (proj2 (Z.leb_le p _)) by lia. reflexivity.
Qed.

(** A market event converts by its facts alone: its schema and stored id are
    not among them. *)
Lemma market_wire_equal cursor dataset symbol timeframe time bar revision algorithm market indicators schema1 id1 schema2 id2 :
  wire_equal
    (mkEvent schema1 cursor id1 "market.state" dataset symbol timeframe time bar revision revision false false []
       algorithm None (Some market) indicators)
    (mkEvent schema2 cursor id2 "market.state" dataset symbol timeframe time bar revision revision false false []
       algorithm None (Some market) indicators).
Proof. intros t. unfold toAnalysisEvent. cbn. by destruct (TimeframeDuration timeframe). Qed.

Lemma snapshot_closed_fields l s :
  Lane_Snapshot l = Some s -> ssLastClosedTime s = bOpenTime <$> lLastBar l /\ ssLastClosedRevision s = lLastClosedRevision l.
Proof.
  unfold Lane_Snapshot, makeSeriesSnapshot. destruct (loop _ _ _) as [[[ready indicators] projected]|]; [|done].
  cbn. by intros [= <-].
Qed.

(** The periods of the indicators a snapshot lists. *)
Lemma indicator_periods revision f periods :
  StronglySorted Z.lt periods ->
  sort_ints (map isPeriod (map (fun p => indicator_state revision p (f p)) periods)) = periods.
Proof.
  intros Hs. rewrite List.map_map. rewrite (List.map_ext _ (fun p => p)) by done. rewrite List.map_id.
  apply sort_stable_id. by apply sorted_lt_sorted_by.
Qed.

(** The snapshot a lane serves once it has applied a bar speaks for every event
    the bar gave rise to. *)
Lemma plan_snapshot_wire l hist bar reducers market count events snapshots :
  lane_wf l -> refines l hist -> len hist < 2 ^ 64 - 1 -> bar_typed bar ->
  closed_plan l bar = Ok (Some (reducers, market, count, events, snapshots)) ->
  exists s, Lane_Snapshot (set_canonical l reducers market (Some bar) (revisionForBar bar) count) = Some s /\
    forall e, e ∈ events -> exists e', e' ∈ snapshot_events s /\ wire_equal e' e.
Proof.
  intros Hwf Hr Hlen Hb Hplan. pose proof (lw_periods _ Hwf) as Hp.
  destruct (closed_plan_refines _ _ _ _ _ _ _ _ Hwf Hr Hlen Hb Hplan) as [Hr' Hext].
  set (l' := set_canonical l reducers market (Some bar) (revisionForBar bar) count) in *.
  destruct (Lane_Snapshot_spec l' (hist ++ [bar]) Hp Hr') as (s & Hs & Hser & Hbar & _ & Hind & _ & Hmk).
  destruct (snapshot_closed_fields _ _ Hs) as [Htime Hrev]. exists s. split; [done|].
  assert (Hfin : is_finite (bClose bar) = true) by (eapply validateBar_finite, Hext).
  destruct (closed_plan_spec l bar Hwf ltac:(rewrite (rf_count _ _ Hr); lia) Hb) as (_ & _ & Hok).
  destruct (Hok _ _ _ _ _ Hplan) as [_ Hmc _ (points & event & Hred & Hev & ->) _].
  rewrite (rf_reducers _ _ Hr) in Hred. unfold reducers_after in Hred. rewrite reduceEMAClosed_of in Hred by (done || apply Hp).
  injection Hred as <- <-. rewrite last_snoc in Hbar. cbn in Htime, Hrev, Hser, Hmk.
  change (lPeriods l') with (lPeriods l) in Hind. change (lLastClosedRevision l') with (revisionForBar bar) in Hind.
  intros e [He|He]%elem_of_app.
  - apply list_elem_of_In, in_flat_map in He as (p & Hpin & He). apply list_elem_of_In in Hpin, He.
    assert (Hvp : valid_period p) by (by apply (proj1 (Forall_forall _ _) (pk_valid _ Hp))).
    exists (snapshotIndicatorEvent (lKey l) (bOpenTime bar) (set_revision (indicator_state (revisionForBar bar) p
      (closed_reducers (ema_of hist) (bClose bar) p)) (revisionForBar bar)) false (Some bar)). split.
    + unfold snapshot_events. rewrite Htime, Hrev, Hser, Hbar, Hind. apply elem_of_app. left.
      apply list_elem_of_In, in_map_iff. eexists. split; [|apply in_map_iff; exists p; split; [reflexivity|by apply list_elem_of_In]].
      unfold closed_reducers. by rewrite ema_of_snoc.
    + eapply indicator_wire_equal; [exact He|done|exact Hvp|apply (ema_of_wf hist (lPeriods l) Hp ltac:(lia) p Hpin)|done|].
      change (len (map bClose hist) < 2 ^ 64 - 1). by rewrite len_closes.
  - apply list_elem_of_singleton in He as ->.
    assert (Hasof : msAsOf (mkState market) = bOpenTime bar).
    { eapply (Market_OnClosed_time (lMarket l)); [|apply Hext|exact Hmc].
      rewrite (proj2 (lm_shape _ (lw_market _ Hwf))). done. }
    exists (snapshot_market_event s (mkState market)). split.
    + unfold snapshot_events. rewrite Hmk, Hasof. apply elem_of_app. right. apply elem_of_app. right.
      rewrite (proj2 (Z.eqb_neq _ _) (validateBar_time _ _ (proj1 (proj2 Hext)))). by apply list_elem_of_singleton.
    + unfold newMarketEvent in Hev. rewrite reducer_periods_of in Hev by apply Hp.
      rewrite (mapM_reducers_of (indicator_state (revisionForBar bar))) in Hev by done. cbn in Hev. injection Hev as <-.
      unfold snapshot_market_event. rewrite Hind, Hser, Hbar, Hrev, Hasof, indicator_periods by apply Hp.
      rewrite wire_algorithm. change (lKey l') with (lKey l). change (lLastClosedRevision l') with (revisionForBar bar).
      rewrite (List.map_ext_in _ (fun p => indicator_state (revisionForBar bar) p (closed_reducers (ema_of hist) (bClose bar) p))).
      * apply market_wire_equal.
      * intros p Hpin%list_elem_of_In. unfold closed_reducers. rewrite ema_of_snoc; [done| |done|done].
        by apply (proj1 (Forall_forall _ _) (pk_valid _ Hp)).
Qed.
End Snapshots.
