(* ===== verification/Broker.v ===== *)
(** * The evaluation stream (internal/broker/jetstream.go, cmd/signald/main.go)

    Which frames are published to JetStream, on which subjects, how forming
    updates are coalesced, and how the live publisher retries.  The NATS client
    is a parameter: a connection takes a message and acknowledges it or
    fails. *)

From stdpp Require Import prelude gmap strings list.
From Stdlib Require Import ZArith Lia SpecFloat Ascii String.
From S2P Require Import Prelude GoFloat GoText Sha256 GoStrings Model Ema MarketZones MarketReducer Contract.

#[local] Open Scope string_scope.
#[local] Open Scope list_scope.
#[local] Open Scope Z_scope.

(** ** Encoding (api.EncodeAnalysisEvent)

    [json.Marshal] fails on a number that is not finite and on a time outside
    the years 0 to 9999, and on nothing else here. *)

Definition attribute_marshals (a : string * attribute) : bool :=
  match a.2 with ANumber value => is_finite value | _ => true end.

Definition point_marshals (p : pointPrimitive) : bool :=
  time_marshals (ppTime p) && match ppValue p with Some v => is_finite v | None => true end &&
  match ppConfirmedAt p with Some t => time_marshals t | None => true end &&
  forallb attribute_marshals (ppAttributes p).

Definition zone_marshals (z : zonePrimitive) : bool :=
  time_marshals (zpStartTime z) && time_marshals (zpEndTime z) && is_finite (zpUpper z) && is_finite (zpLower z) &&
  forallb attribute_marshals (zpAttributes z).

Definition level_marshals (l : levelPrimitive) : bool :=
  is_finite (lpValue l) && forallb attribute_marshals (lpAttributes l).

Definition output_marshals (o : analysisOutput) : bool :=
  match aoValue o with
  | VText _ => true
  | VNumber value => is_finite value
  | VPoints points => forallb point_marshals points
  | VZones zones => forallb zone_marshals zones
  | VLevels levels => forallb level_marshals levels
  end.

Definition bar_marshals (b : analysisBar) : bool :=
  time_marshals (abOpenTime b) && time_marshals (abCloseTime b) && is_finite (abOpen b) && is_finite (abHigh b) &&
  is_finite (abLow b) && is_finite (abClose b) && is_finite (abVolume b).

Definition event_marshals (e : analysisEvent) : bool :=
  time_marshals (aeTime e) && bar_marshals (adBar (aeData e)) && forallb bar_marshals (adHistory (aeData e)) &&
  forallb output_marshals (adOutputs (aeData e)).

Inductive EncodeError := EncodeConversion (e : ContractError) | EncodeJSON.

(** The payload stands for its JSON text. *)
Definition EncodeAnalysisEvent (event : SignalEvent) (emittedAt : Z) : outcome EncodeError analysisEvent :=
  converted ← wrap_err EncodeConversion (toAnalysisEvent event emittedAt);
  if event_marshals converted then Ok converted else Fail EncodeJSON.

(** ** Subjects *)

Definition EvaluationPartitions : Z := 256.
Definition livePublishInterval : Z := second.

(** [hash/fnv.New32a] *)
Definition fnv32a (bytes : list Z) : Z :=
  foldl (fun hash b => (Z.lxor hash b * 16777619) mod 2 ^ 32) 2166136261 bytes.

Example fnv32a_empty : fnv32a [] = 0x811c9dc5.
Proof. reflexivity. Qed.
Example fnv32a_foobar : fnv32a (bytes_of "foobar") = 0xbf9cf968.
Proof. vm_compute. reflexivity. Qed.

Definition liveKey (event : SignalEvent) : string :=
  evDataset event +:+ String "000" (evSymbol event +:+ String "000" (evTimeframe event)).

Definition factSubject (event : SignalEvent) : string :=
  "signals.facts." +:+ pad 2 (format_uint (fnv32a (bytes_of (liveKey event)) `mod` 64)).

Definition evaluationSubject (event : SignalEvent) (kind : string) : string :=
  "signals.evaluation." +:+ pad 3 (format_uint (fnv32a (bytes_of (liveKey event)) `mod` EvaluationPartitions)) +:+ "." +:+
  kind +:+ "." +:+ hex_encode (take 8 (sum256 (bytes_of (liveKey event)))).

(** ** The connection *)

Record natsMsg := mkMsg {
  nmSubject : string;
  nmData : analysisEvent;
  nmMsgID : string;
  nmContentType : string;
  nmCursor : option string;
  nmRollup : bool
}.

Class Connection (C : Type) := {
  PublishMsg : C -> natsMsg -> C * outcome string unit
}.

Record liveCursor := mkLiveCursor {
  lcOpenTime : Z;
  lcColor : string;
  lcLastPublished : Z
}.

Record JetStream (C : Type) := mkJetStream {
  jsConnection : C;
  jsLive : gmap string liveCursor
}.
Arguments mkJetStream {C}.
Arguments jsConnection {C}.
Arguments jsLive {C}.

Inductive BrokerError :=
  | BrokerNoSourceBar
  | BrokerEncode (e : EncodeError)
  | BrokerConfirmed (text : string)
  | BrokerFacts (text : string)
  | BrokerReplaceable (text : string)
  | BrokerPublish (text : string).

Definition bar_color (bar : Bar) : string :=
  if fgt (bClose bar) (bOpen bar) then "green"
  else if flt (bClose bar) (bOpen bar) then "red" else "doji".

(** The kind of a frame, the third word of its subject. *)
Definition frame_kind (event : SignalEvent) (replaceable : bool) : string :=
  if evReset event then "reset"
  else if evProvisional event && replaceable then "snapshot"
  else if evProvisional event then "transition" else "confirmed".

Section Publishing.
Context {C : Type} `{Connection C}.

Definition make_message (subject : string) (payload : analysisEvent) (eventID : string) (cursor : Z) (rollup : bool)
  : natsMsg :=
  mkMsg subject payload eventID "application/cloudevents+json"
    (if 0 <? cursor then Some (itoa cursor) else None) rollup.

(** [publish] *)
Definition js_publish (j : JetStream C) (subject : string) (payload : analysisEvent) (eventID : string) (cursor : Z)
    (rollup : bool) : JetStream C * outcome string unit :=
  let '(c, r) := PublishMsg (jsConnection j) (make_message subject payload eventID cursor rollup) in
  (mkJetStream c (jsLive j), r).

(** [Publish], the durable path: only whole confirmed market frames go out, to
    the evaluation stream and then to the fact stream. *)
Definition JetStream_Publish (j : JetStream C) (event : SignalEvent) (now : Z)
  : JetStream C * outcome BrokerError unit :=
  if evProvisional event || negb (evEventType event =? "market.state")%string then (j, Ok tt)
  else
    match EncodeAnalysisEvent event now with
    | Panic => (j, Panic)
    | Fail e => (j, Fail (BrokerEncode e))
    | Ok payload =>
        let kind := if evReset event then "reset" else "confirmed" in
        match js_publish j (evaluationSubject event kind) payload (evEventID event) (evCursor event) false with
        | (j, Ok _) =>
            let '(j, r) := js_publish j (factSubject event) payload (evEventID event) (evCursor event) false in
            (j, wrap_err BrokerFacts r)
        | (j, r) => (j, wrap_err BrokerConfirmed r)
        end
    end.

(** Whether to publish a forming frame, whether it is replaceable, and the
    cursor to keep. *)
Definition liveDecision (j : JetStream C) (event : SignalEvent) (bar : Bar) (now : Z) : bool * bool * liveCursor :=
  let color := bar_color bar in
  let transition := match jsLive j !! liveKey event with
                    | Some previous => negb (lcOpenTime previous =? evBarOpenTime event) ||
                                       negb (lcColor previous =? color)%string
                    | None => true
                    end in
  let last := match jsLive j !! liveKey event with Some previous => lcLastPublished previous | None => zero_time end in
  let publish := transition || (livePublishInterval <=? now - last) in
  (publish, publish && negb transition, mkLiveCursor (evBarOpenTime event) color now).

(** [PublishEvaluation], the live path. *)
Definition PublishEvaluation (j : JetStream C) (event : SignalEvent) (now : Z)
  : JetStream C * outcome BrokerError unit :=
  if negb (evEventType event =? "market.state")%string then (j, Ok tt)
  else match evSourceBar event with
  | None => (j, Fail BrokerNoSourceBar)
  | Some bar =>
      let '(publish, replaceable, next) :=
        if evProvisional event then liveDecision j event bar now else (true, false, mkLiveCursor zero_time "" zero_time) in
      if negb publish then (j, Ok tt)
      else
        match EncodeAnalysisEvent event now with
        | Panic => (j, Panic)
        | Fail e => (j, Fail (BrokerEncode e))
        | Ok payload =>
            match js_publish j (evaluationSubject event (frame_kind event replaceable)) payload
                    (evEventID event) (evCursor event) replaceable with
            | (j, Ok _) =>
                (mkJetStream (jsConnection j)
                   (if evProvisional event then <[liveKey event := next]> (jsLive j)
                    else delete (liveKey event) (jsLive j)), Ok tt)
            | (j, r) => (j, wrap_err (if replaceable then BrokerReplaceable else BrokerPublish) r)
            end
        end
  end.

(** ** The live publisher of the service (main.go) *)

Inductive liveResult := LivePublishedFrame | LiveDropped | LiveCancelled | LivePanic.

Definition is_replaceable (e : BrokerError) : bool := match e with BrokerReplaceable _ => true | _ => false end.

(** [evaluationBrokerPublisher.Publish]: it retries, at the given times, until
    the frame is published or may be dropped; it gives up when the context
    ends. *)
Fixpoint live_publish_frame (j : JetStream C) (event : SignalEvent) (attempts : list Z) : JetStream C * liveResult :=
  match attempts with
  | [] => (j, LiveCancelled)
  | now :: rest =>
      match PublishEvaluation j event now with
      | (j, Ok _) => (j, LivePublishedFrame)
      | (j, Fail e) =>
          if evProvisional event && is_replaceable e then (j, LiveDropped) else live_publish_frame j event rest
      | (j, Panic) => (j, LivePanic)
      end
  end.
End Publishing.
