(* ===== verification/BrokerOpen.v ===== *)
(** * Opening the broker (internal/broker/jetstream.go)

    [Open] connects to NATS and reconciles the two streams with the
    configuration the service wants; [Close] drains the connection.  The NATS
    client is a parameter: the calls [Open] makes of it, and, as laws, what a
    server does with them, publishing included.  A scripted server shows that
    the laws can hold. *)

From stdpp Require Import prelude gmap strings list.
From Stdlib Require Import ZArith Lia String.
From S2P Require Import Prelude GoFloat GoText GoStrings Model Contract Broker.

#[local] Open Scope string_scope.
#[local] Open Scope list_scope.
#[local] Open Scope Z_scope.

(** ** Streams *)

Definition FactStream : string := "MARKET_FACTS".
Definition FactSubjects : string := "signals.facts.>".
Definition EvaluationStream : string := "MARKET_EVALUATION".
Definition EvaluationSubjects : string := "signals.evaluation.>".

Inductive RetentionPolicy := LimitsPolicy | InterestPolicy | WorkQueuePolicy.
Inductive StorageType := FileStorage | MemoryStorage.

#[global] Instance retention_eq_dec : EqDecision RetentionPolicy.
Proof. solve_decision. Defined.
#[global] Instance storage_eq_dec : EqDecision StorageType.
Proof. solve_decision. Defined.

(** The fields of [nats.StreamConfig] that the service sets or compares. *)
Record StreamConfig := mkStreamConfig {
  scName : string;
  scSubjects : list string;
  scRetention : RetentionPolicy;
  scStorage : StorageType;
  scReplicas : Z;
  scMaxAge : Z;
  scMaxMsgsPerSubject : Z;
  scMaxMsgSize : Z;
  scDuplicates : Z;
  scAllowRollup : bool
}.

#[global] Instance stream_config_eq_dec : EqDecision StreamConfig.
Proof. solve_decision. Defined.

(** The configuration of both streams, but for the name, subject and rollups. *)
Definition stream_config (name subject : string) (replicas : Z) (rollup : bool) : StreamConfig :=
  mkStreamConfig name [subject] LimitsPolicy FileStorage replicas (7 * 24 * 60 * minute) 0 (2 * 2 ^ 20)
    (10 * minute) rollup.

Definition stream_configs (replicas : Z) : list StreamConfig :=
  [stream_config FactStream FactSubjects replicas false;
   stream_config EvaluationStream EvaluationSubjects replicas true].

Definition sameStreamConfig (got want : StreamConfig) : bool :=
  (scName got =? scName want)%string && (len (scSubjects got) =? len (scSubjects want)) &&
  (len (scSubjects got) =? 1) &&
  match scSubjects got !! 0%nat, scSubjects want !! 0%nat with
  | Some g, Some w => (g =? w)%string
  | _, _ => false
  end &&
  bool_decide (scRetention got = scRetention want) && bool_decide (scStorage got = scStorage want) &&
  (scReplicas got =? scReplicas want) && (scMaxAge got =? scMaxAge want) &&
  (scMaxMsgsPerSubject got =? scMaxMsgsPerSubject want) && (scMaxMsgSize got =? scMaxMsgSize want) &&
  (scDuplicates got =? scDuplicates want) && Bool.eqb (scAllowRollup got) (scAllowRollup want).

(** ** The client library *)

Inductive StreamError :=
  | ErrStreamNotFound
  | ErrStreamNameAlreadyInUse
  | StreamOther (text : string).

(** The connection, before and after it is made, with what lies behind it. *)
Class StreamAdmin (C : Type) := {
  nats_Connect : C -> string -> string -> C * (string + unit);
  nats_JetStream : C -> C * (string + unit);
  StreamInfo : C -> string -> C * (StreamError + StreamConfig);
  AddStream : C -> StreamConfig -> C * (StreamError + unit);
  UpdateStream : C -> StreamConfig -> C * (StreamError + unit);
  nats_Drain : C -> C;
  nats_Close : C -> C
}.

Inductive OpenError :=
  | OpenConnect (text : string)
  | OpenContext (text : string)
  | OpenEnsure (stream : string) (e : StreamError)
  | OpenInspect (stream : string) (e : StreamError)
  | OpenReconcile (stream : string) (e : StreamError).

Section Open.
Context {C : Type} `{StreamAdmin C}.

(** One turn of the loop over the configurations; an error closes the
    connection. *)
Definition ensure_stream (c : C) (config : StreamConfig) : C * (OpenError + unit) :=
  match StreamInfo c (scName config) with
  | (c, inl ErrStreamNotFound) =>
      match AddStream c config with
      | (c, inr _) => (c, inr tt)
      | (c, inl ErrStreamNameAlreadyInUse) => (c, inr tt)
      | (c, inl e) => (nats_Close c, inl (OpenEnsure (scName config) e))
      end
  | (c, inl e) => (nats_Close c, inl (OpenInspect (scName config) e))
  | (c, inr info) =>
      if negb (sameStreamConfig info config) then
        match UpdateStream c config with
        | (c, inr _) => (c, inr tt)
        | (c, inl e) => (nats_Close c, inl (OpenReconcile (scName config) e))
        end
      else (c, inr tt)
  end.

Fixpoint ensure_streams (c : C) (configs : list StreamConfig) : C * (OpenError + unit) :=
  match configs with
  | [] => (c, inr tt)
  | config :: rest =>
      match ensure_stream c config with
      | (c, inr _) => ensure_streams c rest
      | (c, inl e) => (c, inl e)
      end
  end.

(** The connection is returned on an error too, so that what was closed can be
    seen. *)
Definition Open (c : C) (url token : string) (replicas : Z) : C * (OpenError + JetStream C) :=
  let replicas := if replicas <? 1 then 1 else replicas in
  match nats_Connect c url token with
  | (c, inl e) => (c, inl (OpenConnect e))
  | (c, inr _) =>
      match nats_JetStream c with
      | (c, inl e) => (nats_Close c, inl (OpenContext e))
      | (c, inr _) =>
          match ensure_streams c (stream_configs replicas) with
          | (c, inl e) => (c, inl e)
          | (c, inr _) => (c, inr (mkJetStream c ∅))
          end
      end
  end.

Definition JetStream_Close (j : JetStream C) : JetStream C :=
  mkJetStream (nats_Close (nats_Drain (jsConnection j))) (jsLive j).
End Open.

(** ** What a server does *)

(** The streams a server keeps, [na_normal] being the configuration it keeps of
    the one it is given.  Another client may create a stream between the
    inspection and the creation, and a call that fails (a request that timed
    out) may have been carried out all the same. *)
Class StreamLaws (C : Type) `{StreamAdmin C} := {
  na_streams : C -> gmap string StreamConfig;
  na_connected : C -> bool;
  na_normal : StreamConfig -> StreamConfig;
  law_connect c url token c' r : nats_Connect c url token = (c', r) ->
    na_streams c' = na_streams c /\ na_connected c' = match r with inr _ => true | inl _ => false end;
  law_jetstream c c' r : nats_JetStream c = (c', r) ->
    na_streams c' = na_streams c /\ na_connected c' = na_connected c;
  law_info c name c' r : StreamInfo c name = (c', r) ->
    na_streams c' = na_streams c /\ na_connected c' = na_connected c /\
    match r with
    | inr info => na_streams c !! name = Some info
    | inl ErrStreamNotFound => na_streams c !! name = None
    | inl _ => True
    end;
  law_add c config c' r : AddStream c config = (c', r) ->
    na_connected c' = na_connected c /\
    match r with
    | inr _ => na_streams c' = <[scName config := na_normal config]> (na_streams c)
    | inl ErrStreamNameAlreadyInUse => exists rival, na_streams c' = <[scName config := rival]> (na_streams c)
    | inl _ => na_streams c' = na_streams c \/ na_streams c' = <[scName config := na_normal config]> (na_streams c)
    end;
  law_update c config c' r : UpdateStream c config = (c', r) ->
    na_connected c' = na_connected c /\
    match r with
    | inr _ => na_streams c' = <[scName config := na_normal config]> (na_streams c)
    | inl _ => na_streams c' = na_streams c \/ na_streams c' = <[scName config := na_normal config]> (na_streams c)
    end;
  law_drain c : na_streams (nats_Drain c) = na_streams c;
  law_close c : na_streams (nats_Close c) = na_streams c /\ na_connected (nats_Close c) = false
}.

(** ** The comparison *)

(** The fields compared are all there are, and there is one subject. *)
Lemma sameStreamConfig_spec got want :
  sameStreamConfig got want = true <-> got = want /\ exists subject, scSubjects want = [subject].
Proof.
  destruct got as [n su re st rp ma mm ms du ar], want as [n' su' re' st' rp' ma' mm' ms' du' ar'].
  unfold sameStreamConfig. cbn [scName scSubjects scRetention scStorage scReplicas scMaxAge scMaxMsgsPerSubject
    scMaxMsgSize scDuplicates scAllowRollup].
  split.
  - rewrite !andb_true_iff, !Z.eqb_eq, !bool_decide_eq_true, Bool.eqb_true_iff, String.eqb_eq.
    intros (((((((((((-> & Hl) & H1) & Hs) & ->) & ->) & ->) & ->) & ->) & ->) & ->) & ->).
    rewrite H1 in Hl. unfold len in *.
    destruct su as [|g [|? ?]]; cbn in H1; [lia| |lia]. destruct su' as [|w [|? ?]]; cbn in Hl; [lia| |lia].
    cbn in Hs. apply String.eqb_eq in Hs as ->. eauto.
  - intros [[= -> -> -> -> -> -> -> -> -> ->] [subject ->]]. cbn.
    by rewrite !String.eqb_refl, !Z.eqb_refl, !bool_decide_eq_true_2, Bool.eqb_reflx.
Qed.

(** ** What [Open] leaves behind *)

Section Reconciled.
Context {C : Type} `{StreamLaws C}.

(** How a stream came to be as it is: it was right already, it was written as
    wanted, or its creation as wanted was answered with the name being in use
    by then, and it is what another client had created meanwhile. *)
Inductive reconciled (before : gmap string StreamConfig) (want got : StreamConfig) : Prop :=
  | was_right : before !! scName want = Some want -> got = want -> reconciled before want got
  | was_written : before !! scName want <> Some want -> got = na_normal want -> reconciled before want got
  | was_created c1 c2 : before !! scName want = None -> na_streams c1 !! scName want = None ->
      AddStream c1 want = (c2, inl ErrStreamNameAlreadyInUse) -> na_streams c2 !! scName want = Some got ->
      reconciled before want got.

Lemma reconciled_ext before before' want got :
  before !! scName want = before' !! scName want -> reconciled before want got -> reconciled before' want got.
Proof.
  intros Heq [H1 H2|H1 H2|c1 c2 H1 H2 H3 H4]; rewrite Heq in H1;
    [by apply was_right|by apply was_written|by apply (was_created _ _ _ c1 c2)].
Qed.

(** The streams of other names. *)
Definition untouched (names : list string) (before after : gmap string StreamConfig) : Prop :=
  forall name, name ∉ names -> after !! name = before !! name.

Lemma ensure_stream_spec c config c' r :
  ensure_stream c config = (c', r) -> (exists subject, scSubjects config = [subject]) ->
  untouched [scName config] (na_streams c) (na_streams c') /\
  match r with
  | inr _ => na_connected c' = na_connected c /\
      exists got, na_streams c' !! scName config = Some got /\ reconciled (na_streams c) config got
  | inl _ => na_connected c' = false
  end.
Proof.
  unfold ensure_stream, untouched. intros Hrun Hsub.
  destruct (StreamInfo c (scName config)) as [c1 [e|info]] eqn:Hi; apply law_info in Hi as (Hs1 & Hc1 & Hi).
  - destruct e as [| |text].
    + destruct (AddStream c1 config) as [c2 [e2|[]]] eqn:Hadd; destruct (law_add _ _ _ _ Hadd) as (Hc2 & Ha).
      2:{ injection Hrun as <- <-. rewrite Ha, Hs1. split.
          - intros name Hn. apply lookup_insert_ne. set_solver.
          - split; [congruence|]. eexists. split; [apply lookup_insert_eq|]. apply was_written; [by rewrite Hi|done]. }
      destruct e2 as [| |text]; injection Hrun as <- <-.
      2:{ destruct Ha as [rival Ha]. split.
          - intros name Hn. rewrite Ha, Hs1. apply lookup_insert_ne. set_solver.
          - split; [congruence|]. exists rival.
            assert (na_streams c2 !! scName config = Some rival) by (rewrite Ha; apply lookup_insert_eq).
            split; [done|]. apply (was_created _ _ _ c1 c2); try done. by rewrite Hs1. }
      all: destruct (law_close c2) as [-> ->]; split; [|done]; intros name Hn;
        destruct Ha as [Ha|Ha]; rewrite Ha, Hs1; [done|apply lookup_insert_ne; set_solver].
    + injection Hrun as <- <-. destruct (law_close c1) as [-> ->]. by rewrite Hs1.
    + injection Hrun as <- <-. destruct (law_close c1) as [-> ->]. by rewrite Hs1.
  - destruct (sameStreamConfig info config) eqn:Hsame; cbn [negb] in Hrun.
    { injection Hrun as <- <-. rewrite Hs1. split; [done|]. split; [done|].
      apply sameStreamConfig_spec in Hsame as [-> _]. eauto using was_right. }
    destruct (UpdateStream c1 config) as [c2 [e2|[]]] eqn:Hu; apply law_update in Hu as (Hc2 & Hu); injection Hrun as <- <-.
    { destruct (law_close c2) as [-> ->]. split; [|done]. intros name Hn.
      destruct Hu as [Hu|Hu]; rewrite Hu, Hs1; [done|apply lookup_insert_ne; set_solver]. }
    rewrite Hu, Hs1. split.
    + intros name Hn. apply lookup_insert_ne. set_solver.
    + split; [congruence|]. eexists. split; [apply lookup_insert_eq|]. apply was_written; [|done].
      rewrite Hi. intros [= ->]. by rewrite (proj2 (sameStreamConfig_spec config config)) in Hsame.
Qed.

Lemma ensure_streams_spec configs c c' r :
  ensure_streams c configs = (c', r) -> Forall (fun config => exists subject, scSubjects config = [subject]) configs ->
  NoDup (map scName configs) ->
  untouched (map scName configs) (na_streams c) (na_streams c') /\
  match r with
  | inr _ => na_connected c' = na_connected c /\
      Forall (fun config => exists got, na_streams c' !! scName config = Some got /\
        reconciled (na_streams c) config got) configs
  | inl _ => na_connected c' = false
  end.
Proof.
  revert c. induction configs as [|config configs IH]; intros c Hrun Hsub Hnd.
  { by injection Hrun as <- <-. }
  cbn [ensure_streams] in Hrun. apply Forall_cons in Hsub as [H1 Hsub].
  apply NoDup_cons in Hnd as [Hnew Hnd].
  destruct (ensure_stream c config) as [c1 r1] eqn:E. destruct (ensure_stream_spec _ _ _ _ E H1) as [Hu1 Hr1].
  destruct r1 as [e|[]].
  { injection Hrun as <- <-. split; [|done]. intros name Hn. apply Hu1. set_solver. }
  destruct Hr1 as (Hc1 & got & Hgot & Hrec). destruct (IH c1 Hrun Hsub Hnd) as [Hu Hr]. split.
  { intros name Hn. rewrite Hu, Hu1; set_solver. }
  destruct r as [e|[]]; [done|]. destruct Hr as [Hc Hall]. split; [congruence|]. constructor.
  - exists got. split; [by rewrite Hu|done].
  - apply Forall_forall. intros x Hx. rewrite Forall_forall in Hall. destruct (Hall x Hx) as (g & Hg & Hrx).
    exists g. split; [done|]. eapply reconciled_ext; [|exact Hrx]. apply Hu1. intros Heq%list_elem_of_singleton.
    apply Hnew. rewrite <-Heq. by apply list_elem_of_fmap_2.
Qed.

Lemma Open_spec c url token replicas c' r :
  Open c url token replicas = (c', r) ->
  untouched [FactStream; EvaluationStream] (na_streams c) (na_streams c') /\
  match r with
  | inr j => jsConnection j = c' /\ jsLive j = ∅ /\ na_connected c' = true /\
      Forall (fun want => exists got, na_streams c' !! scName want = Some got /\
        reconciled (na_streams c) want got) (stream_configs (Z.max 1 replicas))
  | inl _ => na_connected c' = false
  end.
Proof.
  unfold Open. replace (if replicas <? 1 then 1 else replicas) with (Z.max 1 replicas)
    by (destruct (Z.ltb_spec replicas 1); lia).
  intros Hrun. destruct (nats_Connect c url token) as [c1 [e|[]]] eqn:Hc; apply law_connect in Hc as [Hs1 Hc1].
  { injection Hrun as <- <-. by rewrite Hs1. }
  destruct (nats_JetStream c1) as [c2 [e|[]]] eqn:Hj; apply law_jetstream in Hj as [Hs2 Hc2].
  { injection Hrun as <- <-. destruct (law_close c2) as [-> ->]. by rewrite Hs2, Hs1. }
  destruct (ensure_streams c2 (stream_configs (Z.max 1 replicas))) as [c3 r3] eqn:E.
  apply ensure_streams_spec in E as [Hu Hr3];
    [|repeat constructor; by eexists|cbn; apply NoDup_cons; split; [set_solver|apply NoDup_singleton]].
  rewrite Hs2, Hs1 in Hu. rewrite Hs2, Hs1 in Hr3.
  destruct r3 as [e|[]]; injection Hrun as <- <-; split; try done.
  destruct Hr3 as [Hc3 Hall]. split_and!; try done. congruence.
Qed.

(** Opening again after a server that keeps a configuration as it is given
    finds everything right, and writes nothing. *)
Lemma ensure_streams_again configs c c' r :
  ensure_streams c configs = (c', r) -> Forall (fun config => exists subject, scSubjects config = [subject]) configs ->
  (forall config, config ∈ configs -> na_streams c !! scName config = Some config) ->
  na_streams c' = na_streams c.
Proof.
  revert c. induction configs as [|config configs IH]; intros c Hrun Hsub Hright.
  { by injection Hrun as <- <-. }
  cbn [ensure_streams] in Hrun. apply Forall_cons in Hsub as [H1 Hsub].
  unfold ensure_stream in Hrun. destruct (StreamInfo c (scName config)) as [c1 [e|info]] eqn:Hi;
    apply law_info in Hi as (Hs1 & _ & Hi).
  - rewrite Hright in Hi by set_solver.
    destruct e; [done|injection Hrun as <- <-; destruct (law_close c1) as [-> _]; done..].
  - rewrite Hright in Hi by set_solver. injection Hi as <-.
    rewrite (proj2 (sameStreamConfig_spec config config)) in Hrun by done. cbn [negb] in Hrun.
    rewrite <-Hs1. apply (IH c1 Hrun Hsub). intros x Hx. rewrite Hs1. apply Hright. set_solver.
Qed.

Lemma reopen_writes_nothing c url token replicas c' r :
  (forall want, want ∈ stream_configs (Z.max 1 replicas) -> na_streams c !! scName want = Some want) ->
  Open c url token replicas = (c', r) -> na_streams c' = na_streams c.
Proof.
  unfold Open. replace (if replicas <? 1 then 1 else replicas) with (Z.max 1 replicas)
    by (destruct (Z.ltb_spec replicas 1); lia).
  intros Hright Hrun. destruct (nats_Connect c url token) as [c1 [e|[]]] eqn:Hcon; apply law_connect in Hcon as [Hs1 _].
  { by injection Hrun as <- <-. }
  destruct (nats_JetStream c1) as [c2 [e|[]]] eqn:Hj; apply law_jetstream in Hj as [Hs2 _].
  { injection Hrun as <- <-. destruct (law_close c2) as [-> _]. by rewrite Hs2. }
  destruct (ensure_streams c2 (stream_configs (Z.max 1 replicas))) as [c3 r3] eqn:E.
  apply ensure_streams_again in E; [|repeat constructor; by eexists|by rewrite Hs2, Hs1].
  rewrite Hs2, Hs1 in E. by destruct r3; injection Hrun as <- <-.
Qed.

Lemma JetStream_Close_spec (j : JetStream C) :
  na_streams (jsConnection (JetStream_Close j)) = na_streams (jsConnection j) /\
  na_connected (jsConnection (JetStream_Close j)) = false.
Proof. unfold JetStream_Close. cbn. destruct (law_close (nats_Drain (jsConnection j))) as [-> ->]. by rewrite law_drain. Qed.
End Reconciled.

(** ** What the streams take in *)

(** The stream whose subjects a message falls under. *)
Definition subject_stream (subject : string) : option string :=
  if bool_decide (is_Some (strip_prefix "signals.facts." subject)) then Some FactStream
  else if bool_decide (is_Some (strip_prefix "signals.evaluation." subject)) then Some EvaluationStream
  else None.

(** Two messages that one stream takes for the same: equal [Nats-Msg-Id]s. *)
Definition same_message (m m' : natsMsg) : Prop :=
  nmMsgID m <> "" /\ nmMsgID m = nmMsgID m' /\ subject_stream (nmSubject m) = subject_stream (nmSubject m').

#[global] Instance same_message_dec m m' : Decision (same_message m m').
Proof. unfold same_message. apply _. Defined.

(** The window in which the streams look for duplicates. *)
Definition duplicate_window : Z := scDuplicates (stream_config EvaluationStream EvaluationSubjects 1 true).

Definition seen (log : list (Z * natsMsg)) (m : natsMsg) : Prop := Exists (fun e => same_message e.2 m) log.
Definition seen_within (log : list (Z * natsMsg)) (now : Z) (m : natsMsg) : Prop :=
  Exists (fun e => same_message e.2 m /\ now - e.1 < duplicate_window) log.

#[global] Instance seen_within_dec log now m : Decision (seen_within log now m).
Proof. unfold seen_within. apply _. Defined.

(** What JetStream documents of a publish.  The messages the streams have taken
    in so far are kept with the time each was taken at.  A message that is
    acknowledged has been taken in, or its stream had one of the same id
    already; one that is not acknowledged may have been taken in or not (a
    timeout says nothing about it); and none is taken in when its stream took
    one of the same id less than the window before. *)
Class MessageLaws (C : Type) `{Connection C} := {
  br_log : C -> list (Z * natsMsg);
  br_now : C -> Z;
  law_publish c m c' r : PublishMsg c m = (c', r) ->
    br_now c <= br_now c' /\
    exists t, br_now c <= t <= br_now c' /\
      let stored := br_log c' = br_log c ++ [(t, m)] /\ ~ seen_within (br_log c) t m in
      match r with
      | Ok _ => stored \/ br_log c' = br_log c /\ seen (br_log c) m
      | Fail _ => stored \/ br_log c' = br_log c
      | Panic => False
      end
}.

(** ** A scripted server

    It keeps a configuration as it is given, and a call takes a second; it
    works, is refused, is carried out though the answer is lost, or finds that
    another client has just created the stream. *)
Inductive fault := Works | Refuses | AnswerLost | Preempted (rival : StreamConfig).

Record NatsServer := mkNats {
  nsStreams : gmap string StreamConfig;
  nsConnected : bool;
  nsFaults : list fault;
  nsLog : list (Z * natsMsg);
  nsNow : Z
}.

Definition next_fault (c : NatsServer) : fault := default Works (head (nsFaults c)).

(** The server after a call that leaves the given streams. *)
Definition called (c : NatsServer) (streams : gmap string StreamConfig) (connected : bool) : NatsServer :=
  mkNats streams connected (tail (nsFaults c)) (nsLog c) (nsNow c + second).

Definition unchanged (c : NatsServer) : NatsServer := called c (nsStreams c) (nsConnected c).

Definition written (c : NatsServer) (config : StreamConfig) : NatsServer :=
  called c (<[scName config := config]> (nsStreams c)) (nsConnected c).

#[global] Instance nats_server : StreamAdmin NatsServer := {|
  nats_Connect c _ _ := match next_fault c with
                        | Works => (called c (nsStreams c) true, inr tt)
                        | _ => (called c (nsStreams c) false, inl "nats: no servers available")
                        end;
  nats_JetStream c := match next_fault c with
                      | Works => (unchanged c, inr tt)
                      | _ => (unchanged c, inl "nats: JetStream not enabled")
                      end;
  StreamInfo c name := match next_fault c with
                       | Works => (unchanged c, match nsStreams c !! name with
                                                | Some config => inr config
                                                | None => inl ErrStreamNotFound
                                                end)
                       | _ => (unchanged c, inl (StreamOther "nats: timeout"))
                       end;
  AddStream c config := match next_fault c with
                        | Works => (written c config, inr tt)
                        | Refuses => (unchanged c, inl (StreamOther "nats: insufficient resources"))
                        | AnswerLost => (written c config, inl (StreamOther "nats: timeout"))
                        | Preempted rival => (called c (<[scName config := rival]> (nsStreams c)) (nsConnected c),
                                              inl ErrStreamNameAlreadyInUse)
                        end;
  UpdateStream c config := match next_fault c with
                           | Works => (written c config, inr tt)
                           | AnswerLost => (written c config, inl (StreamOther "nats: timeout"))
                           | _ => (unchanged c, inl (StreamOther "nats: stream configuration update not allowed"))
                           end;
  nats_Drain c := c;
  nats_Close c := mkNats (nsStreams c) false (nsFaults c) (nsLog c) (nsNow c)
|}.

#[global] Instance nats_server_laws : StreamLaws NatsServer.
Proof.
  refine {| na_streams := nsStreams; na_connected := nsConnected; na_normal := fun config => config |}.
  - intros c url token c' r. cbn. by destruct (next_fault c); intros [= <- <-].
  - intros c c' r. cbn. by destruct (next_fault c); intros [= <- <-].
  - intros c name c' r. cbn. destruct (next_fault c); intros [= <- <-]; cbn; try done.
    by destruct (nsStreams c !! name).
  - intros c config c' r. cbn. destruct (next_fault c) as [| | |rival]; intros [= <- <-]; cbn; split; eauto.
  - intros c config c' r. cbn. destruct (next_fault c); intros [= <- <-]; cbn; split; eauto.
  - done.
  - done.
Defined.

(** The server takes a message in, unless it is a duplicate. *)
Definition take_in (c : NatsServer) (m : natsMsg) : NatsServer :=
  let c' := unchanged c in
  if bool_decide (seen_within (nsLog c) (nsNow c) m) then c'
  else mkNats (nsStreams c') (nsConnected c') (nsFaults c') (nsLog c ++ [(nsNow c, m)]) (nsNow c').

#[global] Instance nats_connection : Connection NatsServer := {|
  PublishMsg c m :=
    match next_fault c with
    | Works => (take_in c m, Ok tt)
    | AnswerLost => (take_in c m, Fail "nats: timeout")
    | _ => (unchanged c, Fail "nats: no response from stream")
    end
|}.

Lemma seen_within_seen log now m : seen_within log now m -> seen log m.
Proof. intros Hs. eapply Exists_impl; [exact Hs|]. by intros e [? _]. Qed.

#[global] Instance nats_messages : MessageLaws NatsServer.
Proof.
  refine {| br_log := nsLog; br_now := nsNow |}. intros c m c' r Hrun.
  assert (Hnow : nsNow c' = nsNow c + second).
  { revert Hrun. cbn. unfold take_in. destruct (next_fault c); try case_bool_decide; by intros [= <- _]. }
  assert (0 <= second) by done. rewrite Hnow. split; [lia|]. exists (nsNow c). split; [lia|]. cbn zeta.
  revert Hrun. cbn. unfold take_in. destruct (next_fault c); try case_bool_decide; intros [= <- <-]; cbn;
    eauto using seen_within_seen.
Defined.
