(* ===== verification/BrokerProofs.v ===== *)
(** * Lemmas about the evaluation stream

    A connection that records the calls made of it, the trace of a run of
    [PublishEvaluation] on it, and the invariant that ties the coalescing table
    to that trace; then what the streams have taken in after frames were
    retried, or published in turn, whatever a broker that keeps the documented
    behaviour of JetStream does. *)

From stdpp Require Import prelude gmap strings list.
From Stdlib Require Import ZArith Lia String.
From S2P Require Import Prelude GoFloat GoText Sha256 GoStrings Model Ema MarketZones MarketReducer Contract.
From S2P Require Import Broker BrokerOpen.

#[local] Open Scope string_scope.
#[local] Open Scope list_scope.
#[local] Open Scope Z_scope.

(** ** Recording *)

(** A connection that also keeps what it was asked to publish, and the
    answers. *)
Record Recorded (C : Type) := mkRecorded {
  rcConnection : C;
  rcCalls : list (natsMsg * outcome string unit)
}.
Arguments mkRecorded {C}.
Arguments rcConnection {C}.
Arguments rcCalls {C}.

#[global] Instance recorded_connection {C} `{Connection C} : Connection (Recorded C) := {|
  PublishMsg c m :=
    let '(c', r) := PublishMsg (rcConnection c) m in (mkRecorded c' (rcCalls c ++ [(m, r)]), r)
|}.

#[global] Instance recorded_messages {C} `{MessageLaws C} : MessageLaws (Recorded C).
Proof.
  refine {| br_log c := br_log (rcConnection c); br_now c := br_now (rcConnection c) |}.
  intros c m c' r Hrun. cbn in Hrun. destruct (PublishMsg (rcConnection c) m) as [d s] eqn:Hp.
  injection Hrun as <- <-. cbn [rcConnection]. by apply law_publish.
Defined.

(** The messages acknowledged among some calls. *)
Definition acknowledged (calls : list (natsMsg * outcome string unit)) : list natsMsg :=
  map fst (List.filter (fun call => is_ok call.2) calls).

(** ** Messages *)

(** What the streams have taken in. *)
Definition stream_log {C} `{MessageLaws C} (j : JetStream C) : list (Z * natsMsg) := br_log (jsConnection j).

(** A message that carries the frame of an event on a subject, made at [now]. *)
Record carries_at (frame : SignalEvent * string) (now : Z) (m : natsMsg) : Prop := {
  ca_subject : nmSubject m = frame.2;
  ca_payload : EncodeAnalysisEvent frame.1 now = Ok (nmData m);
  ca_id : nmMsgID m = evEventID frame.1;
  ca_type : nmContentType m = "application/cloudevents+json";
  ca_cursor : nmCursor m = if 0 <? evCursor frame.1 then Some (itoa (evCursor frame.1)) else None;
  ca_rollup : nmRollup m = false
}.
Definition carries (frame : SignalEvent * string) (m : natsMsg) : Prop := exists now, carries_at frame now m.

Lemma make_message_carries event subject payload now :
  EncodeAnalysisEvent event now = Ok payload ->
  carries_at (event, subject) now (make_message subject payload (evEventID event) (evCursor event) false).
Proof. done. Qed.

(** Messages published in turn and acknowledged: each is taken in, unless its
    stream took one of the same id within the window, or is known already. *)
Inductive taken_in : list (Z * natsMsg) -> list natsMsg -> list (Z * natsMsg) -> Prop :=
  | taken_none log : taken_in log [] log
  | taken_new log t m rest log' : ~ seen_within log t m -> taken_in (log ++ [(t, m)]) rest log' ->
      taken_in log (m :: rest) log'
  | taken_known log m rest log' : seen log m -> taken_in log rest log' -> taken_in log (m :: rest) log'.

Lemma taken_in_app log ms log1 ms' log' :
  taken_in log ms log1 -> taken_in log1 ms' log' -> taken_in log (ms ++ ms') log'.
Proof. intros Ht Ht'. induction Ht; cbn; eauto using taken_in. Qed.

(** The streams grow by some of the messages, in their order. *)
Lemma taken_in_sublist log ms log' :
  taken_in log ms log' -> exists sent, log' = log ++ sent /\ map snd sent `sublist_of` ms.
Proof.
  induction 1 as [log|log t m rest log' _ _ (sent & -> & Hs)|log m rest log' _ _ (sent & -> & Hs)].
  - exists []. by rewrite app_nil_r.
  - exists ((t, m) :: sent). rewrite <-app_assoc. split; [done|]. by apply sublist_skip.
  - exists sent. split; [done|]. by apply sublist_cons.
Qed.

(** Every message is then in its stream, under its id. *)
Lemma taken_in_all log ms log' :
  taken_in log ms log' ->
  Forall (fun m => Exists (fun e => nmMsgID e.2 = nmMsgID m /\
    subject_stream (nmSubject e.2) = subject_stream (nmSubject m)) log') ms.
Proof.
  induction 1 as [log|log t m rest log' _ Ht IH|log m rest log' Hs Ht IH]; constructor; try done.
  - apply taken_in_sublist in Ht as (sent & -> & _). apply Exists_app. left. apply Exists_app. right.
    by apply Exists_cons_hd.
  - apply taken_in_sublist in Ht as (sent & -> & _). apply Exists_app. left. eapply Exists_impl; [exact Hs|].
    by intros e (_ & ? & ?).
Qed.

(** When none of the ids is known yet, every message is taken in. *)
Lemma taken_in_fresh log ms log' :
  taken_in log ms log' -> Forall (fun m => ~ seen log m) ms ->
  ForallOrdPairs (fun m m' => ~ same_message m m') ms ->
  exists sent, log' = log ++ sent /\ map snd sent = ms.
Proof.
  induction 1 as [log|log t m rest log' _ _ IH|log m rest log' Hs _ _]; intros Hf Hd.
  - exists []. by rewrite app_nil_r.
  - apply Forall_cons in Hf as [_ Hf]. inversion Hd as [|? ? Hm Hd']; subst.
    destruct IH as (sent & -> & <-); [|done|].
    + apply Forall_forall. intros x Hx Hseen. rewrite Forall_forall in Hf, Hm.
      unfold seen in Hseen. rewrite Exists_app, Exists_cons, Exists_nil in Hseen. cbn [snd] in Hseen.
      destruct Hseen as [Hseen|[Hseen|[]]]; [by apply (Hf x Hx)|by apply (Hm x Hx)].
    + exists ((t, m) :: sent). by rewrite <-app_assoc.
  - by apply Forall_cons in Hf as [? _].
Qed.

Lemma subject_stream_evaluation event kind : subject_stream (evaluationSubject event kind) = Some EvaluationStream.
Proof. reflexivity. Qed.
Lemma subject_stream_facts event : subject_stream (factSubject event) = Some FactStream.
Proof. reflexivity. Qed.

(** ** Traces of a run *)

(** One call: its event and time, what it returned, and the message that was
    acknowledged during it, if one was. *)
Record evaluated := mkEvaluated {
  edEvent : SignalEvent;
  edAt : Z;
  edSent : option natsMsg;
  edResult : outcome BrokerError unit
}.

Section Traces.
Context {C : Type} `{Connection C}.

Abbreviation Stream := (JetStream (Recorded C)).

Definition stream_calls (j : Stream) : list (natsMsg * outcome string unit) := rcCalls (jsConnection j).

Definition evaluate (j : Stream) (event : SignalEvent) (now : Z) : Stream * evaluated :=
  let '(j', r) := PublishEvaluation j event now in
  (j', mkEvaluated event now (head (acknowledged (drop (List.length (stream_calls j)) (stream_calls j')))) r).

Fixpoint evaluate_all (j : Stream) (calls : list (SignalEvent * Z)) : Stream * list evaluated :=
  match calls with
  | [] => (j, [])
  | (event, now) :: rest =>
      let '(j1, d) := evaluate j event now in
      let '(j2, trace) := evaluate_all j1 rest in
      (j2, d :: trace)
  end.

(** The last frame of a series the broker has. *)
Definition sent_for (key : string) (d : evaluated) : bool :=
  bool_decide (is_Some (edSent d)) && (liveKey (edEvent d) =? key)%string.
Definition last_sent (key : string) (trace : list evaluated) : option evaluated :=
  last (List.filter (sent_for key) trace).

Definition event_color (event : SignalEvent) : string :=
  match evSourceBar event with Some bar => bar_color bar | None => "" end.

(** [d] is another update of the forming candle that [p] showed. *)
Definition continues (p d : evaluated) : Prop :=
  evProvisional (edEvent p) = true /\ evBarOpenTime (edEvent p) = evBarOpenTime (edEvent d) /\
  event_color (edEvent p) = event_color (edEvent d).

(** The coalescing table as the trace determines it. *)
Definition live_of (key : string) (trace : list evaluated) : option liveCursor :=
  p ← last_sent key trace;
  if evProvisional (edEvent p)
  then Some (mkLiveCursor (evBarOpenTime (edEvent p)) (event_color (edEvent p)) (edAt p)) else None.

Definition live_inv (j : Stream) (trace : list evaluated) : Prop := forall key, jsLive j !! key = live_of key trace.

Lemma live_of_snoc key trace d :
  live_of key (trace ++ [d]) =
  if sent_for key d
  then if evProvisional (edEvent d)
       then Some (mkLiveCursor (evBarOpenTime (edEvent d)) (event_color (edEvent d)) (edAt d)) else None
  else live_of key trace.
Proof.
  unfold live_of, last_sent. rewrite List.filter_app. cbn. destruct (sent_for key d).
  - by rewrite last_snoc.
  - by rewrite app_nil_r.
Qed.

(** ** One call *)

(** What publishing a message does: the call is recorded with its answer. *)
Lemma js_publish_calls (j : Stream) subject payload id cursor rollup j' r :
  js_publish j subject payload id cursor rollup = (j', r) ->
  jsLive j' = jsLive j /\ stream_calls j' = stream_calls j ++ [(make_message subject payload id cursor rollup, r)].
Proof.
  unfold js_publish, stream_calls. cbn. destruct (PublishMsg _ _) as [c s]. by intros [= <- <-].
Qed.

Lemma acknowledged_next {A} (l : list A) calls : drop (List.length l) (l ++ calls) = calls.
Proof. apply drop_app_length. Qed.

Lemma acknowledged_same {A} (l : list A) : drop (List.length l) l = [].
Proof. apply drop_all. Qed.

(** The decision about a frame: whether to publish it and whether it may be
    replaced. *)
Definition decision (j : Stream) (event : SignalEvent) (bar : Bar) (now : Z) : bool * bool :=
  if evProvisional event then (liveDecision j event bar now).1 else (true, false).

(** A call on a market frame. *)
Lemma evaluate_cases (j : Stream) event now bar j' d :
  evEventType event = "market.state" -> evSourceBar event = Some bar -> evaluate j event now = (j', d) ->
  edEvent d = event /\ edAt d = now /\
  let '(publish, replaceable) := decision j event bar now in
  if publish then
    (exists m, edSent d = Some m /\ edResult d = Ok tt /\ nmRollup m = replaceable /\
       nmSubject m = evaluationSubject event (frame_kind event replaceable) /\
       EncodeAnalysisEvent event now = Ok (nmData m) /\ nmMsgID m = evEventID event /\
       jsLive j' = if evProvisional event
                   then <[liveKey event := mkLiveCursor (evBarOpenTime event) (bar_color bar) now]> (jsLive j)
                   else delete (liveKey event) (jsLive j)) \/
    (edSent d = None /\ is_ok (edResult d) = false /\ jsLive j' = jsLive j)
  else j' = j /\ edSent d = None /\ edResult d = Ok tt.
Proof.
  intros Ht Hb. unfold evaluate, PublishEvaluation. rewrite Ht, Hb. cbn [String.eqb negb Ascii.eqb Bool.eqb].
  change (negb ("market.state" =? "market.state")%string) with false. cbv iota.
  unfold decision, liveDecision. cbn zeta.
  set (publish := if evProvisional event then _ else _ : bool * bool * liveCursor).
  assert (Hn : evProvisional event = true -> publish.2 = mkLiveCursor (evBarOpenTime event) (bar_color bar) now).
  { unfold publish. by intros ->. }
  replace (if evProvisional event then _ else _) with publish.1 by (unfold publish; by destruct (evProvisional event)).
  destruct publish as [[publish replaceable] next]. cbn [fst snd] in *.
  destruct publish; cbn [negb].
  2:{ intros [= <- <-]. cbn. by rewrite acknowledged_same. }
  destruct (EncodeAnalysisEvent event now) as [payload|e|].
  - destruct (js_publish _ _ _ _ _ _) as [j1 r1] eqn:Hp.
    destruct (js_publish_calls _ _ _ _ _ _ _ _ Hp) as [Hl Hcalls]. destruct r1 as [[]|e|].
    + intros [= <- <-]. cbn [edEvent edAt edSent edResult jsLive jsConnection]. split_and!; [done..|]. left.
      change (stream_calls (mkJetStream (jsConnection j1) ?l)) with (stream_calls j1).
      rewrite Hcalls, acknowledged_next, Hl. eexists. split_and!; try done.
      destruct (evProvisional event); [|done]. by rewrite Hn.
    + intros [= <- <-]. cbn [edEvent edAt edSent edResult]. rewrite Hcalls, acknowledged_next, Hl.
      split_and!; [done..|]. right. by destruct replaceable.
    + intros [= <- <-]. cbn [edEvent edAt edSent edResult]. rewrite Hcalls, acknowledged_next, Hl.
      split_and!; [done..|]. right. by destruct replaceable.
  - intros [= <- <-]. cbn. rewrite acknowledged_same. split_and!; [done..|]. by right.
  - intros [= <- <-]. cbn. rewrite acknowledged_same. split_and!; [done..|]. by right.
Qed.

Lemma evaluate_call j event now j' d : evaluate j event now = (j', d) -> edEvent d = event /\ edAt d = now.
Proof. unfold evaluate. destruct (PublishEvaluation j event now). by intros [= _ <-]. Qed.

(** A call that cannot publish. *)
Lemma evaluate_skips (j : Stream) event now j' d :
  evEventType event <> "market.state" \/ evSourceBar event = None -> evaluate j event now = (j', d) ->
  j' = j /\ edEvent d = event /\ edSent d = None.
Proof.
  unfold evaluate, PublishEvaluation. intros Hs.
  destruct (String.eqb_spec (evEventType event) "market.state"); cbn [negb].
  - destruct Hs as [?| ->]; [done|]. intros [= <- <-]. cbn. by rewrite acknowledged_same.
  - intros [= <- <-]. cbn. by rewrite acknowledged_same.
Qed.

Lemma sent_for_none key d : edSent d = None -> sent_for key d = false.
Proof. unfold sent_for. by intros ->. Qed.

(** The table follows the trace. *)
Lemma evaluate_inv j trace event now j' d :
  live_inv j trace -> evaluate j event now = (j', d) -> live_inv j' (trace ++ [d]).
Proof.
  intros Hinv Hd key. rewrite live_of_snoc. set (next := if evProvisional _ then _ else _).
  assert (Hskip : jsLive j' = jsLive j -> edSent d = None ->
    jsLive j' !! key = if sent_for key d then next else live_of key trace).
  { intros -> Hs. rewrite sent_for_none by done. apply Hinv. }
  destruct (decide (evEventType event = "market.state")) as [Ht|Ht].
  2:{ destruct (evaluate_skips j event now j' d) as (-> & _ & ?); auto. }
  destruct (evSourceBar event) as [bar|] eqn:Hb.
  2:{ destruct (evaluate_skips j event now j' d) as (-> & _ & ?); auto. }
  destruct (evaluate_cases j event now bar j' d Ht Hb Hd) as (He & Hat & Hcases).
  destruct (decision j event bar now) as [[] replaceable].
  2:{ destruct Hcases as (-> & ? & _). auto. }
  destruct Hcases as [(m & Hs & _ & _ & _ & _ & _ & Hl)|(? & _ & ?)]; [|auto].
  unfold next, sent_for, event_color. rewrite Hs, He, Hat, Hl, Hb. rewrite bool_decide_eq_true_2 by eauto. cbn [andb].
  destruct (String.eqb_spec (liveKey event) key) as [<-|Hne]; destruct (evProvisional event).
  - by rewrite lookup_insert_eq.
  - by rewrite lookup_delete_eq.
  - rewrite lookup_insert_ne by done. apply Hinv.
  - rewrite lookup_delete_ne by done. apply Hinv.
Qed.

(** Every call of a run starts from a table that its past determines. *)
Lemma evaluate_all_split calls j j' past trace before d after :
  live_inv j past -> evaluate_all j calls = (j', trace) -> trace = before ++ d :: after ->
  exists j1 j2, live_inv j1 (past ++ before) /\ evaluate j1 (edEvent d) (edAt d) = (j2, d).
Proof.
  revert j past trace before. induction calls as [|[event now] calls IH]; intros j past trace before Hinv; cbn.
  { intros [= <- <-] ?. by destruct before. }
  destruct (evaluate j event now) as [j1 d1] eqn:Hd. destruct (evaluate_all j1 calls) as [j2 rest] eqn:Hr.
  intros [= <- <-] Hsplit. destruct before as [|b before]; injection Hsplit as -> Hsplit.
  - exists j, j1. rewrite app_nil_r. split; [done|]. by destruct (evaluate_call _ _ _ _ _ Hd) as [-> ->].
  - destruct (IH j1 (past ++ [b]) rest before) as (k1 & k2 & Hk & He); [by eapply evaluate_inv|done|done|].
    exists k1, k2. by rewrite <-app_assoc in Hk.
Qed.

(** ** The decision by the last frame sent *)

Lemma decision_forming j trace event bar now d :
  live_inv j trace -> evProvisional event = true -> evSourceBar event = Some bar -> edEvent d = event ->
  edAt d = now ->
  decision j event bar now =
    match last_sent (liveKey event) trace with
    | Some p => if decide (continues p d)
                then (bool_decide (second <= now - edAt p), bool_decide (second <= now - edAt p)) else (true, false)
    | None => (true, false)
    end.
Proof.
  intros Hinv Hp Hb <- Hat. unfold decision, liveDecision. rewrite Hp, Hinv. unfold live_of.
  replace (bar_color bar) with (event_color (edEvent d)) by (unfold event_color; by rewrite Hb).
  destruct (last_sent (liveKey (edEvent d)) trace) as [p|]; cbn; [|done].
  destruct (decide (continues p d)) as [(Hp1 & Ho & Hc)|Hn].
  - rewrite Hp1. cbn. rewrite Ho, Hc, Z.eqb_refl, String.eqb_refl. cbn. rewrite andb_true_r.
    change livePublishInterval with second.
    by destruct (Z.leb_spec second (now - edAt p)); case_bool_decide; try lia.
  - destruct (evProvisional (edEvent p)) eqn:Hp1; [cbn|done].
    destruct (Z.eqb_spec (evBarOpenTime (edEvent p)) (evBarOpenTime (edEvent d))); [|done].
    destruct (String.eqb_spec (event_color (edEvent p)) (event_color (edEvent d))); [|done]. by destruct Hn.
Qed.

End Traces.

(** ** Retrying *)

(** Frames that may not be dropped: confirmed ones, and forming ones that
    show another candle or colour than the table has. *)
Definition must_send (live : gmap string liveCursor) (event : SignalEvent) : Prop :=
  evProvisional event = true -> forall c, live !! liveKey event = Some c ->
  lcOpenTime c <> evBarOpenTime event \/ lcColor c <> event_color event.

(** The subject such a frame goes out on. *)
Definition lossless_subject (event : SignalEvent) : string :=
  evaluationSubject event
    (if evReset event then "reset" else if evProvisional event then "transition" else "confirmed").

Section Retrying.
Context {C : Type} `{Connection C}.

Lemma liveDecision_must_send (j : JetStream C) event bar now :
  evSourceBar event = Some bar -> must_send (jsLive j) event -> evProvisional event = true ->
  liveDecision j event bar now = (true, false, mkLiveCursor (evBarOpenTime event) (bar_color bar) now).
Proof.
  unfold liveDecision, must_send, event_color. intros -> Hm Hp.
  destruct (jsLive j !! liveKey event) as [c|] eqn:Hc; [|done].
  destruct (Hm Hp c eq_refl) as [Hne|Hne]; cbn.
  - by rewrite (proj2 (Z.eqb_neq _ _) Hne).
  - rewrite (proj2 (String.eqb_neq _ _) Hne). by rewrite orb_true_r.
Qed.

(** One attempt at such a frame goes to the broker, and what the broker
    answers is returned. *)
Lemma PublishEvaluation_must_send (c : C) live event bar now :
  evEventType event = "market.state" -> evSourceBar event = Some bar -> must_send live event ->
  is_ok (EncodeAnalysisEvent event now) = true ->
  exists m, carries_at (event, lossless_subject event) now m /\
    match PublishMsg c m with
    | (c', Ok _) => exists live', PublishEvaluation (mkJetStream c live) event now = (mkJetStream c' live', Ok tt)
    | (c', Fail e) => PublishEvaluation (mkJetStream c live) event now = (mkJetStream c' live, Fail (BrokerPublish e))
    | (c', Panic) => PublishEvaluation (mkJetStream c live) event now = (mkJetStream c' live, Panic)
    end.
Proof.
  intros Ht Hb Hm Hok. destruct (EncodeAnalysisEvent event now) as [payload| |] eqn:Hp; [|done|done].
  exists (make_message (lossless_subject event) payload (evEventID event) (evCursor event) false).
  split; [by apply make_message_carries|].
  assert (Hrun : PublishEvaluation (mkJetStream c live) event now =
    match js_publish (mkJetStream c live) (lossless_subject event) payload (evEventID event) (evCursor event) false with
    | (j, Ok _) => (mkJetStream (jsConnection j) (if evProvisional event
        then <[liveKey event := mkLiveCursor (evBarOpenTime event) (bar_color bar) now]> (jsLive j)
        else delete (liveKey event) (jsLive j)), Ok tt)
    | (j, r) => (j, wrap_err BrokerPublish r)
    end).
  { unfold PublishEvaluation, lossless_subject, frame_kind. rewrite Ht, Hb. cbn [String.eqb Ascii.eqb Bool.eqb negb].
    change (negb ("market.state" =? "market.state")%string) with false. cbv iota.
    destruct (evProvisional event) eqn:Hprov.
    - rewrite liveDecision_must_send by done. cbn [negb andb]. by rewrite Hp.
    - cbn [negb andb]. by rewrite Hp. }
  rewrite Hrun. unfold js_publish. cbn [jsConnection jsLive].
  destruct (PublishMsg c _) as [c' [[]|e|]]; [by eexists|done|done].
Qed.
End Retrying.

(** ** Delivering *)

Section Delivering.
Context {C : Type} `{MessageLaws C}.

(** The run of the attempts: every one is for the frame, they go on until one
    is acknowledged, and time passes. *)
Lemma live_publish_calls attempts : forall (c : C) calls live event bar j r,
  evEventType event = "market.state" -> evSourceBar event = Some bar -> must_send live event ->
  (forall now, now ∈ attempts -> is_ok (EncodeAnalysisEvent event now) = true) ->
  live_publish_frame (mkJetStream (mkRecorded c calls) live) event attempts = (j, r) ->
  br_now c <= br_now (jsConnection j) /\
  exists made, stream_calls j = calls ++ made /\
    Forall2 (fun now call => carries_at (event, lossless_subject event) now call.1) (take (List.length made) attempts) made /\
    ((r = LivePublishedFrame /\ exists refused m, made = refused ++ [(m, Ok tt)] /\
        Forall (fun call => is_ok call.2 = false) refused) \/
     (r = LiveCancelled /\ List.length made = List.length attempts /\ Forall (fun call => is_ok call.2 = false) made)).
Proof.
  induction attempts as [|now attempts IH]; intros c calls live event bar j r Ht Hb Hm Henc; cbn [live_publish_frame].
  { intros [= <- <-]. split; [done|]. exists []. rewrite app_nil_r. split_and!; [done|constructor|]. right. by split_and!. }
  destruct (PublishEvaluation_must_send (mkRecorded c calls) live event bar now Ht Hb Hm ltac:(set_solver)) as (m & Hc & Hrun).
  cbn in Hrun. destruct (PublishMsg c m) as [c1 r1] eqn:Hp. destruct (law_publish _ _ _ _ Hp) as [Hnow (t & _ & Hlaw)].
  destruct r1 as [[]|e|]; [| |done].
  - destruct Hrun as [live' ->]. intros [= <- <-]. split; [done|]. exists [(m, Ok tt)].
    split_and!; [done| |].
    { cbn [List.length take]. constructor; [exact Hc|]. by rewrite take_0. }
    left. split; [done|]. by exists [], m.
  - rewrite Hrun. cbn [is_replaceable]. rewrite andb_false_r. intros Hrest.
    destruct (IH c1 _ live event bar j r Ht Hb Hm ltac:(set_solver) Hrest) as (Hn & made & Hcalls & Hall & Hend).
    split; [lia|]. exists ((m, Fail e) :: made). rewrite Hcalls, <-app_assoc. split_and!; [done|by constructor|].
    destruct Hend as [(-> & refused & m' & -> & Hf)|(-> & Hlen & Hf)].
    + left. split; [done|]. exists ((m, Fail e) :: refused), m'. split; [done|]. by constructor.
    + right. cbn [List.length]. split_and!; [done|lia|by constructor].
Qed.

(** The log has gained nothing yet, or the one message of the frame. *)
Definition once (c0 : C) (event : SignalEvent) (attempts : list Z) (log : list (Z * natsMsg)) : Prop :=
  exists t now m, now ∈ attempts /\ br_now c0 <= t /\ carries_at (event, lossless_subject event) now m /\
    log = br_log c0 ++ [(t, m)].

(** A message with the id of the frame in the evaluation stream. *)
Definition frame_entry (event : SignalEvent) (e : Z * natsMsg) : Prop :=
  nmMsgID e.2 = evEventID event /\ subject_stream (nmSubject e.2) = Some EvaluationStream.

Lemma carries_seen event now m log :
  carries_at (event, lossless_subject event) now m -> seen log m -> Exists (frame_entry event) log.
Proof.
  intros Hc Hs. eapply Exists_impl; [exact Hs|]. intros e (_ & Hid & Hst). split.
  - by rewrite Hid, (ca_id _ _ _ Hc).
  - by rewrite Hst, (ca_subject _ _ _ Hc).
Qed.

Lemma once_publish (c0 c c' : C) event all now m r :
  evEventID event <> "" -> ~ Exists (frame_entry event) (br_log c0) ->
  br_now c0 <= br_now c -> br_now c' - br_now c0 < duplicate_window ->
  br_log c = br_log c0 \/ once c0 event all (br_log c) ->
  now ∈ all -> carries_at (event, lossless_subject event) now m -> PublishMsg c m = (c', r) ->
  (br_log c' = br_log c0 /\ r <> Ok tt) \/ once c0 event all (br_log c').
Proof.
  intros Hid Hnew Hbefore Hwin Hlog Hin Hc Hp. destruct (law_publish _ _ _ _ Hp) as (Hnow & t & Ht & Hlaw). cbn zeta in Hlaw.
  assert (Hst : br_log c' = br_log c ++ [(t, m)] /\ ~ seen_within (br_log c) t m -> once c0 event all (br_log c')).
  { intros [-> Hns]. destruct Hlog as [->|(t0 & now0 & m0 & Hin0 & Ht0 & Hc0 & Hl)].
    - exists t, now, m. split_and!; [done|lia|done|done].
    - destruct Hns. rewrite Hl. apply Exists_app. right. apply Exists_cons_hd. cbn [fst snd]. split; [|lia].
      split_and!; [by rewrite (ca_id _ _ _ Hc0)|by rewrite (ca_id _ _ _ Hc0), (ca_id _ _ _ Hc)|].
      by rewrite (ca_subject _ _ _ Hc0), (ca_subject _ _ _ Hc). }
  destruct r as [[]|e|]; [| |done].
  - destruct Hlaw as [Hs|[Hl Hs]]; [by right; apply Hst|]. destruct Hlog as [Hlog|Ho].
    + rewrite Hlog in Hs. by destruct (Hnew (carries_seen _ _ _ _ Hc Hs)).
    + right. by rewrite Hl.
  - destruct Hlaw as [Hs|Hl]; [by right; apply Hst|]. rewrite Hl. destruct Hlog as [Hlog|Ho]; [left|by right].
    by split.
Qed.

Lemma live_publish_once (c0 : C) all attempts : forall (c : C) calls live event bar j r,
  evEventType event = "market.state" -> evSourceBar event = Some bar -> must_send live event ->
  (forall now, now ∈ attempts -> is_ok (EncodeAnalysisEvent event now) = true) ->
  evEventID event <> "" -> ~ Exists (frame_entry event) (br_log c0) -> attempts ⊆ all ->
  br_now c0 <= br_now c -> br_log c = br_log c0 \/ once c0 event all (br_log c) ->
  live_publish_frame (mkJetStream (mkRecorded c calls) live) event attempts = (j, r) ->
  br_now (jsConnection j) - br_now c0 < duplicate_window ->
  r = LivePublishedFrame -> once c0 event all (stream_log j).
Proof.
  induction attempts as [|now attempts IH]; intros c calls live event bar j r Ht Hb Hm Henc Hid Hnew Hall Hbef Hlog;
    cbn [live_publish_frame]; [by intros [= _ <-]|].
  destruct (PublishEvaluation_must_send (mkRecorded c calls) live event bar now Ht Hb Hm ltac:(set_solver)) as (m & Hc & Hrun).
  cbn in Hrun. destruct (PublishMsg c m) as [c1 r1] eqn:Hp. destruct (law_publish _ _ _ _ Hp) as [Hnow _].
  assert (Hstep : br_now c1 - br_now c0 < duplicate_window ->
    (br_log c1 = br_log c0 /\ r1 <> Ok tt) \/ once c0 event all (br_log c1)).
  { intros Hw. eapply once_publish; [exact Hid|exact Hnew|exact Hbef|exact Hw|exact Hlog| |exact Hc|exact Hp]. set_solver. }
  destruct r1 as [[]|e|].
  - destruct Hrun as [live' ->]. intros [= <- <-] Hw _. cbn in Hw. destruct (Hstep Hw) as [[_ ?]|Ho]; [done|exact Ho].
  - rewrite Hrun. cbn [is_replaceable]. rewrite andb_false_r. intros Hrest Hw Hr.
    destruct (live_publish_calls attempts c1 _ live event bar j r Ht Hb Hm ltac:(set_solver) Hrest) as [Hn _].
    eapply (IH c1 _ live event bar j r); try done; [set_solver|set_solver|lia|].
    destruct (Hstep ltac:(lia)) as [[? _]|?]; [by left|by right].
  - rewrite Hrun. by intros [= _ <-].
Qed.

(** Acknowledged at last, the frame is in its stream. *)
Lemma live_publish_there attempts : forall (c : C) calls live event bar j,
  evEventType event = "market.state" -> evSourceBar event = Some bar -> must_send live event ->
  (forall now, now ∈ attempts -> is_ok (EncodeAnalysisEvent event now) = true) ->
  live_publish_frame (mkJetStream (mkRecorded c calls) live) event attempts = (j, LivePublishedFrame) ->
  Exists (frame_entry event) (stream_log j).
Proof.
  induction attempts as [|now attempts IH]; intros c calls live event bar j Ht Hb Hm Henc;
    cbn [live_publish_frame]; [done|].
  destruct (PublishEvaluation_must_send (mkRecorded c calls) live event bar now Ht Hb Hm ltac:(set_solver)) as (m & Hc & Hrun).
  cbn in Hrun. destruct (PublishMsg c m) as [c1 [[]|e|]] eqn:Hp.
  - destruct Hrun as [live' ->]. intros [= <-]. destruct (law_publish _ _ _ _ Hp) as (_ & t & _ & Hlaw). cbn zeta in Hlaw.
    change (stream_log _) with (br_log c1). destruct Hlaw as [[-> _]|[-> Hs]]; [|by eapply carries_seen].
    apply Exists_app. right. apply Exists_cons_hd. split; cbn [snd].
    + by rewrite (ca_id _ _ _ Hc).
    + by rewrite (ca_subject _ _ _ Hc).
  - rewrite Hrun. cbn [is_replaceable]. rewrite andb_false_r. apply (IH c1 _ live event bar); try done. set_solver.
  - rewrite Hrun. done.
Qed.

(** ** The durable path *)

(** One message: acknowledged, it is taken in or known. *)
Lemma js_publish_taken (j : JetStream C) subject payload id cursor rollup j' :
  js_publish j subject payload id cursor rollup = (j', Ok tt) ->
  taken_in (stream_log j) [make_message subject payload id cursor rollup] (stream_log j').
Proof.
  unfold js_publish, stream_log. destruct (PublishMsg _ _) as [c r] eqn:Hp. intros [= <- ->]. cbn [jsConnection].
  destruct (law_publish _ _ _ _ Hp) as (_ & t & _ & Hlaw). cbn zeta in Hlaw.
  destruct Hlaw as [[-> Hns]|[-> Hs]]; [eapply taken_new|eapply taken_known]; eauto using taken_in.
Qed.
End Delivering.
