(* ===== verification/Hub.v ===== *)
(** * The subscription hub (internal/api/hub.go)

    Clients with a bounded channel each, the replay barrier of [activate], and
    delivery to the clients whose filter matches.  The methods of a client run
    under its mutex, so they are steps; the consumer takes events off the
    channel between them.  A send on a closed channel and a second close would
    panic: [None]. *)

From stdpp Require Import prelude gmap strings list sorting.
From Stdlib Require Import ZArith Lia String.
From S2P Require Import Prelude GoFloat Model Contract.

#[local] Open Scope string_scope.
#[local] Open Scope list_scope.
#[local] Open Scope Z_scope.

Record seriesSelector := mkSeriesSelector {
  slDataset : string;
  slSymbol : string;
  slTimeframe : string
}.

Record analysisSelector := mkAnalysisSelector {
  asName : string;
  asConfigHash : string
}.

Record Subscription := mkSubscription {
  suSeries : list seriesSelector;
  suAnalyses : list analysisSelector;
  suEventTypes : gset string;
  suConfirmed : bool;
  suProvisional : bool
}.

(** ** Filters *)

Definition matchesSeries (selectors : list seriesSelector) (dataset symbol timeframe : string) : bool :=
  existsb (fun selector =>
    (slSymbol selector =? symbol)%string && (slTimeframe selector =? timeframe)%string &&
    ((slDataset selector =? "")%string || (slDataset selector =? dataset)%string)) selectors.

Definition matchesAnalysis (selectors : list analysisSelector) (algorithm : AlgorithmRef) : bool :=
  existsb (fun selector =>
    ((asName selector =? "*")%string || (asName selector =? aName algorithm)%string) &&
    ((asConfigHash selector =? "")%string || (asConfigHash selector =? aConfigHash algorithm)%string))
    selectors.

Definition matches (filter : Subscription) (event : SignalEvent) : bool :=
  if evProvisional event && negb (suProvisional filter) then false
  else if negb (evProvisional event) && negb (suConfirmed filter) then false
  else if (0 <? len (suSeries filter)) &&
          negb (matchesSeries (suSeries filter) (evDataset event) (evSymbol event) (evTimeframe event))
  then false
  else if bool_decide (suEventTypes filter <> ∅) && negb (bool_decide (analysisEventType ∈ suEventTypes filter))
  then false
  else if (0 <? len (suAnalyses filter)) && negb (matchesAnalysis (suAnalyses filter) (evAlgorithm event))
  then false
  else true.

(** ** Channels *)

Record chan := mkChan {
  chCap : Z;
  chBuf : list SignalEvent;
  chClosed : bool
}.

(** [close(ch)] *)
Definition chan_close (c : chan) : option chan :=
  if chClosed c then None else Some (mkChan (chCap c) (chBuf c) true).

(** [select { case ch <- event: ... default: ... }]: the channel after the send,
    or [None] inside for the default branch. *)
Definition chan_try_send (c : chan) (event : SignalEvent) : option (option chan) :=
  if chClosed c then None
  else if len (chBuf c) <? chCap c
  then Some (Some (mkChan (chCap c) (chBuf c ++ [event]) false))
  else Some None.

(** A receive: the event, or nothing when the channel is empty (the consumer
    waits, or sees the close). *)
Definition chan_recv (c : chan) : option SignalEvent * chan :=
  match chBuf c with
  | [] => (None, c)
  | event :: rest => (Some event, mkChan (chCap c) rest (chClosed c))
  end.

(** ** Clients *)

Record hubClient := mkClient {
  hcFilter : Subscription;
  hcSend : chan;
  hcActive : bool;
  hcPending : list SignalEvent;
  hcLastCursor : Z;
  hcClosed : bool
}.

Definition new_client (filter : Subscription) (buffer : Z) : hubClient :=
  let buffer := if buffer <=? 0 then 1024 else buffer in
  mkClient filter (mkChan buffer [] false) false [] 0 false.

(** [c.closed = true; close(c.send)] *)
Definition close_client (c : hubClient) : option hubClient :=
  ch ← chan_close (hcSend c);
  Some (mkClient (hcFilter c) ch (hcActive c) (hcPending c) (hcLastCursor c) true).

(** The cursor after a send. *)
Definition next_cursor (lastCursor : Z) (event : SignalEvent) : Z :=
  if 0 <? evCursor event then evCursor event else lastCursor.

Definition enqueue (c : hubClient) (event : SignalEvent) : option hubClient :=
  if negb (matches (hcFilter c) event) then Some c
  else if hcClosed c then Some c
  else if (0 <? evCursor event) && (evCursor event <=? hcLastCursor c) then Some c
  else if negb (hcActive c) then
    if chCap (hcSend c) <=? len (hcPending c) then close_client c
    else Some (mkClient (hcFilter c) (hcSend c) (hcActive c) (hcPending c ++ [event])
                 (hcLastCursor c) (hcClosed c))
  else
    sent ← chan_try_send (hcSend c) event;
    match sent with
    | Some ch => Some (mkClient (hcFilter c) ch (hcActive c) (hcPending c)
                         (next_cursor (hcLastCursor c) event) (hcClosed c))
    | None => close_client c
    end.

(** Confirmed events by cursor, provisional ones after them. *)
Definition cursor_less (a b : SignalEvent) : bool :=
  if evCursor a =? 0 then false
  else if evCursor b =? 0 then true
  else evCursor a <? evCursor b.

(** The loop of [activate]; [false] when it returned early. *)
Fixpoint send_pending (c : hubClient) (afterCursor : Z) (events : list SignalEvent)
  : option (hubClient * bool) :=
  match events with
  | [] => Some (c, true)
  | event :: rest =>
      if (0 <? evCursor event) && (evCursor event <=? afterCursor) then send_pending c afterCursor rest
      else
        sent ← chan_try_send (hcSend c) event;
        match sent with
        | Some ch => send_pending (mkClient (hcFilter c) ch (hcActive c) (hcPending c)
                       (next_cursor (hcLastCursor c) event) (hcClosed c)) afterCursor rest
        | None => c' ← (if negb (hcClosed c) then close_client c else Some c); Some (c', false)
        end
  end.

Definition activate (c : hubClient) (afterCursor : Z) : option hubClient :=
  if hcClosed c then Some c
  else
    let sorted := sort_stable cursor_less (hcPending c) in
    let c := mkClient (hcFilter c) (hcSend c) (hcActive c) sorted (hcLastCursor c) (hcClosed c) in
    '(c, finished) ← send_pending c afterCursor sorted;
    if (finished : bool) then
      Some (mkClient (hcFilter c) (hcSend c) true []
              (if hcLastCursor c <? afterCursor then afterCursor else hcLastCursor c) (hcClosed c))
    else Some c.

Definition close (c : hubClient) : option hubClient :=
  if negb (hcClosed c) then close_client c else Some c.

(** ** The hub: clients by identity *)

Definition Hub : Type := gmap Z hubClient.

Definition NewHub : Hub := ∅.

Section Publish.
Context `{Runtime}.

(** [Publish] visits the clients in the order the map is ranged over; each
    visit touches its own client only. *)
Definition Hub_Publish (h : Hub) (event : SignalEvent) : option Hub :=
  loop (fun h '(id, client) => client' ← enqueue client event; Some (<[id := client']> h)) (map_range h) h.
End Publish.

Definition subscribe (h : Hub) (id : Z) (filter : Subscription) (buffer : Z) : Hub :=
  <[id := new_client filter buffer]> h.

Definition unsubscribe (h : Hub) (id : Z) : option Hub :=
  match h !! id with
  | None => Some h
  | Some client => _ ← close client; Some (delete id h)
  end.

(** ** Runs of one client *)

Inductive client_op :=
  | OpEnqueue (event : SignalEvent)
  | OpActivate (afterCursor : Z)
  | OpClose
  | OpRecv.

(** A client and everything its consumer has received. *)
Definition client_step (st : hubClient * list SignalEvent) (op : client_op)
  : option (hubClient * list SignalEvent) :=
  let '(c, received) := st in
  match op with
  | OpEnqueue event => c' ← enqueue c event; Some (c', received)
  | OpActivate afterCursor => c' ← activate c afterCursor; Some (c', received)
  | OpClose => c' ← close c; Some (c', received)
  | OpRecv =>
      let '(got, ch) := chan_recv (hcSend c) in
      Some (mkClient (hcFilter c) ch (hcActive c) (hcPending c) (hcLastCursor c) (hcClosed c),
            received ++ match got with Some e => [e] | None => [] end)
  end.

(** ** Invariant *)

(** Everything that was ever sent to the client. *)
Definition sent_log (st : hubClient * list SignalEvent) : list SignalEvent := st.2 ++ chBuf (hcSend st.1).

(** The confirmed cursors of a list of events. *)
Definition confirmed (events : list SignalEvent) : list Z :=
  List.filter (fun c => 0 <? c) (map evCursor events).

Record client_inv (st : hubClient * list SignalEvent) : Prop := {
  ci_closed : chClosed (hcSend st.1) = hcClosed st.1;
  ci_cap : 1 <= chCap (hcSend st.1);
  ci_buf : len (chBuf (hcSend st.1)) <= chCap (hcSend st.1);
  ci_waiting : hcActive st.1 = false -> hcClosed st.1 = false ->
    sent_log st = [] /\ hcLastCursor st.1 = 0 /\ len (hcPending st.1) <= chCap (hcSend st.1);
  ci_active : hcActive st.1 = true -> hcPending st.1 = [];
  ci_sorted : StronglySorted Z.le (confirmed (sent_log st));
  ci_last : Forall (fun c => c <= hcLastCursor st.1) (confirmed (sent_log st));
  ci_matches : Forall (fun e => matches (hcFilter st.1) e = true) (sent_log st ++ hcPending st.1)
}.
