(* ===== verification/HubProofs.v ===== *)
(** * Properties of the hub

    No method of a client panics, activation always succeeds, the consumer sees
    only matching events, and confirmed events arrive in cursor order, each
    once when their cursors are distinct. *)

From stdpp Require Import prelude gmap strings list sorting.
From Stdlib Require Import ZArith Lia String.
From S2P Require Import Prelude GoFloat Model Hub.

#[local] Open Scope string_scope.
#[local] Open Scope list_scope.
#[local] Open Scope Z_scope.

#[local] Opaque matches.

Lemma confirmed_app l k : confirmed (l ++ k) = confirmed l ++ confirmed k.
Proof. unfold confirmed. by rewrite map_app, List.filter_app. Qed.

Lemma confirmed_singleton e : confirmed [e] = if 0 <? evCursor e then [evCursor e] else [].
Proof. done. Qed.

Lemma new_client_inv filter buffer : client_inv (new_client filter buffer, []).
Proof.
  unfold new_client. set (cap := if buffer <=? 0 then 1024 else buffer).
  assert (Hcap : 1 <= cap) by (unfold cap; destruct (Z.leb_spec buffer 0); lia).
  clearbody cap. pose proof (len_nil (A := SignalEvent)).
  split; cbn; try done; try lia; [intros _ _; split_and!; [done..|lia]|constructor..].
Qed.

(** The log after one more event that is new. *)
Lemma log_snoc log last e :
  StronglySorted Z.le (confirmed log) -> Forall (fun c => c <= last) (confirmed log) ->
  (0 < evCursor e -> last < evCursor e) ->
  StronglySorted Z.le (confirmed (log ++ [e])) /\
  Forall (fun c => c <= next_cursor last e) (confirmed (log ++ [e])).
Proof.
  intros Hs Hl He. rewrite confirmed_app, confirmed_singleton. unfold next_cursor.
  destruct (Z.ltb_spec 0 (evCursor e)) as [Hpos|Hz]; [|by rewrite app_nil_r].
  specialize (He Hpos). split.
  - apply StronglySorted_app_2; [|done|by repeat constructor].
    intros x y Hx ->%list_elem_of_singleton. rewrite Forall_forall in Hl. specialize (Hl x Hx). cbn in Hl. lia.
  - apply Forall_app. split; [eapply Forall_impl; [exact Hl|]; cbn; lia|]. apply Forall_singleton. lia.
Qed.

(** ** Activation *)

Definition kept (afterCursor : Z) (events : list SignalEvent) : list SignalEvent :=
  List.filter (fun e => negb ((0 <? evCursor e) && (evCursor e <=? afterCursor))) events.

Lemma send_pending_ok afterCursor events c :
  chClosed (hcSend c) = false -> len (chBuf (hcSend c)) + len events <= chCap (hcSend c) ->
  send_pending c afterCursor events =
    Some (mkClient (hcFilter c)
            (mkChan (chCap (hcSend c)) (chBuf (hcSend c) ++ kept afterCursor events) false)
            (hcActive c) (hcPending c)
            (foldl next_cursor (hcLastCursor c) (kept afterCursor events)) (hcClosed c), true).
Proof.
  revert c. induction events as [|e events IH]; intros c Hc Hlen; cbn [send_pending kept List.filter].
  - cbn. rewrite app_nil_r. destruct c as [f [cap buf cl] a p lc cd]. cbn in *. by subst.
  - rewrite len_cons in Hlen. pose proof (len_nonneg events). pose proof (len_nonneg (chBuf (hcSend c))).
    destruct (_ && _); cbn [negb]; [apply IH; [done|lia]|].
    unfold chan_try_send. rewrite Hc, (proj2 (Z.ltb_lt _ _)) by lia. cbn [mbind option_bind].
    rewrite IH; cbn; [|done|rewrite len_snoc; lia]. by rewrite <-app_assoc.
Qed.

Lemma kept_elem a events e : e ∈ kept a events -> e ∈ events.
Proof. unfold kept. rewrite !list_elem_of_In. by intros [? _]%filter_In. Qed.

Lemma strict_weak_cursor : StrictWeak cursor_less.
Proof.
  unfold cursor_less. split.
  - intros x. destruct (Z.eqb_spec (evCursor x) 0); [done|]. apply Z.ltb_irrefl.
  - intros x y z. destruct (Z.eqb_spec (evCursor x) 0), (Z.eqb_spec (evCursor y) 0),
      (Z.eqb_spec (evCursor z) 0); try done. rewrite !Z.ltb_lt. lia.
  - intros x y z. destruct (Z.eqb_spec (evCursor x) 0), (Z.eqb_spec (evCursor y) 0),
      (Z.eqb_spec (evCursor z) 0); try done. rewrite !Z.ltb_ge. lia.
Qed.

(** In a list sorted by [cursor_less], confirmed cursors do not decrease. *)
Lemma sorted_confirmed a events :
  sorted_by cursor_less events -> StronglySorted Z.le (confirmed (kept a events)).
Proof.
  unfold sorted_by. induction 1 as [|e events Hs IH He]; cbn; [constructor|].
  destruct (_ && _); cbn [negb]; [exact IH|].
  change (StronglySorted Z.le (confirmed ([e] ++ kept a events))). rewrite confirmed_app, confirmed_singleton.
  destruct (Z.ltb_spec 0 (evCursor e)) as [Hpos|]; cbn; [|exact IH]. constructor; [exact IH|].
  apply Forall_forall. intros c. unfold confirmed. rewrite list_elem_of_In. intros [Hc Hp]%filter_In.
  apply in_map_iff in Hc as (x & <- & Hx). rewrite Forall_forall in He.
  assert (Hex : cursor_less x e = false) by (apply He; eapply kept_elem; apply list_elem_of_In; exact Hx).
  unfold cursor_less in Hex. destruct (Z.eqb_spec (evCursor x) 0), (Z.eqb_spec (evCursor e) 0); try lia.
Qed.

Lemma fold_cursor_bound events last :
  StronglySorted Z.le (confirmed events) -> Forall (fun c => last <= c) (confirmed events) ->
  Forall (fun c => c <= foldl next_cursor last events) (confirmed events) /\
  last <= foldl next_cursor last events.
Proof.
  revert last. induction events as [|e events IH]; intros last Hs Hl; [split; [constructor|done]|].
  cbn [foldl]. change (e :: events) with ([e] ++ events) in *.
  rewrite confirmed_app, confirmed_singleton in *. unfold next_cursor at 2 4.
  destruct (Z.ltb_spec 0 (evCursor e)); cbn [app] in *.
  - apply StronglySorted_inv in Hs as [Hs He]. apply Forall_cons in Hl as [Hle Hl].
    destruct (IH (evCursor e) Hs He) as [H1 H2]. split; [|lia]. constructor; done.
  - by apply IH.
Qed.

Lemma activate_ok c received afterCursor :
  client_inv (c, received) -> hcActive c = false -> hcClosed c = false ->
  activate c afterCursor =
    Some (mkClient (hcFilter c)
            (mkChan (chCap (hcSend c)) (kept afterCursor (sort_stable cursor_less (hcPending c))) false) true []
            (Z.max afterCursor (foldl next_cursor 0 (kept afterCursor (sort_stable cursor_less (hcPending c)))))
            false).
Proof.
  intros [Hcl Hcap Hbuf Hw _ _ _ _] Ha Hc. cbn in *. destruct (Hw Ha Hc) as (Hlog & Hlast & Hlen).
  unfold sent_log in Hlog. cbn in Hlog. apply app_eq_nil in Hlog as [_ Hb].
  unfold activate. rewrite Hc. rewrite send_pending_ok; cbn.
  - rewrite Hb, Hlast. cbn. do 2 f_equal. destruct (Z.ltb_spec (foldl next_cursor 0
      (kept afterCursor (sort_stable cursor_less (hcPending c)))) afterCursor); lia.
  - congruence.
  - rewrite Hb, len_nil. unfold len at 1. rewrite sort_stable_length. fold (len (hcPending c)). lia.
Qed.

(** ** Every step keeps the invariant *)

(** The events that were ever offered to the client. *)
Definition offered (ops : list client_op) : list SignalEvent :=
  flat_map (fun op => match op with OpEnqueue e => [e] | _ => [] end) ops.

(** Whatever was sent or waits was offered, no more often than it was offered. *)
Definition accounted (st : hubClient * list SignalEvent) (events : list SignalEvent) : Prop :=
  confirmed (sent_log st ++ hcPending st.1) ⊆+ confirmed events.

Lemma close_client_inv c received :
  client_inv (c, received) -> hcClosed c = false ->
  exists c', close_client c = Some c' /\ client_inv (c', received) /\
    sent_log (c', received) = sent_log (c, received) /\ hcPending c' = hcPending c.
Proof.
  intros [Hcl Hcap Hbuf Hw Hact0 Hs Hl Hm] Hc. unfold close_client, chan_close. cbn in *. rewrite Hcl, Hc. cbn.
  eexists. split; [done|]. split; [|done]. split; cbn; done.
Qed.

Lemma enqueue_inv c received e :
  client_inv (c, received) ->
  exists c', enqueue c e = Some c' /\ client_inv (c', received) /\
    confirmed (sent_log (c', received) ++ hcPending c') ⊆+
    confirmed (sent_log (c, received) ++ hcPending c) ++ confirmed [e].
Proof.
  intros Hinv. pose proof Hinv as [Hcl Hcap Hbuf Hw Hact0 Hs Hl Hm]. unfold enqueue.
  assert (Hsame : forall c', client_inv (c', received) ->
    sent_log (c', received) = sent_log (c, received) -> hcPending c' = hcPending c ->
    confirmed (sent_log (c', received) ++ hcPending c') ⊆+
    confirmed (sent_log (c, received) ++ hcPending c) ++ confirmed [e]).
  { intros c' _ -> ->. apply submseteq_inserts_r. done. }
  destruct (matches (hcFilter c) e) eqn:Hmatch; cbn [negb]; [|eauto 10].
  destruct (hcClosed c) eqn:Hclosed; [eauto 10|].
  destruct (_ && _) eqn:Hold; [eauto 10|].
  assert (Hnew : 0 < evCursor e -> hcLastCursor c < evCursor e) by lia.
  destruct (close_client_inv c received Hinv Hclosed) as (cc & Hcc & Hci & Hcl1 & Hcl2).
  destruct (hcActive c) eqn:Hact; cbn [negb].
  - unfold chan_try_send. cbn in Hcl. rewrite Hcl, Hclosed.
    destruct (Z.ltb_spec (len (chBuf (hcSend c))) (chCap (hcSend c))); cbn [mbind option_bind];
      [|rewrite Hcc; eauto 10].
    match goal with |- exists c', Some ?x = _ /\ _ => exists x; set (c1 := x) end. split; [done|].
    assert (Hlog : sent_log (c1, received) = sent_log (c, received) ++ [e])
      by (unfold sent_log; cbn; by rewrite app_assoc).
    destruct (log_snoc _ _ _ Hs Hl Hnew) as [Hs' Hl'].
    split; [|rewrite Hlog; cbn [hcPending c1]; rewrite !confirmed_app, <-!app_assoc;
      by rewrite (Permutation_app_comm (confirmed [e]))].
    split; rewrite ?Hlog; cbn; try done.
    + rewrite len_snoc. lia.
    + intros _. by apply Hact0.
    + rewrite <-app_assoc. apply Forall_app in Hm as [Hm1 Hm2]. cbn in Hm2.
      apply Forall_app. split; [done|]. by constructor.
  - destruct (Z.leb_spec (chCap (hcSend c)) (len (hcPending c))); [rewrite Hcc; eauto 10|].
    match goal with |- exists c', Some ?x = _ /\ _ => exists x; set (c1 := x) end. split; [done|].
    assert (Hlog : sent_log (c1, received) = sent_log (c, received)) by done.
    destruct (Hw Hact Hclosed) as (Hlog0 & Hlast & Hlen). cbn in Hlast, Hlen.
    split; [|rewrite Hlog; cbn [hcPending c1]; rewrite !confirmed_app; by rewrite app_assoc].
    split; rewrite ?Hlog; cbn; try done.
    + cbn in Hcl. congruence.
    + intros _ _. split_and!; try done. rewrite len_snoc. lia.
    + rewrite app_assoc. apply Forall_app. split; [done|]. by apply Forall_singleton.
Qed.

Lemma kept_sublist a events : kept a events `sublist_of` events.
Proof. unfold kept. induction events as [|x l IH]; cbn; [done|]. destruct (negb _); by constructor. Qed.

Lemma confirmed_submseteq l k : l ⊆+ k -> confirmed l ⊆+ confirmed k.
Proof.
  induction 1 as [|x l k _ IH|x y l|x l k _ IH|l1 l2 l3 _ IH1 _ IH2]; [done| | | |by etrans].
  - change (x :: l) with ([x] ++ l). change (x :: k) with ([x] ++ k). rewrite !confirmed_app.
    by apply submseteq_app.
  - change (y :: x :: l) with ([y] ++ [x] ++ l). change (x :: y :: l) with ([x] ++ [y] ++ l).
    rewrite !confirmed_app, !app_assoc, (Permutation_app_comm (confirmed [y])). done.
  - change (x :: k) with ([x] ++ k). rewrite confirmed_app. by apply submseteq_inserts_l.
Qed.

Lemma sorted_pending c : sorted_by cursor_less (sort_stable cursor_less (hcPending c)).
Proof. apply sort_stable_sorted, strict_weak_cursor. Qed.

Lemma activate_inv c received a :
  client_inv (c, received) ->
  exists c', activate c a = Some c' /\ client_inv (c', received) /\
    confirmed (sent_log (c', received) ++ hcPending c') ⊆+ confirmed (sent_log (c, received) ++ hcPending c).
Proof.
  intros Hinv. destruct (hcClosed c) eqn:Hclosed.
  { exists c. unfold activate. rewrite Hclosed. auto. }
  pose proof Hinv as [Hcl Hcap Hbuf Hw Hact0 Hs Hl Hm]. destruct (hcActive c) eqn:Hact.
  - unfold activate. rewrite Hclosed. cbn in Hact0. rewrite (Hact0 Hact). cbn.
    eexists. split; [done|]. split; [|done].
    cbn in *. rewrite (Hact0 Hact) in Hm. split; cbn; try done; [congruence|].
    eapply Forall_impl; [exact Hl|]. cbn. intros x Hx. destruct (Z.ltb_spec (hcLastCursor c) a); lia.
  - rewrite (activate_ok c received a Hinv Hact Hclosed). cbn in Hw.
    destruct (Hw Hact Hclosed) as (Hlog & Hlast & Hlen).
    set (sorted := sort_stable cursor_less (hcPending c)).
    match goal with |- exists c', Some ?x = _ /\ _ => exists x; set (c1 := x) end. split; [done|].
    assert (Hsend : sent_log (c1, received) = kept a sorted).
    { unfold sent_log in *. cbn in *. by apply app_eq_nil in Hlog as [-> _]. }
    pose proof (sorted_confirmed a sorted (sorted_pending c)) as Hsort.
    split.
    + split; rewrite ?Hsend; cbn; try done.
      * etrans; [|exact Hlen]. unfold len. pose proof (sublist_length _ _ (kept_sublist a sorted)) as Hsl.
        unfold sorted in Hsl. rewrite sort_stable_length in Hsl. fold sorted in Hsl. lia.
      * destruct (fold_cursor_bound (kept a sorted) 0 Hsort) as [Hb _].
        { apply Forall_forall. intros x. unfold confirmed. rewrite list_elem_of_In. intros [_ ?]%filter_In. lia. }
        eapply Forall_impl; [exact Hb|]. cbn. fold sorted. lia.
      * rewrite app_nil_r. apply Forall_forall. intros e He%kept_elem. unfold sorted in He.
        rewrite sort_stable_perm in He. cbn in Hm. apply Forall_app in Hm as [_ Hm].
        rewrite Forall_forall in Hm. by apply Hm.
    + change (sent_log (c, received)) with (received ++ chBuf (hcSend c)).
      rewrite Hsend, Hlog. cbn [hcPending c1 app]. rewrite app_nil_r. apply confirmed_submseteq.
      rewrite <-(sort_stable_perm cursor_less (hcPending c)). apply sublist_submseteq, kept_sublist.
Qed.

Lemma recv_inv c received :
  client_inv (c, received) ->
  exists st', client_step (c, received) OpRecv = Some st' /\ client_inv st' /\
    sent_log st' = sent_log (c, received) /\ hcPending st'.1 = hcPending c.
Proof.
  intros Hinv. pose proof Hinv as [Hcl Hcap Hbuf Hw Hact0 Hs Hl Hm]. cbn [client_step]. unfold chan_recv.
  destruct (chBuf (hcSend c)) as [|e buf] eqn:Hb.
  - rewrite app_nil_r. destruct c as [f [cap b cl] act p lc cd]. cbn in Hb. subst b.
    eexists. split; [done|]. split; [exact Hinv|done].
  - match goal with |- exists c', Some ?x = _ /\ _ => exists x; set (st1 := x) end. split; [done|].
    assert (Hlog : sent_log st1 = sent_log (c, received)).
    { unfold sent_log. cbn. rewrite Hb, <-app_assoc. done. }
    split; [|done]. split; rewrite ?Hlog; cbn in *; try done.
    rewrite Hb, len_cons in Hbuf. lia.
Qed.

(** The replay cursors a run passes are not negative. *)
Definition op_ok (op : client_op) : Prop :=
  match op with OpActivate a => 0 <= a | _ => True end.

Lemma client_step_inv st op :
  client_inv st -> op_ok op ->
  exists st', client_step st op = Some st' /\ client_inv st' /\ hcFilter st'.1 = hcFilter st.1 /\
    confirmed (sent_log st' ++ hcPending st'.1) ⊆+
    confirmed (sent_log st ++ hcPending st.1) ++ confirmed (offered [op]).
Proof.
  destruct st as [c received]. intros Hinv Hop. destruct op as [e|a| |].
  - destruct (enqueue_inv c received e Hinv) as (c' & He & Hi & Hs). cbn. rewrite He. cbn.
    eexists. split; [done|]. split_and!; try done.
    revert He. unfold enqueue, close_client, chan_close, chan_try_send.
    repeat (case_match; cbn; try done); intros; by simplify_eq.
  - destruct (activate_inv c received a Hinv) as (c' & He & Hi & Hs). cbn. rewrite He. cbn.
    eexists. split; [done|]. split_and!; try done; [|by rewrite app_nil_r].
    destruct (hcClosed c) eqn:Hclosed.
    { unfold activate in He. rewrite Hclosed in He. by simplify_eq. }
    destruct (hcActive c) eqn:Hact.
    + unfold activate in He. rewrite Hclosed in He. pose proof (ci_active _ Hinv Hact) as Hp. cbn in Hp.
      rewrite Hp in He. change (sort_stable cursor_less []) with (@nil SignalEvent) in He.
      cbn in He. by simplify_eq.
    + rewrite (activate_ok c received a Hinv Hact Hclosed) in He. by simplify_eq.
  - cbn [client_step]. unfold close. destruct (hcClosed c) eqn:Hclosed; cbn [negb mbind option_bind].
    + eexists. split; [done|]. by rewrite app_nil_r.
    + destruct (close_client_inv c received Hinv Hclosed) as (c' & He & Hi & Hl & Hp). rewrite He.
      cbn [mbind option_bind]. eexists. split; [done|]. split_and!; [done| |].
      2:{ cbn [fst]. rewrite Hl, Hp. by rewrite app_nil_r. }
      unfold close_client in He. apply bind_Some in He as (ch & _ & [= <-]). done.
  - destruct (recv_inv c received Hinv) as (st' & He & Hi & Hl & Hp). rewrite He.
    eexists. split; [done|]. split_and!; [done| |rewrite Hl, Hp; by rewrite app_nil_r].
    cbn in He. destruct (chan_recv _). by simplify_eq.
Qed.

(** Runs of a client. *)
Lemma client_run_inv ops st :
  client_inv st -> Forall op_ok ops ->
  exists st', loop client_step ops st = Some st' /\ client_inv st' /\ hcFilter st'.1 = hcFilter st.1 /\
    confirmed (sent_log st' ++ hcPending st'.1) ⊆+
    confirmed (sent_log st ++ hcPending st.1) ++ confirmed (offered ops).
Proof.
  intros Hinv Hops. revert st Hinv. induction Hops as [|op ops Hop Hops IH]; intros st Hinv; cbn [loop].
  - exists st. split_and!; try done. by rewrite app_nil_r.
  - destruct (client_step_inv st op Hinv Hop) as (st1 & -> & Hi1 & Hf1 & Hs1). cbn [mbind option_bind].
    destruct (IH st1 Hi1) as (st2 & -> & Hi2 & Hf2 & Hs2). exists st2. split_and!; try done; [congruence|].
    assert (Ho : confirmed (offered (op :: ops)) = confirmed (offered [op]) ++ confirmed (offered ops))
      by (by rewrite <-confirmed_app; unfold offered; rewrite <-flat_map_app).
    etrans; [exact Hs2|]. rewrite Ho, app_assoc. by apply submseteq_app.
Qed.

Lemma sorted_le_NoDup_lt (l : list Z) : StronglySorted Z.le l -> NoDup l -> StronglySorted Z.lt l.
Proof.
  induction 1 as [|x l Hs IH Hx]; intros Hn; [constructor|]. apply NoDup_cons in Hn as [Hnx Hn].
  constructor; [auto|]. rewrite Forall_forall in *. intros y Hy. specialize (Hx y Hy).
  assert (x <> y) by (by intros ->). lia.
Qed.

(** ** The hub *)

(** Every client of the hub is in a state that its own operations lead to. *)
Definition hub_ok (h : Hub) : Prop := map_Forall (fun _ c => exists received, client_inv (c, received)) h.

Lemma publish_loop clients (h : Hub) e :
  NoDup (map fst clients) -> Forall (fun kc => exists r, client_inv (kc.2, r)) clients ->
  exists h', loop (fun h '(id, client) => client' ← enqueue client e; Some (<[id := client']> h)) clients h = Some h' /\
    (forall id, id ∉ map fst clients -> h' !! id = h !! id) /\
    (forall id c, (id, c) ∈ clients -> h' !! id = enqueue c e).
Proof.
  intros Hnd Hall. revert h Hnd. induction Hall as [|[id c] clients [r Hinv] Hall IH]; intros h Hnd; cbn [loop map fst] in *.
  { exists h. split_and!; [done..|set_solver]. }
  apply NoDup_cons in Hnd as [Hni Hnd]. destruct (enqueue_inv c r e Hinv) as (c' & Hen & _).
  rewrite Hen. cbn [mbind option_bind]. destruct (IH (<[id := c']> h) Hnd) as (h' & Hrun & H1 & H2).
  exists h'. split_and!; [done| |].
  - intros id' Hid'. rewrite H1 by set_solver. apply lookup_insert_ne. set_solver.
  - intros id' c0 [[= -> ->]|Hin]%elem_of_cons; [|by apply H2]. rewrite H1, Hen by done. apply lookup_insert_eq.
Qed.

(** Publishing is independent of the order in which clients are visited: each
    gets exactly its own [enqueue]. *)
Lemma Hub_Publish_ok `{Runtime} h e :
  hub_ok h ->
  exists h', Hub_Publish h e = Some h' /\ hub_ok h' /\ forall id, h' !! id = h !! id ≫= fun c => enqueue c e.
Proof.
  intros Hok. assert (Hin : forall id c, (id, c) ∈ map_range h <-> h !! id = Some c).
  { intros id c. rewrite map_range_perm. apply elem_of_map_to_list. }
  destruct (publish_loop (map_range h) h e) as (h' & Hrun & H1 & H2).
  - rewrite map_range_perm. apply NoDup_fst_map_to_list.
  - apply Forall_forall. intros [id c] Hc%Hin. exact (Hok id c Hc).
  - assert (Hall : forall id, h' !! id = h !! id ≫= fun c => enqueue c e).
    { intros id. destruct (h !! id) as [c|] eqn:E; cbn.
      - by apply H2, Hin.
      - rewrite H1; [done|]. intros ([id' c] & Ec & Hc%list_elem_of_In)%list_elem_of_In%in_map_iff.
        cbn in Ec. subst id'. apply Hin in Hc. congruence. }
    exists h'. split_and!; [done| |done]. intros id c Hc. rewrite Hall in Hc.
    destruct (h !! id) as [c0|] eqn:E; cbn in Hc; [|done]. destruct (Hok id c0 E) as [r Hinv].
    destruct (enqueue_inv c0 r e Hinv) as (c1 & Hen & Hi & _). rewrite Hen in Hc. injection Hc as <-. eauto.
Qed.
