(* ===== verification/Server.v ===== *)
(** * The public server (internal/api/server.go)

    Requests in, responses out: authentication, cross-origin rules, the REST
    handlers, and the messages of a WebSocket subscription up to the replay.
    A handler is a function of the request and of what the service holds at the
    moment it runs; sockets, timeouts and JSON encoding are left to the
    libraries, and so is the answer to a request that no route takes. *)

From stdpp Require Import prelude gmap strings list.
From Stdlib Require Import ZArith Lia SpecFloat Ascii String.
From S2P Require Import Prelude GoFloat GoText Sha256 GoStrings Monitor Model Ema MarketZones.
From S2P Require Import StoreSpec Memory Lane Registry Contract Hub.

#[local] Open Scope string_scope.
#[local] Open Scope list_scope.
#[local] Open Scope Z_scope.

(** ** The store as the server sees it *)

Class EventStore (S : Type) := {
  es_QueryEvents : S -> EventFilter -> outcome StoreError (list SignalEvent);
  es_QueryRecentPoints : S -> PointFilter -> outcome StoreError (list SignalEvent);
  es_Ping : S -> outcome StoreError unit
}.

#[global] Instance memory_events `{Runtime} : EventStore Memory := {|
  es_QueryEvents s filter := Ok (Memory_QueryEvents s filter);
  es_QueryRecentPoints s filter :=
    match Memory_QueryRecentPoints s filter with Some points => Ok points | None => Panic end;
  es_Ping := Memory_Ping
|}.

(** ** Wire messages *)

Inductive SubscriptionError :=
  | SubNoSeries
  | SubSelector
  | SubTimeframe (timeframe : string)
  | SubAnalysisName
  | SubEventType
  | SubStatus
  | SubResume
  | SubHistory.

(** The message of an error: a text of the server, or the text of an error. *)
Inductive errorText :=
  | Text (text : string)
  | SubscriptionText (e : SubscriptionError)
  | ConversionText (e : ContractError).

Record wireError := mkWireError {
  weCode : string;
  weMessage : errorText;
  weRetryable : bool
}.

Record catalogEntry := mkCatalogEntry {
  ceID : string;
  ceName : string;
  cePeriod : option Z;
  ceImplementation : implementationRef;
  ceStatuses : list string;
  ceOutputs : list (string * string * string * displayHint)
}.

Inductive wireData :=
  | NoData
  | EventsData (events : list analysisEvent)
  | EventData (event : analysisEvent)
  | SubscribedData (serverTime heartbeatSeconds : Z) (delivery : string)
  | CatalogData (eventTypes : list string) (analyses : list catalogEntry).

Record wireEnvelope := mkEnvelope {
  envProtocol : string;
  envType : string;
  envRequestID : string;
  envSubscriptionID : string;
  envCursor : string;
  envData : wireData;
  envError : option wireError
}.

Definition protocolError (requestID code : string) (message : errorText) (retryable : bool) : wireEnvelope :=
  mkEnvelope protocolVersion "error" requestID "" "" NoData (Some (mkWireError code message retryable)).

(** ** Requests and responses *)

(** A request as the handlers read it: [rqQuery] is [URL.Query().Get],
    [rqHeader] is [Header.Get], and [rqProtocols] what
    [websocket.Subprotocols] returns for it. *)
Record Request := mkRequest {
  rqMethod : string;
  rqPath : string;
  rqQuery : string -> string;
  rqHeader : string -> string;
  rqProtocols : list string
}.

Inductive Body :=
  | JSONBody (envelope : wireEnvelope)
  | StatusBody (status : string)
  | ReadyBody (status store indicators upstream outbox : bool)
  | TextBody (text : string)
  | EmptyBody
  | Upgraded (subprotocol : string).

Record Response := mkResponse {
  rsStatus : Z;
  rsHeaders : gmap string string;
  rsBody : Body
}.

(** A handler gets the headers that were set before it; [None] is a panic. *)
Definition Handler : Type := Request -> gmap string string -> option Response.

Definition writeJSON (headers : gmap string string) (status : Z) (body : Body) : Response :=
  mkResponse status (<["Content-Type" := "application/json"]> headers) body.

Definition writeError (headers : gmap string string) (status : Z) (code message : string) : Response :=
  writeJSON headers status (JSONBody (protocolError "" code (Text message) (500 <=? status))).

(** ** Options *)

Record ServerOptions := mkServerOptions {
  soAddr : string;
  soAuthToken : string;
  soInsecureNoAuth : bool;
  soAllowedOrigins : list string;
  soPeriods : list Z;
  soComplete : bool;
  soShutdownTimeout : Z
}.

Record Server := mkServer {
  svOptions : ServerOptions;
  svOrigins : gset string
}.

Inductive ServerError := ServerIncomplete | ServerNoToken.

(** [soComplete] stands for the registry, event store, hub and metrics being
    there. *)
Definition NewServer (options : ServerOptions) : outcome ServerError Server :=
  if (soAddr options =? "")%string || negb (soComplete options) then Fail ServerIncomplete
  else if negb (soInsecureNoAuth options) && (soAuthToken options =? "")%string then Fail ServerNoToken
  else
    let timeout := if soShutdownTimeout options <=? 0 then 15 * second else soShutdownTimeout options in
    Ok (mkServer (mkServerOptions (soAddr options) (soAuthToken options) (soInsecureNoAuth options)
                    (soAllowedOrigins options) (soPeriods options) true timeout)
          (list_to_set (soAllowedOrigins options))).

(** What the service holds when a request arrives. *)
Record Backend (S : Type) := mkBackend {
  bkRegistry : Registry;
  bkStore : S;
  bkMetrics : Metrics;
  bkNow : Z
}.
Arguments mkBackend {S}.
Arguments bkRegistry {S}.
Arguments bkStore {S}.
Arguments bkMetrics {S}.
Arguments bkNow {S}.

(** ** Credentials and origins *)

(** The first subprotocol that carries a token. *)
Fixpoint protocol_credentials (protocols : list string) : string * string :=
  match protocols with
  | [] => ("", "")
  | protocol :: rest =>
      match strip_prefix "bearer." protocol with
      | None => protocol_credentials rest
      | Some encoded =>
          match base64_decode encoded with
          | Some bytes => (string_of_bytes bytes, protocol)
          | None => protocol_credentials rest
          end
      end
  end.

Definition requestCredentials (request : Request) : string * string :=
  match strip_prefix "Bearer " (rqHeader request "Authorization") with
  | Some rest => (trim_space rest, "")
  | None => protocol_credentials (rqProtocols request)
  end.

(** [subtle.ConstantTimeCompare] of equally long strings decides equality. *)
Definition authorized (server : Server) (request : Request) : bool :=
  soInsecureNoAuth (svOptions server) ||
  (let '(provided, _) := requestCredentials request in
   (String.length provided =? String.length (soAuthToken (svOptions server)))%nat &&
   (provided =? soAuthToken (svOptions server))%string).

Definition auth (server : Server) (next : Handler) : Handler := fun request headers =>
  if authorized server request then next request headers
  else Some (writeError (<["WWW-Authenticate" := "Bearer"]> headers) 401 "unauthorized" "unauthorized").

Definition originAllowed (server : Server) (origin : string) : bool :=
  (origin =? "")%string || bool_decide (origin ∈ svOrigins server).

Definition cors_headers (origin : string) (headers : gmap string string) : gmap string string :=
  <["Vary" := "Origin"]> (<["Access-Control-Allow-Methods" := "GET, OPTIONS"]>
    (<["Access-Control-Allow-Headers" := "Authorization, Content-Type"]>
      (<["Access-Control-Allow-Origin" := origin]> headers))).

Definition cors (server : Server) (next : Handler) : Handler := fun request headers =>
  let origin := rqHeader request "Origin" in
  let headers := if negb (origin =? "")%string && originAllowed server origin
                 then cors_headers origin headers else headers in
  if (rqMethod request =? "OPTIONS")%string then
    if (origin =? "")%string || negb (originAllowed server origin)
    then Some (mkResponse 403 (<["Content-Type" := "text/plain; charset=utf-8"]> headers) (TextBody "origin not allowed"))
    else Some (mkResponse 204 headers EmptyBody)
  else next request headers.

Definition security (next : Handler) : Handler := fun request headers =>
  next request (<["Referrer-Policy" := "no-referrer"]> (<["X-Frame-Options" := "DENY"]>
    (<["X-Content-Type-Options" := "nosniff"]> headers))).

(** ** REST handlers *)

Definition health : Handler := fun _ headers => Some (writeJSON headers 200 (StatusBody "ok")).

(** The catalog: one entry per period, then the market analysis under the
    hash of its configuration. *)
Definition ema_entry (period : Z) : catalogEntry :=
  let configHash := indicatorConfigHash "ema" EMAAlgorithmVersion period in
  mkCatalogEntry ("ema:" +:+ configHash) "ema" (Some period)
    (mkImplementationRef "ytstack-native" EMAAlgorithmVersion EMAAlgorithmVersion configHash)
    ["confirmed"; "provisional"] [("value", "number", "price", mkDisplay "line" "price" "" 0)].

Definition market_entry : catalogEntry :=
  let market := MarketAlgorithm DefaultMarketConfig in
  mkCatalogEntry (aName market +:+ ":" +:+ aConfigHash market) (aName market) None
    (mkImplementationRef "ytstack-native" (aVersion market) (aVersion market) (aConfigHash market))
    ["confirmed"] marketOutputCatalog.

Definition catalog (server : Server) : list catalogEntry :=
  map ema_entry (soPeriods (svOptions server)) ++ [market_entry].

Definition algorithms (server : Server) : Handler := fun _ headers =>
  Some (writeJSON headers 200 (JSONBody (mkEnvelope protocolVersion "catalog" "" "" ""
    (CatalogData [analysisEventType] (catalog server)) None))).

Definition conversion_failed (headers : gmap string string) (what : string) : Response :=
  writeError headers 500 "conversion_failed" (what +:+ " conversion failed").

Definition snapshot_page (headers : gmap string string) (events : list analysisEvent) : Response :=
  writeJSON headers 200 (JSONBody (mkEnvelope protocolVersion "snapshot" "" "" "" (EventsData events) None)).

(** The loop over all snapshots. *)
Fixpoint convert_snapshots (now : Z) (snapshots : list SeriesSnapshot)
  : outcome ContractError (list analysisEvent) :=
  match snapshots with
  | [] => Ok []
  | snapshot :: rest =>
      converted ← snapshotAnalysisEvents snapshot now;
      events ← convert_snapshots now rest;
      Ok (converted ++ events)
  end.

Section Handlers.
Context `{Runtime} {S : Type} `{EventStore S}.

Definition ready (b : Backend S) : Handler := fun _ headers =>
  registryReady ← Registry_Ready (bkRegistry b);
  let storeReady := match es_Ping (bkStore b) with Ok _ => true | _ => false end in
  let upstreamReady := Connected (bkMetrics b) in
  let outboxReady := OutboxHealthy (bkMetrics b) in
  let status := if negb storeReady || negb registryReady || negb upstreamReady || negb outboxReady
                then 503 else 200 in
  Some (writeJSON headers status
          (ReadyBody (status =? 200) storeReady registryReady upstreamReady outboxReady)).

Definition metrics (b : Backend S) : Handler := fun _ headers =>
  snapshots ← Registry_Snapshots (bkRegistry b);
  let ready := len (List.filter (fun s => ssReady s && bool_decide (is_Some (ssLastClosedTime s))) snapshots) in
  Some (mkResponse 200 (<["Content-Type" := "text/plain; version=0.0.4"]> headers)
    (TextBody (WritePrometheus (bkMetrics b) (bkNow b)
       ((ready =? len snapshots) && Connected (bkMetrics b) && OutboxHealthy (bkMetrics b)) (len snapshots) ready))).

Definition snapshots (b : Backend S) : Handler := fun request headers =>
  let symbol := rqQuery request "symbol" in
  let timeframe := rqQuery request "timeframe" in
  if negb (symbol =? "")%string || negb (timeframe =? "")%string then
    if (symbol =? "")%string || (timeframe =? "")%string
    then Some (writeError headers 400 "invalid_query" "symbol and timeframe must be provided together")
    else
      found ← Registry_Snapshot (bkRegistry b) symbol timeframe;
      match found with
      | None => Some (writeError headers 404 "series_not_found" "series is not configured")
      | Some snapshot =>
          Some match snapshotAnalysisEvents snapshot (bkNow b) with
               | Ok events => snapshot_page headers events
               | _ => conversion_failed headers "snapshot"
               end
      end
  else
    all ← Registry_Snapshots (bkRegistry b);
    Some match convert_snapshots (bkNow b) all with
         | Ok events => snapshot_page headers events
         | _ => conversion_failed headers "snapshot"
         end.

(** The filter a query asks for, or the message of the error. *)
Definition query_filter (request : Request) : string + EventFilter :=
  let after := rqQuery request "resume_after" in
  let limit := rqQuery request "limit" in
  match (if (after =? "")%string then Some 0
         else n ← atoi after; if n <? 0 then None else Some n) with
  | None => inl "resume_after must be a non-negative integer string"
  | Some afterCursor =>
      match (if (limit =? "")%string then Some 0
             else n ← atoi limit; if (n <=? 0) || (5000 <? n) then None else Some n) with
      | None => inl "limit must be from 1 to 5000"
      | Some limit =>
          inr (mkEventFilter afterCursor (rqQuery request "dataset") (rqQuery request "symbol")
                 (rqQuery request "timeframe") 0 "" (rqQuery request "analysis") limit)
      end
  end.

Definition next_page_cursor (filter : EventFilter) (events : list SignalEvent) : string :=
  match last events with
  | Some event => itoa (evCursor event)
  | None => itoa (efAfterCursor filter)
  end.

Definition signals (b : Backend S) : Handler := fun request headers =>
  match query_filter request with
  | inl message => Some (writeError headers 400 "invalid_query" message)
  | inr filter =>
      match es_QueryEvents (bkStore b) filter with
      | Panic => None
      | Fail _ => Some (writeError headers 500 "query_failed" "query failed")
      | Ok events =>
          Some match toAnalysisEvents events (bkNow b) with
               | Ok converted =>
                   writeJSON headers 200 (JSONBody (mkEnvelope protocolVersion "page" "" ""
                     (next_page_cursor filter events) (EventsData converted) None))
               | _ => conversion_failed headers "event"
               end
      end
  end.

(** ** Routes *)

(** What the WebSocket library answers to an upgrade request, given whether the
    origin is allowed and the subprotocol offered, and what the mux answers to
    a request that no route takes. *)
Variable upgrade : Request -> bool -> string -> gmap string string -> Response.
Variable unmatched : Request -> gmap string string -> Response.

Definition websocket_upgrade (server : Server) : Handler := fun request headers =>
  Some (upgrade request (originAllowed server (rqHeader request "Origin")) (requestCredentials request).2 headers).

(** The patterns are for [GET], which the mux also takes for [HEAD]. *)
Definition mux (server : Server) (b : Backend S) : Handler := fun request headers =>
  let path := rqPath request in
  if negb ((rqMethod request =? "GET")%string || (rqMethod request =? "HEAD")%string)
  then Some (unmatched request headers)
  else if (path =? "/healthz")%string then health request headers
  else if (path =? "/readyz")%string then ready b request headers
  else if (path =? "/metrics")%string then metrics b request headers
  else if (path =? "/v1/catalog")%string then auth server (algorithms server) request headers
  else if (path =? "/v1/snapshots")%string then auth server (snapshots b) request headers
  else if (path =? "/v1/events")%string then auth server (signals b) request headers
  else if (path =? "/v1/ws")%string then auth server (websocket_upgrade server) request headers
  else Some (unmatched request headers).

Definition serve (server : Server) (b : Backend S) (request : Request) : option Response :=
  security (cors server (mux server b)) request ∅.
End Handlers.
