(* ===== verification/Main.v ===== *)
(** * Wiring (cmd/signald/main.go)

    The publishers of the outbox and the start of the service, from its
    environment to the recovery of the outbox.  The opened database and broker
    are arguments here: Migrations and BrokerOpen model how they are opened,
    and Run goes on to the end of the process. *)

From stdpp Require Import prelude gmap strings list.
From Stdlib Require Import ZArith Lia String.
From S2P Require Import Prelude GoFloat GoText Sha256 GoStrings Monitor Model Ema MarketZones MarketReducer.
From S2P Require Import StoreSpec Memory Postgres Lane Outbox Registry Config Input Contract Broker Hub Server.

#[local] Open Scope string_scope.
#[local] Open Scope list_scope.
#[local] Open Scope Z_scope.

(** ** The store of the server *)

#[global] Instance postgres_events `{Codec} `{Runtime} : EventStore Postgres := {|
  es_QueryEvents := Postgres_QueryEvents;
  es_QueryRecentPoints := Postgres_QueryRecentPoints;
  es_Ping := Postgres_Ping
|}.

(** ** Publishers *)

Section Publishers.
Context {C : Type} `{Connection C} `{Runtime}.

(** An [outbox.Publisher] of this service. *)
Inductive servicePublisher :=
  | StreamPublisher (stream : JetStream C)
  | HubPublisher (hub : Hub).

(** The text a broker error starts with. *)
Definition broker_error_text (e : BrokerError) : string :=
  match e with
  | BrokerNoSourceBar => "publish evaluation fact: source bar is required"
  | BrokerEncode _ => "encode market facts"
  | BrokerConfirmed text => "publish confirmed evaluation fact: " +:+ text
  | BrokerFacts text => "publish market facts: " +:+ text
  | BrokerReplaceable text => "replaceable evaluation snapshot publish failed: " +:+ text
  | BrokerPublish text => "publish evaluation fact: " +:+ text
  end.

(** [hubPublisher.Publish] *)
Definition hubPublisher_Publish (hub : Hub) (event : SignalEvent) : Hub * outcome string unit :=
  match Hub_Publish hub event with
  | Some hub' => (hub', Ok tt)
  | None => (hub, Panic)
  end.

Definition publish_to (p : servicePublisher) (event : SignalEvent) (now : Z)
  : servicePublisher * outcome string unit :=
  match p with
  | StreamPublisher stream =>
      let '(stream, r) := JetStream_Publish stream event now in
      (StreamPublisher stream, wrap_err broker_error_text r)
  | HubPublisher hub =>
      let '(hub, r) := hubPublisher_Publish hub event in (HubPublisher hub, r)
  end.

(** [multiPublisher.Publish]: each publisher in turn, up to the first
    error. *)
Fixpoint publish_each (publishers : list servicePublisher) (event : SignalEvent) (now : Z)
  : list servicePublisher * outcome string unit :=
  match publishers with
  | [] => ([], Ok tt)
  | p :: rest =>
      match publish_to p event now with
      | (p, Ok _) => let '(rest, r) := publish_each rest event now in (p :: rest, r)
      | (p, r) => (p :: rest, r)
      end
  end.

(** The publishers, the readings of the clock and how many were taken. *)
Record multiPublisher := mkMulti {
  mpPublishers : list servicePublisher;
  mpClock : nat -> Z;
  mpTurn : nat
}.

Definition multiPublisher_Publish (p : multiPublisher) (event : SignalEvent) : multiPublisher * outcome string unit :=
  let '(publishers, r) := publish_each (mpPublishers p) event (mpClock p (mpTurn p)) in
  (mkMulti publishers (mpClock p) (Datatypes.S (mpTurn p)), r).

#[global] Instance multi_outbox : OutboxPublisher multiPublisher := {| ob_publish := multiPublisher_Publish |}.
End Publishers.
Arguments servicePublisher C : clear implicits.
Arguments multiPublisher C : clear implicits.

(** ** Options from the configuration *)

Definition enabled (url : string) : bool := negb (url =? "")%string.

Definition registry_options (settings : Config) : RegistryOptions :=
  mkRegistryOptions (cfSeries settings) (cfPeriods settings) (cfMailboxSize settings) (cfSnapshotEvery settings)
    true true (enabled (cfNATSURL settings)) true.

Definition ohlc_options (settings : Config) : OHLCOptions :=
  mkOHLCOptions (cfOHLCWebSocketURL settings) (cfSeries settings) (cfSeedBars settings) true 0 0 0.

Definition server_options (settings : Config) : ServerOptions :=
  mkServerOptions (cfHTTPAddr settings) (cfAPIAuthToken settings) (cfInsecureNoAuth settings)
    (cfAllowedOrigins settings) (cfPeriods settings) true (cfShutdownTimeout settings).

(** [int32(n)] *)
Definition wrap_i32 (z : Z) : Z := (z + 2 ^ 31) `mod` 2 ^ 32 - 2 ^ 31.

Inductive StartError :=
  | StartConfig (e : ConfigError)
  | StartStore (text : string)
  | StartBroker (text : string)
  | StartRegistry (e : RegistryError)
  | StartClient
  | StartServer (e : ServerError)
  | StartOutbox (text : string).

Section Startup.
Context {S C : Type} `{OutboxStore S} `{Connection C} `{Runtime}.

(** The service once it has started. *)
Record started := mkStarted {
  stSettings : Config;
  stStore : S;
  stPublishers : multiPublisher C;
  stRegistry : Registry;
  stUpstream : OHLCOptions;
  stServer : Server
}.

(** The store that stands for [store.NewMemory()], [store.OpenPostgres], and
    the connection [broker.Open] makes. *)
Variable memory_store : S.
Variable OpenPostgres : string -> Z -> outcome string S.
Variable Open : string -> string -> Z -> outcome string C.

Definition openStore (settings : Config) : outcome string S :=
  if (cfDatabaseURL settings =? "")%string then Ok memory_store
  else OpenPostgres (cfDatabaseURL settings) (wrap_i32 (cfDatabaseMaxConns settings)).

Definition open_publishers (settings : Config) : outcome StartError (list (servicePublisher C)) :=
  if enabled (cfNATSURL settings) then
    connection ← wrap_err StartBroker (Open (cfNATSURL settings) (cfNATSToken settings) (cfNATSReplicas settings));
    Ok [StreamPublisher (mkJetStream connection ∅)]
  else Ok [].

(** [run] up to the goroutines.  [None]: the recovery of the outbox has not
    ended within its fuel. *)
Definition start (fuel : nat) (lookup : lookupFunc) (clock : nat -> Z) : option (outcome StartError started) :=
  match (settings ← wrap_err StartConfig (load lookup);
         persistence ← wrap_err StartStore (openStore settings);
         publishers ← open_publishers settings;
         registry ← wrap_err StartRegistry (NewRegistry (registry_options settings));
         upstream ← match NewOHLCClient (ohlc_options settings) with Some o => Ok o | None => Fail StartClient end;
         server ← wrap_err StartServer (NewServer (server_options settings));
         Ok (mkStarted settings persistence (mkMulti (publishers ++ [HubPublisher NewHub]) clock 0)
               registry upstream server)) with
  | Ok sv =>
      match Flush fuel (stStore sv) (stPublishers sv) with
      | Some (s, p, Ok _) =>
          Some (Ok (mkStarted (stSettings sv) s p (stRegistry sv) (stUpstream sv) (stServer sv)))
      | Some (_, _, Fail e) => Some (Fail (StartOutbox e))
      | Some (_, _, Panic) => Some Panic
      | None => None
      end
  | Fail e => Some (Fail e)
  | Panic => Some Panic
  end.
End Startup.
Arguments started S C : clear implicits.
