(* ===== verification/MainProofs.v ===== *)
(** * Lemmas about the wiring

    A batch of the outbox through the publishers of the service, and what a
    valid configuration leaves to go wrong. *)

From stdpp Require Import prelude gmap strings list sorting.
From Stdlib Require Import ZArith Lia String.
From S2P Require Import Prelude GoFloat GoText Sha256 GoStrings Monitor Model Ema MarketZones MarketReducer.
From S2P Require Import StoreSpec Memory Lane Outbox Registry Config ConfigProofs Input Contract.
From S2P Require Import Broker BrokerOpen BrokerProofs Hub Server Main.

#[local] Open Scope string_scope.
#[local] Open Scope list_scope.
#[local] Open Scope Z_scope.

(** ** The durable path *)

(** The frames an event has on the durable path: itself and the subjects. *)
Definition durable_frames (event : SignalEvent) : list (SignalEvent * string) :=
  if evProvisional event || negb (evEventType event =? "market.state")%string then []
  else [(event, evaluationSubject event (if evReset event then "reset" else "confirmed")); (event, factSubject event)].

Section Durable.
Context {C : Type} `{MessageLaws C}.

Lemma JetStream_Publish_ok (j : JetStream C) event now j' :
  JetStream_Publish j event now = (j', Ok tt) ->
  exists messages, Forall2 carries (durable_frames event) messages /\
    taken_in (stream_log j) messages (stream_log j').
Proof.
  unfold JetStream_Publish, durable_frames. destruct (evProvisional event || _).
  { intros [= <-]. exists []. split; [done|constructor]. }
  destruct (EncodeAnalysisEvent event now) as [payload|e|] eqn:He; [|done|done].
  set (kind := if evReset event then _ else _).
  destruct (js_publish j _ _ _ _ _) as [j1 [[]|e1|]] eqn:Hpub1; [|done|done].
  destruct (js_publish j1 _ _ _ _ _) as [j2 [[]|e2|]] eqn:Hpub2; [|done|done].
  intros [= <-]. eexists. split; [|eapply taken_in_app; eapply js_publish_taken; eassumption].
  constructor; [|constructor; [|constructor]]; exists now; by apply make_message_carries.
Qed.

Lemma multi_publish_ok `{Runtime} (j : JetStream C) h clock turn event p' :
  multiPublisher_Publish (mkMulti [StreamPublisher j; HubPublisher h] clock turn) event = (p', Ok tt) ->
  exists j' h' messages, p' = mkMulti [StreamPublisher j'; HubPublisher h'] clock (Datatypes.S turn) /\
    Forall2 carries (durable_frames event) messages /\ taken_in (stream_log j) messages (stream_log j') /\
    Hub_Publish h event = Some h'.
Proof.
  unfold multiPublisher_Publish. cbn [mpPublishers mpClock mpTurn publish_each publish_to].
  destruct (JetStream_Publish j event (clock turn)) as [j1 [[]|e|]] eqn:Hj; [|done|done]. cbn [wrap_err].
  unfold hubPublisher_Publish. destruct (Hub_Publish h event) as [h1|] eqn:Hh; [|done].
  intros [= <-]. destruct (JetStream_Publish_ok _ _ _ _ Hj) as (messages & Hc & Ht). by exists j1, h1, messages.
Qed.

Lemma publish_batch_multi `{Runtime} events (j : JetStream C) h clock turn p' :
  publish_batch (mkMulti [StreamPublisher j; HubPublisher h] clock turn) events = (p', Ok tt) ->
  exists j' h' messages, mpPublishers p' = [StreamPublisher j'; HubPublisher h'] /\
    Forall2 carries (flat_map durable_frames events) messages /\
    taken_in (stream_log j) messages (stream_log j') /\ loop Hub_Publish events h = Some h'.
Proof.
  revert j h turn. induction events as [|e events IH]; intros j h turn; cbn [publish_batch flat_map loop].
  { intros [= <-]. exists j, h, []. split_and!; [done|done|constructor|done]. }
  cbn [ob_publish multi_outbox]. destruct (multiPublisher_Publish _ e) as [p1 [[]|x|]] eqn:Hpub1; [|done|done].
  destruct (multi_publish_ok _ _ _ _ _ _ Hpub1) as (j1 & h1 & ms1 & -> & Hc1 & Ht1 & Hh1).
  intros (j' & h' & ms & Hp & Hc & Ht & Hh)%IH. exists j', h', (ms1 ++ ms). rewrite Hh1.
  split_and!; [done|by apply Forall2_app|by eapply taken_in_app|done].
Qed.
End Durable.

(** The messages of events with different identities are different. *)
Lemma durable_distinct events messages :
  Forall2 carries (flat_map durable_frames events) messages -> NoDup (map evEventID events) ->
  ForallOrdPairs (fun m m' => ~ same_message m m') messages.
Proof.
  revert messages. induction events as [|e events IH]; intros messages Hc Hd; cbn [flat_map] in Hc.
  { apply Forall2_nil_inv_l in Hc as ->. constructor. }
  apply Forall2_app_inv_l in Hc as (ms1 & ms & Hc1 & Hc & ->). apply NoDup_cons in Hd as [Hni Hd].
  assert (Hother : forall m m', nmMsgID m = evEventID e -> m' ∈ ms -> ~ same_message m m').
  { intros m m' Hm Hin (_ & Hid & _). apply Hni. rewrite <-Hm, Hid.
    destruct (proj1 (list_elem_of_lookup _ _) Hin) as [i Hi].
    destruct (Forall2_lookup_r _ _ _ _ _ Hc Hi) as (f & Hf & now & Hca). rewrite (ca_id _ _ _ Hca).
    apply list_elem_of_lookup_2, list_elem_of_In, in_flat_map in Hf as (e' & He' & Hf).
    apply list_elem_of_In, in_map_iff. exists e'. split; [|done].
    unfold durable_frames in Hf. destruct (_ || _); [done|]. by destruct Hf as [<-|[<-|[]]]. }
  unfold durable_frames in Hc1. destruct (_ || _).
  { apply Forall2_nil_inv_l in Hc1 as ->. by apply IH. }
  apply Forall2_cons_inv_l in Hc1 as (m1 & ms1' & (n1 & H1) & Hc1 & ->).
  apply Forall2_cons_inv_l in Hc1 as (m2 & ms2 & (n2 & H2) & Hc1 & ->). apply Forall2_nil_inv_l in Hc1 as ->.
  cbn [app]. constructor; [constructor|constructor].
  - intros (_ & _ & Hst). rewrite (ca_subject _ _ _ H1), (ca_subject _ _ _ H2) in Hst. cbn [snd] in Hst.
    by rewrite subject_stream_evaluation, subject_stream_facts in Hst.
  - apply Forall_forall. intros m' Hin. apply Hother; [|done]. by rewrite (ca_id _ _ _ H1).
  - apply Forall_forall. intros m' Hin. apply Hother; [|done]. by rewrite (ca_id _ _ _ H2).
  - by apply IH.
Qed.

(** Messages of ids no stream has yet are unseen. *)
Lemma durable_unseen events messages log :
  Forall2 carries (flat_map durable_frames events) messages ->
  Forall (fun e => Forall (fun entry => nmMsgID entry.2 <> evEventID e) log) events ->
  Forall (fun m => ~ seen log m) messages.
Proof.
  intros Hc Hnew. apply Forall_forall. intros m Hin Hs.
  destruct (proj1 (list_elem_of_lookup _ _) Hin) as [i Hi].
  destruct (Forall2_lookup_r _ _ _ _ _ Hc Hi) as (f & Hf & now & Hca).
  apply list_elem_of_lookup_2, list_elem_of_In, in_flat_map in Hf as (e & He%list_elem_of_In & Hf).
  rewrite Forall_forall in Hnew. specialize (Hnew e He). rewrite Forall_forall in Hnew.
  apply Exists_exists in Hs as (entry & Hentry & _ & Hid & _). apply (Hnew entry Hentry).
  rewrite Hid, (ca_id _ _ _ Hca). unfold durable_frames in Hf. destruct (_ || _); [done|].
  by destruct Hf as [<-|[<-|[]]].
Qed.

(** ** Starting from a valid configuration *)

Lemma NewRegistry_total `{Runtime} c :
  config_valid c ->
  exists r, NewRegistry (registry_options c) = Ok r /\ rgKeys r ≡ₚ cfSeries c /\
    forall key, key ∈ cfSeries c -> is_ok (Registry_lane r (kSymbol key) (kTimeframe key)) = true.
Proof.
  intros Hv. destruct (cv_periods c Hv) as (Hps & Hpa & Hpn). destruct (cv_series c Hv) as (Hsok & Hnd & Hsn).
  unfold NewRegistry. cbn [roSeries registry_options].
  destruct (Z.eqb_spec (len (cfSeries c)) 0) as [Hz|_].
  { destruct (cfSeries c); [done|]. unfold len in Hz. cbn in Hz. lia. }
  destruct (add_all_total (registry_options c) (cfSeries c) (mkRegistry ∅ [])) as (r & -> & Hk & Hl).
  - by eapply series_lookup_distinct.
  - apply Forall_forall. intros k _. apply lookup_empty.
  - eapply Forall_impl; [exact Hsok|]. intros k (Hd & Hk). apply NewLane_total; cbn; try done.
    + rewrite Hd. apply (cv_dataset c Hv).
  - cbn [mbind outcome_bind]. eexists. split; [done|]. cbn [rgKeys rgLanes]. split.
    + by rewrite sort_slice_perm, Hk.
    + intros key Hin. unfold Registry_lane. cbn [rgLanes].
      assert (is_Some (rgLanes r !! series_lookup key)) as [l Hs].
      { apply Hl. right. by apply list_elem_of_In, in_map, list_elem_of_In. }
      unfold series_lookup in Hs. by rewrite Hs.
Qed.

Lemma NewOHLCClient_total c :
  config_valid c -> cfOHLCWebSocketURL c <> "" ->
  NewOHLCClient (ohlc_options c) =
    Some (mkOHLCOptions (cfOHLCWebSocketURL c) (cfSeries c) (cfSeedBars c) true second (30 * second) (10 * second)).
Proof.
  intros Hv Hu. destruct (cv_series c Hv) as (_ & _ & Hsn). destruct (cv_bounds c Hv) as (_ & Hseed & _).
  unfold NewOHLCClient. cbn [ohlc_options ooURL ooHasSink ooSeries ooSeedBars ooMinBackoff ooMaxBackoff ooHandshakeWait].
  rewrite (proj2 (String.eqb_neq _ _) Hu). cbn [negb orb].
  destruct (Z.eqb_spec (len (cfSeries c)) 0) as [Hz|_].
  { destruct (cfSeries c); [done|]. unfold len in Hz. cbn in Hz. lia. }
  by rewrite (proj2 (Z.leb_gt _ _)) by lia.
Qed.

Lemma NewServer_total c :
  config_valid c -> cfHTTPAddr c <> "" ->
  exists srv, NewServer (server_options c) = Ok srv /\ svOptions srv = server_options c.
Proof.
  intros Hv Ha. destruct (cv_bounds c Hv) as (_ & _ & _ & _ & _ & Ht & _).
  unfold NewServer. cbn [server_options soAddr soComplete soInsecureNoAuth soAuthToken soShutdownTimeout soAllowedOrigins soPeriods].
  rewrite (proj2 (String.eqb_neq _ _) Ha). cbn [negb orb].
  assert (negb (cfInsecureNoAuth c) && (cfAPIAuthToken c =? "")%string = false) as ->.
  { destruct (cv_token c Hv) as [-> | Hn]; [done|]. rewrite (proj2 (String.eqb_neq _ _) Hn). apply andb_false_r. }
  rewrite (proj2 (Z.leb_gt _ _)) by lia. by eexists.
Qed.

(** Only what is outside the program can keep it from starting. *)
Lemma start_total {S C} `{OutboxStore S} `{Connection C} `{Runtime} memory_store OpenPostgres Open
    fuel lookup clock c (s s' : S) publishers p' :
  load lookup = Ok c -> cfOHLCWebSocketURL c <> "" -> cfHTTPAddr c <> "" ->
  openStore memory_store OpenPostgres c = Ok s -> open_publishers (C := C) Open c = Ok publishers ->
  Flush fuel s (mkMulti (publishers ++ [HubPublisher NewHub]) clock 0) = Some (s', p', Ok tt) ->
  exists sv, start memory_store OpenPostgres Open fuel lookup clock = Some (Ok sv) /\
    config_valid (stSettings sv) /\ stSettings sv = c /\ stStore sv = s' /\ stPublishers sv = p' /\
    rgKeys (stRegistry sv) ≡ₚ cfSeries c /\
    (forall key, key ∈ cfSeries c -> is_ok (Registry_lane (stRegistry sv) (kSymbol key) (kTimeframe key)) = true) /\
    ooSeries (stUpstream sv) = cfSeries c /\ soPeriods (svOptions (stServer sv)) = cfPeriods c.
Proof.
  intros Hload Hu Ha Hs Hp Hf. pose proof (load_valid lookup c Hload) as Hv.
  destruct (NewRegistry_total c Hv) as (r & Hr & Hk & Hlanes). destruct (NewServer_total c Hv Ha) as (srv & Hsrv & Hopt).
  unfold start. rewrite Hload. cbn [wrap_err mbind outcome_bind]. rewrite Hs. cbn [wrap_err mbind outcome_bind].
  rewrite Hp. cbn [mbind outcome_bind]. rewrite Hr. cbn [wrap_err mbind outcome_bind].
  rewrite (NewOHLCClient_total c Hv Hu). cbn [mbind outcome_bind]. rewrite Hsrv. cbn [wrap_err mbind outcome_bind stStore stPublishers].
  rewrite Hf. eexists. split; [done|]. cbn. rewrite Hopt. by split_and!.
Qed.
