(* ===== verification/Run.v ===== *)
(** * Running the service (cmd/signald/main.go, internal/api/server.go)

    [run] from its configuration to its end: what it opens and closes, the
    three components it waits for, and what it returns; [Server.Run], which
    serves until the context ends; and the exit status of [main]. *)

From stdpp Require Import prelude gmap strings list.
From Stdlib Require Import ZArith Lia String.
From S2P Require Import Prelude GoFloat GoText Sha256 GoStrings Monitor Model Ema MarketZones MarketReducer.
From S2P Require Import StoreSpec Memory Postgres Lane Outbox OutboxRun Registry Config Input Contract Broker BrokerOpen.
From S2P Require Import Hub Server Main.

#[local] Open Scope string_scope.
#[local] Open Scope list_scope.
#[local] Open Scope Z_scope.

(** ** The components that run *)

(** What [ListenAndServe] returns, and how [Server.Run] comes to its end: the
    context ends and the server is shut down, or serving ends by itself. *)
Inductive serveError := ErrServerClosed | ServeOther (text : string).
Inductive serverEnd :=
  | ServerCancelled (shutdown : option string)
  | ServerStopped (e : serveError).

Definition Server_Run (e : serverEnd) : option string :=
  match e with
  | ServerCancelled shutdown => shutdown
  | ServerStopped ErrServerClosed => None
  | ServerStopped (ServeOther text) => Some text
  end.

(** The order in which the goroutines of the group return, each with its
    error: the dispatcher and the client return none. *)
Inductive component := DispatcherEnded | ClientEnded | ServerEnded (e : serverEnd).

Definition component_error (c : component) : option string :=
  match c with
  | DispatcherEnded | ClientEnded => None
  | ServerEnded e => Server_Run e
  end.

(** [errgroup.Group.Wait]: the first error of the group. *)
Fixpoint group_Wait (ends : list component) : option string :=
  match ends with
  | [] => None
  | c :: rest => match component_error c with Some e => Some e | None => group_Wait rest end
  end.

(** ** Lanes *)

(** [Registry.Start]: a goroutine for every lane, in the order the map is
    ranged over. *)
Definition Registry_Start `{Runtime} (r : Registry) : list SeriesKey :=
  map (fun kv => lKey kv.2) (map_range (rgLanes r)).

(** ** [run] *)

Inductive effect :=
  | StoreOpened
  | StoreClosed
  | BrokerOpened
  | BrokerClosed
  | LaneStarted (key : SeriesKey).

Inductive RunError :=
  | RunStart (e : StartError)
  | RunService (text : string).

(** A resource that is closed when the rest is over, however it ends. *)
Definition with_resource {R A E} (opened closed : effect) (open : outcome E R)
    (body : R -> option (list effect * outcome E A)) : option (list effect * outcome E A) :=
  match open with
  | Ok r => '(effects, result) ← body r; Some (opened :: effects ++ [closed], result)
  | Fail e => Some ([], Fail e)
  | Panic => Some ([], Panic)
  end.

Definition and_then {R A E} (m : outcome E R) (body : R -> option (list effect * outcome E A))
  : option (list effect * outcome E A) :=
  match m with
  | Ok r => body r
  | Fail e => Some ([], Fail e)
  | Panic => Some ([], Panic)
  end.

Definition stream_error_text (e : StreamError) : string :=
  match e with
  | ErrStreamNotFound => "nats: stream not found"
  | ErrStreamNameAlreadyInUse => "nats: stream name already in use"
  | StreamOther text => text
  end.

Definition open_error_text (e : OpenError) : string :=
  match e with
  | OpenConnect text => "connect NATS: " +:+ text
  | OpenContext text => "open JetStream: " +:+ text
  | OpenEnsure stream e => "ensure " +:+ stream +:+ " stream: " +:+ stream_error_text e
  | OpenInspect stream e => "inspect " +:+ stream +:+ " stream: " +:+ stream_error_text e
  | OpenReconcile stream e => "reconcile " +:+ stream +:+ " stream: " +:+ stream_error_text e
  end.

Section Run.
Context {S C : Type} `{OutboxStore S} `{Connection C} `{StreamAdmin C} `{Runtime}.

(** [store.NewMemory()], [store.OpenPostgres], the network that [broker.Open]
    connects to, and the time the metrics begin at. *)
Variable memory_store : S.
Variable OpenPostgres : string -> Z -> outcome string S.
Variable network : C.
Variable began : Z.

(** [broker.Open] for [start]. *)
Definition open_broker (url token : string) (replicas : Z) : outcome string C :=
  match Open network url token replicas with
  | (_, inr j) => Ok (jsConnection j)
  | (_, inl e) => Fail (open_error_text e)
  end.

(** The broker, when one is configured. *)
Definition with_broker {A} (settings : Config) (body : list (servicePublisher C) -> option (list effect * outcome RunError A))
  : option (list effect * outcome RunError A) :=
  if enabled (cfNATSURL settings)
  then with_resource BrokerOpened BrokerClosed
         (wrap_err RunStart (open_publishers open_broker settings)) body
  else body [].

(** What is built once the store and the broker are open, the recovery of the
    outbox, and the group. *)
Definition serve_until (fuel : nat) (clock : nat -> Z) (settings : Config) (persistence : S) (ends : list component)
    (publishers : list (servicePublisher C)) : option (list effect * outcome RunError unit) :=
  and_then (wrap_err (fun e => RunStart (StartRegistry e)) (NewRegistry (registry_options settings))) (fun registry =>
  and_then (match NewOHLCClient (ohlc_options settings) with Some o => Ok o | None => Fail (RunStart StartClient) end) (fun _ =>
  and_then (wrap_err (fun e => RunStart (StartServer e)) (NewServer (server_options settings))) (fun _ =>
  let dispatcher := New persistence (mkMulti (publishers ++ [HubPublisher NewHub]) clock 0)
                      (cfOutboxPollInterval settings) (Some (NewMetrics began)) in
  match Flush fuel (dsStore dispatcher) (dsPublisher dispatcher) with
  | None => None
  | Some (_, _, Fail e) => Some ([], Fail (RunStart (StartOutbox e)))
  | Some (_, _, Panic) => Some ([], Panic)
  | Some (_, _, Ok _) =>
      Some (map LaneStarted (Registry_Start registry),
            match group_Wait ends with None => Ok tt | Some e => Fail (RunService e) end)
  end))).

(** [run]: what it did, in order, and what it returns.  [None]: the recovery
    of the outbox has not ended within its fuel. *)
Definition run (fuel : nat) (lookup : lookupFunc) (clock : nat -> Z) (ends : list component)
  : option (list effect * outcome RunError unit) :=
  and_then (wrap_err (fun e => RunStart (StartConfig e)) (load lookup)) (fun settings =>
  with_resource StoreOpened StoreClosed
    (wrap_err (fun e => RunStart (StartStore e)) (openStore memory_store OpenPostgres settings)) (fun persistence =>
  with_broker settings (serve_until fuel clock settings persistence ends))).

(** [main]: the exit status. *)
Definition main (result : outcome RunError unit) : Z := match result with Ok _ => 0 | _ => 1 end.
End Run.

(** ** What it leaves behind *)

(** Every resource that was opened is closed again, the last one first. *)
Fixpoint well_nested (open : list effect) (effects : list effect) : bool :=
  match effects with
  | [] => match open with [] => true | _ => false end
  | StoreOpened :: rest => well_nested (StoreOpened :: open) rest
  | BrokerOpened :: rest => well_nested (BrokerOpened :: open) rest
  | StoreClosed :: rest => match open with StoreOpened :: open => well_nested open rest | _ => false end
  | BrokerClosed :: rest => match open with BrokerOpened :: open => well_nested open rest | _ => false end
  | LaneStarted _ :: rest => well_nested open rest
  end.

Definition is_lane (e : effect) : bool := match e with LaneStarted _ => true | _ => false end.

(** The effects of a run that got as far as the group. *)
Definition full_run (broker : bool) (lanes : list SeriesKey) : list effect :=
  [StoreOpened] ++ (if broker then [BrokerOpened] else []) ++ map LaneStarted lanes ++
  (if broker then [BrokerClosed] else []) ++ [StoreClosed].

Lemma nested_lanes open keys rest : well_nested open (map LaneStarted keys ++ rest) = well_nested open rest.
Proof. induction keys; [done|]. cbn. done. Qed.

Lemma full_run_nested broker lanes : well_nested [] (full_run broker lanes) = true.
Proof. destruct broker; cbn; by rewrite nested_lanes. Qed.

Section Ends.
Context {S C : Type} `{OutboxStore S} `{Connection C} `{StreamAdmin C} `{Runtime}.
Variable memory_store : S.
Variable OpenPostgres : string -> Z -> outcome string S.
Variable network : C.
Variable began : Z.

Definition group_result (ends : list component) : outcome RunError unit :=
  match group_Wait ends with None => Ok tt | Some e => Fail (RunService e) end.

(** How [run] goes on from what [start] makes of the environment. *)
Definition run_after (fuel : nat) (lookup : lookupFunc) (clock : nat -> Z) (ends : list component)
    (started_as : option (outcome StartError (started S C))) : Prop :=
  match started_as with
  | None => run memory_store OpenPostgres network began fuel lookup clock ends = None
  | Some (Ok sv) =>
      run memory_store OpenPostgres network began fuel lookup clock ends =
        Some (full_run (enabled (cfNATSURL (stSettings sv))) (Registry_Start (stRegistry sv)), group_result ends)
  | Some (Fail e) => exists effects,
      run memory_store OpenPostgres network began fuel lookup clock ends = Some (effects, Fail (RunStart e)) /\
      well_nested [] effects = true /\ forallb (fun e => negb (is_lane e)) effects = true
  | Some Panic => exists effects,
      run memory_store OpenPostgres network began fuel lookup clock ends = Some (effects, Panic) /\
      well_nested [] effects = true
  end.

(** The part of [start] behind the store and the broker. *)
Lemma serve_until_spec fuel clock settings persistence ends publishers :
  serve_until began fuel clock settings persistence ends publishers =
  match (registry ← wrap_err StartRegistry (NewRegistry (registry_options settings));
         upstream ← match NewOHLCClient (ohlc_options settings) with Some o => Ok o | None => Fail StartClient end;
         server ← wrap_err StartServer (NewServer (server_options settings)); Ok (registry : Registry)) with
  | Ok registry =>
      match Flush fuel persistence (mkMulti (C := C) (publishers ++ [HubPublisher NewHub]) clock 0) with
      | None => None
      | Some (_, _, Fail e) => Some ([], Fail (RunStart (StartOutbox e)))
      | Some (_, _, Panic) => Some ([], Panic)
      | Some (_, _, Ok _) => Some (map LaneStarted (Registry_Start registry), group_result ends)
      end
  | Fail e => Some ([], Fail (RunStart e))
  | Panic => Some ([], Panic)
  end.
Proof.
  unfold serve_until. destruct (NewRegistry (registry_options settings)) as [registry|e|]; [|done..]. cbn [wrap_err and_then mbind outcome_bind].
  destruct (NewOHLCClient (ohlc_options settings)) as [upstream|]; [|done]. cbn [and_then mbind outcome_bind].
  by destruct (NewServer (server_options settings)) as [server|e|].
Qed.

Lemma run_spec fuel lookup clock ends :
  run_after fuel lookup clock ends
    (start memory_store OpenPostgres (open_broker network) fuel lookup clock).
Proof.
  unfold run_after, start, run. destruct (load lookup) as [settings|e|]; cbn [wrap_err mbind outcome_bind and_then];
    [|by eexists|by eexists].
  destruct (openStore memory_store OpenPostgres settings) as [persistence|e|]; cbn [wrap_err mbind outcome_bind with_resource];
    [|by eexists|by eexists].
  unfold with_broker, open_publishers. destruct (enabled (cfNATSURL settings)) eqn:Hen.
  - destruct (open_broker network _ _ _) as [connection|e|]; cbn [wrap_err mbind outcome_bind with_resource option_bind];
      [|by eexists|by eexists].
    rewrite serve_until_spec.
    destruct (NewRegistry (registry_options settings)) as [registry|e|]; cbn [wrap_err mbind outcome_bind option_bind];
      [|by eexists|by eexists].
    destruct (NewOHLCClient (ohlc_options settings)) as [upstream|]; cbn [mbind outcome_bind option_bind]; [|by eexists].
    destruct (NewServer (server_options settings)) as [server|e|]; cbn [wrap_err mbind outcome_bind option_bind];
      [|by eexists|by eexists].
    cbn [stStore stPublishers]. destruct (Flush _ _ _) as [[[s p] [[]|e|]]|]; cbn [mbind option_bind stSettings stRegistry];
      [|by eexists|by eexists|done].
    rewrite Hen. unfold full_run. cbn [app]. by rewrite <-app_assoc.
  - cbn [mbind outcome_bind]. rewrite serve_until_spec.
    destruct (NewRegistry (registry_options settings)) as [registry|e|]; cbn [wrap_err mbind outcome_bind option_bind];
      [|by eexists|by eexists].
    destruct (NewOHLCClient (ohlc_options settings)) as [upstream|]; cbn [mbind outcome_bind option_bind]; [|by eexists].
    destruct (NewServer (server_options settings)) as [server|e|]; cbn [wrap_err mbind outcome_bind option_bind];
      [|by eexists|by eexists].
    cbn [stStore stPublishers]. destruct (Flush _ _ _) as [[[s p] [[]|e|]]|]; cbn [mbind option_bind stSettings stRegistry];
      [|by eexists|by eexists|done].
    by rewrite Hen.
Qed.
End Ends.

(** The registry of a service that started is the one of its settings. *)
Lemma start_registry {S C} `{OutboxStore S} `{Connection C} `{Runtime} (memory_store : S) OpenPostgres Open fuel lookup clock
    (sv : started S C) :
  start memory_store OpenPostgres Open fuel lookup clock = Some (Ok sv) ->
  NewRegistry (registry_options (stSettings sv)) = Ok (stRegistry sv).
Proof.
  unfold start. destruct (load lookup) as [settings|e|]; [|done..]. cbn [wrap_err mbind outcome_bind].
  destruct (openStore memory_store OpenPostgres settings) as [persistence|e|]; [|done..]. cbn [wrap_err mbind outcome_bind].
  destruct (open_publishers Open settings) as [publishers|e|]; [|done..]. cbn [mbind outcome_bind].
  destruct (NewRegistry (registry_options settings)) as [registry|e|] eqn:Hr; [|done..]. cbn [wrap_err mbind outcome_bind].
  destruct (NewOHLCClient (ohlc_options settings)) as [upstream|]; [|done]. cbn [mbind outcome_bind].
  destruct (NewServer (server_options settings)) as [server|e|]; [|done..]. cbn [wrap_err mbind outcome_bind].
  cbn [stStore stPublishers]. destruct (Flush _ _ _) as [[[s p] [[]|e|]]|]; [|done..]. by intros [= <-].
Qed.

(** ** The lanes that are started *)

Lemma NewLane_key options lane : NewLane options = Ok lane -> lKey lane = loKey options.
Proof.
  unfold NewLane. destruct (_ || _); [done|]. destruct (TimeframeDuration _); [|done].
  destruct (_ =? 0); [done|]. destruct (negb (loHasStore options)); [done|].
  destruct (negb (periods_valid _ _)); [done|]. destruct (newReducers _); [|done..]. cbn.
  destruct (NewMarket _ _); [|done..]. by intros [= <-].
Qed.

Lemma Registry_Start_series `{Runtime} options r :
  NewRegistry options = Ok r -> Registry_Start r ≡ₚ roSeries options.
Proof.
  intros [[_ Hd Hl Ho] _]%NewRegistry_of. unfold Registry_Start. rewrite map_range_perm.
  assert (Hlane : forall lookup lane, rgLanes r !! lookup = Some lane ->
    lKey lane ∈ roSeries options /\ lookup = series_lookup (lKey lane)).
  { intros lookup lane Hlook. assert (Hin : lookup ∈ map series_lookup (roSeries options)) by (apply Ho; by rewrite Hlook).
    apply list_elem_of_In, in_map_iff in Hin as (key & <- & Hkey%list_elem_of_In).
    destruct (Hl key Hkey) as (lane' & Hlane' & Hnew%NewLane_key). rewrite Hlook in Hlane'. injection Hlane' as <-.
    cbn in Hnew. by rewrite Hnew. }
  apply NoDup_Permutation.
  - apply NoDup_fmap_2_strong; [|apply NoDup_map_to_list]. intros [k1 l1] [k2 l2] H1%elem_of_map_to_list H2%elem_of_map_to_list Heq.
    cbn in Heq. destruct (Hlane _ _ H1) as [_ ->], (Hlane _ _ H2) as [_ ->]. rewrite Heq in *. congruence.
  - eapply NoDup_fmap_1. exact Hd.
  - intros key. rewrite list_elem_of_fmap. split.
    + intros ([lookup lane] & -> & Hin%elem_of_map_to_list). by destruct (Hlane _ _ Hin).
    + intros Hkey. destruct (Hl key Hkey) as (lane & Hlook & Hnew%NewLane_key). cbn in Hnew.
      exists (series_lookup key, lane). split; [done|by apply elem_of_map_to_list].
Qed.
