(* ===== verification/EndToEnd.v ===== *)
(** * From a closed bar to its subscribers

    The path of a confirmed bar through the service: the lane commits its
    events to the store, the outbox publishes what is pending to the broker
    and the hub, and the hub hands it to the clients.  The theorems on each of
    these components are put together here. *)

From stdpp Require Import prelude gmap strings list sorting.
From Stdlib Require Import ZArith Lia SpecFloat String.
From S2P Require Import Prelude GoFloat GoText Sha256 Monitor Model Ema MarketZones MarketReducer StoreSpec Memory MemoryProofs.
From S2P Require Import Lane LaneReducers LaneProofs LaneRefinement LaneRecovery LaneAccept Outbox Contract Broker BrokerProofs.
From S2P Require Import Hub HubProofs Main MainProofs.

#[local] Open Scope string_scope.
#[local] Open Scope list_scope.
#[local] Open Scope Z_scope.

#[local] Opaque barHash.

(** ** Events the store does not know yet *)

(** The events under the cursors after [n]. *)
Fixpoint numbered (n : Z) (events : list SignalEvent) : list SignalEvent :=
  match events with
  | [] => []
  | event :: rest => set_cursor event (n + 1) :: numbered (n + 1) rest
  end.

Lemma numbered_range n events : Forall (fun e => n < evCursor e <= n + len events) (numbered n events).
Proof.
  revert n. induction events as [|e events IH]; intros n; cbn [numbered]; [constructor|]. rewrite len_cons.
  pose proof (len_nonneg events). constructor; [cbn; lia|]. eapply Forall_impl; [apply IH|]. cbn. lia.
Qed.

Lemma length_numbered n events : List.length (numbered n events) = List.length events.
Proof. revert n. induction events as [|e events IH]; intros n; cbn; [done|]. by rewrite IH. Qed.

(** Identities the store has no event of. *)
Record unknown (s : Memory) (events : list SignalEvent) : Prop := {
  uk_distinct : NoDup (map evEventID events);
  uk_new : Forall (fun e => eventByID s (evEventID e) = None) events
}.

(** A commit of unknown events appends every one of them, and nothing else. *)
Lemma commit_unknown events s committed :
  memory_wf s -> meNext s + len events < 2 ^ 63 - 1 -> unknown s events ->
  exists s', foldl commit_event (s, committed) events = (s', committed ++ numbered (meNext s) events) /\
    meEvents s' = meEvents s ++ numbered (meNext s) events /\ mePublished s' = mePublished s.
Proof.
  revert s committed. induction events as [|e events IH]; intros s committed Hwf Hb [Hd Hnew]; cbn [foldl numbered].
  { exists s. by rewrite !app_nil_r. }
  rewrite len_cons in Hb. pose proof (len_nonneg events). pose proof (me_next _ Hwf).
  apply NoDup_cons in Hd as [Hni Hd]. apply Forall_cons in Hnew as [He Hnew].
  rewrite commit_event_cases, He.
  destruct (append_committed_wf s e Hwf ltac:(lia)) as [Hwf1 Hn1].
  rewrite wrap_i64_id by lia.
  destruct (IH (append_committed s e) (committed ++ [set_cursor e (meNext s + 1)]) Hwf1) as (s' & Hrun & Hev & Hpub).
  - lia.
  - split; [done|]. apply Forall_forall. intros x Hx. rewrite Forall_forall in Hnew.
    apply append_committed_unknown; [|by apply Hnew]. intros Heq. apply Hni. rewrite <-Heq.
    by apply list_elem_of_fmap_2.
  - exists s'. destruct (append_committed_fields s e ltac:(lia)) as (_ & Hp1 & He1).
    rewrite Hrun, Hev, Hpub, Hn1, Hp1, He1, <-!app_assoc. done.
Qed.

(** No cursor is marked before it is given out. *)
Definition marks_behind (s : Memory) : Prop :=
  forall cursor, meNext s < cursor -> is_published s cursor = false.

Lemma CommitClosed_unknown s key bar events snapshots :
  memory_wf s -> meNext s + len events < 2 ^ 63 - 1 -> unknown s events -> marks_behind s ->
  (forall current, meCursors s !! SeriesKey_String key = Some current -> bOpenTime current < bOpenTime bar) ->
  exists s', Memory_CommitClosed s key bar events snapshots = (s', Ok (numbered (meNext s) events)) /\
    pending s' = pending s ++ numbered (meNext s) events.
Proof.
  intros Hwf Hb Hu Hm Hcur. destruct (commit_unknown events s [] Hwf Hb Hu) as (s1 & Hrun & Hev & Hpub).
  exists (mkMemory (meNext s1) (meEvents s1) (mePoints s1) (meMarkets s1)
            (<[SeriesKey_String key := bar]> (meCursors s1)) (save_snapshots key snapshots (meSnapshots s1))
            (mePublished s1)). split.
  - unfold Memory_CommitClosed. rewrite Hrun. destruct (meCursors s !! SeriesKey_String key) as [current|]; [|done].
    by rewrite (proj2 (Z.ltb_lt _ _)) by (by apply Hcur).
  - unfold pending, is_published. cbn [meEvents mePublished]. rewrite Hev, Hpub, List.filter_app. f_equal.
    pose proof (numbered_range (meNext s) events) as Hr.
    clear Hrun Hev. induction Hr as [|e l [He _] _ IH]; [done|]. cbn [List.filter].
    specialize (Hm (evCursor e) He). unfold is_published in Hm. rewrite Hm. cbn [negb]. by rewrite IH.
Qed.

(** ** A lane whose outbox delivers *)

Section Path.
Context `{Runtime}.

(** A lane with its store, at history [hist], about to take [bar] as its next
    bar: the cursors of both are behind it, it can be written down, its events
    are new, and the outbox delivers them. *)
Record takes_next (w : World Memory) (hist : list Bar) (bar : Bar) : Prop := {
  tk_lane : lane_wf (wLane w);
  tk_history : refines (wLane w) hist;
  tk_length : len hist < 2 ^ 64 - 1;
  tk_typed : bar_typed bar;
  tk_extends : extends (wLane w) bar;
  tk_encodable : encodable (wLane w) hist bar;
  tk_outbox : lOutboxDelivery (wLane w) = true;
  tk_store : memory_wf (wStore w);
  tk_cursors : meNext (wStore w) + len (lPeriods (wLane w)) + 1 < 2 ^ 63 - 1;
  tk_marks : marks_behind (wStore w);
  tk_behind : forall current, meCursors (wStore w) !! SeriesKey_String (lKey (wLane w)) = Some current ->
    bOpenTime current < bOpenTime bar;
  tk_unknown : forall reducers market count events snapshots,
    closed_plan (wLane w) bar = Ok (Some (reducers, market, count, events, snapshots)) -> unknown (wStore w) events
}.

(** A bar that follows the cursor, with events the store does not know yet:
    the turn of the lane succeeds, and exactly those events join what the
    outbox is to publish. *)
Lemma closed_joins_outbox bar hist (w : World Memory) :
  takes_next w hist bar ->
  exists w' reducers market count events snapshots,
    closed_plan (wLane w) bar = Ok (Some (reducers, market, count, events, snapshots)) /\
    run_command (Lane_Closed bar) w = (w', Ok None) /\ Lane_LastError (wLane w') = None /\
    memory_wf (wStore w') /\ pending (wStore w') = pending (wStore w) ++ numbered (meNext (wStore w)) events /\
    wOut w' = wOut w ++ live_outputs (wLane w) (numbered (meNext (wStore w)) events).
Proof.
  intros [Hwf Hr Hlen Hb Hext Henc Hout Hm Hn Hmb Hcur Huk].
  destruct (closed_plan_total (wLane w) bar hist Hwf Hr Hlen Hb Hext Henc)
    as (reducers & market & count & events & snapshots & Hplan & Hle).
  destruct (Memory_CommitClosed_ok (wStore w) (lKey (wLane w)) bar events snapshots Hm ltac:(lia) Hcur)
    as (s1 & committed & Hcommit & Hm1 & _).
  destruct (CommitClosed_unknown (wStore w) (lKey (wLane w)) bar events snapshots Hm ltac:(lia) ltac:(by eapply Huk) Hmb Hcur)
    as (s2 & Hcommit2 & Hpend). rewrite Hcommit in Hcommit2. injection Hcommit2 as <- ->.
  eexists _, reducers, market, count, events, snapshots. split; [done|].
  unfold run_command, Lane_Closed. rewrite applyClosed_run, Hplan. cbn zeta.
  change (@CommitClosed Memory memory_store) with Memory_CommitClosed. rewrite Hcommit, Hout, andb_false_r.
  split; [reflexivity|]. by split_and!.
Qed.

(** ** The clients of the hub *)

(** A client that is being served, and has room for the events to come. *)
Record listening (c : hubClient) (events : list SignalEvent) : Prop := {
  li_active : hcActive c = true;
  li_open : hcClosed c = false;
  li_ahead : Forall (fun e => hcLastCursor c < evCursor e) events;
  li_room : len (chBuf (hcSend c)) + len events <= chCap (hcSend c)
}.

Lemma enqueue_listening c received e events :
  client_inv (c, received) -> listening c (e :: events) -> Forall (fun x => evCursor e < evCursor x) events ->
  exists c', enqueue c e = Some c' /\ listening c' events /\ hcFilter c' = hcFilter c /\
    chBuf (hcSend c') = chBuf (hcSend c) ++ (if matches (hcFilter c) e then [e] else []).
Proof.
  intros Hinv [Ha Ho Hl Hroom] Hlt. apply Forall_cons in Hl as [He Hl]. rewrite len_cons in Hroom.
  pose proof (len_nonneg events). unfold enqueue. destruct (matches (hcFilter c) e); cbn [negb].
  2:{ exists c. rewrite app_nil_r. split_and!; try done. split; try done. lia. }
  rewrite Ho, (proj2 (Z.leb_gt _ _)), andb_false_r, Ha by done. cbn [negb].
  pose proof (ci_closed _ Hinv) as Hc. cbn in Hc. unfold chan_try_send. rewrite Hc, Ho, (proj2 (Z.ltb_lt _ _)) by lia.
  cbn [mbind option_bind]. eexists. split; [reflexivity|]. split_and!; [|done..].
  split; cbn [hcActive hcClosed hcLastCursor hcSend chBuf chCap]; [done|done| |].
  - eapply Forall_impl; [exact (proj2 (Forall_and _ _) (conj Hl Hlt))|]. cbn. intros x [? ?].
    unfold next_cursor. destruct (0 <? evCursor e); lia.
  - rewrite len_app, len_cons. unfold len at 2. cbn. lia.
Qed.

(** It gets every event of its subscription, in order. *)
Lemma publish_listening events h h' id c :
  hub_ok h -> StronglySorted Z.lt (map evCursor events) -> h !! id = Some c -> listening c events ->
  loop Hub_Publish events h = Some h' ->
  exists c', h' !! id = Some c' /\ chBuf (hcSend c') = chBuf (hcSend c) ++ List.filter (matches (hcFilter c)) events.
Proof.
  revert h c. induction events as [|e events IH]; intros h c Hok Hs Hid Hli Hrun; cbn [loop map List.filter] in *.
  { injection Hrun as <-. exists c. by rewrite app_nil_r. }
  apply StronglySorted_inv in Hs as [Hs Hlt]. rewrite Forall_map in Hlt.
  destruct (Hub_Publish_ok h e Hok) as (h1 & Hp & Hok1 & Hall). rewrite Hp in Hrun. cbn [mbind option_bind] in Hrun.
  destruct (Hok id c Hid) as [received Hinv].
  destruct (enqueue_listening c received e events Hinv Hli Hlt) as (c1 & Hen & Hli1 & Hf1 & Hb1).
  assert (Hid1 : h1 !! id = Some c1) by (rewrite Hall, Hid; exact Hen).
  destruct (IH h1 c1 Hok1 Hs Hid1 Hli1 Hrun) as (c' & Hid' & Hbuf). exists c'. split; [done|].
  rewrite Hbuf, Hb1, Hf1, <-app_assoc. by destruct (matches (hcFilter c) e).
Qed.
End Path.
