(* ===== verification/Engine.v ===== *)
(** * Input, registry, lanes and store together

    The sink of the market-data client is the registry: a message goes to the
    lane of its series, which runs it on the store all lanes share, and the
    client waits for the answer before it reads on. *)

From stdpp Require Import prelude gmap strings list sorting.
From Stdlib Require Import ZArith Lia SpecFloat String.
From S2P Require Import Prelude GoFloat GoText Monitor Model Ema MarketZones MarketReducer StoreSpec Memory MemoryProofs.
From S2P Require Import Lane LaneReducers LaneProofs LaneRefinement LaneHistory LaneCursor Registry Input.

#[local] Open Scope string_scope.
#[local] Open Scope list_scope.
#[local] Open Scope Z_scope.

(** ** The sink *)

Inductive EngineError :=
  | EngineRegistry (e : RegistryError)
  | EngineLane (e : LaneError).

Record Engine (S : Type) := mkEngine {
  enRegistry : Registry;
  enStore : S;
  enOut : list output
}.
Arguments mkEngine {S}.
Arguments enRegistry {S}.
Arguments enStore {S}.
Arguments enOut {S}.

(** The registry holds lanes by reference: it sees what a lane became. *)
Definition put_back (r : Registry) (l : Lane) : Registry :=
  mkRegistry (<[series_lookup (lKey l) := l]> (rgLanes r)) (rgKeys r).

Section Sink.
Context `{Runtime} {S : Type} `{Store S}.

(** [submit] of a command to the lane it is for, up to its answer. *)
Definition submit (e : Engine S) (target : outcome RegistryError (Lane * command))
  : Engine S * outcome EngineError unit :=
  match target with
  | Fail err => (e, Fail (EngineRegistry err))
  | Panic => (e, Panic)
  | Ok (lane, cmd) =>
      let '(w, r) := run_command cmd (mkWorld lane (enStore e) (enOut e)) in
      (mkEngine (put_back (enRegistry e) (wLane w)) (wStore w) (wOut w),
       match r with
       | Ok None => Ok tt
       | Ok (Some err) | Fail err => Fail (EngineLane err)
       | Panic => Panic
       end)
  end.

#[global] Instance engine_sink : Sink (Engine S) EngineError := {|
  sink_Seed e symbol timeframe bars := submit e (Registry_Seed (enRegistry e) symbol timeframe bars);
  sink_Closed e bar := submit e (Registry_Closed (enRegistry e) bar);
  sink_Forming e bar := submit e (Registry_Forming (enRegistry e) bar)
|}.
End Sink.

(** ** What arrives *)

Definition message_bars (message : serverMessage) : list Bar :=
  smBars message ++ match smBar message with Some bar => [bar] | None => [] end.

Definition frame_bars (frame : Z * option serverMessage) : list Bar :=
  match frame.2 with Some message => message_bars message | None => [] end.

(** Every bar of every frame of a run of the client. *)
Definition run_bars (attempts : list (attempt * Z)) : list Bar :=
  flat_map (fun a => flat_map frame_bars (atFrames a.1)) attempts.

(** Bars that belong to [all]. *)
Definition within (all bars : list Bar) : Prop := bars ⊆ all /\ len bars <= len all.

Lemma within_flat_map {A} (f : A -> list Bar) l x : x ∈ l -> within (flat_map f l) (f x).
Proof.
  intros (before & after & ->)%list_elem_of_split. rewrite flat_map_app. cbn [flat_map]. split.
  - intros b Hb. rewrite !elem_of_app. auto.
  - rewrite !len_app. pose proof (len_nonneg (flat_map f before)). pose proof (len_nonneg (flat_map f after)). lia.
Qed.

Lemma within_trans all bars more : within all bars -> within bars more -> within all more.
Proof. intros [H1 L1] [H2 L2]. split; [set_solver|lia]. Qed.

(** ** The invariant *)

Record engine_inv `{Runtime} (series : list SeriesKey) (all : list Bar) (e : Engine Memory) : Prop := {
  ei_lane : forall key, key ∈ series -> exists lane hist,
    rgLanes (enRegistry e) !! series_lookup key = Some lane /\ lKey lane = key /\ lane_wf lane /\
    refines lane hist /\ increasing hist /\ Forall (fun b => b ∈ all /\ bClosed b = true) hist /\
    meCursors (enStore e) !! SeriesKey_String key = lLastBar lane;
  ei_only : forall lookup, is_Some (rgLanes (enRegistry e) !! lookup) -> lookup ∈ map series_lookup series
}.

Lemma increasing_within hist all :
  increasing hist -> Forall (fun b => b ∈ all /\ bClosed b = true) hist -> len hist <= len all.
Proof.
  intros Hi Hall. assert (Hnd : NoDup hist).
  { induction Hi as [|b hist Hi IH Hb]; [constructor|]. apply Forall_cons in Hall as [_ Hall]. constructor; [|auto].
    intros Hin. rewrite Forall_forall in Hb. specialize (Hb b Hin). lia. }
  unfold len. apply Nat2Z.inj_le, submseteq_length, NoDup_submseteq; [done|]. rewrite Forall_forall in Hall.
  intros b Hb. by apply Hall.
Qed.

Lemma seed_history_from hist bars all :
  Forall (fun b => b ∈ all /\ bClosed b = true) hist -> bars ⊆ all ->
  Forall (fun b => b ∈ all /\ bClosed b = true) (seed_history hist bars).
Proof.
  revert hist. induction bars as [|b bars IH]; intros hist Hh Hb; cbn [seed_history]; [done|].
  destruct (bClosed b) eqn:Hc; cbn [andb]; [destruct (match last hist with Some _ => _ | None => _ end)|];
    apply IH; try done; try set_solver. apply Forall_app. split; [done|]. apply Forall_singleton. split; [set_solver|done].
Qed.

Lemma evolves_from all hist cmd hist' :
  Forall (fun b => b ∈ all /\ bClosed b = true) hist -> command_bars cmd ⊆ all -> evolves hist cmd hist' ->
  Forall (fun b => b ∈ all /\ bClosed b = true) hist'.
Proof.
  intros Hh Hb Hev. revert Hb. destruct Hev as [c h' (more & -> & Hm)|bars]; intros Hb.
  - apply Forall_app. split; [done|]. eapply Forall_impl; [exact Hm|]. cbn. intros b [Hin Hcl]. split; [by apply Hb|done].
  - apply seed_history_from; [constructor|]. intros b. unfold sort_seed. rewrite sort_stable_perm. apply Hb.
Qed.

Section Invariant.
Context `{Runtime} (series : list SeriesKey) (all : list Bar).
Hypothesis Hlookups : NoDup (map series_lookup series).
Hypothesis Hnames : NoDup (map SeriesKey_String series).
Hypothesis Htyped : Forall bar_typed all.
Hypothesis Hroom : 4 * len all < 2 ^ 64 - 1.

Lemma map_inj_NoDup {A B} (f : A -> B) l x y : NoDup (map f l) -> x ∈ l -> y ∈ l -> f x = f y -> x = y.
Proof.
  intros Hnd Hx Hy Hf. apply list_elem_of_lookup in Hx as [i Hi], Hy as [j Hj].
  assert (i = j) as ->; [|congruence]. eapply (NoDup_lookup (map f l)); [done|apply list_lookup_fmap_Some; eauto..].
Qed.

(** A command for a lane of the registry: it answers, and the invariant holds
    on. *)
Lemma submit_inv e lookup lane cmd :
  engine_inv series all e -> rgLanes (enRegistry e) !! lookup = Some lane -> within all (command_bars cmd) ->
  exists e' r, submit e (Ok (lane, cmd)) = (e', r) /\ r <> Panic /\ engine_inv series all e'.
Proof.
  intros [Hlane Honly] Hlook [Hsub Hlen].
  assert (Hin : lookup ∈ map series_lookup series) by (apply Honly; by rewrite Hlook).
  apply list_elem_of_fmap in Hin as (key & -> & Hkey).
  destruct (Hlane key Hkey) as (lane' & hist & Hl' & Hk & Hwf & Hr & Hi & Hall & Hcur).
  rewrite Hlook in Hl'. injection Hl' as <-.
  pose proof (increasing_within _ _ Hi Hall) as Hle. set (w := mkWorld lane (enStore e) (enOut e)).
  assert (Hbars : Forall bar_typed (command_bars cmd)).
  { apply Forall_forall. intros b Hb. rewrite Forall_forall in Htyped. by apply Htyped, Hsub. }
  assert (Hstep : in_step w) by (unfold in_step, w; cbn [wLane wStore]; by rewrite Hk).
  assert (Hat : lane_at w hist) by done.
  assert (Hadm : admissible w cmd).
  { apply admissible_unsaved; [|done|by apply in_step_nothing_saved]. cbn [w wLane]. rewrite (rf_count _ _ Hr). lia. }
  destruct (run_command cmd w) as [w' r] eqn:Hrun.
  destruct (admissible_step cmd hist w w' r Hwf Hat Hadm Hrun) as ((err & -> & _) & Hwf' & hist' & [Hr' Hi'] & [Hev|Hev]).
  2:{ destruct Hev as [? ? ? ? ? ? ? Hnone Hload Hhas]. by rewrite (in_step_nothing_saved w Hstep Hnone _ Hload) in Hhas. }
  pose proof (run_command_along cmd hist w w' (Ok err) Hwf Hat ltac:(lia) Hbars Hstep Hrun) as [Hk' Hst' Hoth].
  cbn [w wLane wStore] in Hk', Hoth. rewrite Hk in Hk', Hoth. specialize (Hst' Hstep). unfold in_step in Hst'. rewrite Hk' in Hst'.
  unfold submit. fold w. rewrite Hrun. eexists _, _. split; [reflexivity|]. split; [by destruct err|].
  unfold put_back. rewrite Hk'. split; cbn [enRegistry enStore rgLanes].
  - intros k Hin. destruct (decide (k = key)) as [->|Hne].
    + exists (wLane w'), hist'. rewrite lookup_insert_eq. split_and!; try done. by eapply evolves_from.
    + destruct (Hlane k Hin) as (l2 & h2 & Hl2 & H2 & Hwf2 & Hr2 & Hi2 & Hall2 & Hc2). exists l2, h2.
      rewrite lookup_insert_ne by (intros Heq; by apply Hne, (map_inj_NoDup series_lookup series)).
      split_and!; try done. rewrite Hoth; [done|]. intros Heq. by apply Hne, (map_inj_NoDup SeriesKey_String series).
  - intros lookup. rewrite lookup_insert_is_Some. intros [<-|[_ Hs]]; [by apply list_elem_of_fmap_2|by apply Honly].
Qed.

Lemma route_inv e symbol timeframe (cmd : command) :
  engine_inv series all e -> within all (command_bars cmd) ->
  exists e' r, submit e (lane ← Registry_lane (enRegistry e) symbol timeframe; Ok (lane, cmd)) = (e', r) /\
    r <> Panic /\ engine_inv series all e'.
Proof.
  intros Hinv Hw. unfold Registry_lane. destruct (rgLanes (enRegistry e) !! lookupKey symbol timeframe) as [lane|] eqn:E.
  - cbn [mbind outcome_bind]. by eapply submit_inv.
  - cbn. by eexists _, _.
Qed.

Lemma dispatch_sink_inv e message :
  engine_inv series all e -> within all (message_bars message) ->
  exists e' r, dispatch_sink e message = (e', r) /\ r <> Panic /\ engine_inv series all e'.
Proof.
  intros Hinv Hw. unfold dispatch_sink.
  assert (Hbar : forall bar, smBar message = Some bar -> within all [bar]).
  { intros bar Hb. eapply within_trans; [exact Hw|]. unfold message_bars. rewrite Hb. split; [set_solver|].
    rewrite len_app. pose proof (len_nonneg (smBars message)). lia. }
  assert (Hstay : forall err, exists e' r, (e, Fail err) = (e', r) /\ r <> @Panic (InputError EngineError) unit /\
    engine_inv series all e') by (intros err; by eexists _, _).
  destruct (_ =? "seed")%string.
  { destruct (seriesFromMessage message) as [[symbol timeframe]|err|] eqn:Hs; [|apply Hstay|].
    2:{ unfold seriesFromMessage in Hs. destruct (smBars message); [|done]. by destruct (split_key [] (smKey message)). }
    destruct (route_inv e symbol timeframe (Lane_Seed (smBars message)) Hinv) as (e' & r & Hrun & Hnp & Hinv').
    { eapply within_trans; [exact Hw|]. unfold message_bars. split; [set_solver|]. rewrite len_app.
      match goal with |- context [len ?l + len ?k] => pose proof (len_nonneg k) end. cbn [Lane_Seed command_bars]. lia. }
    cbn [sink_Seed engine_sink]. unfold Registry_Seed. rewrite Hrun. eexists _, _. split; [reflexivity|]. split; [by destruct r|done]. }
  destruct (_ =? "closed")%string.
  { destruct (smBar message) as [bar|]; [|apply Hstay]. destruct (negb (bClosed bar)); [apply Hstay|].
    destruct (route_inv e (bSymbol bar) (bTimeframe bar) (Lane_Closed bar) Hinv (Hbar _ eq_refl)) as (e' & r & Hrun & Hnp & Hinv').
    cbn [sink_Closed engine_sink]. unfold Registry_Closed. rewrite Hrun. eexists _, _. split; [reflexivity|]. split; [by destruct r|done]. }
  destruct (_ =? "forming")%string.
  { destruct (smBar message) as [bar|]; [|apply Hstay]. destruct (bClosed bar); [apply Hstay|].
    destruct (route_inv e (bSymbol bar) (bTimeframe bar) (Lane_Forming bar) Hinv (Hbar _ eq_refl)) as (e' & r & Hrun & Hnp & Hinv').
    cbn [sink_Forming engine_sink]. unfold Registry_Forming. rewrite Hrun. eexists _, _. split; [reflexivity|]. split; [by destruct r|done]. }
  destruct (_ =? "error")%string; apply Hstay.
Qed.

Lemma run_messages_inv frames e m e' m' r :
  engine_inv series all e -> Forall (fun f => within all (frame_bars f)) frames ->
  run_messages e m frames = (e', m', r) -> engine_inv series all e' /\ r <> Panic.
Proof.
  intros Hinv Hf. revert e m Hinv. induction Hf as [|[now [message|]] frames Hw _ IH]; intros e m Hinv; cbn [run_messages].
  - by intros [= <- <- <-].
  - destruct (dispatch_sink_inv e message Hinv Hw) as (e1 & r1 & Hd & Hnp & Hinv1). unfold dispatch. rewrite Hd.
    destruct r1 as [[]|err|]; [by apply IH|by intros [= <- <- <-]|done].
  - by intros [= <- <- <-].
Qed.

Lemma run_attempts_inv options attempts backoff e m e' m' waits last :
  engine_inv series all e -> Forall (fun a => within all (flat_map frame_bars (atFrames a.1))) attempts ->
  run_attempts options backoff e m attempts = (e', m', waits, last) -> engine_inv series all e'.
Proof.
  intros Hinv Hf. revert backoff e m waits last Hinv.
  induction Hf as [|[a jitter] attempts Hw _ IH]; intros backoff e m waits last Hinv; cbn [run_attempts].
  { by intros [= <- <- <- <-]. }
  destruct (runConnection options a e m) as [[[[e1 m1] sent] connected] r] eqn:Hc.
  assert (Hinv1 : engine_inv series all e1).
  { unfold runConnection in Hc. destruct (negb (atDialed a)); [by injection Hc as <- <- <- <- <-|].
    destruct (subscribe_all _ _ _) as [sent1 [key|]]; [by injection Hc as <- <- <- <- <-|].
    destruct (run_messages e (SetConnected m true) (atFrames a)) as [[e2 m2] r2] eqn:Hrm.
    injection Hc as <- <- <- <- <-. eapply run_messages_inv in Hrm; [apply Hrm|done|].
    apply Forall_forall. intros f Hfr. eapply within_trans; [exact Hw|by apply within_flat_map]. }
  destruct (backoff_turn options backoff connected jitter) as [wait next].
  destruct (run_attempts options next e1 (connection_ended m1) attempts) as [[[e2 m2] waits'] last'] eqn:Hr.
  intros [= <- <- <- <-]. by eapply IH.
Qed.
End Invariant.

(** A new registry over an empty store. *)
Lemma new_engine_inv `{Runtime} options r all :
  NewRegistry options = Ok r -> 0 <= roSnapshotEvery options -> Forall (fun p => p < 2 ^ 63 - 1) (roPeriods options) ->
  engine_inv (roSeries options) all (mkEngine r NewMemory []) /\ NoDup (map series_lookup (roSeries options)).
Proof.
  intros Hnew Hse Hp. destruct (NewRegistry_of _ _ Hnew) as [[_ Hd Hl Ho] _]. split; [|done]. split; [|done].
  intros key Hkey. destruct (Hl key Hkey) as (lane & Hlook & Hlane).
  assert (Hlast : lLastBar lane = None) by (apply NewLane_ok in Hlane as (_ & Hr & _); [apply (rf_last _ _ Hr)|done..]).
  apply NewLane_ok in Hlane as (Hwf & Hr & Hk & _); [|done..]. exists lane, [].
  split_and!; [done|done|done|done|constructor|constructor|]. cbn. by rewrite lookup_empty, Hlast.
Qed.
