(* ===== verification/Session.v ===== *)
(** * WebSocket subscriptions (internal/api/server.go)

    The request that opens a subscription, the snapshots and history it starts
    with, the replay from a cursor, and how they interleave with the commits,
    publications and receipts of the rest of the service. *)

From stdpp Require Import prelude gmap strings list sorting.
From Stdlib Require Import ZArith Lia SpecFloat Ascii String.
From S2P Require Import Prelude GoFloat GoText GoStrings Monitor Model Ema MarketZones.
From S2P Require Import StoreSpec Memory Lane Registry Contract Hub Server.

#[local] Open Scope string_scope.
#[local] Open Scope list_scope.
#[local] Open Scope Z_scope.

(** ** The request *)

Record wsSubscriptionData := mkSubscriptionData {
  wdSeries : list seriesSelector;
  wdAnalyses : list analysisSelector;
  wdEventTypes : list string;
  wdStatuses : list string;
  wdResumeAfter : string;
  wdHistoryLimit : Z
}.

Record wsRequest := mkWSRequest {
  wrProtocol : string;
  wrType : string;
  wrRequestID : string;
  wrData : wsSubscriptionData
}.

Definition defaultHistoryLimit : Z := 500.
Definition maxHistoryLimit : Z := 1000.

Definition blank (s : string) : bool := (trim_space s =? "")%string.

Definition stringSet (values : list string) : gset string :=
  list_to_set (List.filter (fun value => negb (value =? "")%string) (map trim_space values)).

(** The first selector that is refused, and why. *)
Fixpoint check_series (selectors : list seriesSelector) : option SubscriptionError :=
  match selectors with
  | [] => None
  | selector :: rest =>
      if blank (slSymbol selector) || blank (slTimeframe selector) then Some SubSelector
      else match TimeframeDuration (slTimeframe selector) with
           | None => Some (SubTimeframe (slTimeframe selector))
           | Some _ => check_series rest
           end
  end.

(** The event types of a filter: the default when none is asked for, and all
    (the nil map) for the wildcard. *)
Definition event_types (values : list string) : gset string :=
  let types := stringSet values in
  let types := if bool_decide (types = ∅) then {[analysisEventType]} else types in
  if bool_decide ("*" ∈ types) then ∅ else types.

Definition statuses_of (values : list string) : gset string :=
  let statuses := stringSet values in
  if bool_decide (statuses = ∅) then {["confirmed"]} else statuses.

Definition makeSubscription (request : wsSubscriptionData)
  : outcome SubscriptionError (Subscription * Z * Z) :=
  if len (wdSeries request) =? 0 then Fail SubNoSeries
  else match check_series (wdSeries request) with
  | Some e => Fail e
  | None =>
    if existsb (fun selector => blank (asName selector)) (wdAnalyses request) then Fail SubAnalysisName
    else
      let types := event_types (wdEventTypes request) in
      if existsb blank (elements types) then Fail SubEventType
      else
        let statuses := statuses_of (wdStatuses request) in
        if existsb (fun status => negb (status =? "confirmed")%string && negb (status =? "provisional")%string)
             (elements statuses) then Fail SubStatus
        else
          match (if (wdResumeAfter request =? "")%string then Some 0
                 else n ← atoi (wdResumeAfter request); if n <? 0 then None else Some n) with
          | None => Fail SubResume
          | Some afterCursor =>
              let historyLimit := if wdHistoryLimit request =? 0 then defaultHistoryLimit
                                  else wdHistoryLimit request in
              if (historyLimit <? 0) || (maxHistoryLimit <? historyLimit) then Fail SubHistory
              else Ok (mkSubscription (wdSeries request) (wdAnalyses request) types
                         (bool_decide ("confirmed" ∈ statuses)) (bool_decide ("provisional" ∈ statuses)),
                       afterCursor, historyLimit)
          end
  end.

(** The start of [websocket]: [valid] tells whether the frame decoded. *)
Definition handshake (valid : bool) (request : wsRequest) : wireEnvelope + (Subscription * Z * Z) :=
  if negb valid || negb (wrProtocol request =? protocolVersion)%string || negb (wrType request =? "subscribe")%string ||
     blank (wrRequestID request)
  then inl (protocolError (wrRequestID request) "invalid_request"
              (Text "a signals.v1 subscribe message with request_id is required") false)
  else match makeSubscription (wrData request) with
       | Ok opened => inr opened
       | Fail e => inl (protocolError (wrRequestID request) "invalid_subscription" (SubscriptionText e) false)
       | Panic => inl (protocolError (wrRequestID request) "invalid_subscription" (Text "") false)
       end.

(** ** Snapshots *)

Definition keep_analyses (filter : Subscription) (states : list IndicatorState) : list IndicatorState :=
  if 0 <? len (suAnalyses filter)
  then List.filter (fun state => matchesAnalysis (suAnalyses filter) (isAlgorithm state)) states else states.

Definition other_types (filter : Subscription) : bool :=
  bool_decide (suEventTypes filter <> ∅) && negb (bool_decide (analysisEventType ∈ suEventTypes filter)).

(** One turn of the loop of [filteredSnapshots]. *)
Definition filter_snapshot (filter : Subscription) (s : SeriesSnapshot) : option SeriesSnapshot :=
  let series := ssSeries s in
  if (0 <? len (suSeries filter)) &&
     negb (matchesSeries (suSeries filter) (kDataset series) (kSymbol series) (kTimeframe series))
  then None
  else
    let market := match ssMarket s with
                  | Some m => if (0 <? len (suAnalyses filter)) &&
                                 negb (matchesAnalysis (suAnalyses filter) (msAlgorithm m))
                              then None else Some m
                  | None => None
                  end in
    let none := other_types filter in
    Some (mkSeriesSnapshot (ssSchema s) series (ssLastClosedTime s) (ssLastClosedBar s) (ssLastClosedRevision s)
            (if suProvisional filter then ssFormingOpenTime s else None) (ssFormingBar s) (ssFormingRevision s)
            (ssReady s)
            (if none || negb (suConfirmed filter) then [] else keep_analyses filter (ssIndicators s))
            (if none || negb (suProvisional filter) then [] else keep_analyses filter (ssProvisional s))
            (if none || negb (suConfirmed filter) then None else market)).

Definition filteredSnapshots (filter : Subscription) (all : list SeriesSnapshot) : list SeriesSnapshot :=
  omap (filter_snapshot filter) all.

(** ** Messages *)

(** A live or replayed event. *)
Definition event_message (subscriptionID : string) (now : Z) (event : SignalEvent)
  : outcome ContractError wireEnvelope :=
  converted ← toAnalysisEvent event now;
  Ok (mkEnvelope protocolVersion "event" "" subscriptionID (eventCursor event) (EventData converted) None).

Definition subscribed_message (requestID subscriptionID : string) (now : Z) : wireEnvelope :=
  mkEnvelope protocolVersion "subscribed" requestID subscriptionID "" (SubscribedData now 25 "at_least_once") None.

(** One message per snapshot; on a failed conversion, the error after the
    messages before it. *)
Fixpoint snapshot_messages (requestID subscriptionID : string) (now : Z) (all : list SeriesSnapshot)
  : list wireEnvelope * bool :=
  match all with
  | [] => ([], true)
  | snapshot :: rest =>
      match snapshotAnalysisEvents snapshot now with
      | Ok events =>
          let '(messages, finished) := snapshot_messages requestID subscriptionID now rest in
          (mkEnvelope protocolVersion "snapshot" "" subscriptionID "" (EventsData events) None :: messages, finished)
      | Fail e => ([protocolError requestID "conversion_failed" (ConversionText e) true], false)
      | Panic => ([], false)
      end
  end.

Section Opening.
Context `{Runtime} {S : Type} `{EventStore S}.

Definition points_of (s : S) (series : SeriesKey) (limit : Z) (state : IndicatorState)
  : outcome StoreError (list SignalEvent) :=
  es_QueryRecentPoints s (mkPointFilter (kDataset series) (kSymbol series) (kTimeframe series)
    (isPeriod state) (isAlgorithm state) limit).

Definition recentPoints (s : S) (all : list SeriesSnapshot) (limit : Z) : outcome StoreError (list SignalEvent) :=
  oloop (fun events snapshot =>
    oloop (fun events state => points ← points_of s (ssSeries snapshot) limit state; Ok (events ++ points))
      (ssIndicators snapshot) events) all [].

(** Everything [websocket] writes between the subscription and the replay, and
    whether it goes on.  A failed write ends the session: what reaches the
    client is then a prefix of it. *)
Definition opening_messages (s : S) (registry : Registry) (filter : Subscription) (historyLimit : Z)
    (requestID subscriptionID : string) (now : Z) : option (list wireEnvelope * bool) :=
  all ← Registry_Snapshots registry;
  let selected := filteredSnapshots filter all in
  let ack := subscribed_message requestID subscriptionID now in
  match snapshot_messages requestID subscriptionID now selected with
  | (messages, false) => Some (ack :: messages, false)
  | (messages, true) =>
      match recentPoints s selected historyLimit with
      | Panic => None
      | Fail _ => Some (ack :: messages ++
                    [protocolError requestID "history_failed" (Text "history query failed") true], false)
      | Ok history =>
          match toAnalysisEvents history now with
          | Ok events => Some (ack :: messages ++
              [mkEnvelope protocolVersion "history" "" subscriptionID "" (EventsData events) None], true)
          | Fail e => Some (ack :: messages ++
              [protocolError requestID "conversion_failed" (ConversionText e) true], false)
          | Panic => None
          end
      end
  end.

(** ** Replay *)

(** The loop over one page: the messages, the cursor reached, and whether every
    conversion succeeded. *)
Fixpoint replay_page (filter : Subscription) (subscriptionID : string) (now : Z) (lastCursor : Z)
    (events : list SignalEvent) : list wireEnvelope * Z * bool :=
  match events with
  | [] => ([], lastCursor, true)
  | event :: rest =>
      if matches filter event then
        match event_message subscriptionID now event with
        | Ok message =>
            let '(messages, cursor, finished) := replay_page filter subscriptionID now (evCursor event) rest in
            (message :: messages, cursor, finished)
        | _ => ([], lastCursor, false)
        end
      else replay_page filter subscriptionID now (evCursor event) rest
  end.

Definition replay_filter (lastCursor : Z) : EventFilter := mkEventFilter lastCursor "" "" "" 0 "" "" 5000.

(** The replay loop against a store that does not change: [None] when the fuel
    runs out, and the cursor to activate with, unless the session ended. *)
Fixpoint replay (fuel : nat) (s : S) (filter : Subscription) (subscriptionID : string) (now lastCursor : Z)
  : option (list wireEnvelope * option Z) :=
  match fuel with
  | O => None
  | Datatypes.S fuel' =>
      match es_QueryEvents s (replay_filter lastCursor) with
      | Ok events =>
          let '(messages, cursor, finished) := replay_page filter subscriptionID now lastCursor events in
          if negb finished then Some (messages, None)
          else if len events <? 5000 then Some (messages, Some cursor)
          else '(more, result) ← replay fuel' s filter subscriptionID now cursor; Some (messages ++ more, result)
      | _ => Some ([], None)
      end
  end.
End Opening.
