(* ===== verification/WsRequest.v ===== *)
(** * The subscription request on the wire (internal/api/server.go)

    [readWSRequest]: the message that opens a subscription, from its bytes to
    the struct the handler reads; and the round trip of a request a client
    writes. *)

From stdpp Require Import prelude gmap strings list.
From Stdlib Require Import ZArith Lia Ascii String.
From S2P Require Import Prelude GoFloat GoText Sha256 GoStrings Json JsonProofs.
From S2P Require Import Monitor Model Ema StoreSpec Memory Lane Registry Contract Hub Server Session.

#[local] Open Scope string_scope.
#[local] Open Scope list_scope.
#[local] Open Scope Z_scope.

(** ** The fields *)

Record wsHistoryRequest := mkHistoryRequest { whLimit : Z }.

Definition series_fields : list (string * decoder seriesSelector) :=
  [("dataset", on_field slDataset (fun t v => mkSeriesSelector v (slSymbol t) (slTimeframe t)) into_string);
   ("symbol", on_field slSymbol (fun t v => mkSeriesSelector (slDataset t) v (slTimeframe t)) into_string);
   ("timeframe", on_field slTimeframe (fun t v => mkSeriesSelector (slDataset t) (slSymbol t) v) into_string)].

Definition analysis_fields : list (string * decoder analysisSelector) :=
  [("name", on_field asName (fun t v => mkAnalysisSelector v (asConfigHash t)) into_string);
   ("config_hash", on_field asConfigHash (fun t v => mkAnalysisSelector (asName t) v) into_string)].

Definition history_fields : list (string * decoder wsHistoryRequest) :=
  [("limit", on_field whLimit (fun _ v => mkHistoryRequest v) into_int)].

(** The struct while it is being filled: its slices with their arrays. *)
Record dataTarget := mkDataTarget {
  dtSeries : slice seriesSelector;
  dtAnalyses : slice analysisSelector;
  dtEventTypes : slice string;
  dtStatuses : slice string;
  dtResumeAfter : string;
  dtHistory : wsHistoryRequest
}.

Definition zero_series : seriesSelector := mkSeriesSelector "" "" "".
Definition zero_analysis : analysisSelector := mkAnalysisSelector "" "".
Definition zero_data : dataTarget := mkDataTarget nil_slice nil_slice nil_slice nil_slice "" (mkHistoryRequest 0).

Definition data_fields : list (string * decoder dataTarget) :=
  [("series", on_field dtSeries
      (fun t v => mkDataTarget v (dtAnalyses t) (dtEventTypes t) (dtStatuses t) (dtResumeAfter t) (dtHistory t))
      (into_slice zero_series (into_struct series_fields)));
   ("analyses", on_field dtAnalyses
      (fun t v => mkDataTarget (dtSeries t) v (dtEventTypes t) (dtStatuses t) (dtResumeAfter t) (dtHistory t))
      (into_slice zero_analysis (into_struct analysis_fields)));
   ("event_types", on_field dtEventTypes
      (fun t v => mkDataTarget (dtSeries t) (dtAnalyses t) v (dtStatuses t) (dtResumeAfter t) (dtHistory t))
      (into_slice "" into_string));
   ("statuses", on_field dtStatuses
      (fun t v => mkDataTarget (dtSeries t) (dtAnalyses t) (dtEventTypes t) v (dtResumeAfter t) (dtHistory t))
      (into_slice "" into_string));
   ("resume_after", on_field dtResumeAfter
      (fun t v => mkDataTarget (dtSeries t) (dtAnalyses t) (dtEventTypes t) (dtStatuses t) v (dtHistory t))
      into_string);
   ("history", on_field dtHistory
      (fun t v => mkDataTarget (dtSeries t) (dtAnalyses t) (dtEventTypes t) (dtStatuses t) (dtResumeAfter t) v)
      (into_struct history_fields))].

Record requestTarget := mkRequestTarget {
  rtProtocol : string;
  rtType : string;
  rtRequestID : string;
  rtData : dataTarget
}.

Definition zero_request : requestTarget := mkRequestTarget "" "" "" zero_data.

Definition request_fields : list (string * decoder requestTarget) :=
  [("protocol", on_field rtProtocol (fun t v => mkRequestTarget v (rtType t) (rtRequestID t) (rtData t)) into_string);
   ("type", on_field rtType (fun t v => mkRequestTarget (rtProtocol t) v (rtRequestID t) (rtData t)) into_string);
   ("request_id", on_field rtRequestID (fun t v => mkRequestTarget (rtProtocol t) (rtType t) v (rtData t)) into_string);
   ("data", on_field rtData (fun t v => mkRequestTarget (rtProtocol t) (rtType t) (rtRequestID t) v)
      (into_struct data_fields))].

(** The struct as the handler sees it. *)
Definition data_of (t : dataTarget) : wsSubscriptionData :=
  mkSubscriptionData (elements_of (dtSeries t)) (elements_of (dtAnalyses t)) (elements_of (dtEventTypes t))
    (elements_of (dtStatuses t)) (dtResumeAfter t) (whLimit (dtHistory t)).

Definition request_of (t : requestTarget) : wsRequest :=
  mkWSRequest (rtProtocol t) (rtType t) (rtRequestID t) (data_of (rtData t)).

(** ** Reading *)

(** A message as the library hands it out: its bytes, and whether reading them
    ended at the end of the message rather than with an error. *)
Record wsMessage := mkWSMessage {
  wmBytes : list Z;
  wmWhole : bool
}.

(** The request as far as it was filled, and whether no error is returned.
    [None] when no message arrives. *)
Definition readWSRequest (message : option wsMessage) : wsRequest * bool :=
  match message with
  | None => (request_of zero_request, false)
  | Some m =>
      match next_value (wmBytes m) with
      | ScanValue j rest =>
          let '(target, ok) := into_struct request_fields zero_request j in
          (request_of target,
           ok && wmWhole m && match next_value rest with ScanEOF => true | _ => false end)
      | _ => (request_of zero_request, false)
      end
  end.

(** ** Writing a request

    As [json.Marshal] of the same struct writes it. *)

Definition unless_empty (name value : string) : list (string * jtext) :=
  if (value =? "")%string then [] else [(name, XString value)].

Definition unless_nil {A} (name : string) (f : A -> jtext) (l : list A) : list (string * jtext) :=
  match l with [] => [] | _ => [(name, XArray (map f l))] end.

Definition series_json (s : seriesSelector) : jtext :=
  XObject (unless_empty "dataset" (slDataset s) ++
    [("symbol", XString (slSymbol s)); ("timeframe", XString (slTimeframe s))]).

Definition analysis_json (a : analysisSelector) : jtext :=
  XObject (("name", XString (asName a)) :: unless_empty "config_hash" (asConfigHash a)).

Definition history_json (limit : Z) : jtext :=
  XObject (if limit =? 0 then [] else [("limit", XNumber (itoa limit))]).

Definition data_json (d : wsSubscriptionData) : jtext :=
  XObject (("series", match wdSeries d with [] => XNull | l => XArray (map series_json l) end) ::
    unless_nil "analyses" analysis_json (wdAnalyses d) ++ unless_nil "event_types" XString (wdEventTypes d) ++
    unless_nil "statuses" XString (wdStatuses d) ++ unless_empty "resume_after" (wdResumeAfter d) ++
    [("history", history_json (wdHistoryLimit d))]).

Definition request_members (r : wsRequest) : list (string * jtext) :=
  [("protocol", XString (wrProtocol r)); ("type", XString (wrType r)); ("request_id", XString (wrRequestID r));
   ("data", data_json (wrData r))].

Definition request_json (r : wsRequest) : jtext := XObject (request_members r).

Definition fx_request : wsRequest :=
  mkWSRequest "signals.v1" "subscribe" "r1"
    (mkSubscriptionData [mkSeriesSelector "" "X" "1m"] [] [] ["confirmed"] "7" 20).

Example read_request :
  readWSRequest (Some (mkWSMessage (print_json (request_json fx_request)) true)) = (fx_request, true).
Proof. vm_compute. reflexivity. Qed.
Example read_any_case :
  readWSRequest (Some (mkWSMessage (double_quoted "{'TYPE':'subscribe','Request_Id':'r'} ") true)) =
    (mkWSRequest "" "subscribe" "r" (mkSubscriptionData [] [] [] [] "" 0), true).
Proof. vm_compute. reflexivity. Qed.
Example read_unknown :
  readWSRequest (Some (mkWSMessage (double_quoted "{'request_id':'r','colour':1,'type':2}") true)) =
    (mkWSRequest "" "" "r" (mkSubscriptionData [] [] [] [] "" 0), false).
Proof. vm_compute. reflexivity. Qed.
Example read_two :
  snd (readWSRequest (Some (mkWSMessage (double_quoted "{'request_id':'r'} {}") true))) = false.
Proof. vm_compute. reflexivity. Qed.

(** ** The round trip *)

(** What can be written in JSON: texts in UTF-8, and a limit of the range of
    the field. *)
Record writable (r : wsRequest) : Prop := {
  wt_head : Forall utf8_text [wrProtocol r; wrType r; wrRequestID r; wdResumeAfter (wrData r)];
  wt_series : Forall (fun s => utf8_text (slDataset s) /\ utf8_text (slSymbol s) /\ utf8_text (slTimeframe s))
    (wdSeries (wrData r));
  wt_analyses : Forall (fun a => utf8_text (asName a) /\ utf8_text (asConfigHash a)) (wdAnalyses (wrData r));
  wt_types : Forall utf8_text (wdEventTypes (wrData r));
  wt_statuses : Forall utf8_text (wdStatuses (wrData r));
  wt_limit : 0 <= wdHistoryLimit (wrData r) < 2 ^ 63
}.

Lemma utf8_literal s : forallb (fun c => (0 <=? c) && (c <? 128)) (bytes_of s) = true -> utf8_text s.
Proof.
  intros Hall. apply utf8_ascii, Forall_forall. intros c Hc%list_elem_of_In. rewrite forallb_forall in Hall.
  specialize (Hall c Hc). lia.
Qed.

(** A value that can be written, nested at most [n] deep. *)
Definition shaped (n : Z) (j : jtext) : Prop := printable j /\ depth j <= n.

Lemma shaped_members n members :
  0 <= n -> Forall (fun m => utf8_text m.1 /\ shaped n m.2) members -> shaped (1 + n) (XObject members).
Proof.
  intros Hn Hall. unfold shaped. cbn [printable depth].
  induction Hall as [|m members [Hk [Hp Hd]] _ [IHp IHd]]; [split; [done|lia]|]. split; [done|lia].
Qed.

Lemma shaped_items n items : 0 <= n -> Forall (shaped n) items -> shaped (1 + n) (XArray items).
Proof.
  intros Hn Hall. unfold shaped. cbn [printable depth].
  induction Hall as [|i items [Hp Hd] _ [IHp IHd]]; [split; [done|lia]|]. split; [done|lia].
Qed.

Lemma shaped_string n s : 0 <= n -> utf8_text s -> shaped n (XString s).
Proof. by split. Qed.

Lemma shaped_member n (name value : string) :
  0 <= n -> utf8_text name -> utf8_text value -> Forall (fun m => utf8_text m.1 /\ shaped n m.2) (unless_empty name value).
Proof. intros. unfold unless_empty. case_match; repeat constructor; done. Qed.

Lemma shaped_list {A} n name (f : A -> jtext) l :
  0 <= n -> utf8_text name -> Forall (fun a => shaped n (f a)) l ->
  Forall (fun m => utf8_text m.1 /\ shaped (1 + n) m.2) (unless_nil name f l).
Proof.
  intros Hn Hname Hl. destruct l as [|a l]; [constructor|]. apply Forall_singleton. split; [done|].
  apply shaped_items; [done|]. by apply Forall_fmap.
Qed.

#[local] Hint Extern 1 (utf8_text _) => (assumption || (apply utf8_literal; reflexivity)) : core.

Lemma series_shaped s :
  utf8_text (slDataset s) -> utf8_text (slSymbol s) -> utf8_text (slTimeframe s) -> shaped 1 (series_json s).
Proof.
  intros. apply (shaped_members 0); [done|]. apply Forall_app. split; [by apply shaped_member; auto|].
  repeat (apply Forall_cons; split; [split; [auto|by apply shaped_string]|]). constructor.
Qed.

Lemma analysis_shaped a : utf8_text (asName a) -> utf8_text (asConfigHash a) -> shaped 1 (analysis_json a).
Proof.
  intros. apply (shaped_members 0); [done|]. apply Forall_cons. split; [split; [auto|by apply shaped_string]|].
  by apply shaped_member; auto.
Qed.

Lemma shaped_weaken n m j : n <= m -> shaped n j -> shaped m j.
Proof. intros Hn [Hp Hd]. split; [done|lia]. Qed.

Lemma history_shaped limit : 0 <= limit -> shaped 1 (history_json limit).
Proof.
  intros Hl. apply (shaped_members 0); [done|]. destruct (limit =? 0); [constructor|].
  apply Forall_singleton. split; [auto|]. split; [by apply itoa_number|done].
Qed.

Lemma data_shaped r : writable r -> shaped 3 (data_json (wrData r)).
Proof.
  intros [Hh Hs Ha Ht Hst Hl]. rewrite !Forall_cons in Hh. destruct Hh as (_ & _ & _ & Hres & _).
  apply (shaped_members 2); [done|]. apply Forall_cons. split.
  { split; [auto|]. cbn [snd]. destruct (wdSeries (wrData r)) as [|s l]; [by split|].
    apply (shaped_items 1); [done|]. apply Forall_fmap. eapply Forall_impl; [exact Hs|].
    intros x (? & ? & ?). by apply series_shaped. }
  rewrite !Forall_app. split_and!.
  - apply (shaped_list 1); [done|auto|]. eapply Forall_impl; [exact Ha|]. intros x [? ?]. by apply analysis_shaped.
  - apply (shaped_list 1); [done|auto|]. eapply Forall_impl; [exact Ht|]. intros x ?. by apply shaped_string.
  - apply (shaped_list 1); [done|auto|]. eapply Forall_impl; [exact Hst|]. intros x ?. by apply shaped_string.
  - by apply shaped_member; auto.
  - apply Forall_singleton. split; [auto|]. eapply shaped_weaken, history_shaped; lia.
Qed.

Lemma members_shaped r : writable r -> Forall (fun m => utf8_text m.1 /\ shaped 3 m.2) (request_members r).
Proof.
  intros Hw. pose proof (data_shaped r Hw) as Hd. destruct Hw as [Hh _ _ _ _ _].
  rewrite !Forall_cons in Hh. destruct Hh as (? & ? & ? & _).
  unfold request_members. rewrite !Forall_cons, Forall_nil.
  split_and!; auto; by apply shaped_string.
Qed.

(** Decoding what was written. *)

Lemma items_read {A} (zero : A) dec f l :
  (forall a, dec zero (f a) = (a, true)) -> into_items zero dec [] (map f l) = (l, true).
Proof. intros Hd. induction l as [|a l IH]; cbn; [done|]. by rewrite Hd, IH. Qed.

Lemma slice_read {A} (zero : A) dec f l :
  (forall a, dec zero (f a) = (a, true)) ->
  into_slice zero dec nil_slice (match l with [] => XNull | a :: rest => XArray (map f (a :: rest)) end) =
    (mkSlice l (List.length l), true).
Proof.
  intros Hd. destruct l as [|a l]; [done|]. cbn [map into_slice gsBacking nil_slice].
  change (f a :: map f l) with (map f (a :: l)). by rewrite items_read, length_map.
Qed.

Lemma series_read s : into_struct series_fields zero_series (series_json s) = (s, true).
Proof.
  destruct s as [dataset symbol timeframe]. unfold series_json, unless_empty. cbn [slDataset slSymbol slTimeframe].
  destruct (String.eqb_spec dataset "") as [->|]; reflexivity.
Qed.

Lemma analysis_read a : into_struct analysis_fields zero_analysis (analysis_json a) = (a, true).
Proof.
  destruct a as [name hash]. unfold analysis_json, unless_empty. cbn [asName asConfigHash].
  destruct (String.eqb_spec hash "") as [->|]; reflexivity.
Qed.

Lemma history_read limit :
  0 <= limit < 2 ^ 63 -> into_struct history_fields (mkHistoryRequest 0) (history_json limit) = (mkHistoryRequest limit, true).
Proof.
  intros Hl. unfold history_json. destruct (Z.eqb_spec limit 0) as [->|]; [done|].
  unfold into_struct, foldl, into_member. cbn [fst snd]. change (find_field history_fields "limit")
    with (Some (on_field whLimit (fun _ v => mkHistoryRequest v) into_int)). cbn iota.
  unfold on_field, into_int. by rewrite atoi_itoa.
Qed.

Section Members.
Context {T : Type} (fields : list (string * decoder T)).

Lemma list_member {A} (t : T) ok name (f : A -> jtext) l get set zero dec :
  find_field fields name = Some (on_field get set (into_slice zero dec)) ->
  get t = nil_slice -> set t nil_slice = t -> (forall a, dec zero (f a) = (a, true)) ->
  foldl (into_member fields) (t, ok) (unless_nil name f l) = (set t (mkSlice l (List.length l)), ok).
Proof.
  intros Hf Hg Hs Hd. destruct l as [|a l]; cbn [unless_nil foldl List.length]; [fold (@nil_slice A); by rewrite Hs|].
  unfold into_member. cbn [fst snd]. rewrite Hf. unfold on_field. rewrite Hg.
  pose proof (slice_read zero dec f (a :: l) Hd) as Hr. cbn iota in Hr. rewrite Hr. by rewrite andb_true_r.
Qed.

Lemma text_member (t : T) ok name value get set :
  find_field fields name = Some (on_field get set into_string) -> set t "" = t ->
  foldl (into_member fields) (t, ok) (unless_empty name value) = (set t value, ok).
Proof.
  intros Hf Hs. unfold unless_empty. destruct (String.eqb_spec value "") as [->|]; cbn [foldl]; [by rewrite Hs|].
  unfold into_member. cbn [fst snd]. rewrite Hf. unfold on_field, into_string. by rewrite andb_true_r.
Qed.

Lemma value_member (t : T) ok name j dec t' :
  find_field fields name = Some dec -> dec t j = (t', true) ->
  into_member fields (t, ok) (name, j) = (t', ok).
Proof. intros Hf Hd. unfold into_member. cbn [fst snd]. rewrite Hf, Hd. by rewrite andb_true_r. Qed.
End Members.

Definition full {A} (l : list A) : slice A := mkSlice l (List.length l).

Lemma full_elements {A} (l : list A) : elements_of (full l) = l.
Proof. unfold elements_of, full. cbn. by rewrite take_ge. Qed.

Definition target_of (d : wsSubscriptionData) : dataTarget :=
  mkDataTarget (full (wdSeries d)) (full (wdAnalyses d)) (full (wdEventTypes d)) (full (wdStatuses d))
    (wdResumeAfter d) (mkHistoryRequest (wdHistoryLimit d)).

Lemma data_read d :
  0 <= wdHistoryLimit d < 2 ^ 63 -> into_struct data_fields zero_data (data_json d) = (target_of d, true).
Proof.
  intros Hl. unfold data_json, into_struct. cbn [foldl].
  erewrite value_member; [|reflexivity|].
  2:{ cbn [snd]. unfold on_field. change (dtSeries zero_data) with (@nil_slice seriesSelector).
      rewrite slice_read by apply series_read. reflexivity. }
  rewrite !foldl_app.
  erewrite list_member; [|reflexivity..|apply analysis_read].
  erewrite list_member; [|reflexivity..|done]. erewrite list_member; [|reflexivity..|done].
  erewrite text_member; [|reflexivity..]. cbn [foldl].
  erewrite value_member; [reflexivity|reflexivity|].
  cbn [snd]. unfold on_field. cbn [dtHistory zero_data]. by rewrite history_read.
Qed.

Lemma request_read r :
  writable r -> exists t, into_struct request_fields zero_request (request_json r) = (t, true) /\ request_of t = r.
Proof.
  intros Hw. exists (mkRequestTarget (wrProtocol r) (wrType r) (wrRequestID r) (target_of (wrData r))). split.
  - unfold request_json, request_members, into_struct. cbn [foldl].
    erewrite value_member; [|reflexivity..]. erewrite value_member; [|reflexivity..].
    erewrite value_member; [|reflexivity..]. erewrite value_member; [reflexivity|reflexivity|].
    cbn [snd]. unfold on_field. cbn [rtData zero_request]. by rewrite data_read by apply Hw.
  - destruct r as [protocol type id [series analyses types statuses after limit]].
    unfold request_of, data_of, target_of.
    cbn -[elements_of full]. by rewrite !full_elements.
Qed.

(** ** Reading what was written *)

Lemma read_written members after t ok :
  Forall (fun m => utf8_text m.1 /\ shaped 3 m.2) members ->
  into_struct request_fields zero_request (XObject members) = (t, ok) ->
  readWSRequest (Some (mkWSMessage (print_json (XObject members) ++ after) true)) =
    (request_of t, ok && forallb is_space after).
Proof.
  intros Hm Hread. destruct (shaped_members 3 members) as [Hp Hd]; [done|done|].
  unfold readWSRequest. cbn [wmBytes wmWhole].
  rewrite next_printed; [|done|unfold maxNestingDepth; lia|done]. rewrite Hread, andb_true_r.
  destruct (forallb is_space after) eqn:Hs; [by rewrite scan_spaces|].
  apply scan_not_eof in Hs. by destruct (next_value after).
Qed.

(** A name that none of the fields folds to. *)
Definition unknown_name (key : string) : bool :=
  match find_field request_fields key with Some _ => false | None => true end.
