(* ===== verification/WebSocket.v ===== *)
(** * A WebSocket connection (internal/api/server.go)

    [websocket] from the upgraded connection to its end, and [writeClient]
    beside it: two goroutines that share a connection and a client of the hub.
    Each step is one access to what they share, so that everything else the
    service does can happen between two steps.  The connection is a parameter:
    what it reads, and whether it writes. *)

From stdpp Require Import prelude gmap strings list sorting.
From Stdlib Require Import ZArith Lia SpecFloat Ascii String.
From S2P Require Import Prelude GoFloat GoText GoStrings Monitor Model Ema MarketZones.
From S2P Require Import StoreSpec Memory Lane Registry Contract Hub Server Session Json WsRequest.

#[local] Open Scope string_scope.
#[local] Open Scope list_scope.
#[local] Open Scope Z_scope.

(** ** The connection *)

(** [so_Read] is [NextReader] and [ReadMessage]: the next message, or [None]
    for an error.  The other calls tell whether they succeeded.  A deadline
    that passes makes a call fail. *)
Class Socket (K : Type) := {
  so_Read : K -> K * option wsMessage;
  so_WriteJSON : K -> wireEnvelope -> K * bool;
  so_WritePing : K -> K * bool;
  so_Close : K -> K
}.

(** [newSubscriptionID], of the bytes [rand.Read] fills, if it does. *)
Definition newSubscriptionID (random : option (list Z)) : option string := hex_encode <$> random.

(** ** The state of a connection *)

(** What the request asked for, and the identity it was given. *)
Record wsOpen := mkOpen {
  woRequestID : string;
  woSubscriptionID : string;
  woFilter : Subscription;
  woAfter : Z;
  woLimit : Z
}.

(** Where [websocket] stands.  [PhLeaving] and [PhClosing] are the deferred
    calls: first the hub is left, then the connection is closed. *)
Inductive wsPhase :=
  | PhRead
  | PhAck (o : wsOpen)
  | PhTake (o : wsOpen)
  | PhSnapshots (o : wsOpen) (selected rest : list SeriesSnapshot)
  | PhHistory (o : wsOpen) (selected : list SeriesSnapshot)
  | PhReplay (o : wsOpen) (lastCursor : Z)
  | PhPage (o : wsOpen) (lastCursor : Z) (events : list SignalEvent) (final : bool)
  | PhActivate (o : wsOpen) (lastCursor : Z)
  | PhLive (o : wsOpen)
  | PhLeaving (o : wsOpen)
  | PhClosing
  | PhDone.

(** The goroutine of [writeClient]. *)
Inductive wsWriter := WriterIdle | WriterRunning (o : wsOpen) | WriterEnded.

Section Connection.
Context `{Runtime} {S : Type} `{EventStore S} {K : Type} `{Socket K}.

(** [wsGone] is the client once it has left the hub; until then the client is
    in the hub. *)
Record wsState := mkWS {
  wsAt : wsPhase;
  wsConn : K;
  wsWriting : wsWriter;
  wsGone : option hubClient;
  wsHub : Hub;
  wsRegistry : Registry;
  wsStore : S;
  wsNow : Z
}.

Definition at_phase (st : wsState) (phase : wsPhase) : wsState :=
  mkWS phase (wsConn st) (wsWriting st) (wsGone st) (wsHub st) (wsRegistry st) (wsStore st) (wsNow st).
Definition with_conn (st : wsState) (k : K) : wsState :=
  mkWS (wsAt st) k (wsWriting st) (wsGone st) (wsHub st) (wsRegistry st) (wsStore st) (wsNow st).
Definition with_hub (st : wsState) (h : Hub) : wsState :=
  mkWS (wsAt st) (wsConn st) (wsWriting st) (wsGone st) h (wsRegistry st) (wsStore st) (wsNow st).
Definition with_gone (st : wsState) (gone : option hubClient) : wsState :=
  mkWS (wsAt st) (wsConn st) (wsWriting st) gone (wsHub st) (wsRegistry st) (wsStore st) (wsNow st).
Definition with_writer (st : wsState) (writer : wsWriter) : wsState :=
  mkWS (wsAt st) (wsConn st) writer (wsGone st) (wsHub st) (wsRegistry st) (wsStore st) (wsNow st).

(** Writes a message and goes on to one of two places. *)
Definition write_then (st : wsState) (message : wireEnvelope) (written failed : wsPhase) : wsState :=
  let '(k, ok) := so_WriteJSON (wsConn st) message in
  at_phase (with_conn st k) (if (ok : bool) then written else failed).

(** The identity of the client in the hub: its address. *)
Variable id : Z.

(** ** [websocket] *)

(** The request and the subscription.  Nothing is shared before the hub is
    joined. *)
Definition read_step (st : wsState) (random : option (list Z)) : wsState :=
  let '(k, message) := so_Read (wsConn st) in
  let st := with_conn st k in
  let '(request, valid) := readWSRequest message in
  match handshake valid request with
  | inl refusal => write_then st refusal PhClosing PhClosing
  | inr (filter, afterCursor, historyLimit) =>
      match newSubscriptionID random with
      | None => write_then st (protocolError (wrRequestID request) "internal_error"
                  (Text "could not allocate subscription") true) PhClosing PhClosing
      | Some subscriptionID =>
          at_phase (with_hub st (subscribe (wsHub st) id filter 2048))
            (PhAck (mkOpen (wrRequestID request) subscriptionID filter afterCursor historyLimit))
      end
  end.

(** The acknowledgement. *)
Definition ack_step (st : wsState) (o : wsOpen) : wsState :=
  write_then st (subscribed_message (woRequestID o) (woSubscriptionID o) (wsNow st)) (PhTake o) (PhLeaving o).

(** The snapshots are taken, in a step of its own: other goroutines may run
    between the acknowledgement and it. *)
Definition take_step (st : wsState) (o : wsOpen) : option wsState :=
  all ← Registry_Snapshots (wsRegistry st);
  let selected := filteredSnapshots (woFilter o) all in
  Some (at_phase st (PhSnapshots o selected selected)).

Definition snapshot_envelope (o : wsOpen) (events : list analysisEvent) : wireEnvelope :=
  mkEnvelope protocolVersion "snapshot" "" (woSubscriptionID o) "" (EventsData events) None.
Definition history_envelope (o : wsOpen) (events : list analysisEvent) : wireEnvelope :=
  mkEnvelope protocolVersion "history" "" (woSubscriptionID o) "" (EventsData events) None.
Definition refuse (o : wsOpen) (code : string) (text : errorText) : wireEnvelope :=
  protocolError (woRequestID o) code text true.

Definition snapshots_step (st : wsState) (o : wsOpen) (selected rest : list SeriesSnapshot) : option wsState :=
  match rest with
  | [] => Some (at_phase st (PhHistory o selected))
  | snapshot :: rest =>
      match snapshotAnalysisEvents snapshot (wsNow st) with
      | Ok events => Some (write_then st (snapshot_envelope o events) (PhSnapshots o selected rest) (PhLeaving o))
      | Fail e => Some (write_then st (refuse o "conversion_failed" (ConversionText e)) (PhLeaving o) (PhLeaving o))
      | Panic => None
      end
  end.

Definition history_step (st : wsState) (o : wsOpen) (selected : list SeriesSnapshot) : option wsState :=
  match recentPoints (wsStore st) selected (woLimit o) with
  | Panic => None
  | Fail _ => Some (write_then st (refuse o "history_failed" (Text "history query failed")) (PhLeaving o) (PhLeaving o))
  | Ok history =>
      match toAnalysisEvents history (wsNow st) with
      | Panic => None
      | Fail e => Some (write_then st (refuse o "conversion_failed" (ConversionText e)) (PhLeaving o) (PhLeaving o))
      | Ok events =>
          Some (write_then st (history_envelope o events)
                  (if 0 <? woAfter o then PhReplay o (woAfter o) else PhActivate o (woAfter o)) (PhLeaving o))
      end
  end.

(** A page of the replay, and one event of it. *)
Definition ws_replay_step (st : wsState) (o : wsOpen) (lastCursor : Z) : option wsState :=
  match es_QueryEvents (wsStore st) (replay_filter lastCursor) with
  | Panic => None
  | Fail _ => Some (at_phase st (PhLeaving o))
  | Ok events => Some (at_phase st (PhPage o lastCursor events (len events <? 5000)))
  end.

Definition page_step (st : wsState) (o : wsOpen) (lastCursor : Z) (events : list SignalEvent) (final : bool)
  : option wsState :=
  match events with
  | [] => Some (at_phase st (if final then PhActivate o lastCursor else PhReplay o lastCursor))
  | event :: rest =>
      let next := PhPage o (evCursor event) rest final in
      if matches (woFilter o) event then
        match event_message (woSubscriptionID o) (wsNow st) event with
        | Ok message => Some (write_then st message next (PhLeaving o))
        | Fail _ => Some (at_phase st (PhLeaving o))
        | Panic => None
        end
      else Some (at_phase st next)
  end.

(** The barrier opens, and the writer starts. *)
Definition activate_step (st : wsState) (o : wsOpen) (lastCursor : Z) : option wsState :=
  client ← wsHub st !! id;
  client' ← activate client lastCursor;
  Some (at_phase (with_writer (with_hub st (<[id := client']> (wsHub st))) (WriterRunning o)) (PhLive o)).

(** What the peer sends is read and ignored, until reading fails. *)
Definition live_step (st : wsState) (o : wsOpen) : wsState :=
  let '(k, message) := so_Read (wsConn st) in
  at_phase (with_conn st k) (match message with Some _ => PhLive o | None => PhLeaving o end).

Definition leave_step (st : wsState) : option wsState :=
  client ← wsHub st !! id;
  client' ← close client;
  hub ← unsubscribe (wsHub st) id;
  Some (at_phase (with_gone (with_hub st hub) (Some client')) PhClosing).

(** One step of the handler; [None] is a panic. *)
Definition handler_step (st : wsState) (random : option (list Z)) : option wsState :=
  match wsAt st with
  | PhRead => Some (read_step st random)
  | PhAck o => Some (ack_step st o)
  | PhTake o => take_step st o
  | PhSnapshots o selected rest => snapshots_step st o selected rest
  | PhHistory o selected => history_step st o selected
  | PhReplay o lastCursor => ws_replay_step st o lastCursor
  | PhPage o lastCursor events final => page_step st o lastCursor events final
  | PhActivate o lastCursor => activate_step st o lastCursor
  | PhLive o => Some (live_step st o)
  | PhLeaving _ => leave_step st
  | PhClosing => Some (at_phase (with_conn st (so_Close (wsConn st))) PhDone)
  | PhDone => Some st
  end.

(** ** [writeClient] *)

(** The writer returns, and its goroutine closes the connection. *)
Definition writer_ends (st : wsState) : wsState :=
  with_writer (with_conn st (so_Close (wsConn st))) WriterEnded.

(** The client the writer holds, and the state with another in its place. *)
Definition held_client (st : wsState) : option hubClient :=
  match wsGone st with Some client => Some client | None => wsHub st !! id end.
Definition hold (st : wsState) (client : hubClient) : wsState :=
  match wsGone st with
  | Some _ => with_gone st (Some client)
  | None => with_hub st (<[id := client]> (wsHub st))
  end.

Definition received_client (client : hubClient) (ch : chan) : hubClient :=
  mkClient (hcFilter client) ch (hcActive client) (hcPending client) (hcLastCursor client) (hcClosed client).

(** The branch that receives: an event to write, the end of a closed channel,
    or nothing yet. *)
Definition receive_step (st : wsState) (o : wsOpen) : option wsState :=
  client ← held_client st;
  match chan_recv (hcSend client) with
  | (Some event, ch) =>
      let st := hold st (received_client client ch) in
      match event_message (woSubscriptionID o) (wsNow st) event with
      | Ok message =>
          let '(k, ok) := so_WriteJSON (wsConn st) message in
          Some (if (ok : bool) then with_conn st k else writer_ends (with_conn st k))
      | Fail _ => Some (writer_ends st)
      | Panic => None
      end
  | (None, ch) => Some (if chClosed ch then writer_ends st else st)
  end.

Definition ping_step (st : wsState) : wsState :=
  let '(k, ok) := so_WritePing (wsConn st) in
  if (ok : bool) then with_conn st k else writer_ends (with_conn st k).

(** ** Schedules *)

(** Who moves: the handler, a branch of the writer's [select], or the rest of
    the service. *)
Inductive wsMove :=
  | MoveHandler (random : option (list Z))
  | MoveReceive
  | MovePing
  | MoveCancelled
  | MovePublish (event : SignalEvent)
  | MoveJoin (other : Z) (filter : Subscription)
  | MoveLeave (other : Z)
  | MoveWorld (registry : Registry) (store : S) (now : Z).

Definition writer_move (st : wsState) (f : wsOpen -> option wsState) : option wsState :=
  match wsWriting st with WriterRunning o => f o | _ => Some st end.

Definition ws_step (st : wsState) (move : wsMove) : option wsState :=
  match move with
  | MoveHandler random => handler_step st random
  | MoveReceive => writer_move st (receive_step st)
  | MovePing => writer_move st (fun _ => Some (ping_step st))
  | MoveCancelled => writer_move st (fun _ => Some (writer_ends st))
  | MovePublish event => hub ← Hub_Publish (wsHub st) event; Some (with_hub st hub)
  | MoveJoin other filter =>
      if other =? id then Some st else Some (with_hub st (subscribe (wsHub st) other filter 2048))
  | MoveLeave other =>
      if other =? id then Some st else hub ← unsubscribe (wsHub st) other; Some (with_hub st hub)
  | MoveWorld registry store now =>
      Some (mkWS (wsAt st) (wsConn st) (wsWriting st) (wsGone st) (wsHub st) registry store now)
  end.

Fixpoint ws_run (st : wsState) (moves : list wsMove) : option wsState :=
  match moves with
  | [] => Some st
  | move :: rest => st' ← ws_step st move; ws_run st' rest
  end.

(** An upgraded connection. *)
Definition upgraded (k : K) (hub : Hub) (registry : Registry) (store : S) (now : Z) : wsState :=
  mkWS PhRead k WriterIdle None hub registry store now.
End Connection.
Arguments wsState S K : clear implicits.
Arguments wsMove S : clear implicits.

(** ** What a connection does

    The messages that were written, and that nothing is after it is closed. *)
Class SocketLaws (K : Type) `{Socket K} := {
  so_written : K -> list wireEnvelope;
  so_closed : K -> bool;
  law_read k k' m : so_Read k = (k', m) ->
    so_written k' = so_written k /\ so_closed k' = so_closed k /\ (so_closed k = true -> m = None);
  law_write k m k' ok : so_WriteJSON k m = (k', ok) ->
    so_written k' = so_written k ++ (if (ok : bool) then [m] else []) /\ so_closed k' = so_closed k /\
    (so_closed k = true -> ok = false);
  law_ping k k' ok : so_WritePing k = (k', ok) -> so_written k' = so_written k /\ so_closed k' = so_closed k;
  law_shut k : so_written (so_Close k) = so_written k /\ so_closed (so_Close k) = true
}.

(** ** A scripted connection

    It reads the given messages and then fails, and its writes succeed or fail
    as the script says; past the script they succeed. *)
Record ScriptSocket := mkScriptSocket {
  skIncoming : list wsMessage;
  skScript : list bool;
  skWritten : list wireEnvelope;
  skClosed : bool
}.

#[global] Instance script_socket : Socket ScriptSocket := {|
  so_Read k :=
    if skClosed k then (k, None)
    else match skIncoming k with
         | [] => (k, None)
         | m :: rest => (mkScriptSocket rest (skScript k) (skWritten k) false, Some m)
         end;
  so_WriteJSON k m :=
    if skClosed k then (k, false)
    else match skScript k with
         | false :: rest => (mkScriptSocket (skIncoming k) rest (skWritten k) false, false)
         | _ => (mkScriptSocket (skIncoming k) (tail (skScript k)) (skWritten k ++ [m]) false, true)
         end;
  so_WritePing k := (k, negb (skClosed k));
  so_Close k := mkScriptSocket (skIncoming k) (skScript k) (skWritten k) true
|}.

#[global] Instance script_socket_laws : SocketLaws ScriptSocket.
Proof.
  refine {| so_written := skWritten; so_closed := skClosed |}.
  - intros k k' m. cbn. destruct (skClosed k) eqn:Hc; [by intros [= <- <-]|].
    destruct (skIncoming k); intros [= <- <-]; cbn; by rewrite ?Hc.
  - intros k m k' ok. cbn. destruct (skClosed k) eqn:Hc; [intros [= <- <-]; by rewrite app_nil_r, Hc|].
    destruct (skScript k) as [|[] rest]; intros [= <- <-]; cbn; by rewrite ?app_nil_r.
  - intros k k' ok. cbn. by intros [= <- <-].
  - intros k. done.
Defined.
