(* ===== verification/SessionProofs.v ===== *)
(** * A resumed subscription misses nothing

    The replay reads the log page by page while commits go on, the dispatcher
    publishes what was committed, and the subscriber's events wait at the hub.
    A step relation says how these interleave; its invariant says what the
    subscriber has been given at every moment. *)

From stdpp Require Import prelude gmap strings list sorting.
From Stdlib Require Import ZArith Lia SpecFloat Ascii String.
From S2P Require Import Prelude GoFloat GoText GoStrings Monitor Model Ema MarketZones.
From S2P Require Import StoreSpec Memory MemoryProofs Lane Registry Contract Hub HubProofs Server Session.

#[local] Open Scope string_scope.
#[local] Open Scope list_scope.
#[local] Open Scope Z_scope.

(** ** One page *)

Lemma replay_page_spec filter subscriptionID now lastCursor events messages cursor :
  replay_page filter subscriptionID now lastCursor events = (messages, cursor, true) ->
  mapM (fun e => match event_message subscriptionID now e with Ok m => Some m | _ => None end)
    (List.filter (matches filter) events) = Some messages /\
  cursor = default lastCursor (evCursor <$> last events).
Proof.
  revert lastCursor messages. induction events as [|e events IH]; intros lastCursor messages; cbn [replay_page].
  { by intros [= <- <-]. }
  assert (Hlast : forall d, default d (evCursor <$> last (e :: events)) = default (evCursor e) (evCursor <$> last events)).
  { intros d. rewrite last_cons. by destruct (last events). }
  cbn [List.filter]. destruct (matches filter e).
  - destruct (event_message subscriptionID now e) as [message|err|] eqn:Hm; [|done..].
    destruct (replay_page filter subscriptionID now (evCursor e) events) as [[more c] fin] eqn:E.
    intros [= <- <- ->]. apply IH in E as [Hmap ->]. cbn [mapM]. rewrite Hm, Hmap. by rewrite Hlast.
  - intros (Hmap & ->)%IH. by rewrite Hlast.
Qed.

(** ** The system around one subscriber *)

Inductive phase := Replaying | CaughtUp | Live.

(** [se_published] is the highest cursor the dispatcher has published, and
    [se_replayed] holds the matching events of the pages read. *)
Record session := mkSession {
  se_store : Memory;
  se_published : Z;
  se_client : hubClient;
  se_received : list SignalEvent;
  se_replayed : list SignalEvent;
  se_cursor : Z;
  se_phase : phase
}.

(** Commits, rebuilds and marks only ever append to the log. *)
Definition log_grows (s s' : Memory) : Prop :=
  memory_wf s' /\ exists new, meEvents s' = meEvents s ++ new.

(** The dispatcher may publish an event when every earlier one of the log has
    been published; it may publish an event again. *)
Definition publishable (s : Memory) (published : Z) (e : SignalEvent) : Prop :=
  e ∈ meEvents s /\ forall e', e' ∈ meEvents s -> evCursor e' < evCursor e -> evCursor e' <= published.

Inductive session_step (filter : Subscription) : session -> session -> Prop :=
  | step_commit se s' : log_grows (se_store se) s' ->
      session_step filter se (mkSession s' (se_published se) (se_client se) (se_received se)
        (se_replayed se) (se_cursor se) (se_phase se))
  | step_publish se e c' : publishable (se_store se) (se_published se) e -> enqueue (se_client se) e = Some c' ->
      session_step filter se (mkSession (se_store se) (Z.max (se_published se) (evCursor e)) c' (se_received se)
        (se_replayed se) (se_cursor se) (se_phase se))
  | step_forming se e c' : evCursor e = 0 -> enqueue (se_client se) e = Some c' ->
      session_step filter se (mkSession (se_store se) (se_published se) c' (se_received se)
        (se_replayed se) (se_cursor se) (se_phase se))
  | step_page se cursor :
      se_phase se = Replaying ->
      cursor = default (se_cursor se) (evCursor <$> last (Memory_QueryEvents (se_store se) (replay_filter (se_cursor se)))) ->
      session_step filter se (mkSession (se_store se) (se_published se) (se_client se) (se_received se)
        (se_replayed se ++ List.filter (matches filter)
           (Memory_QueryEvents (se_store se) (replay_filter (se_cursor se)))) cursor
        (if len (Memory_QueryEvents (se_store se) (replay_filter (se_cursor se))) <? 5000 then CaughtUp else Replaying))
  | step_activate se c' :
      se_phase se = CaughtUp -> activate (se_client se) (se_cursor se) = Some c' ->
      session_step filter se (mkSession (se_store se) (se_published se) c' (se_received se)
        (se_replayed se) (se_cursor se) Live)
  | step_receive se c' received' :
      client_step (se_client se, se_received se) OpRecv = Some (c', received') ->
      session_step filter se (mkSession (se_store se) (se_published se) c' received'
        (se_replayed se) (se_cursor se) (se_phase se)).

(** Where [websocket] subscribes: the store and what was published before. *)
Definition opened (filter : Subscription) (after : Z) (s : Memory) (published : Z) : session :=
  mkSession s published (new_client filter 2048) [] [] after (if 0 <? after then Replaying else CaughtUp).

Inductive session_reaches (filter : Subscription) : session -> session -> Prop :=
  | reaches_refl se : session_reaches filter se se
  | reaches_step a b c : session_reaches filter a b -> session_step filter b c -> session_reaches filter a c.

(** Everything the subscriber was given: the replay, then the channel. *)
Definition delivered (se : session) : list SignalEvent :=
  se_replayed se ++ sent_log (se_client se, se_received se).

(** ** What one [enqueue] does *)

Inductive enqueue_effect (c : hubClient) (received : list SignalEvent) (e : SignalEvent) (c' : hubClient) : Prop :=
  | effect_dropped : c' = c -> (matches (hcFilter c) e = false \/ 0 < evCursor e <= hcLastCursor c) ->
      enqueue_effect c received e c'
  | effect_waits : hcActive c = false -> hcPending c' = hcPending c ++ [e] ->
      sent_log (c', received) = sent_log (c, received) -> hcLastCursor c' = hcLastCursor c ->
      matches (hcFilter c) e = true -> enqueue_effect c received e c'
  | effect_sent : hcActive c = true -> hcPending c' = hcPending c ->
      sent_log (c', received) = sent_log (c, received) ++ [e] -> hcLastCursor c' = next_cursor (hcLastCursor c) e ->
      (0 < evCursor e -> hcLastCursor c < evCursor e) ->
      matches (hcFilter c) e = true -> enqueue_effect c received e c'.

Lemma enqueue_spec c received e c' :
  enqueue c e = Some c' -> hcClosed c' = false ->
  hcClosed c = false /\ hcFilter c' = hcFilter c /\ hcActive c' = hcActive c /\ enqueue_effect c received e c'.
Proof.
  unfold enqueue. destruct (matches (hcFilter c) e) eqn:Hm; cbn [negb].
  2:{ intros [= <-] Hc. split_and!; try done. by apply effect_dropped; [|left]. }
  destruct (hcClosed c) eqn:Hclosed; [intros [= <-] Hc; congruence|].
  destruct ((0 <? evCursor e) && (evCursor e <=? hcLastCursor c)) eqn:Hold.
  { intros [= <-] Hc. split_and!; try done. apply effect_dropped; [done|]. right. lia. }
  assert (Hnot : close_client c = Some c' -> hcClosed c' = false -> False).
  { unfold close_client. intros (ch & _ & [= <-])%bind_Some. done. }
  destruct (hcActive c) eqn:Hact; cbn [negb].
  - destruct (chan_try_send (hcSend c) e) as [[ch|]|] eqn:Hsend; cbn [mbind option_bind]; [|naive_solver..].
    intros [= <-] _. split_and!; try done. apply effect_sent; try done; [|lia].
    unfold chan_try_send in Hsend. case_match; [done|]. case_match; [|done]. injection Hsend as <-.
    unfold sent_log. cbn. by rewrite app_assoc.
  - case_match; [naive_solver|]. intros [= <-] _. split_and!; try done. by apply effect_waits.
Qed.

(** ** Cursors of a sorted log *)

Definition sorted_log (log : list SignalEvent) : Prop := StronglySorted Z.lt (map evCursor log).

Definition between (a b : Z) (e : SignalEvent) : bool := (a <? evCursor e) && (evCursor e <=? b).

Lemma sorted_log_cons e log :
  sorted_log (e :: log) -> sorted_log log /\ forall e', e' ∈ log -> evCursor e < evCursor e'.
Proof.
  intros [Hs Hf]%StronglySorted_inv. split; [done|]. intros e' He'. rewrite Forall_forall in Hf.
  apply Hf. apply list_elem_of_In, in_map, list_elem_of_In, He'.
Qed.

Lemma sorted_log_app old new :
  sorted_log (old ++ new) -> forall e e', e ∈ old -> e' ∈ new -> evCursor e < evCursor e'.
Proof.
  unfold sorted_log. rewrite map_app. intros (Hlt & _ & _)%StronglySorted_app e e' He He'.
  apply Hlt; apply list_elem_of_In, in_map, list_elem_of_In; done.
Qed.

Lemma filter_none {A} (p : A -> bool) l : (forall x, x ∈ l -> p x = false) -> List.filter p l = [].
Proof.
  induction l as [|x l IH]; intros Hp; [done|]. cbn. rewrite Hp by set_solver. apply IH. set_solver.
Qed.

Lemma filter_same {A} (p q : A -> bool) l : (forall x, x ∈ l -> p x = q x) -> List.filter p l = List.filter q l.
Proof.
  induction l as [|x l IH]; intros Hpq; [done|]. cbn. rewrite Hpq by set_solver. rewrite IH by set_solver. done.
Qed.

Lemma between_split (p : SignalEvent -> bool) a b c log :
  sorted_log log -> a <= b <= c ->
  List.filter (fun e => p e && between a b e) log ++ List.filter (fun e => p e && between b c e) log =
  List.filter (fun e => p e && between a c e) log.
Proof.
  intros Hs Habc. induction log as [|e log IH]; [done|]. apply sorted_log_cons in Hs as [Hs He]. cbn [List.filter].
  destruct (Z.leb_spec (evCursor e) b) as [Hle|Hgt].
  - assert (between b c e = false) as -> by (unfold between; lia). rewrite andb_false_r.
    assert (between a c e = between a b e) as -> by (unfold between; lia).
    rewrite <-IH by done. by destruct (p e && between a b e).
  - assert (between a b e = false) as -> by (unfold between; lia). rewrite andb_false_r.
    rewrite (filter_none (fun x => p x && between a b x)).
    2:{ intros x Hx%He. unfold between. rewrite (proj2 (Z.leb_gt _ _)) by lia. by rewrite !andb_false_r. }
    assert (between a c e = between b c e) as -> by (unfold between; lia). cbn [app].
    assert (List.filter (fun e => p e && between b c e) log = List.filter (fun e => p e && between a c e) log) as ->;
      [|done].
    apply filter_same. intros x Hx%He. unfold between.
    rewrite !(proj2 (Z.ltb_lt _ (evCursor x))) by lia. done.
Qed.

(** The first events above a cursor are those up to the last of them. *)
Lemma take_between n d log :
  sorted_log log ->
  take n (List.filter (fun e => d <? evCursor e) log) =
  List.filter (between d (default d (evCursor <$> last (take n (List.filter (fun e => d <? evCursor e) log))))) log.
Proof.
  revert n d. induction log as [|e log IH]; intros n d Hs; [cbn; by rewrite take_nil|].
  apply sorted_log_cons in Hs as [Hs He]. cbn [List.filter]. destruct (Z.ltb_spec d (evCursor e)) as [Hd|Hd].
  2:{ rewrite (IH n d Hs) at 1. set (m := default _ _). assert (between d m e = false) as -> by (unfold between; lia). done. }
  destruct n as [|n]; cbn [take].
  { cbn. symmetry. rewrite filter_none; [|intros x _; unfold between; lia].
    assert (between d d e = false) as -> by (unfold between; lia). done. }
  assert (Hsame : List.filter (fun e => d <? evCursor e) log = List.filter (fun x => evCursor e <? evCursor x) log).
  { apply filter_same. intros x Hx%He. lia. }
  rewrite Hsame, last_cons. rewrite (IH n (evCursor e) Hs) at 1.
  set (rest := take n (List.filter (fun x => evCursor e <? evCursor x) log)).
  assert (Hm : match last rest with Some y => Some y | None => Some e end = Some (default e (last rest))) by (by destruct (last rest)).
  rewrite Hm. cbn [default fmap option_fmap option_map].
  assert (Hcur : evCursor (default e (last rest)) = default (evCursor e) (evCursor <$> last rest)) by (by destruct (last rest)).
  rewrite Hcur. set (m := default (evCursor e) (evCursor <$> last rest)).
  assert (Hme : evCursor e <= m).
  { unfold m. destruct (last rest) as [y|] eqn:El; cbn; [|lia].
    apply last_Some_elem_of in El. unfold rest in El. apply elem_of_take in El as (i & El & _).
    apply list_elem_of_lookup_2, list_elem_of_In, filter_In in El as [_ El]. lia. }
  change (id m) with m. assert (between d m e = true) as -> by (unfold between; lia). f_equal.
  apply filter_same. intros x Hx%He. unfold between. rewrite !(proj2 (Z.ltb_lt _ (evCursor x))) by lia. done.
Qed.

Lemma replay_query s cursor :
  Memory_QueryEvents s (replay_filter cursor) = take 5000 (List.filter (fun e => cursor <? evCursor e) (meEvents s)).
Proof.
  unfold Memory_QueryEvents. change (normalize_limit (efLimit (replay_filter cursor))) with 5000.
  f_equal. apply filter_same. intros e _. unfold event_matches, replay_filter, excluded. cbn.
  destruct (Z.leb_spec (evCursor e) cursor), (Z.ltb_spec cursor (evCursor e)); try lia; done.
Qed.

Ltac session_cbn :=
  cbn [se_store se_published se_client se_received se_replayed se_cursor se_phase].

(** ** The invariant *)

(** A cursor that stands in the log, or the start. *)
Definition in_log (log : list SignalEvent) (start cursor : Z) : Prop :=
  cursor = start \/ exists e, e ∈ log /\ evCursor e = cursor.

(** [after] is where the subscriber resumes, [mark] what had been published
    when it subscribed. *)
Record session_inv (filter : Subscription) (after mark : Z) (se : session) : Prop := {
  si_store : memory_wf (se_store se);
  si_client : client_inv (se_client se, se_received se);
  si_filter : hcFilter (se_client se) = filter;
  si_after : 0 <= after <= se_cursor se;
  si_cursor : in_log (meEvents (se_store se)) after (se_cursor se);
  si_replayed : se_replayed se =
    List.filter (fun e => matches filter e && between after (se_cursor se) e) (meEvents (se_store se));
  si_mark : 0 <= mark <= se_published se;
  si_mark_log : in_log (meEvents (se_store se)) 0 mark;
  si_published : in_log (meEvents (se_store se)) 0 (se_published se);
  si_caught : se_phase se <> Replaying -> 0 < after -> mark <= se_cursor se;
  si_active : hcClosed (se_client se) = false -> (hcActive (se_client se) = true <-> se_phase se = Live);
  si_waiting : hcClosed (se_client se) = false -> se_phase se <> Live ->
    forall e, e ∈ meEvents (se_store se) -> matches filter e = true ->
      mark < evCursor e <= se_published se -> e ∈ hcPending (se_client se);
  si_live : hcClosed (se_client se) = false -> se_phase se = Live ->
    forall e, e ∈ meEvents (se_store se) -> matches filter e = true ->
      mark < evCursor e <= se_published se -> se_cursor se < evCursor e ->
      e ∈ sent_log (se_client se, se_received se);
  si_last : hcClosed (se_client se) = false -> se_phase se = Live ->
    se_cursor se <= hcLastCursor (se_client se) <= Z.max (se_cursor se) (se_published se);
  si_sound : hcClosed (se_client se) = false ->
    forall e, e ∈ hcPending (se_client se) ++ sent_log (se_client se, se_received se) -> 0 < evCursor e ->
      e ∈ meEvents (se_store se) /\ evCursor e <= se_published se;
  si_past : hcClosed (se_client se) = false ->
    forall e, e ∈ sent_log (se_client se, se_received se) -> 0 < evCursor e -> se_cursor se < evCursor e
}.

Lemma in_log_grows log new start cursor : in_log log start cursor -> in_log (log ++ new) start cursor.
Proof. intros [->|(e & He & <-)]; [by left|right; exists e; set_solver]. Qed.

(** Events that are appended stand above every cursor of the log. *)
Lemma appended_above old new cursor e :
  sorted_log (old ++ new) -> Forall (fun x => 0 < evCursor x) (old ++ new) ->
  in_log old 0 cursor -> e ∈ new -> cursor < evCursor e.
Proof.
  intros Hs Hp [->|(x & Hx & <-)] He.
  - rewrite Forall_forall in Hp. apply Hp. set_solver.
  - by eapply sorted_log_app.
Qed.

Lemma log_positive s : memory_wf s -> Forall (fun x => 0 < evCursor x) (meEvents s).
Proof. intros [_ _ Hr _]. eapply Forall_impl; [exact Hr|]. cbn. lia. Qed.

Lemma opened_inv filter after s published :
  memory_wf s -> 0 <= after -> 0 <= published -> in_log (meEvents s) 0 published ->
  session_inv filter after published (opened filter after s published).
Proof.
  intros Hs Ha Hp Hl. split; cbn; try done.
  - apply new_client_inv.
  - by left.
  - rewrite filter_none; [done|]. intros e _. unfold between. destruct (Z.ltb_spec after (evCursor e)), (Z.leb_spec (evCursor e) after); try lia; by rewrite andb_false_r.
  - destruct (Z.ltb_spec 0 after); [done|lia].
  - intros _. split; [done|]. by destruct (0 <? after).
  - intros; lia.
  - destruct (0 <? after); intros; discriminate.
  - destruct (0 <? after); intros; discriminate.
  - intros _ e He. by apply elem_of_nil in He.
  - intros _ e He. by apply elem_of_nil in He.
Qed.

Lemma commit_inv filter after mark se s' :
  session_inv filter after mark se -> log_grows (se_store se) s' ->
  session_inv filter after mark (mkSession s' (se_published se) (se_client se) (se_received se)
    (se_replayed se) (se_cursor se) (se_phase se)).
Proof.
  intros [Hs Hc Hf Ha Hcur Hr Hm Hml Hpl Hca Hac Hw Hl Hla Hso Hpa] [Hs' [new Hnew]].
  pose proof (me_sorted _ Hs') as Hsort. pose proof (log_positive _ Hs') as Hpos. rewrite Hnew in Hsort, Hpos.
  split; cbn; rewrite ?Hnew; try done; try by apply in_log_grows.
  - rewrite List.filter_app, <-Hr, (filter_none _ new); [by rewrite app_nil_r|].
    intros e He. destruct Hcur as [->|(x & Hx & <-)].
    + unfold between. destruct (Z.ltb_spec after (evCursor e)), (Z.leb_spec (evCursor e) after); try lia; by rewrite andb_false_r.
    + pose proof (sorted_log_app _ _ Hsort x e Hx He). unfold between.
      rewrite (proj2 (Z.leb_gt (evCursor e) _)) by lia. by rewrite !andb_false_r.
  - intros Hcl Hph e [He|He]%elem_of_app Hmt Hb; [by apply Hw|].
    pose proof (appended_above _ _ _ e Hsort Hpos Hpl He). lia.
  - intros Hcl Hph e [He|He]%elem_of_app Hmt Hb; [by apply Hl|].
    pose proof (appended_above _ _ _ e Hsort Hpos Hpl He). lia.
  - intros Hcl e He Hp. destruct (Hso Hcl e He Hp). split; [set_solver|done].
Qed.

Lemma log_unique log e e' : sorted_log log -> e ∈ log -> e' ∈ log -> evCursor e = evCursor e' -> e = e'.
Proof.
  induction log as [|x log IH]; intros Hs He He' Heq; [set_solver|]. apply sorted_log_cons in Hs as [Hs Hx].
  apply elem_of_cons in He as [->|He]; apply elem_of_cons in He' as [->|He']; [done| | |by apply IH].
  - specialize (Hx e' He'). lia.
  - specialize (Hx e He). lia.
Qed.

Lemma enqueue_keeps c received e c' :
  client_inv (c, received) -> enqueue c e = Some c' ->
  client_inv (c', received) /\ hcFilter c' = hcFilter c.
Proof.
  intros Hinv He. destruct (client_step_inv (c, received) (OpEnqueue e) Hinv I) as (st & Hst & Hi & Hf & _).
  cbn in Hst. rewrite He in Hst. cbn in Hst. injection Hst as <-. done.
Qed.

(** The event of a publication that no earlier one covers. *)
Lemma publish_fresh s published e e' :
  memory_wf s -> publishable s published e -> e' ∈ meEvents s ->
  evCursor e' <= Z.max published (evCursor e) -> published < evCursor e' -> e' = e.
Proof.
  intros Hs [He Hno] He' Hle Hlt. eapply log_unique; [apply Hs|done|done|].
  destruct (Z.lt_trichotomy (evCursor e') (evCursor e)) as [Hc|[Hc|Hc]]; [|done|lia].
  specialize (Hno e' He' Hc). lia.
Qed.

Lemma publish_inv filter after mark se e c' :
  session_inv filter after mark se -> publishable (se_store se) (se_published se) e ->
  enqueue (se_client se) e = Some c' ->
  session_inv filter after mark (mkSession (se_store se) (Z.max (se_published se) (evCursor e)) c' (se_received se)
    (se_replayed se) (se_cursor se) (se_phase se)).
Proof.
  intros [Hs Hc Hf Ha Hcur Hr Hm Hml Hpl Hca Hac Hw Hl Hla Hso Hpa] Hpub Hen.
  destruct (enqueue_keeps _ _ _ _ Hc Hen) as [Hi Hfil].
  assert (Hpos : 0 < evCursor e).
  { pose proof (log_positive _ Hs) as Hp. rewrite Forall_forall in Hp. apply Hp, Hpub. }
  assert (Hspec := fun H => enqueue_spec (se_client se) (se_received se) e c' Hen H).
  split; session_cbn; try done; [congruence|lia| | | | | | |].
  - destruct (Z.max_spec (se_published se) (evCursor e)) as [[_ ->]|[_ ->]]; [|done]. right. exists e. split; [apply Hpub|done].
  - intros Hcl. destruct (Hspec Hcl) as (Ho & _ & -> & _). by apply Hac.
  - intros Hcl Hph e' He' Hmt Hb. destruct (Hspec Hcl) as (Ho & _ & Hact & Heff).
    destruct (Z.leb_spec (evCursor e') (se_published se)).
    + assert (e' ∈ hcPending (se_client se)) by (apply Hw; auto; lia).
      destruct Heff as [-> _|_ -> _ _ _|_ -> _ _ _ _]; set_solver.
    + assert (e' = e) as -> by (eapply publish_fresh; eauto; lia).
      assert (hcActive (se_client se) = false) as Hact'
        by (apply not_true_iff_false; intros Hx; by apply Hph, (Hac Ho)).
      destruct (ci_waiting _ Hc Hact' Ho) as (_ & Hlast & _). cbn in Hlast.
      destruct Heff as [-> [Hn|Hn]|_ -> _ _ _|]; [congruence|lia|set_solver|congruence].
  - intros Hcl Hph e' He' Hmt Hb Hse. destruct (Hspec Hcl) as (Ho & _ & Hact & Heff).
    destruct (Z.leb_spec (evCursor e') (se_published se)).
    + assert (e' ∈ sent_log (se_client se, se_received se)) by (apply Hl; auto; lia).
      destruct Heff as [-> _|_ _ -> _ _|_ _ -> _ _ _]; set_solver.
    + assert (e' = e) as -> by (eapply publish_fresh; eauto; lia). pose proof (Hla Ho Hph).
      assert (hcActive (se_client se) = true) as Hact' by (by apply Hac).
      destruct Heff as [-> [Hn|Hn]|Hn|_ _ -> _ _ _]; [congruence|lia|congruence|set_solver].
  - intros Hcl Hph. destruct (Hspec Hcl) as (Ho & _ & Hact & Heff). pose proof (Hla Ho Hph).
    destruct Heff as [-> _|_ _ _ -> _|_ _ _ -> Hgt _]; [lia|lia|].
    unfold next_cursor. rewrite (proj2 (Z.ltb_lt _ _)) by done. specialize (Hgt Hpos). lia.
  - intros Hcl e' He' Hp'. destruct (Hspec Hcl) as (Ho & _ & Hact & Heff).
    assert (e' ∈ hcPending (se_client se) ++ sent_log (se_client se, se_received se) \/ e' = e) as [Hin| ->].
    { destruct Heff as [-> _|_ Hp2 Hs2 _ _|_ Hp2 Hs2 _ _ _]; [by left| |]; rewrite Hp2, Hs2 in He'; set_solver. }
    + destruct (Hso Ho e' Hin Hp'). split; [done|lia].
    + split; [apply Hpub|lia].
  - intros Hcl e' He' Hp'. destruct (Hspec Hcl) as (Ho & _ & Hact & Heff).
    destruct Heff as [-> _|_ _ Hs2 _ _|Ha2 _ Hs2 _ Hgt _]; [by apply Hpa|rewrite Hs2 in He'; by apply Hpa|].
    rewrite Hs2 in He'. apply elem_of_app in He' as [He'| ->%list_elem_of_singleton]; [by apply Hpa|].
    specialize (Hgt Hpos). pose proof (Hla Ho (proj1 (Hac Ho) Ha2)). lia.
Qed.

Lemma forming_inv filter after mark se e c' :
  session_inv filter after mark se -> evCursor e = 0 -> enqueue (se_client se) e = Some c' ->
  session_inv filter after mark (mkSession (se_store se) (se_published se) c' (se_received se)
    (se_replayed se) (se_cursor se) (se_phase se)).
Proof.
  intros [Hs Hc Hf Ha Hcur Hr Hm Hml Hpl Hca Hac Hw Hl Hla Hso Hpa] He0 Hen.
  destruct (enqueue_keeps _ _ _ _ Hc Hen) as [Hi Hfil].
  assert (Hspec := fun H => enqueue_spec (se_client se) (se_received se) e c' Hen H).
  split; session_cbn; try done; [congruence| | | | | |]; intros Hcl; destruct (Hspec Hcl) as (Ho & _ & Hact & Heff).
  - rewrite Hact. by apply Hac.
  - intros Hph e' He' Hmt Hb. specialize (Hw Ho Hph e' He' Hmt Hb).
    destruct Heff as [-> _|_ -> _ _ _|_ -> _ _ _ _]; set_solver.
  - intros Hph e' He' Hmt Hb Hse. specialize (Hl Ho Hph e' He' Hmt Hb Hse).
    destruct Heff as [-> _|_ _ -> _ _|_ _ -> _ _ _]; set_solver.
  - intros Hph. pose proof (Hla Ho Hph). destruct Heff as [-> _|_ _ _ -> _|_ _ _ -> _ _]; [done|done|].
    unfold next_cursor. by rewrite He0.
  - intros e' He' Hp'. apply (Hso Ho); [|done].
    destruct Heff as [-> _|_ Hp2 Hs2 _ _|_ Hp2 Hs2 _ _ _]; [done| |]; rewrite Hp2, Hs2 in He'.
    + apply elem_of_app in He' as [[H1| ->%list_elem_of_singleton]%elem_of_app|H1]; [set_solver|lia|set_solver].
    + apply elem_of_app in He' as [H1|[H1| ->%list_elem_of_singleton]%elem_of_app]; [set_solver|set_solver|lia].
  - intros e' He' Hp'. apply (Hpa Ho); [|done].
    destruct Heff as [-> _|_ _ Hs2 _ _|_ _ Hs2 _ _ _]; [done|by rewrite Hs2 in He'|].
    rewrite Hs2 in He'. apply elem_of_app in He' as [H1| ->%list_elem_of_singleton]; [done|lia].
Qed.

(** A page moves the cursor to the end of what it read; a short page has read
    the log to its end. *)
Lemma page_reads s cursor cursor' :
  memory_wf s ->
  cursor' = default cursor (evCursor <$> last (Memory_QueryEvents s (replay_filter cursor))) ->
  Memory_QueryEvents s (replay_filter cursor) = List.filter (between cursor cursor') (meEvents s) /\
  cursor <= cursor' /\ in_log (meEvents s) cursor cursor' /\
  (len (Memory_QueryEvents s (replay_filter cursor)) < 5000 ->
     forall e, e ∈ meEvents s -> evCursor e <= cursor').
Proof.
  intros Hs ->. rewrite replay_query. set (page := take 5000 _). set (cursor' := default cursor (evCursor <$> last page)).
  assert (Hpage : page = List.filter (between cursor cursor') (meEvents s)) by (apply take_between, Hs).
  assert (Hlast : cursor' = cursor \/ exists e, e ∈ page /\ evCursor e = cursor').
  { unfold cursor'. destruct (last page) as [e|] eqn:El; cbn; [right; exists e|by left].
    split; [by apply last_Some_elem_of|done]. }
  assert (Hin : forall e, e ∈ page -> e ∈ meEvents s /\ cursor < evCursor e).
  { intros e He. rewrite Hpage in He. apply list_elem_of_In, filter_In in He as [He Hb].
    unfold between in Hb. split; [by apply list_elem_of_In|lia]. }
  split_and!; [done| | |].
  - destruct Hlast as [->|(e & [_ He]%Hin & <-)]; lia.
  - destruct Hlast as [->|(e & [He _]%Hin & <-)]; [by left|right; eauto].
  - intros Hlen e He. destruct (Z.ltb_spec cursor (evCursor e)) as [Hlt|Hle].
    2:{ destruct Hlast as [->|(x & [_ Hx]%Hin & <-)]; lia. }
    assert (Hall : page = List.filter (fun e => cursor <? evCursor e) (meEvents s)).
    { unfold page in *. apply take_ge. unfold len in Hlen. rewrite length_take in Hlen. lia. }
    assert (He' : e ∈ page).
    { rewrite Hall. apply list_elem_of_In, filter_In. split; [by apply list_elem_of_In|lia]. }
    rewrite Hpage in He'. apply list_elem_of_In, filter_In in He' as [_ Hb]. unfold between in Hb. lia.
Qed.

Lemma filter_between (p : SignalEvent -> bool) a b log :
  List.filter p (List.filter (between a b) log) = List.filter (fun e => p e && between a b e) log.
Proof.
  induction log as [|e log IH]; [done|]. cbn. destruct (between a b e); cbn; [|by rewrite andb_false_r].
  rewrite andb_true_r. by rewrite IH.
Qed.

Lemma page_inv filter after mark se cursor :
  session_inv filter after mark se -> se_phase se = Replaying ->
  cursor = default (se_cursor se) (evCursor <$> last (Memory_QueryEvents (se_store se) (replay_filter (se_cursor se)))) ->
  session_inv filter after mark (mkSession (se_store se) (se_published se) (se_client se) (se_received se)
    (se_replayed se ++ List.filter (matches filter)
       (Memory_QueryEvents (se_store se) (replay_filter (se_cursor se)))) cursor
    (if len (Memory_QueryEvents (se_store se) (replay_filter (se_cursor se))) <? 5000 then CaughtUp else Replaying)).
Proof.
  intros [Hs Hc Hf Ha Hcur Hr Hm Hml Hpl Hca Hac Hw Hl Hla Hso Hpa] Hph Hcursor.
  destruct (page_reads _ _ _ Hs Hcursor) as (Hpage & Hle & Hin & Hend). clear Hcursor.
  assert (Hnl : forall b : bool, (if b then CaughtUp else Replaying) <> Live) by (by intros []).
  split; session_cbn; try done; [lia| | | | | | | |].
  - destruct Hin as [->|Hin]; [done|by right].
  - rewrite Hpage, filter_between, Hr. apply between_split; [apply Hs|lia].
  - destruct (Z.ltb_spec (len (Memory_QueryEvents (se_store se) (replay_filter (se_cursor se)))) 5000) as [Hlt|]; [|done].
    intros _ _. destruct Hml as [->|(e & He & <-)]; [lia|by apply Hend].
  - intros Hcl. rewrite (Hac Hcl), Hph. split; [done|by intros ?%Hnl].
  - intros Hcl _. apply Hw; [done|by rewrite Hph].
  - intros Hcl ?%Hnl. done.
  - intros Hcl ?%Hnl. done.
  - intros Hcl e He Hp. exfalso.
    assert (hcActive (se_client se) = false) as Hact
      by (apply not_true_iff_false; intros Hx%(Hac Hcl); by rewrite Hph in Hx).
    destruct (ci_waiting _ Hc Hact Hcl) as (Hnil & _). rewrite Hnil in He. by apply elem_of_nil in He.
Qed.

Lemma activate_session_inv filter after mark se c' :
  session_inv filter after mark se -> se_phase se = CaughtUp ->
  activate (se_client se) (se_cursor se) = Some c' ->
  session_inv filter after mark (mkSession (se_store se) (se_published se) c' (se_received se)
    (se_replayed se) (se_cursor se) Live).
Proof.
  intros [Hs Hc Hf Ha Hcur Hr Hm Hml Hpl Hca Hac Hw Hl Hla Hso Hpa] Hph Hen.
  assert (0 <= se_cursor se) as Hpos by lia.
  destruct (client_step_inv (se_client se, se_received se) (OpActivate (se_cursor se)) Hc Hpos) as (st & Hst & Hi & Hfil & _).
  cbn in Hst. rewrite Hen in Hst. cbn in Hst. injection Hst as <-. cbn [fst] in Hfil.
  assert (Hopen : hcClosed c' = false -> hcClosed (se_client se) = false).
  { intros Hcl. destruct (hcClosed (se_client se)) eqn:E; [|done]. unfold activate in Hen. rewrite E in Hen. congruence. }
  assert (Heff : hcClosed c' = false ->
    sent_log (c', se_received se) = kept (se_cursor se) (sort_stable cursor_less (hcPending (se_client se))) /\
    hcPending c' = [] /\ hcActive c' = true /\
    hcLastCursor c' = Z.max (se_cursor se) (foldl next_cursor 0 (sent_log (c', se_received se)))).
  { intros Hcl%Hopen. assert (hcActive (se_client se) = false) as Hact
      by (apply not_true_iff_false; intros Hx%(Hac Hcl); by rewrite Hph in Hx).
    destruct (ci_waiting _ Hc Hact Hcl) as (Hnil & _). unfold sent_log in Hnil. cbn in Hnil.
    apply app_eq_nil in Hnil as [Hrec _].
    rewrite (activate_ok _ _ _ Hc Hact Hcl) in Hen. injection Hen as <-. unfold sent_log. cbn. by rewrite Hrec. }
  assert (Hkept : forall e, hcClosed c' = false -> e ∈ sent_log (c', se_received se) ->
    e ∈ hcPending (se_client se) /\ (0 < evCursor e -> se_cursor se < evCursor e)).
  { intros e Hcl He. destruct (Heff Hcl) as (Hsent & _). rewrite Hsent in He. unfold kept in He.
    apply list_elem_of_In, filter_In in He as [He Hk]. apply list_elem_of_In in He.
    rewrite sort_stable_perm in He. split; [done|lia]. }
  split; session_cbn; try done; [congruence| | | | | |].
  - intros Hne. apply Hca. by rewrite Hph.
  - intros Hcl. by destruct (Heff Hcl) as (_ & _ & -> & _).
  - intros Hcl _ e He Hmt Hb Hse. destruct (Heff Hcl) as (-> & _). unfold kept.
    apply list_elem_of_In, filter_In. split; [|lia]. apply list_elem_of_In. rewrite sort_stable_perm.
    apply Hw; auto. by rewrite Hph.
  - intros Hcl _. destruct (Heff Hcl) as (Hsent & _ & _ & ->).
    destruct (fold_cursor_bound (sent_log (c', se_received se)) 0 (ci_sorted _ Hi)) as [_ Hmax].
    { apply Forall_forall. intros x. unfold confirmed. rewrite list_elem_of_In. intros [_ ?]%filter_In. lia. }
    enough (foldl next_cursor 0 (sent_log (c', se_received se)) <= se_published se) by lia.
    assert (Hle : forall l a, a <= se_published se -> (forall e, e ∈ l -> 0 < evCursor e -> evCursor e <= se_published se) ->
      foldl next_cursor a l <= se_published se).
    { induction l as [|x l IHl]; intros a Hale Hb; [done|]. cbn. apply IHl; [|set_solver].
      unfold next_cursor. destruct (Z.ltb_spec 0 (evCursor x)); [apply Hb; set_solver|done]. }
    apply Hle; [lia|]. intros e He Hp. destruct (Hkept e Hcl He) as [Hpend _].
    apply (Hso (Hopen Hcl)); [set_solver|done].
  - intros Hcl e He Hp. destruct (Heff Hcl) as (_ & Hnil & _). rewrite Hnil in He. cbn [app] in He.
    destruct (Hkept e Hcl He) as [Hpend _]. apply (Hso (Hopen Hcl)); [set_solver|done].
  - intros Hcl e He. by apply Hkept.
Qed.

Lemma receive_inv filter after mark se c' received' :
  session_inv filter after mark se ->
  client_step (se_client se, se_received se) OpRecv = Some (c', received') ->
  session_inv filter after mark (mkSession (se_store se) (se_published se) c' received'
    (se_replayed se) (se_cursor se) (se_phase se)).
Proof.
  intros [Hs Hc Hf Ha Hcur Hr Hm Hml Hpl Hca Hac Hw Hl Hla Hso Hpa] Hstep.
  destruct (recv_inv _ _ Hc) as (st & Hst & Hi & Hlog & Hpend). rewrite Hstep in Hst. injection Hst as <-.
  cbn [fst] in Hpend. cbn [client_step] in Hstep. destruct (chan_recv (hcSend (se_client se))) as [got ch].
  injection Hstep as <- <-.
  split; session_cbn; rewrite ?Hlog; done.
Qed.

Lemma session_step_inv filter after mark se se' :
  session_inv filter after mark se -> session_step filter se se' -> session_inv filter after mark se'.
Proof.
  intros Hinv Hstep. destruct Hstep.
  - by apply commit_inv.
  - by apply publish_inv.
  - by eapply forming_inv.
  - by eapply page_inv.
  - by apply activate_session_inv.
  - by apply receive_inv.
Qed.

Lemma session_reaches_inv filter after mark se se' :
  session_inv filter after mark se -> session_reaches filter se se' -> session_inv filter after mark se'.
Proof. intros Hinv. induction 1; [done|]. eapply session_step_inv; [by apply IHsession_reaches|done]. Qed.

Lemma confirmed_sorted events :
  StronglySorted Z.lt (map evCursor events) -> StronglySorted Z.le (confirmed events).
Proof.
  unfold confirmed. induction 1 as [|x l Hl IH Hx]; cbn; [constructor|]. destruct (0 <? x); [|done].
  constructor; [done|]. apply Forall_forall. intros y [Hy _]%list_elem_of_In%filter_In.
  rewrite Forall_forall in Hx. apply list_elem_of_In, Hx in Hy. lia.
Qed.

(** What the invariant says of a subscriber that is live. *)
Lemma live_delivery filter after mark se :
  session_inv filter after mark se -> se_phase se = Live -> hcClosed (se_client se) = false ->
  (forall e, e ∈ meEvents (se_store se) -> matches filter e = true -> evCursor e <= se_published se ->
     (if 0 <? after then after else mark) < evCursor e -> e ∈ delivered se) /\
  (forall e, e ∈ delivered se -> 0 < evCursor e ->
     e ∈ meEvents (se_store se) /\ matches filter e = true /\ after < evCursor e) /\
  StronglySorted Z.le (confirmed (delivered se)).
Proof.
  intros [Hs Hc Hf Ha Hcur Hr Hm Hml Hpl Hca Hac Hw Hl Hla Hso Hpa] Hph Hcl. unfold delivered. split_and!.
  - intros e He Hmt Hle Hlt. apply elem_of_app. destruct (Z.leb_spec (evCursor e) (se_cursor se)) as [Hc1|Hc1].
    + left. rewrite Hr. apply list_elem_of_In, filter_In. split; [by apply list_elem_of_In|].
      rewrite Hmt. unfold between. destruct (Z.ltb_spec 0 after); [lia|].
      assert (after = 0) by lia. subst after. lia.
    + right. apply (Hl Hcl Hph); auto. destruct (Z.ltb_spec 0 after); [|lia].
      assert (mark <= se_cursor se) by (apply Hca; [by rewrite Hph|lia]). lia.
  - intros e [He|He]%elem_of_app Hp.
    + rewrite Hr in He. apply list_elem_of_In, filter_In in He as [He Hb]. unfold between in Hb.
      apply andb_true_iff in Hb as [Hmt Hb]. split_and!; [by apply list_elem_of_In|done|lia].
    + destruct (Hso Hcl e) as [Hin _]; [set_solver|done|]. specialize (Hpa Hcl e He Hp).
      pose proof (ci_matches _ Hc) as Hmt. rewrite Forall_forall in Hmt. specialize (Hmt e). cbn [fst] in Hmt.
      rewrite Hf in Hmt. split_and!; [done|apply Hmt; set_solver|lia].
  - rewrite confirmed_app. apply StronglySorted_app_2.
    + intros x y Hx Hy. unfold confirmed in Hx, Hy.
      apply list_elem_of_In, filter_In in Hx as [(ex & <- & Hex)%in_map_iff _].
      apply list_elem_of_In, filter_In in Hy as [(ey & <- & Hey)%in_map_iff Hyp].
      apply list_elem_of_In in Hey. specialize (Hpa Hcl ey Hey). rewrite Hr in Hex.
      apply filter_In in Hex as [_ Hb]. unfold between in Hb. lia.
    + rewrite Hr. apply confirmed_sorted, sorted_filter, Hs.
    + exact (ci_sorted _ Hc).
Qed.
