(* ===== verification/Dispatch.v ===== *)
(** * The service around a subscriber

    Lanes commit, the outbox dispatcher fetches batches, publishes and marks
    them, and a subscriber replays and listens, in any interleaving.  Each step
    is an operation of the source; together they refine the abstract steps of
    [SessionProofs], whose [publishable] says that the dispatcher never lets a
    later event overtake an earlier one. *)

From stdpp Require Import prelude gmap strings list sorting.
From Stdlib Require Import ZArith Lia SpecFloat Ascii String.
From S2P Require Import Prelude GoFloat GoText GoStrings Monitor Model Ema MarketZones.
From S2P Require Import StoreSpec Memory MemoryProofs Lane Registry Contract Hub HubProofs Server.
From S2P Require Import Session SessionProofs.

#[local] Open Scope string_scope.
#[local] Open Scope list_scope.
#[local] Open Scope Z_scope.

(** ** What lanes do to the store *)

Inductive lane_write : Memory -> Memory -> Prop :=
  | write_commit s key bar events snapshots s' r :
      meNext s + len events < 2 ^ 63 - 1 ->
      Memory_CommitClosed s key bar events snapshots = (s', r) -> lane_write s s'
  | write_rebuild s key events snapshots lastBar s' r :
      meNext s + len events < 2 ^ 63 - 1 -> Forall (fun e => evCursor e = 0) events ->
      Memory_RebuildSeries s key events snapshots lastBar = (s', r) -> lane_write s s'.

(** Nothing that was not published becomes so. *)
Definition marks_within (s s' : Memory) : Prop :=
  forall c, is_published s' c = true -> is_published s c = true.

Lemma commit_event_grows acc e :
  (exists new, meEvents (commit_event acc e).1 = meEvents acc.1 ++ new) /\
  mePublished (commit_event acc e).1 = mePublished acc.1.
Proof.
  destruct acc as [s committed]. rewrite commit_event_cases. cbn [fst].
  assert (Happ : (exists new, meEvents (append_committed s e) = meEvents s ++ new) /\
    mePublished (append_committed s e) = mePublished s).
  { unfold append_committed. cbn zeta.
    match goal with |- context [persistEventState ?x ?y] =>
      destruct (persistEventState_frame x y) as (_ & F2 & _ & _ & F5) end.
    cbn [meEvents mePublished] in *. rewrite F2, F5. eauto. }
  destruct (eventByID s (evEventID e)) as [x|]; [|done]. destruct (0 <? evCursor x); [|done].
  cbn. split; [exists []; by rewrite app_nil_r|done].
Qed.

Lemma commit_events_grow events acc :
  (exists new, meEvents (foldl commit_event acc events).1 = meEvents acc.1 ++ new) /\
  mePublished (foldl commit_event acc events).1 = mePublished acc.1.
Proof.
  revert acc. induction events as [|e events IH]; intros acc; cbn [foldl].
  - split; [exists []; by rewrite app_nil_r|done].
  - destruct (IH (commit_event acc e)) as [[new Hn] Hp]. destruct (commit_event_grows acc e) as [[n1 H1] P1].
    rewrite Hn, Hp, H1, P1. split; [exists (n1 ++ new); by rewrite app_assoc|done].
Qed.

Lemma rebuild_event_marks acc e c :
  is_published (rebuild_event acc e).1 c = true -> is_published acc.1 c = true.
Proof.
  destruct acc as [s committed]. unfold rebuild_event.
  destruct (persistEventState_frame s e) as (_ & _ & _ & _ & F5).
  destruct (evReset e); cbn; unfold is_published; cbn; rewrite F5; [|done].
  destruct (decide (c = wrap_i64 (meNext (persistEventState s e) + 1))) as [->|Hne].
  - by rewrite lookup_insert_eq.
  - by rewrite lookup_insert_ne.
Qed.

Lemma rebuild_events_marks events acc c :
  is_published (foldl rebuild_event acc events).1 c = true -> is_published acc.1 c = true.
Proof.
  revert acc. induction events as [|e events IH]; intros acc; cbn [foldl]; [done|].
  intros Hc%IH. by eapply rebuild_event_marks.
Qed.

Lemma lane_write_grows s s' : memory_wf s -> lane_write s s' -> log_grows s s' /\ marks_within s s'.
Proof.
  intros Hwf. assert (Hid : log_grows s s /\ marks_within s s).
  { split; [split; [done|]; exists []; by rewrite app_nil_r|by intros c]. }
  destruct 1 as [s key bar events snapshots s' r Hb Hrun|s key events snapshots lastBar s' r Hb Hz Hrun].
  - unfold Memory_CommitClosed in Hrun. destruct (match meCursors s !! _ with Some _ => _ | None => _ end) as [cur|].
    { destruct (_ && _); by injection Hrun as <- <-. }
    destruct (commit_events_wf events s [] Hwf Hb) as (s1 & out & Hf & Hw1 & _ & _).
    destruct (commit_events_grow events (s, [])) as [[new Hn] Hp].
    rewrite Hf in Hrun, Hn, Hp. injection Hrun as <- <-. cbn [fst] in *. split.
    + split; [by apply set_cursors_wf|]. exists new. done.
    + intros c. unfold is_published. cbn. by rewrite Hp.
  - unfold Memory_RebuildSeries in Hrun. destruct (match lastBar with Some _ => _ | None => _ end);
      [by injection Hrun as <- <-|].
    cbn zeta in Hrun. set (s0 := mkMemory (meNext s) _ _ _ _ _ _) in Hrun.
    assert (Hw0 : memory_wf s0).
    { destruct Hwf as [H1 H2 H3 H4]. split; cbn; try done. intros k x Hx. apply (H4 k x). by eapply map_remove_subset. }
    destruct (rebuild_events_wf events s0 [] Hw0 Hb Hz) as (s1 & out & Hf & Hw1 & _ & _ & He & _).
    pose proof (rebuild_events_marks events (s0, [])) as Hm.
    rewrite Hf in Hrun, Hm. injection Hrun as <- <-. cbn [fst app] in *. split.
    + split; [by apply set_cursors_wf|]. exists out. done.
    + intros c Hc. by apply Hm.
Qed.

(** ** The dispatcher, a step at a time *)

(** The events of the batch still to publish, and the cursors published so far
    in it. *)
Record service := mkService {
  sv_session : session;
  sv_batch : list SignalEvent;
  sv_sent : list Z
}.

Definition with_store (se : session) (s : Memory) : session :=
  mkSession s (se_published se) (se_client se) (se_received se) (se_replayed se) (se_cursor se) (se_phase se).

Inductive service_step (filter : Subscription) : service -> service -> Prop :=
  | svc_write sv s' : lane_write (se_store (sv_session sv)) s' ->
      service_step filter sv (mkService (with_store (sv_session sv) s') (sv_batch sv) (sv_sent sv))
  | svc_fetch sv : sv_batch sv = [] -> sv_sent sv = [] ->
      service_step filter sv
        (mkService (sv_session sv) (Memory_PendingEvents (se_store (sv_session sv)) 250) [])
  | svc_publish sv e rest c' : sv_batch sv = e :: rest -> enqueue (se_client (sv_session sv)) e = Some c' ->
      service_step filter sv
        (mkService (let se := sv_session sv in
                    mkSession (se_store se) (Z.max (se_published se) (evCursor e)) c' (se_received se)
                      (se_replayed se) (se_cursor se) (se_phase se)) rest (sv_sent sv ++ [evCursor e]))
  | svc_abort sv : service_step filter sv (mkService (sv_session sv) [] [])
  | svc_mark sv s' : sv_batch sv = [] ->
      Memory_MarkPublished (se_store (sv_session sv)) (sv_sent sv) = (s', Ok tt) ->
      service_step filter sv (mkService (with_store (sv_session sv) s') [] [])
  | svc_forming sv e c' : evCursor e = 0 -> enqueue (se_client (sv_session sv)) e = Some c' ->
      service_step filter sv
        (mkService (let se := sv_session sv in
                    mkSession (se_store se) (se_published se) c' (se_received se)
                      (se_replayed se) (se_cursor se) (se_phase se)) (sv_batch sv) (sv_sent sv))
  | svc_page sv cursor :
      se_phase (sv_session sv) = Replaying ->
      cursor = default (se_cursor (sv_session sv)) (evCursor <$> last
        (Memory_QueryEvents (se_store (sv_session sv)) (replay_filter (se_cursor (sv_session sv))))) ->
      service_step filter sv
        (mkService (let se := sv_session sv in
                    let page := Memory_QueryEvents (se_store se) (replay_filter (se_cursor se)) in
                    mkSession (se_store se) (se_published se) (se_client se) (se_received se)
                      (se_replayed se ++ List.filter (matches filter) page) cursor
                      (if len page <? 5000 then CaughtUp else Replaying)) (sv_batch sv) (sv_sent sv))
  | svc_activate sv c' :
      se_phase (sv_session sv) = CaughtUp ->
      activate (se_client (sv_session sv)) (se_cursor (sv_session sv)) = Some c' ->
      service_step filter sv
        (mkService (let se := sv_session sv in
                    mkSession (se_store se) (se_published se) c' (se_received se) (se_replayed se) (se_cursor se) Live)
           (sv_batch sv) (sv_sent sv))
  | svc_receive sv c' received' :
      client_step (se_client (sv_session sv), se_received (sv_session sv)) OpRecv = Some (c', received') ->
      service_step filter sv
        (mkService (let se := sv_session sv in
                    mkSession (se_store se) (se_published se) c' received' (se_replayed se) (se_cursor se)
                      (se_phase se)) (sv_batch sv) (sv_sent sv)).

Inductive service_reaches (filter : Subscription) : service -> service -> Prop :=
  | svc_refl sv : service_reaches filter sv sv
  | svc_step a b c : service_reaches filter a b -> service_step filter b c -> service_reaches filter a c.

(** Marked and sent cursors were published, and before each event of the batch
    stand only published events and earlier ones of the batch. *)
Record dispatcher_inv (s : Memory) (published : Z) (batch : list SignalEvent) (sent : list Z) : Prop := {
  di_store : memory_wf s;
  di_published : 0 <= published /\ in_log (meEvents s) 0 published;
  di_marked : forall c, is_published s c = true -> c <= published;
  di_sent : Forall (fun c => c <= published) sent;
  di_batch : forall before e rest, batch = before ++ e :: rest ->
    e ∈ meEvents s /\ forall x, x ∈ meEvents s -> evCursor x < evCursor e -> x ∈ before \/ evCursor x <= published
}.

Lemma dispatcher_write s s' published batch sent :
  dispatcher_inv s published batch sent -> lane_write s s' -> dispatcher_inv s' published batch sent.
Proof.
  intros [Hs [Hp Hl] Hm Hse Hb] Hw. destruct (lane_write_grows s s' Hs Hw) as [[Hs' [new Hnew]] Hmarks].
  pose proof (me_sorted _ Hs') as Hsort. rewrite Hnew in Hsort.
  split; try done; rewrite ?Hnew.
  - split; [done|by apply in_log_grows].
  - intros c Hc. by apply Hm, Hmarks.
  - intros before e rest Heq. destruct (Hb before e rest Heq) as [He Hx]. split; [set_solver|].
    intros x [Hin|Hin]%elem_of_app Hlt; [by apply Hx|].
    pose proof (sorted_log_app _ _ Hsort e x He Hin). lia.
Qed.

(** Before an unpublished event of the log stand published events and the
    unpublished ones before it. *)
Lemma pending_before s before e rest x :
  sorted_log (meEvents s) -> pending s = before ++ e :: rest -> x ∈ meEvents s -> evCursor x < evCursor e ->
  x ∈ before \/ is_published s (evCursor x) = true.
Proof.
  intros Hs Hp Hx Hlt. destruct (is_published s (evCursor x)) eqn:Hpub; [by right|left].
  assert (Hin : x ∈ pending s).
  { unfold pending. apply list_elem_of_In, filter_In. rewrite Hpub. split; [by apply list_elem_of_In|done]. }
  assert (Hsp : sorted_log (pending s)) by (by apply sorted_filter).
  rewrite Hp in Hin, Hsp. apply elem_of_app in Hin as [Hin|[->|Hin]%elem_of_cons]; [done|lia|].
  assert (evCursor e < evCursor x); [|lia].
  apply (sorted_log_app (before ++ [e]) rest); [by rewrite <-app_assoc|set_solver|done].
Qed.

Lemma dispatcher_fetch s published :
  dispatcher_inv s published [] [] -> dispatcher_inv s published (Memory_PendingEvents s 250) [].
Proof.
  intros [Hs Hp Hm _ _]. split; try done. intros before e rest Heq.
  rewrite Memory_PendingEvents_eq in Heq by lia.
  assert (Hall : pending s = before ++ e :: (rest ++ drop (Z.to_nat 250) (pending s))).
  { rewrite <-(take_drop (Z.to_nat 250) (pending s)) at 1. rewrite Heq. by rewrite <-app_assoc. }
  split.
  - assert (He : e ∈ pending s) by (rewrite Hall; set_solver).
    unfold pending in He. apply list_elem_of_In, filter_In in He as [He _]. by apply list_elem_of_In.
  - intros x Hx Hlt. destruct (pending_before _ _ _ _ _ (me_sorted _ Hs) Hall Hx Hlt) as [?|Hpub%Hm]; auto.
Qed.

Lemma dispatcher_publish s published e rest sent :
  dispatcher_inv s published (e :: rest) sent ->
  publishable s published e /\ dispatcher_inv s (Z.max published (evCursor e)) rest (sent ++ [evCursor e]).
Proof.
  intros [Hs [Hp Hl] Hm Hse Hb]. destruct (Hb [] e rest eq_refl) as [He Hx]. split.
  - split; [done|]. intros x Hin Hlt. destruct (Hx x Hin Hlt) as [Hn|]; [by apply elem_of_nil in Hn|done].
  - split; try done.
    + split; [lia|]. destruct (Z.max_spec published (evCursor e)) as [[_ ->]|[_ ->]]; [|done]. right. eauto.
    + intros c Hc%Hm. lia.
    + apply Forall_app. split; [eapply Forall_impl; [exact Hse|]; cbn; lia|]. constructor; [lia|done].
    + intros before e' rest' ->. destruct (Hb (e :: before) e' rest' eq_refl) as [He' Hx']. split; [done|].
      intros x Hin Hlt. destruct (Hx' x Hin Hlt) as [[->|Hin']%elem_of_cons|Hle]; [right; lia|by left|right; lia].
Qed.

Lemma dispatcher_mark s published sent s' :
  dispatcher_inv s published [] sent -> Memory_MarkPublished s sent = (s', Ok tt) ->
  log_grows s s' /\ dispatcher_inv s' published [] [].
Proof.
  intros [Hs Hp Hm Hse _] Hmark. pose proof (MarkPublished_wf s sent Hs) as Hs'. rewrite Hmark in Hs'. cbn [fst] in Hs'.
  assert (Hev : meEvents s' = meEvents s) by (by injection Hmark as <-). split.
  - split; [done|]. exists []. by rewrite app_nil_r.
  - split; try done; rewrite ?Hev; [done| |by intros [|] ? ? [=]].
    intros c. injection Hmark as <-. unfold is_published. cbn [mePublished]. rewrite mark_lookup.
    destruct (decide (c ∈ sent)) as [Hin|Hn]; [|by apply Hm]. intros _. rewrite Forall_forall in Hse. by apply Hse.
Qed.

(** The invariant of the whole service. *)
Definition service_inv (sv : service) : Prop :=
  dispatcher_inv (se_store (sv_session sv)) (se_published (sv_session sv)) (sv_batch sv) (sv_sent sv).

(** Refinement: a step of the service is a step of the session, or one the
    session does not see. *)
Lemma service_step_refines filter sv sv' :
  service_inv sv -> service_step filter sv sv' ->
  service_inv sv' /\ session_reaches filter (sv_session sv) (sv_session sv').
Proof.
  unfold service_inv. intros Hinv Hstep.
  assert (Hone : forall se se', session_step filter se se' -> session_reaches filter se se')
    by (intros; by eapply reaches_step; [apply reaches_refl|]).
  destruct Hstep as [sv s' Hw|sv Hb Hse|sv e rest c' Hb Hen|sv|sv s' Hb Hm|sv e c' He Hen|sv cursor Hph Hpg|
    sv c' Hph Hact|sv c' received' Hrec]; cbn [sv_session sv_batch sv_sent with_store se_store se_published] in *.
  - split; [by eapply dispatcher_write|]. apply Hone, step_commit. by eapply lane_write_grows; [apply Hinv|].
  - rewrite Hb, Hse in Hinv. split; [by apply dispatcher_fetch|apply reaches_refl].
  - rewrite Hb in Hinv. destruct (dispatcher_publish _ _ _ _ _ Hinv) as [Hpub Hinv']. split; [done|].
    by apply Hone, step_publish.
  - destruct Hinv as [Hs Hp Hmk _ _]. split; [|apply reaches_refl]. split; try done. by intros [|] ? ? [=].
  - rewrite Hb in Hinv. destruct (dispatcher_mark _ _ _ _ Hinv Hm) as [Hg Hinv']. split; [done|].
    by apply Hone, step_commit.
  - split; [done|]. by eapply Hone, step_forming.
  - split; [done|]. by eapply Hone, step_page.
  - split; [done|]. by apply Hone, step_activate.
  - split; [done|]. by apply Hone, step_receive.
Qed.

Lemma session_reaches_trans filter a b c :
  session_reaches filter a b -> session_reaches filter b c -> session_reaches filter a c.
Proof. intros Hab. induction 1; [done|]. eapply reaches_step; [by apply IHsession_reaches|done]. Qed.

Lemma service_refines filter sv sv' :
  service_inv sv -> service_reaches filter sv sv' ->
  service_inv sv' /\ session_reaches filter (sv_session sv) (sv_session sv').
Proof.
  intros Hinv. induction 1 as [sv|a b c _ IH Hstep]; [split; [done|apply reaches_refl]|].
  destruct (IH Hinv) as [Hb Hab]. destruct (service_step_refines _ _ _ Hb Hstep) as [Hc Hbc].
  split; [done|by eapply session_reaches_trans].
Qed.
