(* ===== verification/WebSocketProofs.v ===== *)
(** * The order of messages, and the end of a connection

    Whatever the schedule, the service around it and the failures of the
    socket: the messages of a connection come in the order of the protocol,
    and a connection that is over has left the hub and closed its socket. *)

From stdpp Require Import prelude gmap strings list sorting.
From Stdlib Require Import ZArith Lia SpecFloat Ascii String.
From S2P Require Import Prelude GoFloat GoText GoStrings Monitor Model Ema MarketZones.
From S2P Require Import StoreSpec Memory Lane Registry Contract Hub HubProofs Server Session Json WsRequest WebSocket.

#[local] Open Scope string_scope.
#[local] Open Scope list_scope.
#[local] Open Scope Z_scope.

(** ** The protocol *)

Inductive stage := Opening | Subscribed | Streaming | Refused.

(** The stage after a message, [None] when the message does not belong there.
    An error ends the exchange; errors and the acknowledgement name the request,
    everything else the subscription. *)
Definition next_stage (requestID subscriptionID : string) (g : stage) (m : wireEnvelope) : option stage :=
  let typed type := (envType m =? type)%string in
  let asked := (envRequestID m =? requestID)%string in
  let named := (envSubscriptionID m =? subscriptionID)%string in
  match g with
  | Opening => if typed "error" && asked then Some Refused
               else if typed "subscribed" && asked && named then Some Subscribed else None
  | Subscribed => if typed "error" && asked then Some Refused
                  else if typed "snapshot" && named then Some Subscribed
                  else if typed "history" && named then Some Streaming else None
  | Streaming => if typed "event" && named then Some Streaming else None
  | Refused => None
  end.

Fixpoint stage_after (requestID subscriptionID : string) (g : stage) (messages : list wireEnvelope) : option stage :=
  match messages with
  | [] => Some g
  | m :: rest => g' ← next_stage requestID subscriptionID g m; stage_after requestID subscriptionID g' rest
  end.

Lemma stage_after_snoc rid sid g messages m :
  stage_after rid sid g (messages ++ [m]) = g' ← stage_after rid sid g messages; next_stage rid sid g' m.
Proof.
  revert g. induction messages as [|m1 messages IH]; intros g; cbn.
  - by destruct (next_stage rid sid g m).
  - destruct (next_stage rid sid g m1); cbn; [apply IH|done].
Qed.

(** ** Clients of the hub *)

Lemma publish_presence `{Runtime} h e h' id :
  Hub_Publish h e = Some h' -> is_Some (h' !! id) <-> is_Some (h !! id).
Proof.
  unfold Hub_Publish. assert (Hsub : forall id c, (id, c) ∈ map_range h -> is_Some (h !! id)).
  { intros id' c Hin. rewrite map_range_perm in Hin. apply elem_of_map_to_list in Hin. by eexists. }
  revert Hsub. generalize (map_range h). intros l. revert h. induction l as [|[k c] l IH]; intros h Hsub; cbn [loop].
  { by intros [= <-]. }
  destruct (enqueue c e) as [c'|]; cbn [mbind option_bind]; [|done]. intros Hrun.
  assert (Hk : is_Some (h !! k)) by (apply (Hsub k c); set_solver).
  assert (Hsame : forall i, is_Some (<[k := c']> h !! i) <-> is_Some (h !! i)).
  { intros i. destruct (decide (k = i)) as [<-|Hne].
    - assert (<[k := c']> h !! k = Some c') as -> by apply lookup_insert_eq. done.
    - assert (<[k := c']> h !! i = h !! i) as -> by (by apply lookup_insert_ne). done. }
  rewrite IH; [apply Hsame| |exact Hrun]. intros i ci Hi. apply Hsame, (Hsub i ci). set_solver.
Qed.

Lemma hub_insert h id c received : hub_ok h -> client_inv (c, received) -> hub_ok (<[id := c]> h).
Proof. intros Hok Hc. apply map_Forall_insert_2; [by exists received|done]. Qed.

Lemma hub_delete h id : hub_ok h -> hub_ok (delete id h).
Proof. intros Hok. by apply map_Forall_delete. Qed.

Lemma hub_close h id c : hub_ok h -> h !! id = Some c ->
  exists c' received, close c = Some c' /\ client_inv (c', received) /\ unsubscribe h id = Some (delete id h).
Proof.
  intros Hok Hc. destruct (Hok id c Hc) as [received Hinv].
  destruct (client_step_inv (c, received) OpClose Hinv I) as ([c' r'] & Hs & Hi & _).
  cbn [client_step] in Hs. apply bind_Some in Hs as (c1 & Hcl & [= <- <-]). exists c1, received.
  split_and!; [done|done|]. unfold unsubscribe. by rewrite Hc, Hcl.
Qed.

Lemma hub_leave h id h' : hub_ok h -> unsubscribe h id = Some h' ->
  hub_ok h' /\ forall i, i <> id -> h' !! i = h !! i.
Proof.
  intros Hok. unfold unsubscribe. destruct (h !! id) as [c|]; [|by intros [= <-]].
  intros (c' & _ & [= <-])%bind_Some. split; [by apply hub_delete|]. intros i Hi. by apply lookup_delete_ne.
Qed.

(** ** The invariant *)

Section Protocol.
Context `{Runtime} {S : Type} `{EventStore S} {K : Type} `{SocketLaws K}.
Variable id : Z.

Abbreviation state := (wsState S K).

(** The stage a place of the handler is at, with the subscription. *)
Definition stage_at (phase : wsPhase) : option (wsOpen * stage) :=
  match phase with
  | PhTake o | PhSnapshots o _ _ | PhHistory o _ => Some (o, Subscribed)
  | PhReplay o _ | PhPage o _ _ _ | PhActivate o _ | PhLive o => Some (o, Streaming)
  | _ => None
  end.

(** The client is in the hub. *)
Definition joined (phase : wsPhase) : bool :=
  match phase with PhRead | PhClosing | PhDone => false | _ => true end.

Definition in_stage (st : state) (o : wsOpen) (g : stage) : Prop :=
  stage_after (woRequestID o) (woSubscriptionID o) Opening (so_written (wsConn st)) = Some g.

Record ws_inv (st : state) : Prop := {
  wi_protocol : exists rid sid g, stage_after rid sid Opening (so_written (wsConn st)) = Some g;
  wi_fresh : match wsAt st with PhRead | PhAck _ => so_written (wsConn st) = [] | _ => True end;
  wi_stage o g : stage_at (wsAt st) = Some (o, g) -> in_stage st o g;
  wi_writer o : wsWriting st = WriterRunning o -> in_stage st o Streaming /\
    match wsAt st with PhLive o' => o' = o | PhLeaving _ | PhClosing | PhDone => True | _ => False end;
  wi_idle : match wsAt st with PhLive _ | PhLeaving _ | PhClosing | PhDone => True | _ => wsWriting st = WriterIdle end;
  wi_member : is_Some (wsHub st !! id) <-> joined (wsAt st) = true;
  wi_gone : is_Some (wsGone st) -> match wsAt st with PhClosing | PhDone => True | _ => False end;
  wi_closed : wsAt st = PhDone -> so_closed (wsConn st) = true;
  wi_ended : wsWriting st = WriterEnded -> so_closed (wsConn st) = true;
  wi_hub : hub_ok (wsHub st);
  wi_left c : wsGone st = Some c -> exists received, client_inv (c, received)
}.

Lemma upgraded_inv k hub registry store now :
  so_written k = [] -> hub_ok hub -> hub !! id = None -> ws_inv (upgraded k hub registry store now).
Proof.
  intros Hk Hok Hid. split; cbn; try done.
  - exists "", "", Opening. by rewrite Hk.
  - rewrite Hid. split; [by intros [? ?]|done].
Qed.

(** The socket, with nothing more written. *)
Lemma conn_inv (st : state) k :
  ws_inv st -> so_written k = so_written (wsConn st) -> (so_closed (wsConn st) = true -> so_closed k = true) ->
  ws_inv (with_conn st k).
Proof.
  intros [Hp Hf Hs Hw Hi Hm Hg Hc He Hok Hle] Hlog Hcl. unfold in_stage in *.
  split; unfold in_stage; cbn; rewrite ?Hlog; auto.
Qed.

(** Places the handler goes to once it has joined, with what it may say
    there. *)
Definition onward (o : wsOpen) (g : stage) (phase : wsPhase) : Prop :=
  joined phase = true /\ (stage_at phase = None \/ stage_at phase = Some (o, g)) /\
  match phase with PhRead | PhAck _ => False | _ => True end.

(** A step of the handler that writes nothing and stays in the hub. *)
Lemma phase_inv (st : state) phase o g :
  ws_inv st -> wsWriting st = WriterIdle -> in_stage st o g -> joined (wsAt st) = true -> onward o g phase ->
  ws_inv (at_phase st phase).
Proof.
  intros [Hp Hf Hs Hw Hi Hm Hg Hc He Hok Hle] Hidle Hin Hj (Hjp & Hst & Hn). split; cbn; rewrite ?Hidle; try done.
  - by destruct phase.
  - intros o' g' Hat. destruct Hst as [Hst|Hst]; rewrite Hst in Hat; [done|]. by injection Hat as <- <-.
  - by destruct phase.
  - by rewrite Hm, Hj, Hjp.
  - intros Hgone. apply Hg in Hgone. by destruct (wsAt st).
  - by intros ->.
Qed.

(** A write from the handler, before the writer runs. *)
Lemma write_inv (st : state) m written failed o g g' :
  ws_inv st -> wsWriting st = WriterIdle -> in_stage st o g -> joined (wsAt st) = true ->
  next_stage (woRequestID o) (woSubscriptionID o) g m = Some g' ->
  onward o g' written -> onward o g failed -> ws_inv (write_then st m written failed).
Proof.
  intros Hinv Hidle Hin Hj Hnext Hon Hoff. unfold write_then.
  destruct (so_WriteJSON (wsConn st) m) as [k ok] eqn:E. destruct (law_write _ _ _ _ E) as (Hlog & Hcl & _).
  destruct ok.
  - destruct Hinv as [Hp Hf Hs Hw Hi Hm Hg Hc He Hok Hle], Hon as (Hjp & Hst & Hn).
    assert (Hin' : stage_after (woRequestID o) (woSubscriptionID o) Opening (so_written k) = Some g')
      by (rewrite Hlog, stage_after_snoc; unfold in_stage in Hin; by rewrite Hin).
    split; cbn; rewrite ?Hidle; try done.
    + eauto.
    + by destruct written.
    + intros o' g2 Hat. destruct Hst as [Hst|Hst]; rewrite Hst in Hat; [done|]. by injection Hat as <- <-.
    + by destruct written.
    + by rewrite Hm, Hj, Hjp.
    + intros Hgone. apply Hg in Hgone. by destruct (wsAt st).
    + by intros ->.
  - rewrite app_nil_r in Hlog.
    change (at_phase (with_conn st k) failed) with (with_conn (at_phase st failed) k).
    apply conn_inv; [by eapply phase_inv|done|]. cbn. by rewrite Hcl.
Qed.

Lemma onward_leaving o o' g : onward o g (PhLeaving o').
Proof. split; [done|]. split; [by left|done]. Qed.

Lemma onward_at o g phase : stage_at phase = Some (o, g) -> onward o g phase.
Proof. intros Hst. split; [by destruct phase|]. split; [by right|by destruct phase]. Qed.

Lemma next_error o g code text :
  g = Opening \/ g = Subscribed -> next_stage (woRequestID o) (woSubscriptionID o) g (refuse o code text) = Some Refused.
Proof. intros [-> | ->]; cbn; by rewrite String.eqb_refl. Qed.

Lemma next_named o g g' type cursor data :
  (g, type, g') ∈ [(Subscribed, "snapshot", Subscribed); (Subscribed, "history", Streaming); (Streaming, "event", Streaming)] ->
  next_stage (woRequestID o) (woSubscriptionID o) g
    (mkEnvelope protocolVersion type "" (woSubscriptionID o) cursor data None) = Some g'.
Proof.
  rewrite !elem_of_cons. intros [[= -> -> ->]|[[= -> -> ->]|[[= -> -> ->]|[]%elem_of_nil]]]; cbn; by rewrite String.eqb_refl.
Qed.

Ltac named_next := apply next_named, list_elem_of_In; cbn; auto.

(** ** The handler keeps it *)

Lemma read_inv (st : state) random : ws_inv st -> wsAt st = PhRead -> ws_inv (read_step id st random).
Proof.
  intros [Hp Hf Hs Hw Hi Hm Hg Hc He Hok Hle] Hat. rewrite Hat in *. unfold read_step.
  destruct (so_Read (wsConn st)) as [k message] eqn:E. destruct (law_read _ _ _ E) as (Hlog & Hcl & _).
  rewrite Hf in Hlog. destruct (readWSRequest message) as [request valid].
  assert (Hrefuse : forall code text retry, ws_inv
    (write_then (with_conn st k) (protocolError (wrRequestID request) code text retry) PhClosing PhClosing)).
  { intros code text retry. unfold write_then. cbn [wsConn with_conn].
    destruct (so_WriteJSON k _) as [k' ok] eqn:E'. destruct (law_write _ _ _ _ E') as (Hlog' & Hcl' & _).
    rewrite Hlog in Hlog'. destruct ok; split; cbn; rewrite ?Hi; try done.
    - exists (wrRequestID request), "", Refused. rewrite Hlog'. cbn. by rewrite String.eqb_refl.
    - exists "", "", Opening. by rewrite Hlog'. }
  unfold handshake. destruct (_ || _); [apply Hrefuse|].
  destruct (makeSubscription (wrData request)) as [[[filter after] limit]|e|]; [|apply Hrefuse..].
  destruct (newSubscriptionID random) as [sid|]; [|apply Hrefuse].
  split; cbn; rewrite ?Hi, ?Hlog; try done.
  - by exists "", "", Opening.
  - split; [done|]. intros _. unfold subscribe. exists (new_client filter 2048). apply lookup_insert_eq.
  - eapply hub_insert; [done|apply new_client_inv].
Qed.

Lemma idle_before (st : state) :
  ws_inv st -> match wsAt st with PhLive _ | PhLeaving _ | PhClosing | PhDone => False | _ => True end ->
  wsWriting st = WriterIdle.
Proof. intros Hinv Hat. pose proof (wi_idle _ Hinv). by destruct (wsAt st). Qed.

(** The hub without this client changing its membership. *)
Lemma hub_inv (st : state) h :
  ws_inv st -> hub_ok h -> (is_Some (h !! id) <-> is_Some (wsHub st !! id)) -> ws_inv (with_hub st h).
Proof. intros [Hp Hf Hs Hw Hi Hm Hg Hc He Hok Hle] Hokh Hh. split; cbn; auto. by rewrite Hh. Qed.

Lemma insert_present (h : Hub) c : is_Some (h !! id) -> is_Some (<[id := c]> h !! id) <-> is_Some (h !! id).
Proof.
  intros Hs. assert (<[id := c]> h !! id = Some c) as -> by apply lookup_insert_eq. split; [done|by eexists].
Qed.

Lemma ack_inv (st st' : state) o : ws_inv st -> wsAt st = PhAck o -> ack_step st o = st' -> ws_inv st'.
Proof.
  intros Hinv Hat <-. unfold ack_step.
  pose proof (wi_fresh _ Hinv) as Hf. rewrite Hat in Hf.
  apply (write_inv st _ _ _ o Opening Subscribed); try done; [by apply idle_before; rewrite ?Hat|..].
  - unfold in_stage. by rewrite Hf.
  - by rewrite Hat.
  - cbn. by rewrite !String.eqb_refl.
  - by apply onward_at.
  - apply onward_leaving.
Qed.

Lemma take_inv (st st' : state) o : ws_inv st -> wsAt st = PhTake o -> take_step st o = Some st' -> ws_inv st'.
Proof.
  intros Hinv Hat. assert (Hidle : wsWriting st = WriterIdle) by (by apply idle_before; rewrite ?Hat).
  assert (Hin : in_stage st o Subscribed) by (apply (wi_stage _ Hinv); by rewrite Hat).
  assert (Hj : joined (wsAt st) = true) by (by rewrite Hat).
  unfold take_step. intros (all & _ & [= <-])%bind_Some. eapply phase_inv; try done. by apply onward_at.
Qed.

Lemma snapshots_inv (st st' : state) o selected rest :
  ws_inv st -> wsAt st = PhSnapshots o selected rest -> snapshots_step st o selected rest = Some st' -> ws_inv st'.
Proof.
  intros Hinv Hat. assert (Hidle : wsWriting st = WriterIdle) by (by apply idle_before; rewrite ?Hat).
  assert (Hin : in_stage st o Subscribed) by (apply (wi_stage _ Hinv); by rewrite Hat).
  assert (Hj : joined (wsAt st) = true) by (by rewrite Hat).
  unfold snapshots_step. destruct rest as [|snapshot rest].
  { intros [= <-]. eapply phase_inv; try done. by apply onward_at. }
  destruct (snapshotAnalysisEvents snapshot (wsNow st)) as [events|e|]; [| |done]; intros [= <-].
  - apply (write_inv st _ _ _ o Subscribed Subscribed); try done; [named_next|by apply onward_at|apply onward_leaving].
  - eapply write_inv; try done; [apply next_error; auto|apply onward_leaving..].
Qed.

Lemma history_inv (st st' : state) o selected :
  ws_inv st -> wsAt st = PhHistory o selected -> history_step st o selected = Some st' -> ws_inv st'.
Proof.
  intros Hinv Hat. assert (Hidle : wsWriting st = WriterIdle) by (by apply idle_before; rewrite ?Hat).
  assert (Hin : in_stage st o Subscribed) by (apply (wi_stage _ Hinv); by rewrite Hat).
  assert (Hj : joined (wsAt st) = true) by (by rewrite Hat).
  assert (Herr : forall code text, ws_inv (write_then st (refuse o code text) (PhLeaving o) (PhLeaving o))).
  { intros. eapply write_inv; try done; [apply next_error; auto|apply onward_leaving..]. }
  unfold history_step. destruct (recentPoints _ _ _) as [history|e|]; [|by intros [= <-]|done].
  destruct (toAnalysisEvents history (wsNow st)) as [events|e|]; [|by intros [= <-]|done]. intros [= <-].
  apply (write_inv st _ _ _ o Subscribed Streaming); try done; [named_next| |apply onward_leaving].
  by destruct (0 <? woAfter o); apply onward_at.
Qed.

Lemma replay_inv (st st' : state) o c :
  ws_inv st -> wsAt st = PhReplay o c -> ws_replay_step st o c = Some st' -> ws_inv st'.
Proof.
  intros Hinv Hat. assert (Hidle : wsWriting st = WriterIdle) by (by apply idle_before; rewrite ?Hat).
  assert (Hin : in_stage st o Streaming) by (apply (wi_stage _ Hinv); by rewrite Hat).
  assert (Hj : joined (wsAt st) = true) by (by rewrite Hat).
  unfold ws_replay_step. destruct (es_QueryEvents _ _) as [events|e|]; [| |done]; intros [= <-].
  - eapply phase_inv; try done. by apply onward_at.
  - eapply phase_inv; try done. apply onward_leaving.
Qed.

Lemma page_step_inv (st st' : state) o c events final :
  ws_inv st -> wsAt st = PhPage o c events final -> page_step st o c events final = Some st' -> ws_inv st'.
Proof.
  intros Hinv Hat. assert (Hidle : wsWriting st = WriterIdle) by (by apply idle_before; rewrite ?Hat).
  assert (Hin : in_stage st o Streaming) by (apply (wi_stage _ Hinv); by rewrite Hat).
  assert (Hj : joined (wsAt st) = true) by (by rewrite Hat).
  unfold page_step. destruct events as [|event rest].
  { intros [= <-]. eapply phase_inv; try done. by destruct final; apply onward_at. }
  destruct (matches (woFilter o) event).
  2:{ intros [= <-]. eapply phase_inv; try done. by apply onward_at. }
  destruct (event_message _ _ event) as [message|e|] eqn:Hm; [| |done]; intros [= <-].
  - unfold event_message in Hm. destruct (toAnalysisEvent event (wsNow st)); [|done..]. injection Hm as <-.
    apply (write_inv st _ _ _ o Streaming Streaming); try done; [named_next|by apply onward_at|apply onward_leaving].
  - eapply phase_inv; try done. apply onward_leaving.
Qed.

Lemma activate_step_inv (st st' : state) o c :
  ws_inv st -> wsAt st = PhActivate o c -> activate_step id st o c = Some st' -> ws_inv st'.
Proof.
  intros Hinv Hat. unfold activate_step.
  intros (client & Hc & (client' & Ha & [= <-])%bind_Some)%bind_Some.
  assert (Hin : in_stage st o Streaming) by (apply (wi_stage _ Hinv); by rewrite Hat).
  destruct Hinv as [Hp Hf Hs Hw Hi Hm Hg Hcl He Hok Hle]. rewrite Hat in *.
  assert (Hok' : hub_ok (<[id := client']> (wsHub st))).
  { destruct (Hok id client Hc) as [received Hci]. destruct (activate_inv client received c Hci) as (c1 & Ha1 & Hi1 & _).
    rewrite Ha in Ha1. injection Ha1 as <-. by eapply hub_insert. }
  split; cbn; try done.
  all: first [done|by intros o' g [= <- <-]|by intros o' [= <-]|rewrite insert_present by (by eexists); by rewrite Hc].
Qed.

Lemma leave_inv (st st' : state) o :
  ws_inv st -> wsAt st = PhLeaving o -> leave_step id st = Some st' -> ws_inv st'.
Proof.
  intros Hinv Hat. unfold leave_step. intros (client & Hc & Hrest)%bind_Some.
  apply bind_Some in Hrest as (client' & Hcl & Hrest). apply bind_Some in Hrest as (hub & Hu & [= <-]).
  unfold unsubscribe in Hu. rewrite Hc, Hcl in Hu. cbn [mbind option_bind] in Hu. injection Hu as <-.
  destruct Hinv as [Hp Hf Hs Hw Hi Hm Hg Hd He Hok Hle]. rewrite Hat in *. split; cbn; try done.
  - assert (delete id (wsHub st) !! id = None) as -> by apply lookup_delete_eq. split; [by intros [? ?]|done].
  - by apply hub_delete.
  - intros x [= <-]. destruct (hub_close _ _ _ Hok Hc) as (c2 & received & Hc2 & Hi2 & _).
    rewrite Hcl in Hc2. injection Hc2 as <-. by exists received.
Qed.

Lemma handler_inv (st st' : state) random : ws_inv st -> handler_step id st random = Some st' -> ws_inv st'.
Proof.
  intros Hinv. unfold handler_step. destruct (wsAt st) as [|o|o|o sel rest|o sel|o c|o c evs fin|o c|o|o| |] eqn:Hat; intros Hrun.
  - injection Hrun as <-. by apply read_inv.
  - injection Hrun as Hrun. by eapply ack_inv.
  - by eapply take_inv.
  - by eapply snapshots_inv.
  - by eapply history_inv.
  - by eapply replay_inv.
  - by eapply page_step_inv.
  - by eapply activate_step_inv.
  - injection Hrun as <-. unfold live_step. destruct (so_Read (wsConn st)) as [k message] eqn:E.
    destruct (law_read _ _ _ E) as (Hlog & Hcl & _).
    assert (Hk : ws_inv (with_conn st k)) by (apply conn_inv; [done|done|by rewrite Hcl]).
    destruct message.
    + replace (at_phase (with_conn st k) (PhLive o)) with (with_conn st k); [done|].
      unfold at_phase. cbn. unfold with_conn. by rewrite Hat.
    + destruct Hk as [Hp Hf Hs Hw Hi Hm Hg Hc He Hok Hle]. cbn in *. rewrite Hat in *. split; cbn; try done.
      intros o' Ho'. by destruct (Hw o' Ho').
  - by eapply leave_inv.
  - injection Hrun as <-. destruct (law_shut (wsConn st)) as [Hlog Hcl].
    assert (Hk : ws_inv (with_conn st (so_Close (wsConn st)))) by (by apply conn_inv).
    destruct Hk as [Hp Hf Hs Hw Hi Hm Hg Hc He Hok Hle]. cbn in *. rewrite Hat in *. by split; cbn.
  - by injection Hrun as <-.
Qed.

(** ** The writer keeps it *)

Lemma ends_inv (st : state) o : ws_inv st -> wsWriting st = WriterRunning o -> ws_inv (writer_ends st).
Proof.
  intros Hinv Hrun. destruct (law_shut (wsConn st)) as [Hlog Hcl].
  destruct (wi_writer _ Hinv o Hrun) as [_ Hat].
  assert (Hk : ws_inv (with_conn st (so_Close (wsConn st)))) by (by apply conn_inv).
  destruct Hk as [Hp Hf Hs Hw Hi Hm Hg Hc He Hok Hle]. cbn in *. split; cbn; try done. by destruct (wsAt st).
Qed.

(** Another client in the place of the one the writer holds. *)
Lemma hold_inv (st : state) c c' :
  ws_inv st -> held_client id st = Some c -> (forall received, client_inv (c, received) -> exists received', client_inv (c', received')) ->
  ws_inv (hold id st c') /\ wsWriting (hold id st c') = wsWriting st /\ wsConn (hold id st c') = wsConn st.
Proof.
  intros Hinv. unfold held_client, hold. destruct (wsGone st) as [g|] eqn:Hgone; intros Hc Hkeep; (split; [|done]).
  - injection Hc as <-. destruct Hinv as [Hp Hf Hs Hw Hi Hm Hg Hcl He Hok Hle]. split; cbn; try done.
    + intros _. apply Hg. by rewrite Hgone.
    + intros x [= <-]. destruct (Hle g Hgone) as [received Hci]. by eapply Hkeep.
  - destruct (wi_hub _ Hinv id c Hc) as [received Hci]. destruct (Hkeep received Hci) as [received' Hci'].
    apply hub_inv; [done|eapply hub_insert; [apply Hinv|exact Hci']|]. apply insert_present. by rewrite Hc.
Qed.

Lemma recv_client c e ch received :
  chan_recv (hcSend c) = (Some e, ch) -> client_inv (c, received) ->
  client_step (c, received) OpRecv = Some (received_client c ch, received ++ [e]) /\
  client_inv (received_client c ch, received ++ [e]).
Proof.
  intros Hr Hinv. destruct (recv_inv c received Hinv) as (st' & Hs & Hi & _).
  assert (Heq : client_step (c, received) OpRecv = Some (received_client c ch, received ++ [e]))
    by (cbn [client_step]; by rewrite Hr).
  split; [done|]. rewrite Heq in Hs. by injection Hs as <-.
Qed.

(** A write of the writer that succeeds. *)
Lemma stream_inv (st : state) o k m :
  ws_inv st -> wsWriting st = WriterRunning o -> so_written k = so_written (wsConn st) ++ [m] ->
  so_closed k = so_closed (wsConn st) ->
  next_stage (woRequestID o) (woSubscriptionID o) Streaming m = Some Streaming -> ws_inv (with_conn st k).
Proof.
  intros Hinv Hrun Hlog Hcl Hnext. destruct (wi_writer _ Hinv o Hrun) as [Hin Hat].
  assert (Hin' : stage_after (woRequestID o) (woSubscriptionID o) Opening (so_written k) = Some Streaming)
    by (rewrite Hlog, stage_after_snoc; unfold in_stage in Hin; by rewrite Hin).
  destruct Hinv as [Hp Hf Hs Hw Hi Hm Hg Hc He Hok Hle]. split; cbn; rewrite ?Hcl; try done.
  - eauto.
  - by destruct (wsAt st).
  - intros o' g Hst. destruct (wsAt st); try done. cbn in Hst. by injection Hst as <- <-; subst.
  - intros o' Ho'. rewrite Hrun in Ho'. injection Ho' as <-. done.
Qed.

Lemma receive_step_inv (st st' : state) o :
  ws_inv st -> wsWriting st = WriterRunning o -> receive_step id st o = Some st' -> ws_inv st'.
Proof.
  intros Hinv Hrun. unfold receive_step. intros (c & Hc & Hstep)%bind_Some.
  destruct (chan_recv (hcSend c)) as [[e|] ch] eqn:Hr.
  2:{ injection Hstep as <-. destruct (chClosed ch); [by eapply ends_inv|done]. }
  destruct (hold_inv st c (received_client c ch) Hinv Hc) as (Hinv' & Hw' & Hk').
  { intros received Hci. destruct (recv_client c e ch received Hr Hci) as [_ Hi]. eauto. }
  rewrite Hrun in Hw'. revert Hstep. generalize dependent (hold id st (received_client c ch)). intros st1 Hinv1 Hw1 Hk1.
  destruct (event_message _ _ e) as [m|err|] eqn:Hm; [| |done].
  2:{ intros [= <-]. by eapply ends_inv. }
  destruct (so_WriteJSON (wsConn st1) m) as [k ok] eqn:Hwr. destruct (law_write _ _ _ _ Hwr) as (Hlog & Hcl & _).
  intros [= <-]. destruct ok.
  - eapply stream_inv; try done. unfold event_message in Hm. destruct (toAnalysisEvent e (wsNow st1)); [|done..].
    injection Hm as <-. named_next.
  - rewrite app_nil_r in Hlog. eapply ends_inv; [|exact Hw1]. apply conn_inv; [done|done|by rewrite Hcl].
Qed.

(** ** Every move keeps it *)

Lemma ws_step_inv (st st' : state) move : ws_inv st -> ws_step id st move = Some st' -> ws_inv st'.
Proof.
  intros Hinv. destruct move as [random| | | |e|other filter|other|registry store now]; cbn [ws_step].
  - by apply handler_inv.
  - unfold writer_move. destruct (wsWriting st) as [|o|] eqn:Hw; [by intros [= <-]|by eapply receive_step_inv|by intros [= <-]].
  - unfold writer_move. destruct (wsWriting st) as [|o|] eqn:Hw; [by intros [= <-]| |by intros [= <-]].
    intros [= <-]. unfold ping_step. destruct (so_WritePing (wsConn st)) as [k ok] eqn:Hp.
    destruct (law_ping _ _ _ Hp) as [Hlog Hcl].
    assert (Hk : ws_inv (with_conn st k)) by (apply conn_inv; [done|done|by rewrite Hcl]).
    destruct ok; [done|by eapply ends_inv].
  - unfold writer_move. destruct (wsWriting st) as [|o|] eqn:Hw; [by intros [= <-]| |by intros [= <-]].
    intros [= <-]. by eapply ends_inv.
  - intros (hub & Hp & [= <-])%bind_Some. destruct (Hub_Publish_ok (wsHub st) e (wi_hub _ Hinv)) as (h' & Hp' & Hok & _).
    rewrite Hp in Hp'. injection Hp' as <-. apply hub_inv; [done|done|by eapply publish_presence].
  - destruct (Z.eqb_spec other id) as [|Hne]; [by intros [= <-]|]. intros [= <-]. apply hub_inv; [done| |].
    + eapply hub_insert; [apply Hinv|apply new_client_inv].
    + unfold subscribe. assert (<[other := new_client filter 2048]> (wsHub st) !! id = wsHub st !! id) as ->
        by (by apply lookup_insert_ne). done.
  - destruct (Z.eqb_spec other id) as [|Hne]; [by intros [= <-]|]. intros (hub & Hu & [= <-])%bind_Some.
    destruct (hub_leave _ _ _ (wi_hub _ Hinv) Hu) as [Hok Hsame]. apply hub_inv; [done|done|]. by rewrite Hsame.
  - intros [= <-]. destruct Hinv as [Hp Hf Hs Hw Hi Hm Hg Hc He Hok Hle]. by split.
Qed.

Lemma ws_run_inv (st st' : state) moves : ws_inv st -> ws_run id st moves = Some st' -> ws_inv st'.
Proof.
  revert st. induction moves as [|move moves IH]; intros st Hinv; cbn [ws_run]; [by intros [= <-]|].
  intros (st1 & Hs1 & Hrun)%bind_Some. eapply IH; [by eapply ws_step_inv|done].
Qed.

(** ** The end *)

(** Once the handler leaves, two of its steps end the connection. *)
Lemma leaving_ends (st : state) o r1 r2 :
  ws_inv st -> wsAt st = PhLeaving o ->
  exists st', ws_run id st [MoveHandler r1; MoveHandler r2] = Some st' /\ wsAt st' = PhDone.
Proof.
  intros Hinv Hat. assert (is_Some (wsHub st !! id)) as [c Hc] by (apply (wi_member _ Hinv); by rewrite Hat).
  destruct (hub_close _ _ _ (wi_hub _ Hinv) Hc) as (c' & received & Hcl & _ & Hu).
  assert (Hleave : handler_step id st r1 =
    Some (at_phase (with_gone (with_hub st (delete id (wsHub st))) (Some c')) PhClosing)).
  { unfold handler_step. rewrite Hat. unfold leave_step. rewrite Hc. cbn [mbind option_bind].
    rewrite Hcl. cbn [mbind option_bind]. by rewrite Hu. }
  cbn [ws_run ws_step]. rewrite Hleave. cbn. eauto.
Qed.

(** A connection that is closed under a live handler ends by its next three
    steps. *)
Lemma closed_ends (st : state) o r1 r2 r3 :
  ws_inv st -> wsAt st = PhLive o -> so_closed (wsConn st) = true ->
  exists st', ws_run id st [MoveHandler r1; MoveHandler r2; MoveHandler r3] = Some st' /\ wsAt st' = PhDone.
Proof.
  intros Hinv Hat Hcl. change [MoveHandler r1; MoveHandler r2; MoveHandler r3] with
    ([@MoveHandler S r1] ++ [MoveHandler r2; MoveHandler r3]).
  destruct (handler_step id st r1) as [st1|] eqn:Hh.
  2:{ unfold handler_step in Hh. by rewrite Hat in Hh. }
  assert (Hinv1 : ws_inv st1) by (by eapply handler_inv).
  cbn [app ws_run ws_step]. rewrite Hh. cbn [mbind option_bind]. apply (leaving_ends st1 o); [done|].
  unfold handler_step in Hh. rewrite Hat in Hh. injection Hh as <-. unfold live_step.
  destruct (so_Read (wsConn st)) as [k message] eqn:E. destruct (law_read _ _ _ E) as (_ & _ & Hnone).
  by rewrite (Hnone Hcl).
Qed.
End Protocol.
