(* ===== verification/WebSocketDelivery.v ===== *)
(** * What a subscriber finds on its socket

    A connection in the service: lanes write to the store, the dispatcher
    fetches, publishes and marks batches, other subscribers come and go, and
    the handler and the writer of one connection run between them.  The events
    on the socket are those the abstract session has delivered, so that what
    is proved of the session holds of the socket. *)

From stdpp Require Import prelude gmap strings list sorting.
From Stdlib Require Import ZArith Lia SpecFloat Ascii String.
From S2P Require Import Prelude GoFloat GoText GoStrings Monitor Model Ema MarketZones.
From S2P Require Import StoreSpec Memory MemoryProofs Lane Registry Contract Hub HubProofs Server Session SessionProofs.
From S2P Require Import Dispatch Json WsRequest WebSocket WebSocketProofs.

#[local] Open Scope string_scope.
#[local] Open Scope list_scope.
#[local] Open Scope Z_scope.

(** ** Events on the socket *)

Definition is_event (m : wireEnvelope) : bool := (envType m =? "event")%string.

(** A message that shows an event. *)
Definition shows (subscriptionID : string) (e : SignalEvent) (m : wireEnvelope) : Prop :=
  exists now, event_message subscriptionID now e = Ok m.

Lemma shows_event sid e m : shows sid e m -> is_event m = true.
Proof.
  intros [now Hm]. unfold event_message in Hm. destruct (toAnalysisEvent e now); [|done..]. by injection Hm as <-.
Qed.

Section Service.
Context `{Runtime} {K : Type} `{SocketLaws K}.
Variable id : Z.

Definition event_messages (k : K) : list wireEnvelope := List.filter is_event (so_written k).

(** The connection, the batch the dispatcher is publishing, what it has sent
    of it, the highest cursor published, and that cursor when the subscription
    was made. *)
Record wsService := mkWsService {
  wvState : wsState Memory K;
  wvBatch : list SignalEvent;
  wvSent : list Z;
  wvPublished : Z;
  wvMark : Z
}.

Definition own_move (move : wsMove Memory) : bool :=
  match move with MovePublish _ | MoveWorld _ _ _ => false | _ => true end.

Definition mark_of (sv : wsService) : Z :=
  match wsAt (wvState sv) with PhRead => wvPublished sv | _ => wvMark sv end.

Inductive ws_service_step : wsService -> wsService -> Prop :=
  | wss_own sv move st' : own_move move = true -> ws_step id (wvState sv) move = Some st' ->
      ws_service_step sv (mkWsService st' (wvBatch sv) (wvSent sv) (wvPublished sv) (mark_of sv))
  | wss_write sv registry s' now st' : lane_write (wsStore (wvState sv)) s' ->
      ws_step id (wvState sv) (MoveWorld registry s' now) = Some st' ->
      ws_service_step sv (mkWsService st' (wvBatch sv) (wvSent sv) (wvPublished sv) (wvMark sv))
  | wss_fetch sv : wvBatch sv = [] -> wvSent sv = [] ->
      ws_service_step sv (mkWsService (wvState sv) (Memory_PendingEvents (wsStore (wvState sv)) 250) []
        (wvPublished sv) (wvMark sv))
  | wss_publish sv e rest st' : wvBatch sv = e :: rest -> ws_step id (wvState sv) (MovePublish e) = Some st' ->
      ws_service_step sv (mkWsService st' rest (wvSent sv ++ [evCursor e])
        (Z.max (wvPublished sv) (evCursor e)) (wvMark sv))
  | wss_abort sv : ws_service_step sv (mkWsService (wvState sv) [] [] (wvPublished sv) (wvMark sv))
  | wss_mark sv s' registry now st' : wvBatch sv = [] ->
      Memory_MarkPublished (wsStore (wvState sv)) (wvSent sv) = (s', Ok tt) ->
      ws_step id (wvState sv) (MoveWorld registry s' now) = Some st' ->
      ws_service_step sv (mkWsService st' [] [] (wvPublished sv) (wvMark sv))
  | wss_forming sv e st' : evCursor e = 0 -> ws_step id (wvState sv) (MovePublish e) = Some st' ->
      ws_service_step sv (mkWsService st' (wvBatch sv) (wvSent sv) (wvPublished sv) (wvMark sv)).

Inductive ws_service_run : wsService -> wsService -> Prop :=
  | wsr_refl sv : ws_service_run sv sv
  | wsr_step a b c : ws_service_run a b -> ws_service_step b c -> ws_service_run a c.

(** ** The session behind a connection *)

(** The cursor and phase of the session at a place of the handler, and the
    events of a page that are still to be written. *)
Inductive tracks (o : wsOpen) : wsPhase -> Z -> phase -> list SignalEvent -> Prop :=
  | tr_ack : tracks o (PhAck o) (woAfter o) (if 0 <? woAfter o then Replaying else CaughtUp) []
  | tr_take : tracks o (PhTake o) (woAfter o) (if 0 <? woAfter o then Replaying else CaughtUp) []
  | tr_snapshots sel rest : tracks o (PhSnapshots o sel rest) (woAfter o) (if 0 <? woAfter o then Replaying else CaughtUp) []
  | tr_history sel : tracks o (PhHistory o sel) (woAfter o) (if 0 <? woAfter o then Replaying else CaughtUp) []
  | tr_replay c : tracks o (PhReplay o c) c Replaying []
  | tr_page c rest (final : bool) : tracks o (PhPage o c rest final) (default c (evCursor <$> last rest))
      (if final then CaughtUp else Replaying) rest
  | tr_activate c : tracks o (PhActivate o c) c CaughtUp []
  | tr_live c : tracks o (PhLive o) c Live [].

(** The subscription of a connection whose messages all arrive. *)
Definition watched (st : wsState Memory K) : option wsOpen :=
  match wsAt st with
  | PhAck o | PhTake o | PhSnapshots o _ _ | PhHistory o _ | PhReplay o _ | PhPage o _ _ _ | PhActivate o _ => Some o
  | PhLive o => match wsWriting st with WriterRunning _ => Some o | _ => None end
  | _ => None
  end.

Record following (sv : wsService) (o : wsOpen) (client : hubClient) (received replayed seen : list SignalEvent)
    (cursor : Z) (ph : phase) (rest : list SignalEvent) : Prop := {
  fo_tracks : tracks o (wsAt (wvState sv)) cursor ph rest;
  fo_client : wsHub (wvState sv) !! id = Some client;
  fo_session : session_inv (woFilter o) (woAfter o) (wvMark sv)
    (mkSession (wsStore (wvState sv)) (wvPublished sv) client received replayed cursor ph);
  fo_waiting : ph <> Live -> received = [];
  fo_seen : seen ++ List.filter (matches (woFilter o)) rest = replayed ++ received;
  fo_socket : Forall2 (shows (woSubscriptionID o)) seen (event_messages (wsConn (wvState sv)))
}.

Definition followed (sv : wsService) (o : wsOpen) : Prop :=
  exists client received replayed seen cursor ph rest, following sv o client received replayed seen cursor ph rest.

Record wv_inv (sv : wsService) : Prop := {
  wv_ws : ws_inv id (wvState sv);
  wv_dispatcher : dispatcher_inv (wsStore (wvState sv)) (wvPublished sv) (wvBatch sv) (wvSent sv);
  wv_followed o : watched (wvState sv) = Some o -> followed sv o
}.

(** A connection that goes on, with one more step of its session. *)
Lemma following_step sv sv' o client client' received received' replayed replayed' seen seen' cursor cursor' ph ph' rest rest' :
  following sv o client received replayed seen cursor ph rest ->
  session_step (woFilter o)
    (mkSession (wsStore (wvState sv)) (wvPublished sv) client received replayed cursor ph)
    (mkSession (wsStore (wvState sv')) (wvPublished sv') client' received' replayed' cursor' ph') ->
  wvMark sv' = wvMark sv -> tracks o (wsAt (wvState sv')) cursor' ph' rest' ->
  wsHub (wvState sv') !! id = Some client' -> (ph' <> Live -> received' = []) ->
  seen' ++ List.filter (matches (woFilter o)) rest' = replayed' ++ received' ->
  Forall2 (shows (woSubscriptionID o)) seen' (event_messages (wsConn (wvState sv'))) ->
  followed sv' o.
Proof.
  intros [Ht Hc Hs Hw Hse Hso] Hstep Hm Ht' Hc' Hw' Hse' Hso'.
  exists client', received', replayed', seen', cursor', ph', rest'. split; try done.
  rewrite Hm. by eapply session_step_inv.
Qed.

(** The same session, with the connection at another place. *)
Lemma following_same sv sv' o client received replayed seen seen' cursor ph rest rest' :
  following sv o client received replayed seen cursor ph rest ->
  wsStore (wvState sv') = wsStore (wvState sv) -> wvPublished sv' = wvPublished sv -> wvMark sv' = wvMark sv ->
  tracks o (wsAt (wvState sv')) cursor ph rest' -> wsHub (wvState sv') !! id = Some client ->
  seen' ++ List.filter (matches (woFilter o)) rest' = seen ++ List.filter (matches (woFilter o)) rest ->
  Forall2 (shows (woSubscriptionID o)) seen' (event_messages (wsConn (wvState sv'))) ->
  followed sv' o.
Proof.
  intros [Ht Hc Hs Hw Hse Hso] E1 E2 E3 Ht' Hc' Hse' Hso'.
  exists client, received, replayed, seen', cursor, ph, rest'. split; try done.
  - by rewrite E1, E2, E3.
  - by rewrite Hse'.
Qed.

(** What a write puts on the socket. *)
Lemma event_messages_write k m k' ok :
  so_WriteJSON k m = (k', ok) ->
  event_messages k' = event_messages k ++ (if (ok : bool) then if is_event m then [m] else [] else []).
Proof.
  intros E. destruct (law_write _ _ _ _ E) as (Hlog & _). unfold event_messages. rewrite Hlog, List.filter_app.
  destruct ok; cbn; [by destruct (is_event m)|done].
Qed.

Lemma event_messages_same k k' : so_written k' = so_written k -> event_messages k' = event_messages k.
Proof. unfold event_messages. by intros ->. Qed.

Lemma tracks_watched (st : wsState Memory K) o o' cursor ph rest :
  tracks o (wsAt st) cursor ph rest -> watched st = Some o' -> o' = o.
Proof.
  unfold watched. intros Ht. inversion Ht as [Ha|Ha|? ? Ha|? Ha|? Ha|? ? ? Ha|? Ha|? Ha]; try (by intros [= <-]).
  case_match; [done|by intros [= <-]|done].
Qed.

(** ** The handler *)

(** The service after a step of the connection. *)
Definition with_state (sv : wsService) (st : wsState Memory K) : wsService :=
  mkWsService st (wvBatch sv) (wvSent sv) (wvPublished sv) (mark_of sv).

Lemma mark_kept (sv : wsService) o client received replayed seen cursor ph rest :
  following sv o client received replayed seen cursor ph rest -> mark_of sv = wvMark sv.
Proof. intros [Ht _ _ _ _ _]. unfold mark_of. by inversion Ht. Qed.

(** A write that is no event, and one that is the next event of the page. *)
Lemma write_followed sv o client received replayed seen cursor ph rest m written :
  following sv o client received replayed seen cursor ph rest -> is_event m = false ->
  tracks o written cursor ph rest ->
  forall o', watched (write_then (wvState sv) m written (PhLeaving o)) = Some o' ->
    followed (with_state sv (write_then (wvState sv) m written (PhLeaving o))) o'.
Proof.
  intros Hf Hm Ht o'. unfold write_then. destruct (so_WriteJSON (wsConn (wvState sv)) m) as [k ok] eqn:E.
  apply event_messages_write in E. rewrite Hm in E. destruct ok; [|by unfold watched].
  intros Hw. assert (o' = o) as -> by (by eapply tracks_watched; [|exact Hw]).
  eapply (following_same sv); [exact Hf|try done..]; cbn; [by eapply mark_kept|by destruct Hf|].
  rewrite E, app_nil_r. by destruct Hf.
Qed.

Lemma write_event_followed sv o client received replayed seen cursor ph e rest m written :
  following sv o client received replayed seen cursor ph (e :: rest) -> shows (woSubscriptionID o) e m ->
  matches (woFilter o) e = true -> tracks o written cursor ph rest ->
  forall o', watched (write_then (wvState sv) m written (PhLeaving o)) = Some o' ->
    followed (with_state sv (write_then (wvState sv) m written (PhLeaving o))) o'.
Proof.
  intros Hf Hm Hma Ht o'. unfold write_then. destruct (so_WriteJSON (wsConn (wvState sv)) m) as [k ok] eqn:E.
  apply event_messages_write in E. rewrite (shows_event _ _ _ Hm) in E. destruct ok; [|by unfold watched].
  intros Hw. assert (o' = o) as -> by (by eapply tracks_watched; [|exact Hw]).
  eapply (following_same sv _ _ _ _ _ _ (seen ++ [e])); [exact Hf|try done..]; cbn;
    [by eapply mark_kept|by destruct Hf| |].
  - rewrite Hma, <-app_assoc. done.
  - rewrite E. apply Forall2_app; [by destruct Hf|by repeat constructor].
Qed.

(** A move of the handler that writes nothing. *)
Lemma phase_followed sv o client received replayed seen cursor ph rest rest' phase :
  following sv o client received replayed seen cursor ph rest ->
  (tracks o phase cursor ph rest' /\
   List.filter (matches (woFilter o)) rest' = List.filter (matches (woFilter o)) rest) \/ phase = PhLeaving o ->
  forall o', watched (at_phase (wvState sv) phase) = Some o' -> followed (with_state sv (at_phase (wvState sv) phase)) o'.
Proof.
  intros Hf [[Ht Hr]| ->] o' Hw; [|done]. assert (o' = o) as -> by (by eapply tracks_watched; [|exact Hw]).
  eapply (following_same sv); [exact Hf|try done..]; cbn; [by eapply mark_kept|by destruct Hf|by rewrite Hr|by destruct Hf].
Qed.

Lemma after_nonneg valid request filter after limit :
  handshake valid request = inr (filter, after, limit) -> 0 <= after.
Proof.
  unfold handshake. destruct (_ || _); [done|]. destruct (makeSubscription (wrData request)) as [[[f a] l]|e|] eqn:E; [|done..].
  intros [= <- <- <-]. revert E. unfold makeSubscription. cbn zeta.
  destruct (len _ =? 0); [done|]. destruct (check_series _); [done|]. do 3 (destruct (existsb _ _); [done|]).
  destruct (if (wdResumeAfter _ =? "")%string then _ else _) as [n|] eqn:Hn; [|done].
  destruct (_ || _); [done|]. intros [= <- <- <-].
  destruct (wdResumeAfter (wrData request) =? "")%string; [by injection Hn as <-|].
  apply bind_Some in Hn as (z & _ & Hz). destruct (Z.ltb_spec z 0); [done|]. by injection Hz as <-.
Qed.

Lemma read_followed sv random :
  wv_inv sv -> wsAt (wvState sv) = PhRead ->
  forall o, watched (read_step id (wvState sv) random) = Some o ->
    followed (with_state sv (read_step id (wvState sv) random)) o.
Proof.
  intros [Hws Hd _] Hat o. unfold read_step.
  destruct (so_Read (wsConn (wvState sv))) as [k message] eqn:E. destruct (law_read _ _ _ E) as (Hlog & _).
  pose proof (wi_fresh _ _ Hws) as Hf. rewrite Hat in Hf. rewrite Hf in Hlog.
  destruct (readWSRequest message) as [request valid].
  assert (Hno : forall m, watched (write_then (with_conn (wvState sv) k) m PhClosing PhClosing) = None).
  { intros m. unfold write_then. destruct (so_WriteJSON _ m) as [? []]; done. }
  destruct (handshake valid request) as [refusal|[[filter after] limit]] eqn:Hh; [by rewrite Hno|].
  apply after_nonneg in Hh. destruct (newSubscriptionID random) as [sid|]; [|by rewrite Hno].
  intros [= <-]. set (o := mkOpen _ _ _ _ _).
  exists (new_client filter 2048), [], [], [], after, (if 0 <? after then Replaying else CaughtUp), [].
  destruct Hd as [Hs [Hp Hl] _ _ _].
  split; cbn; try done; [apply (tr_ack o)|apply lookup_insert_eq| |].
  - unfold mark_of. rewrite Hat. by apply opened_inv.
  - unfold event_messages. by rewrite Hlog.
Qed.

Lemma activated_followed sv o client received replayed seen c client' :
  following sv o client received replayed seen c CaughtUp [] ->
  activate client c = Some client' ->
  followed (with_state sv (at_phase (with_writer (with_hub (wvState sv) (<[id := client']> (wsHub (wvState sv))))
    (WriterRunning o)) (PhLive o))) o.
Proof.
  intros Hf Ha. pose proof Hf as [_ _ _ _ Hse Hso].
  eapply (following_step sv _ o client client' received received replayed replayed); [exact Hf| |by eapply mark_kept|by apply tr_live|apply lookup_insert_eq|
    done|exact Hse|exact Hso].
  cbn. by apply (step_activate _ (mkSession _ _ _ _ _ _ _)).
Qed.

(** A message after which the handler leaves. *)
Lemma refused_followed sv o m :
  forall o', watched (write_then (wvState sv) m (PhLeaving o) (PhLeaving o)) = Some o' ->
    followed (with_state sv (write_then (wvState sv) m (PhLeaving o) (PhLeaving o))) o'.
Proof. intros o'. unfold write_then. destruct (so_WriteJSON _ _) as [? []]; done. Qed.

Lemma snapshots_followed sv o client received replayed seen cursor ph sel rest st' :
  following sv o client received replayed seen cursor ph [] -> tracks o (PhSnapshots o sel rest) cursor ph [] ->
  snapshots_step (wvState sv) o sel rest = Some st' ->
  forall o', watched st' = Some o' -> followed (with_state sv st') o'.
Proof.
  intros Hf Ht. inversion Ht; subst. unfold snapshots_step. destruct rest as [|snapshot rest].
  { intros [= <-]. eapply phase_followed; [exact Hf|left; split; [constructor|done]]. }
  destruct (snapshotAnalysisEvents _ _); [| |done]; intros [= <-]; [|apply refused_followed].
  eapply write_followed; [exact Hf|done|constructor].
Qed.

Lemma page_followed sv o client received replayed seen c ph pg fin st' :
  following sv o client received replayed seen (default c (evCursor <$> last pg)) ph pg ->
  tracks o (PhPage o c pg fin) (default c (evCursor <$> last pg)) ph pg ->
  page_step (wvState sv) o c pg fin = Some st' ->
  forall o', watched st' = Some o' -> followed (with_state sv st') o'.
Proof.
  intros Hf Ht. inversion Ht; subst. unfold page_step. destruct pg as [|e evs].
  { intros [= <-]. eapply phase_followed; [exact Hf|left]. split; [|done]. by destruct fin; constructor. }
  assert (Hlast : default c (evCursor <$> last (e :: evs)) = default (evCursor e) (evCursor <$> last evs)).
  { rewrite last_cons. by destruct (last evs). }
  destruct (matches (woFilter o) e) eqn:Hma.
  - destruct (event_message _ _ e) as [m|err|] eqn:Hm; [| |done]; intros [= <-].
    + eapply write_event_followed; [exact Hf|by eexists|done|]. rewrite Hlast. constructor.
    + eapply (phase_followed _ _ _ _ _ _ _ _ _ []); [exact Hf|by right].
  - intros [= <-]. eapply (phase_followed _ _ _ _ _ _ _ _ _ evs); [exact Hf|left].
    rewrite Hlast. split; [constructor|]. cbn. by rewrite Hma.
Qed.

Lemma handler_followed sv random st' :
  wv_inv sv -> handler_step id (wvState sv) random = Some st' ->
  forall o, watched st' = Some o -> followed (with_state sv st') o.
Proof.
  intros Hinv. unfold handler_step.
  assert (Hfo : forall o, watched (wvState sv) = Some o -> followed sv o) by apply Hinv.
  unfold watched in Hfo at 1.
  destruct (wsAt (wvState sv)) as [|o|o|o sel rest|o sel|o c|o c evs fin|o c|o|o| |] eqn:Hat; intros Hrun;
    try (destruct (Hfo o eq_refl) as (client & received & replayed & seen & cursor & ph & pg & Hf);
         pose proof (fo_tracks _ _ _ _ _ _ _ _ _ Hf) as Ht; rewrite Hat in Ht; inversion Ht; subst).
  - injection Hrun as <-. by apply read_followed.
  - injection Hrun as <-. eapply write_followed; [exact Hf|done|constructor].
  - unfold take_step in Hrun. apply bind_Some in Hrun as (all & _ & [= <-]).
    eapply phase_followed; [exact Hf|left; split; [constructor|done]].
  - by eapply snapshots_followed.
  - unfold history_step in Hrun.
    destruct (recentPoints _ _ _) as [history|e|]; [|injection Hrun as <-; apply refused_followed|done].
    destruct (toAnalysisEvents _ _) as [events|e|]; [|injection Hrun as <-; apply refused_followed|done]. injection Hrun as <-.
    eapply write_followed; [exact Hf|done|]. destruct (0 <? woAfter o); constructor.
  - unfold ws_replay_step in Hrun. cbn [es_QueryEvents memory_events] in Hrun. injection Hrun as <-.
    intros o' [= <-]. pose proof Hf as [_ Hc _ Hw Hse Hso]. rewrite app_nil_r in Hse.
    set (page := Memory_QueryEvents _ _).
    eapply (following_step sv _ o client client received received replayed
              (replayed ++ List.filter (matches (woFilter o)) page)); [exact Hf| |by eapply mark_kept|by apply tr_page|
              exact Hc|by intros _; apply Hw| |exact Hso].
    + cbn. by apply (step_page _ (mkSession _ _ _ _ _ _ _)).
    + rewrite (Hw ltac:(done)), app_nil_r in Hse |- *. by rewrite Hse.
  - by eapply page_followed.
  - unfold activate_step in Hrun. apply bind_Some in Hrun as (c0 & Hc0 & Hrun).
    pose proof (fo_client _ _ _ _ _ _ _ _ _ Hf) as Hc. rewrite Hc in Hc0. injection Hc0 as <-.
    apply bind_Some in Hrun as (client' & Ha & [= <-]). intros o' [= <-]. by eapply activated_followed.
  - injection Hrun as <-. unfold live_step. destruct (so_Read (wsConn (wvState sv))) as [k message] eqn:E.
    destruct (law_read _ _ _ E) as (Hlog & _). destruct message; [|done]. unfold watched. cbn.
    destruct (wsWriting (wvState sv)) as [|ow|] eqn:Hwr; [done| |done]. intros o' [= <-].
    destruct (Hfo o eq_refl) as (client & received & replayed & seen & cursor & ph & pg & Hf).
    pose proof Hf as [Ht Hc _ _ _ Hso]. rewrite Hat in Ht. inversion Ht; subst.
    eapply (following_same sv); [exact Hf|try done..]; cbn; [by eapply mark_kept|].
    by rewrite (event_messages_same _ _ Hlog).
  - unfold leave_step in Hrun. apply bind_Some in Hrun as (? & _ & Hrun). apply bind_Some in Hrun as (? & _ & Hrun).
    by apply bind_Some in Hrun as (? & _ & [= <-]).
  - by injection Hrun as <-.
  - injection Hrun as <-. unfold watched. by rewrite Hat.
Qed.

(** ** The writer and the rest of the service *)

Lemma receive_followed sv ow st' :
  wv_inv sv -> wsWriting (wvState sv) = WriterRunning ow -> receive_step id (wvState sv) ow = Some st' ->
  forall o, watched st' = Some o -> followed (with_state sv st') o.
Proof.
  intros Hinv Hwr Hstep o Hwa. pose proof (wv_ws _ Hinv) as Hws. destruct (wi_writer _ _ Hws ow Hwr) as [_ Hplace].
  unfold receive_step in Hstep. apply bind_Some in Hstep as (c & Hc & Hstep).
  assert (Hends : forall st1, watched (writer_ends st1) = Some o -> wsAt st1 = wsAt (wvState sv) -> False).
  { intros st1. unfold watched. cbn. intros Hw Heq. rewrite Heq in Hw. by destruct (wsAt (wvState sv)). }
  destruct (wsGone (wvState sv)) as [g|] eqn:Hgone.
  { assert (Hat : match wsAt (wvState sv) with PhClosing | PhDone => True | _ => False end)
      by (apply (wi_gone _ _ Hws); by rewrite Hgone).
    exfalso. revert Hwa. unfold hold in Hstep. rewrite Hgone in Hstep.
    assert (Hatst : wsAt st' = wsAt (wvState sv)).
    { destruct (chan_recv (hcSend c)) as [[e|] ch].
      - cbn in Hstep. destruct (event_message _ _ e); [destruct (so_WriteJSON _ _) as [k []]| |done]; by injection Hstep as <-.
      - injection Hstep as <-. by destruct (chClosed ch). }
    unfold watched. rewrite Hatst. by destruct (wsAt (wvState sv)). }
  unfold held_client in Hc. rewrite Hgone in Hc. unfold hold in Hstep. rewrite Hgone in Hstep.
  assert (Hlive : wsAt st' = wsAt (wvState sv) -> exists o1, wsAt (wvState sv) = PhLive o1 /\ o1 = o).
  { intros Heq. unfold watched in Hwa. rewrite Heq in Hwa. destruct (wsAt (wvState sv)); try done.
    eexists. split; [done|]. destruct (wsWriting st'); [done|by injection Hwa as <-|done]. }
  destruct (chan_recv (hcSend c)) as [[e|] ch] eqn:Hr.
  2:{ injection Hstep as <-. destruct (chClosed ch); [exfalso; by eapply Hends|]. destruct (Hlive eq_refl) as (o1 & Hat & ->).
      destruct (wv_followed _ Hinv o Hwa) as (client & received & replayed & seen & cursor & ph & pg & Hf).
      eapply (following_same sv); [exact Hf|try done..]; cbn; [by eapply mark_kept|by destruct Hf..]. }
  destruct (event_message _ _ e) as [m|err|] eqn:Hm; [| |done].
  2:{ injection Hstep as <-. exfalso. by eapply Hends. }
  destruct (so_WriteJSON _ m) as [k ok] eqn:Hw. injection Hstep as <-.
  destruct ok; [|exfalso; by eapply Hends]. destruct (Hlive eq_refl) as (o1 & Hat & ->).
  assert (ow = o) as -> by (by rewrite Hat in Hplace).
  assert (Hwa0 : watched (wvState sv) = Some o) by (unfold watched; by rewrite Hat, Hwr).
  destruct (wv_followed _ Hinv o Hwa0) as (client & received & replayed & seen & cursor & ph & pg & Hf).
  pose proof Hf as [Ht Hcl Hs Hwt Hse Hso]. rewrite Hat in Ht. inversion Ht; subst.
  rewrite Hcl in Hc. injection Hc as ->.
  destruct (recv_client c e ch received Hr) as [Hrecv _]; [exact (si_client _ _ _ _ Hs)|].
  eapply (following_step sv _ o c (received_client c ch) received (received ++ [e]) replayed replayed seen (seen ++ [e]));
    [exact Hf| |by eapply mark_kept|cbn; rewrite Hat; apply tr_live|apply lookup_insert_eq|done| |].
  - cbn. by apply (step_receive _ (mkSession _ _ _ _ _ _ _)).
  - cbn in Hse |- *. rewrite app_nil_r in *. by rewrite Hse, app_assoc.
  - cbn. apply event_messages_write in Hw. cbn in Hw. assert (Hsh : shows (woSubscriptionID o) e m) by (by eexists).
    rewrite Hw, (shows_event _ _ _ Hsh). apply Forall2_app; [done|by repeat constructor].
Qed.

(** A move that leaves the connection where it is, and its client. *)
Lemma aside_followed sv st' :
  wv_inv sv -> wsAt st' = wsAt (wvState sv) -> so_written (wsConn st') = so_written (wsConn (wvState sv)) ->
  (forall o, watched st' = Some o -> watched (wvState sv) = Some o) -> wsHub st' !! id = wsHub (wvState sv) !! id ->
  wsStore st' = wsStore (wvState sv) ->
  forall o, watched st' = Some o -> followed (with_state sv st') o.
Proof.
  intros Hinv Hat Hlog Hwa Hhub Hst o Hw%Hwa.
  destruct (wv_followed _ Hinv o Hw) as (client & received & replayed & seen & cursor & ph & pg & Hf).
  eapply (following_same sv); [exact Hf|try done..]; cbn; [by eapply mark_kept| | |].
  - rewrite Hat. by destruct Hf.
  - rewrite Hhub. by destruct Hf.
  - rewrite (event_messages_same _ _ Hlog). by destruct Hf.
Qed.

Lemma write_store (st : wsState Memory K) m written failed : wsStore (write_then st m written failed) = wsStore st.
Proof. unfold write_then. by destruct (so_WriteJSON _ m). Qed.

(** The connection does not write to the store. *)
Lemma own_store (st st' : wsState Memory K) move :
  own_move move = true -> ws_step id st move = Some st' -> wsStore st' = wsStore st.
Proof.
  destruct move as [random| | | |e|other filter|other|registry store now]; intros Hown; try done; cbn [ws_step].
  - unfold handler_step, read_step, ack_step, take_step, snapshots_step, history_step, ws_replay_step, page_step, activate_step,
      live_step, leave_step.
    repeat (case_match; simplify_eq; try done); intros Hrun; simplify_eq; rewrite ?write_store; try done.
    all: repeat match goal with H : mbind _ _ = Some _ |- _ => apply bind_Some in H as (? & ? & ?) end;
      simplify_eq; by rewrite ?write_store.
  - unfold writer_move, receive_step, hold. destruct (wsWriting st); [by intros [= <-]| |by intros [= <-]].
    intros (c & _ & Hs)%bind_Some. repeat (case_match; simplify_eq; try done).
  - unfold writer_move, ping_step. destruct (wsWriting st); [by intros [= <-]| |by intros [= <-]].
    by destruct (so_WritePing _) as [k []]; intros [= <-].
  - unfold writer_move. by destruct (wsWriting st); intros [= <-].
  - by destruct (other =? id); intros [= <-].
  - destruct (other =? id); [by intros [= <-]|]. by intros (h & _ & [= <-])%bind_Some.
Qed.

Lemma ends_watched (st : wsState Memory K) o k : wsWriting st = WriterRunning o ->
  match wsAt st with PhLive _ | PhLeaving _ | PhClosing | PhDone => True | _ => False end ->
  watched (writer_ends (with_conn st k)) = None.
Proof. unfold watched. cbn. by destruct (wsAt st). Qed.

Lemma own_followed sv move st' :
  wv_inv sv -> own_move move = true -> ws_step id (wvState sv) move = Some st' ->
  forall o, watched st' = Some o -> followed (with_state sv st') o.
Proof.
  intros Hinv Hown Hstep. assert (Hsame : st' = wvState sv -> forall o, watched st' = Some o -> followed (with_state sv st') o).
  { intros ->. by apply aside_followed. }
  pose proof (wv_ws _ Hinv) as Hws.
  assert (Hplace : forall ow, wsWriting (wvState sv) = WriterRunning ow ->
    match wsAt (wvState sv) with PhLive _ | PhLeaving _ | PhClosing | PhDone => True | _ => False end).
  { intros ow Hw. destruct (wi_writer _ _ Hws ow Hw) as [_ Hp]. by destruct (wsAt (wvState sv)). }
  destruct move as [random| | | |e|other filter|other|registry store now]; try done; cbn [ws_step] in Hstep.
  - by eapply handler_followed.
  - unfold writer_move in Hstep. destruct (wsWriting (wvState sv)) as [|ow|] eqn:Hw;
      [injection Hstep as <-; by apply Hsame|by eapply receive_followed|injection Hstep as <-; by apply Hsame].
  - unfold writer_move in Hstep. destruct (wsWriting (wvState sv)) as [|ow|] eqn:Hw;
      [injection Hstep as <-; by apply Hsame| |injection Hstep as <-; by apply Hsame].
    unfold ping_step in Hstep. destruct (so_WritePing (wsConn (wvState sv))) as [k ok] eqn:Hp.
    destruct (law_ping _ _ _ Hp) as [Hlog _]. injection Hstep as <-. destruct ok.
    + by apply aside_followed.
    + intros o. by rewrite (ends_watched _ ow _ Hw (Hplace ow eq_refl)).
  - unfold writer_move in Hstep. destruct (wsWriting (wvState sv)) as [|ow|] eqn:Hw;
      [injection Hstep as <-; by apply Hsame| |injection Hstep as <-; by apply Hsame].
    injection Hstep as <-. intros o. unfold watched. cbn. pose proof (Hplace ow eq_refl). by destruct (wsAt (wvState sv)).
  - destruct (Z.eqb_spec other id) as [|Hne]; injection Hstep as <-; [by apply Hsame|].
    apply aside_followed; try done. cbn. by apply lookup_insert_ne.
  - destruct (Z.eqb_spec other id) as [|Hne]; [injection Hstep as <-; by apply Hsame|].
    apply bind_Some in Hstep as (h & Hu & [= <-]). destruct (hub_leave _ _ _ (wi_hub _ _ Hws) Hu) as [_ Hl].
    apply aside_followed; try done. cbn. by apply Hl.
Qed.

(** A publication, and a change of the store. *)
Lemma publish_followed sv e st' batch sent published :
  wv_inv sv -> ws_step id (wvState sv) (MovePublish e) = Some st' ->
  (publishable (wsStore (wvState sv)) (wvPublished sv) e /\ published = Z.max (wvPublished sv) (evCursor e)) \/
    (evCursor e = 0 /\ published = wvPublished sv) ->
  forall o, watched st' = Some o -> followed (mkWsService st' batch sent published (wvMark sv)) o.
Proof.
  intros Hinv Hstep Hcase o Hwa. cbn [ws_step] in Hstep. apply bind_Some in Hstep as (h & Hp & [= <-]).
  destruct (Hub_Publish_ok _ e (wi_hub _ _ (wv_ws _ Hinv))) as (h' & Hp' & _ & Hall).
  rewrite Hp in Hp'. injection Hp' as <-.
  destruct (wv_followed _ Hinv o Hwa) as (client & received & replayed & seen & cursor & ph & pg & Hf).
  pose proof Hf as [Ht Hc Hs Hw Hse Hso].
  destruct (enqueue_inv client received e (si_client _ _ _ _ Hs)) as (client' & Hen & _).
  eapply (following_step sv _ o client client' received received replayed replayed);
    [exact Hf| |done|exact Ht| |exact Hw|exact Hse|exact Hso]; cbn.
  - destruct Hcase as [[Hpub ->]|[Hz ->]].
    + by apply (step_publish _ (mkSession _ _ _ _ _ _ _)).
    + by apply (step_forming _ (mkSession _ _ _ _ _ _ _) e).
  - rewrite Hall, Hc. done.
Qed.

Lemma world_followed sv registry s' now st' batch sent :
  wv_inv sv -> log_grows (wsStore (wvState sv)) s' -> ws_step id (wvState sv) (MoveWorld registry s' now) = Some st' ->
  forall o, watched st' = Some o -> followed (mkWsService st' batch sent (wvPublished sv) (wvMark sv)) o.
Proof.
  intros Hinv Hg [= <-] o Hwa. destruct (wv_followed _ Hinv o Hwa) as (client & received & replayed & seen & cursor & ph & pg & Hf).
  pose proof Hf as [Ht Hc Hs Hw Hse Hso].
  eapply (following_step sv _ o client client received received replayed replayed);
    [exact Hf| |done|exact Ht|exact Hc|exact Hw|exact Hse|exact Hso].
  cbn. by apply (step_commit _ (mkSession _ _ _ _ _ _ _)).
Qed.

Lemma followed_batch sv batch sent o :
  followed sv o -> followed (mkWsService (wvState sv) batch sent (wvPublished sv) (wvMark sv)) o.
Proof.
  intros (client & received & replayed & seen & cursor & ph & pg & [? ? ? ? ? ?]).
  by exists client, received, replayed, seen, cursor, ph, pg.
Qed.

(** ** The whole service *)

Lemma ws_service_inv sv sv' : wv_inv sv -> ws_service_step sv sv' -> wv_inv sv'.
Proof.
  intros Hinv Hstep. pose proof Hinv as [Hws Hd Hfo].
  destruct Hstep as [sv move st' Hown Hs|sv registry s' now st' Hw Hs|sv Hb Hse|sv e rest st' Hb Hs|sv|
    sv s' registry now st' Hb Hm Hs|sv e st' He Hs].
  - split; cbn; [by eapply ws_step_inv|by rewrite (own_store _ _ _ Hown Hs)|by eapply own_followed].
  - split; cbn; [by eapply ws_step_inv| |].
    + cbn [ws_step] in Hs. injection Hs as <-. cbn. by eapply dispatcher_write.
    + eapply world_followed; [done| |exact Hs]. eapply lane_write_grows; [apply Hd|done].
  - rewrite Hb, Hse in Hd. split; cbn; [done|by apply dispatcher_fetch|].
    intros o Hw%Hfo. by apply followed_batch.
  - rewrite Hb in Hd. destruct (dispatcher_publish _ _ _ _ _ Hd) as [Hpub Hd']. split; cbn; [by eapply ws_step_inv| |].
    + cbn [ws_step] in Hs. by apply bind_Some in Hs as (h & _ & [= <-]).
    + eapply publish_followed; [done|exact Hs|by left].
  - split; cbn; [done| |].
    + destruct Hd as [H1' H2' H3' _ _]. split; try done. by intros [|] ? ? [=].
    + intros o Hw%Hfo. by apply followed_batch.
  - rewrite Hb in Hd. destruct (dispatcher_mark _ _ _ _ Hd Hm) as [Hg Hd']. split; cbn; [by eapply ws_step_inv| |].
    + cbn [ws_step] in Hs. by injection Hs as <-.
    + by eapply world_followed.
  - split; cbn; [by eapply ws_step_inv| |].
    + cbn [ws_step] in Hs. by apply bind_Some in Hs as (h & _ & [= <-]).
    + eapply publish_followed; [done|exact Hs|by right].
Qed.

Lemma ws_service_run_inv sv sv' : wv_inv sv -> ws_service_run sv sv' -> wv_inv sv'.
Proof. intros Hinv. induction 1 as [|a b c _ IH Hs]; [done|]. eapply ws_service_inv; [by apply IH|done]. Qed.

(** What is on the socket of a live connection, and what waits for it. *)
Lemma socket_delivery sv o client :
  wv_inv sv -> wsAt (wvState sv) = PhLive o -> wsWriting (wvState sv) = WriterRunning o ->
  wsHub (wvState sv) !! id = Some client -> hcClosed client = false ->
  exists seen, Forall2 (shows (woSubscriptionID o)) seen (event_messages (wsConn (wvState sv))) /\
    let waiting := chBuf (hcSend client) in
    (forall e, e ∈ meEvents (wsStore (wvState sv)) -> matches (woFilter o) e = true -> evCursor e <= wvPublished sv ->
       (if 0 <? woAfter o then woAfter o else wvMark sv) < evCursor e -> e ∈ seen ++ waiting) /\
    (forall e, e ∈ seen ++ waiting -> 0 < evCursor e ->
       e ∈ meEvents (wsStore (wvState sv)) /\ matches (woFilter o) e = true /\ woAfter o < evCursor e) /\
    StronglySorted Z.le (confirmed (seen ++ waiting)).
Proof.
  intros Hinv Hat Hwr Hc Hopen. destruct (wv_followed _ Hinv o) as (c & received & replayed & seen & cursor & ph & pg & Hf).
  { unfold watched. by rewrite Hat, Hwr. }
  destruct Hf as [Ht Hc' Hs _ Hse Hso]. rewrite Hc in Hc'. injection Hc' as <-. rewrite Hat in Ht. inversion Ht; subst.
  cbn in Hse. rewrite app_nil_r in Hse. exists seen. split; [done|]. cbn zeta.
  destruct (live_delivery _ _ _ _ Hs eq_refl Hopen) as (D1 & D2 & D3).
  unfold delivered, sent_log in D1, D2, D3. cbn in D1, D2, D3. rewrite app_assoc, <-Hse in D1, D2, D3. done.
Qed.
End Service.
