(* ===== verification/ServerProofs.v ===== *)
(** * Properties of the server

    The replay loop ends and sends what it should, pages follow one another by
    the cursors they return, and requests without the token learn nothing. *)

From stdpp Require Import prelude gmap strings list sorting.
From Stdlib Require Import ZArith Lia SpecFloat Ascii String.
From S2P Require Import Prelude GoFloat GoText Sha256 GoStrings Monitor Model Ema MarketZones.
From S2P Require Import StoreSpec Memory MemoryProofs Lane Registry Contract Hub HubProofs Server.
From S2P Require Import Session SessionProofs.

#[local] Open Scope string_scope.
#[local] Open Scope list_scope.
#[local] Open Scope Z_scope.

(** ** The replay loop *)

Definition message_of (subscriptionID : string) (now : Z) (e : SignalEvent) : option wireEnvelope :=
  match event_message subscriptionID now e with Ok m => Some m | _ => None end.

(** Every event the subscriber may be sent can be converted. *)
Definition convertible (filter : Subscription) (subscriptionID : string) (now : Z) (events : list SignalEvent) : Prop :=
  forall e, e ∈ events -> matches filter e = true -> is_Some (message_of subscriptionID now e).

Lemma replay_page_total filter subscriptionID now lastCursor events :
  convertible filter subscriptionID now events ->
  exists messages cursor, replay_page filter subscriptionID now lastCursor events = (messages, cursor, true).
Proof.
  revert lastCursor. induction events as [|e events IH]; intros lastCursor Hc; cbn [replay_page]; [eauto|].
  destruct (IH (evCursor e)) as (messages & cursor & Hr); [intros x Hx; apply Hc; set_solver|].
  destruct (matches filter e) eqn:Hm; [|eauto].
  destruct (Hc e) as [m Hm']; [set_solver|done|]. unfold message_of in Hm'.
  destruct (event_message subscriptionID now e) as [m'| |]; [|done..]. rewrite Hr. eauto.
Qed.

(** The events of a log above a cursor. *)
Definition above (after : Z) (e : SignalEvent) : bool := after <? evCursor e.

Lemma above_split (p : SignalEvent -> bool) a c log :
  sorted_log log -> a <= c ->
  List.filter (fun e => p e && above a e) log =
  List.filter (fun e => p e && between a c e) log ++ List.filter (fun e => p e && above c e) log.
Proof.
  intros Hs Hac. induction log as [|e log IH]; [done|]. apply sorted_log_cons in Hs as [Hs He]. cbn [List.filter].
  destruct (Z.leb_spec (evCursor e) c) as [Hle|Hgt].
  - assert (above c e = false) as -> by (unfold above; lia). rewrite andb_false_r.
    assert (between a c e = above a e) as -> by (unfold between, above; lia).
    rewrite (IH Hs). by destruct (p e && above a e).
  - assert (between a c e = false) as -> by (unfold between; lia). rewrite andb_false_r.
    rewrite (filter_none (fun x => p x && between a c x)).
    2:{ intros x Hx%He. unfold between. rewrite (proj2 (Z.leb_gt _ _)) by lia. by rewrite !andb_false_r. }
    assert (above a e = above c e) as -> by (unfold above; lia). cbn [app].
    rewrite (filter_same (fun e => p e && above a e) (fun e => p e && above c e) log); [done|].
    intros x Hx%He. unfold above. by rewrite !(proj2 (Z.ltb_lt _ (evCursor x))) by lia.
Qed.

Lemma filter_true_and (q : SignalEvent -> bool) l : List.filter (fun e => true && q e) l = List.filter q l.
Proof. by apply filter_same. Qed.

Lemma mapM_app {A B} (f : A -> option B) l k l' k' :
  mapM f l = Some l' -> mapM f k = Some k' -> mapM f (l ++ k) = Some (l' ++ k').
Proof. rewrite !mapM_Some. apply Forall2_app. Qed.

Section Replay.
Context `{Runtime}.

Lemma replay_complete fuel s filter subscriptionID now after :
  memory_wf s -> convertible filter subscriptionID now (meEvents s) ->
  (List.length (List.filter (above after) (meEvents s)) / 5000 < fuel)%nat ->
  exists messages cursor, replay fuel s filter subscriptionID now after = Some (messages, Some cursor) /\
    mapM (message_of subscriptionID now)
      (List.filter (fun e => matches filter e && above after e) (meEvents s)) = Some messages /\
    after <= cursor /\ forall e, e ∈ meEvents s -> evCursor e <= cursor.
Proof.
  intros Hs Hconv. revert after. induction fuel as [|fuel IH]; intros after Hf; [lia|].
  cbn [replay es_QueryEvents memory_events].
  set (page := Memory_QueryEvents s (replay_filter after)).
  destruct (replay_page_total filter subscriptionID now after page) as (messages & cursor & Hpage).
  { intros e He. apply Hconv. unfold page in He. rewrite replay_query in He.
    apply elem_of_take in He as (i & He & _). apply list_elem_of_lookup_2, list_elem_of_In, filter_In in He as [He _].
    by apply list_elem_of_In. }
  rewrite Hpage. cbn [negb]. apply replay_page_spec in Hpage as [Hmap Hcur].
  destruct (page_reads s after cursor Hs Hcur) as (Hbetween & Hle & Hin & Hend). fold page in Hbetween, Hend.
  rewrite Hbetween, filter_between in Hmap.
  pose proof (above_split (matches filter) after cursor (meEvents s) (me_sorted _ Hs) Hle) as Hsplit.
  destruct (Z.ltb_spec (len page) 5000) as [Hlt|Hge].
  - exists messages, cursor. split_and!; [done| |done|by apply Hend].
    rewrite Hsplit, (filter_none (fun e => matches filter e && above cursor e)); [by rewrite app_nil_r|].
    intros e He%(Hend Hlt). unfold above. rewrite (proj2 (Z.ltb_ge _ _)) by lia. by rewrite andb_false_r.
  - assert (Hlen : List.length page = 5000%nat).
    { assert (List.length page <= 5000)%nat; [|unfold len in Hge; lia].
      unfold page. rewrite replay_query. apply firstn_le_length. }
    destruct (IH cursor) as (more & cursor' & -> & Hmore & Hle' & Hall).
    + pose proof (above_split (fun _ => true) after cursor (meEvents s) (me_sorted _ Hs) Hle) as Ht.
      rewrite !filter_true_and, <-Hbetween in Ht. apply (f_equal List.length) in Ht.
      rewrite length_app, Hlen in Ht. rewrite Ht in Hf.
      match type of Hf with context [(5000 + ?x)%nat] => replace (5000 + x)%nat with (x + 1 * 5000)%nat in Hf by lia end.
      rewrite Nat.div_add in Hf by lia. lia.
    + cbn [mbind option_bind]. eexists _, _. split; [done|]. split_and!; [|lia|done].
      rewrite Hsplit. by apply mapM_app.
Qed.
End Replay.

(** ** Pages of the log *)

(** Every event the filter asks for, without the limit. *)
Definition wanted (s : Memory) (filter : EventFilter) : list SignalEvent :=
  List.filter (event_matches filter) (meEvents s).

Definition resume_after (filter : EventFilter) (cursor : Z) : EventFilter :=
  mkEventFilter cursor (efDataset filter) (efSymbol filter) (efTimeframe filter) (efPeriod filter)
    (efEventType filter) (efAnalysis filter) (efLimit filter).

(** Where a client goes on after a page. *)
Definition next_filter (filter : EventFilter) (page : list SignalEvent) : EventFilter :=
  match last page with Some e => resume_after filter (evCursor e) | None => filter end.

Lemma matches_after filter cursor event :
  efAfterCursor filter <= cursor ->
  event_matches (resume_after filter cursor) event = event_matches filter event && above cursor event.
Proof.
  intros Hc. unfold event_matches, resume_after, above. cbn.
  destruct (Z.leb_spec (evCursor event) cursor), (Z.leb_spec (evCursor event) (efAfterCursor filter)),
    (Z.ltb_spec cursor (evCursor event)); try lia; cbn [orb negb]; by destruct (negb _).
Qed.

Lemma wanted_above s filter e : e ∈ wanted s filter -> e ∈ meEvents s /\ efAfterCursor filter < evCursor e.
Proof.
  unfold wanted. intros [He Hm]%list_elem_of_In%filter_In. split; [by apply list_elem_of_In|].
  unfold event_matches in Hm. apply negb_true_iff in Hm. rewrite !orb_false_iff in Hm. lia.
Qed.

Lemma filter_every {A} (l : list A) : List.filter (fun _ => true) l = l.
Proof. induction l as [|x l IH]; cbn; [done|]. by rewrite IH. Qed.

(** What stands above the last of the first events of a sorted list. *)
Lemma drop_above n (l : list SignalEvent) e :
  sorted_log l -> last (take n l) = Some e -> List.filter (above (evCursor e)) l = drop n l.
Proof.
  intros Hs Hl. rewrite <-(take_drop n l) in Hs at 1. pose proof (sorted_log_app _ _ Hs) as Hlt.
  apply last_Some in Hl as [front Hf]. rewrite <-(take_drop n l) at 1. rewrite List.filter_app.
  rewrite (filter_none (above (evCursor e)) (take n l)).
  2:{ intros x Hx. unfold above. apply Z.ltb_ge. rewrite Hf in Hx, Hs.
      apply elem_of_app in Hx as [Hx| ->%list_elem_of_singleton]; [|done].
      rewrite <-app_assoc in Hs. apply Z.lt_le_incl. eapply sorted_log_app; [exact Hs|done|set_solver]. }
  rewrite (filter_same _ (fun _ => true) (drop n l)).
  2:{ intros x Hx. unfold above. specialize (Hlt e x). rewrite Hf in Hlt. apply Z.ltb_lt, Hlt; [set_solver|done]. }
  cbn [app]. apply filter_every.
Qed.

Lemma normalize_limit_bounds limit : 0 < normalize_limit limit <= 5000.
Proof. unfold normalize_limit. destruct (Z.leb_spec limit 0); [by cbn; lia|]. destruct (Z.ltb_spec 5000 limit); lia. Qed.

Lemma query_page s filter :
  memory_wf s ->
  wanted s filter = Memory_QueryEvents s filter ++ wanted s (next_filter filter (Memory_QueryEvents s filter)) /\
  (Memory_QueryEvents s filter = [] -> wanted s filter = []) /\
  len (Memory_QueryEvents s filter) <= normalize_limit (efLimit filter).
Proof.
  intros Hs. pose proof (normalize_limit_bounds (efLimit filter)) as Hlim.
  change (Memory_QueryEvents s filter) with (take (Z.to_nat (normalize_limit (efLimit filter))) (wanted s filter)).
  set (n := Z.to_nat (normalize_limit (efLimit filter))) in *.
  assert (Hnil : take n (wanted s filter) = [] -> wanted s filter = []).
  { destruct (wanted s filter) as [|e l]; [done|]. assert (exists n', n = S n') as [n' ->] by (exists (pred n); lia). done. }
  split_and!; [|done|].
  - unfold next_filter. destruct (last (take n (wanted s filter))) as [e|] eqn:El.
    2:{ apply last_None in El. by rewrite El, (Hnil El). }
    assert (Hin : e ∈ wanted s filter).
    { apply last_Some_elem_of, elem_of_take in El as (i & El & _). by eapply list_elem_of_lookup_2. }
    unfold wanted at 3. rewrite (filter_same _ (fun x => event_matches filter x && above (evCursor e) x)).
    2:{ intros x _. apply matches_after. apply wanted_above in Hin as [_ ?]. lia. }
    assert (Hff : forall l : list SignalEvent, List.filter (fun x => event_matches filter x && above (evCursor e) x) l =
      List.filter (above (evCursor e)) (List.filter (event_matches filter) l)).
    { induction l as [|x l IH]; cbn; [done|]. destruct (event_matches filter x); cbn; by rewrite IH. }
    rewrite Hff. fold (wanted s filter). rewrite (drop_above n _ e), take_drop; [done|by apply sorted_filter, Hs|done].
  - unfold len. rewrite length_take. lia.
Qed.

(** The next request of a client that follows the cursors. *)
Definition with_query (request : Request) (name value : string) : Request :=
  mkRequest (rqMethod request) (rqPath request)
    (fun n => if (n =? name)%string then value else rqQuery request n) (rqHeader request) (rqProtocols request).

Lemma query_filter_after request filter :
  query_filter request = inr filter -> 0 <= efAfterCursor filter < 2 ^ 63.
Proof.
  unfold query_filter. destruct (rqQuery request "resume_after" =? "")%string; cbn.
  - destruct (if (rqQuery request "limit" =? "")%string then _ else _); [|done]. intros [= <-]. cbn. lia.
  - destruct (atoi (rqQuery request "resume_after")) as [n|] eqn:Ha; cbn; [|done].
    destruct (Z.ltb_spec n 0); [done|]. destruct (if (rqQuery request "limit" =? "")%string then _ else _); [|done].
    intros [= <-]. cbn. split; [done|]. unfold atoi in Ha.
    destruct (match rqQuery request "resume_after" with EmptyString => _ | _ => _ end) as [v|]; [|done].
    cbn in Ha. destruct (_ && _) eqn:E; [|done]. injection Ha as ->. lia.
Qed.

Lemma query_filter_resume request filter cursor :
  query_filter request = inr filter -> 0 <= cursor < 2 ^ 63 ->
  query_filter (with_query request "resume_after" (itoa cursor)) = inr (resume_after filter cursor).
Proof.
  intros Hq Hc. unfold query_filter, with_query in *. cbn [rqQuery].
  change (("resume_after" =? "resume_after")%string) with true. change (("limit" =? "resume_after")%string) with false.
  change (("dataset" =? "resume_after")%string) with false. change (("symbol" =? "resume_after")%string) with false.
  change (("timeframe" =? "resume_after")%string) with false. change (("analysis" =? "resume_after")%string) with false.
  cbn iota. rewrite (proj2 (String.eqb_neq _ _)) by (apply itoa_nonempty; lia).
  rewrite atoi_itoa by lia. cbn [mbind option_bind]. rewrite (proj2 (Z.ltb_ge cursor 0)) by lia.
  destruct (if (rqQuery request "resume_after" =? "")%string then _ else _); [|done].
  destruct (if (rqQuery request "limit" =? "")%string then _ else _); [|done]. by injection Hq as <-.
Qed.

(** ** Credentials *)

Lemma authorized_spec server request :
  authorized server request = soInsecureNoAuth (svOptions server) ||
    ((requestCredentials request).1 =? soAuthToken (svOptions server))%string.
Proof.
  unfold authorized. destruct (requestCredentials request) as [provided protocol]. cbn [fst]. f_equal.
  destruct (String.eqb_spec provided (soAuthToken (svOptions server))) as [->|]; [|by rewrite andb_false_r].
  by rewrite Nat.eqb_refl.
Qed.

(** The first subprotocol that carries a token decides. *)
Lemma protocol_credentials_token before token rest :
  Forall (fun p => strip_prefix "bearer." p = None) before ->
  protocol_credentials (before ++ ("bearer." +:+ base64_url (bytes_of token)) :: rest) =
    (token, "bearer." +:+ base64_url (bytes_of token)).
Proof.
  induction 1 as [|p before Hp _ IH]; cbn [app protocol_credentials].
  - rewrite strip_prefix_app, base64_decode_url by apply bytes_of_range. by rewrite string_of_bytes_of.
  - by rewrite Hp, IH.
Qed.

Definition v1_path (path : string) : Prop :=
  path ∈ ["/v1/catalog"; "/v1/snapshots"; "/v1/events"; "/v1/ws"].

Section Routes.
Context `{Runtime} {S : Type} `{EventStore S}.
Variable upgrade : Request -> bool -> string -> gmap string string -> Response.
Variable unmatched : Request -> gmap string string -> Response.

(** What a route behind [auth] answers without the token. *)
Definition refused (headers : gmap string string) : Response :=
  writeError (<["WWW-Authenticate" := "Bearer"]> headers) 401 "unauthorized" "unauthorized".

Lemma mux_refused server (b : Backend S) request headers :
  authorized server request = false -> v1_path (rqPath request) ->
  mux upgrade unmatched server b request headers =
    if (rqMethod request =? "GET")%string || (rqMethod request =? "HEAD")%string
    then Some (refused headers) else Some (unmatched request headers).
Proof.
  intros Ha Hp. unfold mux, auth. rewrite Ha. destruct (_ || _); cbn [negb]; [|done].
  unfold v1_path in Hp. rewrite !elem_of_cons in Hp.
  destruct Hp as [->|[->|[->|[->|Hp%elem_of_nil]]]]; [reflexivity..|done].
Qed.
End Routes.
