(* ===== verification/Fixtures.v ===== *)
(** * Concrete data

    A series, its bars, a lane, a store and a world: the inputs on which the
    theorems are exercised. *)

From stdpp Require Import prelude gmap strings list.
From Stdlib Require Import ZArith Lia SpecFloat String.
From S2P Require Import Prelude GoFloat GoText Model Ema MarketZones MarketReducer StoreSpec Memory.
From S2P Require Import Lane LaneReducers LaneProofs LaneRefinement.

#[local] Open Scope string_scope.
#[local] Open Scope list_scope.
#[local] Open Scope Z_scope.

Definition fx_key : SeriesKey := mkKey "d" "X" "1m".

(** The [n]th minute: a bar that opens at [100 + n] and closes one higher. *)
Definition fx_bar (n : Z) : Bar :=
  mkBar "X" "1m" (1700000040 * second + n * minute)
    (of_int (100 + n)) (of_int (102 + n)) (of_int (99 + n)) (of_int (101 + n)) (of_int 5) 7 true.

Definition fx_forming (n : Z) : Bar :=
  let b := fx_bar n in
  mkBar (bSymbol b) (bTimeframe b) (bOpenTime b) (bOpen b) (bHigh b) (bLow b) (bClose b) (bVolume b) 3 false.

Definition fx_options : LaneOptions := mkLaneOptions fx_key [3; 2] 0 2 true true true false.

Definition fx_lane : Lane :=
  match NewLane fx_options with
  | Ok l => l
  | _ => mkLane fx_key [] 0 0 false false false ∅
           (mkMarket DefaultMarketConfig 0 [] 0 zero_market_state) None 0 0 ∅ None None 0 None
  end.

Definition fx_world : World Memory := mkWorld fx_lane NewMemory [].

(** The world after a command that ends without an error. *)
Definition fx_after (cmd : World Memory -> World Memory * outcome LaneError unit) (w : World Memory)
  : World Memory := fst (cmd w).

(** A run by its two halves. *)
Lemma pair_of {A B} (p : A * B) b : snd p = b -> p = (fst p, b).
Proof. destruct p. by intros <-. Qed.

(** A store that refuses every write, for the error paths. *)
Inductive Broken := broken.
#[global] Instance broken_store : Store Broken := {|
  LoadRecovery _ _ := Fail "unavailable";
  RebuildSeries s _ _ _ _ := (s, Fail "unavailable");
  CommitClosed s _ _ _ _ := (s, Fail "unavailable");
  MarkPublished s _ := (s, Fail "unavailable")
|}.
#[global] Instance broken_laws : StoreLaws Broken.
Proof. refine {| store_same := eq |}; try done; intros [] *; by destruct s'. Defined.

Definition fx_broken : World Broken := mkWorld fx_lane broken [].

(** A runtime that ranges over maps backwards. *)
Definition reverse_runtime : Runtime.
Proof.
  refine {| map_range := fun K _ _ V m => rev (map_to_list m);
            sort_slice := fun A less l => sort_stable less l |}.
  - intros. by rewrite <-Permutation_rev.
  - intros. apply sort_stable_perm.
  - intros. by apply sort_stable_sorted.
Defined.
