(* ===== verification/IndicatorTheorems.v ===== *)
(** * Theorems about the indicators

    What the EMA reducer, the market evaluation and the market reducer
    guarantee, each with an application at concrete inputs. *)

From stdpp Require Import prelude gmap strings list sorting.
From Stdlib Require Import ZArith Lia SpecFloat String.
From S2P Require Import Prelude GoFloat GoText Sha256 Model Ema MarketZones MarketStructure.
From S2P Require Import ZonesProofs StructureProofs MarketReducer MarketProofs StoreSpec Memory.
From S2P Require Import Lane LaneReducers LaneProofs LaneRefinement LaneRecovery Fixtures.

#[local] Open Scope string_scope.
#[local] Open Scope list_scope.
#[local] Open Scope Z_scope.

(** ** EMA *)

(** C7: A reducer that [NewEMA] returns, fed any finite closes, holds the simple
    average of the first [period] closes continued by the EMA recursion, is
    ready exactly from the [period]th close on, and counts its samples. *)
Theorem ema_matches_reference period e closes :
  NewEMA period = Ok e -> period < 2 ^ 63 - 1 -> len closes < 2 ^ 64 ->
  Forall (fun c => is_finite c = true) closes ->
  EMA_Value (run_closes e closes) =
    (default f0 (ema_reference period closes), period <=? len closes) /\
  EMA_Samples (run_closes e closes) = len closes.
Proof.
  unfold NewEMA. destruct (Z.ltb_spec period 1); [done|]. intros [= <-] Hp Hl Hf.
  change (mkEMA period 0 f0 f0) with (new_ema period).
  rewrite run_closes_after by (done || by split). unfold EMA_Value, EMA_Ready. cbn.
  by rewrite wrap_u64_id by lia.
Qed.

Lemma ema_matches_reference_witness :
  EMA_Value (run_closes (new_ema 2) [of_int 1; of_int 3; of_int 5]) =
    (default f0 (ema_reference 2 [of_int 1; of_int 3; of_int 5]), true).
Proof.
  apply (ema_matches_reference 2 (new_ema 2) [of_int 1; of_int 3; of_int 5]);
    [reflexivity|reflexivity|reflexivity|]. repeat constructor.
Defined.

(** C28: A snapshot of a reducer that was fed finite closes restores, into a new
    reducer of the same period, to exactly that reducer. *)
Theorem ema_snapshot_roundtrip period fresh closes data :
  NewEMA period = Ok fresh -> period < 2 ^ 63 - 1 -> len closes < 2 ^ 64 ->
  Forall (fun c => is_finite c = true) closes ->
  EMA_Snapshot (run_closes fresh closes) = Ok data ->
  EMA_Restore fresh data = Ok (run_closes fresh closes).
Proof.
  intros Hn Hp Hl Hf Hs. unfold NewEMA in Hn. destruct (Z.ltb_spec period 1); [done|]. injection Hn as <-.
  change (mkEMA period 0 f0 f0) with (new_ema period) in *.
  assert (Hv : valid_period period) by done.
  eapply EMA_Restore_Snapshot; [|exact Hs|]; rewrite run_closes_after by done; [|done].
  pose proof (len_nonneg closes). split; [done|cbn; lia|]. cbn. intros Hlt.
  by rewrite ema_reference_None.
Qed.

Lemma ema_snapshot_roundtrip_witness :
  exists data, EMA_Restore (new_ema 3) data = Ok (run_closes (new_ema 3) [of_int 1; of_int 2]).
Proof.
  eexists. apply (ema_snapshot_roundtrip 3 (new_ema 3) [of_int 1; of_int 2]);
    [reflexivity|reflexivity|reflexivity| |]; [repeat constructor|vm_compute; reflexivity].
Defined.

(** The largest finite float. *)
Definition max_float : float64 := S754_finite false (2 ^ 53 - 1) 971.

(** Finite closes can overflow a reducer: its state is then no longer
    encodable, and taking a snapshot of it fails. *)
Theorem ema_overflow_blocks_snapshot :
  is_finite max_float = true /\
  EMA_Snapshot (run_closes (new_ema 2) [max_float; max_float]) = Fail EMAEncode.
Proof. split; vm_compute; reflexivity. Qed.

(** ** Timeframes *)

(** The duration of a timeframe is computed in 64 bits without a check: a
    long enough one is accepted with a negative duration. *)
Theorem timeframe_overflows :
  exists d, TimeframeDuration "2562048h" = Some d /\ d < 0 /\ TimeframeDuration "90m" = Some (90 * minute).
Proof. eexists. split; [vm_compute; reflexivity|]. split; vm_compute; reflexivity. Qed.

(** ** Market evaluation *)

(** C20: [EvaluateMarket] never indexes out of range, and what it returns is
    well formed: a known trend, alternating swings with fitting labels,
    structure events with a zone exactly when fake, at most one range, bounded
    lists of levels, zones, liquidity and patterns, and only unfilled gaps. *)
Theorem evaluate_market_well_formed `{Runtime} bars config :
  config_ok config ->
  exists s, EvaluateMarket bars config = Some s /\ market_ok (List.filter bClosed bars) config s.
Proof. apply EvaluateMarket_ok. Qed.

Lemma evaluate_market_well_formed_witness :
  exists s, EvaluateMarket (map fx_bar (range 0 20)) DefaultMarketConfig = Some s /\
    market_ok (List.filter bClosed (map fx_bar (range 0 20))) DefaultMarketConfig s.
Proof.
  apply (evaluate_market_well_formed (map fx_bar (range 0 20)) DefaultMarketConfig).
  split; vm_compute; discriminate.
Defined.

(** C38: The fair value gaps reported are the last eight of the open ones, in
    the order of their candles, and no others: a gap is open at a candle within
    the lookback when the low of that candle is above the high of the one two
    before it (an up gap), or else its high is below that one's low (a down
    gap), one of the three candles is a marubozu, and no later candle has come
    back to the edge of the first; its zone spans from edge to edge, is dated
    by the candle, and is strong exactly when the gap is at least three tenths
    of the middle candle's range or all three are marubozus. *)
Theorem fvg_sound_and_complete bars lookback :
  exists gaps, detectFVG bars lookback = Some (last_n 8 (map snd gaps)) /\ StronglySorted Z.lt (map fst gaps) /\
    forall index z, (index, z) ∈ gaps <->
      Z.max 2 (len bars - lookback) <= index < len bars /\
      exists first middle last final, open_gap bars index first middle last final z.
Proof. apply detectFVG_exact. Qed.

(** Three candles that leave a gap. *)
Definition fx_gap : list Bar :=
  [fx_bar 0;
   mkBar "X" "1m" (bOpenTime (fx_bar 1)) (of_int 101) (of_int 121) (of_int 101) (of_int 121) (of_int 5) 7 true;
   mkBar "X" "1m" (bOpenTime (fx_bar 2)) (of_int 121) (of_int 125) (of_int 120) (of_int 124) (of_int 5) 7 true].

(** The gap, and a fall that leaves one below it. *)
Definition fx_gaps : list Bar :=
  fx_gap ++
  [mkBar "X" "1m" (bOpenTime (fx_bar 3)) (of_int 124) (of_int 124) (of_int 110) (of_int 110) (of_int 5) 7 true;
   mkBar "X" "1m" (bOpenTime (fx_bar 4)) (of_int 110) (of_int 112) (of_int 108) (of_int 109) (of_int 5) 7 true].

Example fx_gaps_found : (map zSide <$> detectFVG fx_gaps 10) = Some ["up"; "down"].
Proof. vm_compute. reflexivity. Qed.

(** On bars in time order, each order block belongs to one of the gaps: it is
    the nearest candle of the opposite colour two to five candles before the
    gap's last candle, with the gap's side and grade; at most six are kept. *)
Theorem order_blocks_sound bars lookback gaps zones :
  times_increasing bars -> detectFVG bars lookback = Some gaps ->
  detectOrderBlocks bars gaps = Some zones ->
  len zones <= 6 /\ Forall (fun z => exists gap, gap ∈ gaps /\ order_block_for bars gap z) zones.
Proof.
  intros Hinc Hg Hz. eapply detectOrderBlocks_sound; [done| |done].
  destruct (detectFVG_sound _ _ _ Hg) as [_ Hf]. eapply Forall_impl; [exact Hf|]. apply unfilled_gap_from.
Qed.

(** A falling candle, then the gap. *)
Definition fx_block : list Bar :=
  [mkBar "X" "1m" (bOpenTime (fx_bar (-1))) (of_int 101) (of_int 102) (of_int 99) (of_int 100) (of_int 5) 7 true] ++
  fx_gap.

Lemma fx_block_times : times_increasing fx_block.
Proof.
  intros i j a b Hij Ha Hb. apply idx_Some in Ha as [Hi Ha]. apply idx_Some in Hb as [Hj Hb].
  apply lookup_lt_Some in Hb as Hlt. cbn in Hlt.
  assert (Hcases : (i = 0 \/ i = 1 \/ i = 2 \/ i = 3) /\ (j = 0 \/ j = 1 \/ j = 2 \/ j = 3)) by lia.
  destruct Hcases as [[->|[->|[->| ->]]] [->|[->|[->| ->]]]]; try lia; cbn in Ha, Hb;
    injection Ha as <-; injection Hb as <-; vm_compute; reflexivity.
Qed.

Lemma order_blocks_sound_witness :
  exists gaps zones, detectFVG fx_block 10 = Some gaps /\ detectOrderBlocks fx_block gaps = Some zones /\
    zones <> [] /\ Forall (fun z => exists gap, gap ∈ gaps /\ order_block_for fx_block gap z) zones.
Proof.
  eexists. eexists. split; [vm_compute; reflexivity|]. split; [vm_compute; reflexivity|].
  split; [discriminate|]. eapply (order_blocks_sound fx_block 10).
  - exact fx_block_times.
  - vm_compute. reflexivity.
  - vm_compute. reflexivity.
Defined.

(** ** Market structure *)

(** C24: Zigzag swings alternate between highs and lows, follow one another, and
    each stands at the extreme of the candles since the previous confirmation,
    with the price and time of its own candle. *)
Theorem zigzag_swings_are_extremes bars config :
  bars <> [] -> 1 <= ATRPeriod config ->
  exists swings, zigzag bars config = Some swings /\ legs bars swings /\
    alternating swings /\ in_order swings /\ Forall (anchored bars) swings.
Proof.
  intros Hne Hp. destruct (zigzag_legs bars config Hne Hp) as (swings & Hz & Hl). exists swings.
  split_and!; [done..|by eapply legs_alternating|by eapply legs_in_order|by apply legs_anchored].
Qed.

Lemma zigzag_swings_are_extremes_witness :
  exists swings, zigzag fx_gap DefaultMarketConfig = Some swings /\ legs fx_gap swings /\
    alternating swings /\ in_order swings /\ Forall (anchored fx_gap) swings.
Proof.
  apply (zigzag_swings_are_extremes fx_gap DefaultMarketConfig); [discriminate|vm_compute; discriminate].
Defined.

(** C25: Merging pullbacks terminates with no shallow pullback left; it only
    removes swings, keeps them anchored and in order, and keeps highs and lows
    alternating. *)
Theorem pullback_merging_settles bars config swings :
  bars <> [] -> 1 <= ATRPeriod config -> zigzag bars config = Some swings ->
  exists merged, mergeByValidPullback bars swings config = Some merged /\
    settled bars merged config /\ merged `sublist_of` swings /\
    alternating merged /\ in_order merged /\ Forall (anchored bars) merged.
Proof.
  intros Hne Hp Hz. destruct (zigzag_legs bars config Hne Hp) as (sw & Hz' & Hl).
  rewrite Hz in Hz'. injection Hz' as <-.
  destruct (mergeByValidPullback_spec bars config swings Hl) as (m & Hm & ? & ? & ? & ? & ?).
  exists m. split_and!; done.
Qed.

Lemma pullback_merging_settles_witness :
  exists merged, mergeByValidPullback fx_gap (default [] (zigzag fx_gap DefaultMarketConfig))
      DefaultMarketConfig = Some merged /\ settled fx_gap merged DefaultMarketConfig.
Proof.
  edestruct (pullback_merging_settles fx_gap DefaultMarketConfig
    (default [] (zigzag fx_gap DefaultMarketConfig))) as (m & Hm & Hs & _);
    [discriminate|vm_compute; discriminate|vm_compute; reflexivity|].
  exists m. exact (conj Hm Hs).
Defined.

(** A breakout is decided by two tests alone: it is valid when the candle
    that closes beyond the line is a marubozu or has enough of its body beyond
    it, and the next candle does not close back; otherwise fake.  The search
    window after the second candle never decides anything. *)
Theorem breakout_decision bars index line direction config :
  0 <= index < len bars ->
  evaluateBreakout bars index line direction config =
  breakout_reference bars index line direction config.
Proof. apply evaluateBreakout_reference. Qed.

Lemma breakout_decision_witness :
  evaluateBreakout fx_gap 1 (of_int 105) 1 DefaultMarketConfig =
  Some (mkBreakout "valid" 2 (of_int 125)).
Proof.
  rewrite (breakout_decision fx_gap 1 (of_int 105) 1 DefaultMarketConfig);
    [vm_compute; reflexivity|split; [discriminate|reflexivity]].
Defined.

(** C23: The structure events of a market are coherent with its swings: swing by
    swing, an event is appended only when the swing exceeds the last earlier
    swing of its own type, and it stands at the price of that earlier swing, on
    the side of the break.  It is fake, carries a zone and leaves the trend, or
    it is confirmed, and then it is a change of character exactly when the
    trend before it was the opposite one.  When no bar up to the swing closes
    beyond the level the event is fake and dated by the swing; otherwise it is
    dated by the first bar that does, if fake, and by the bar after that, if
    confirmed; and only a level some bar closed beyond can be exceeded without
    an event.  The trend reported is the one the last confirmed event set. *)
Theorem structure_events_coherent bars config :
  bars <> [] -> 1 <= ATRPeriod config ->
  exists zz merged events trend,
    zigzag bars config = Some zz /\ mergeByValidPullback bars zz config = Some merged /\
    scanBreaks bars merged config = Some events /\ coherent bars merged events trend /\
    (List.existsb is_confirmed events = true -> forall swings hasRange,
       marketTrend swings events hasRange = trend).
Proof.
  intros Hne Hp. destruct (swings_of_spec bars config Hne Hp) as (zz & m & Hz & Hm & Ha & _).
  destruct (scanBreaks_coherent bars m config Ha) as (events & trend & Hs & Hc).
  exists zz, m, events, trend. split_and!; try done. intros He swings hasRange.
  rewrite (coherent_trend _ _ _ _ Hc). unfold marketTrend.
  apply existsb_exists in He as (e & Hin & He).
  destruct (List.find is_confirmed (rev events)) eqn:Hf; [done|].
  pose proof (find_none _ _ Hf e) as Hn. rewrite <-in_rev in Hn. by rewrite Hn in He.
Qed.

(** Candles from close to close. *)
Fixpoint fx_walk (n from : Z) (path : list Z) : list Bar :=
  match path with
  | [] => []
  | to :: rest =>
      mkBar "X" "1m" (bOpenTime (fx_bar n)) (of_int from) (of_int (Z.max from to + 1)) (of_int (Z.min from to - 1))
        (of_int to) (of_int 5) 7 true :: fx_walk (n + 1) to rest
  end.

(** A rise, a pullback, a higher high, and a fall below the pullback. *)
Definition fx_reversal : list Bar :=
  fx_walk 0 1000 (map (fun i => 1000 + 10 * i) (range 1 5) ++ map (fun i => 1040 - 10 * i) (range 1 5) ++
                  map (fun i => 1000 + 10 * i) (range 1 8) ++ map (fun i => 1070 - 10 * i) (range 1 12) ++
                  map (fun i => 960 + 10 * i) (range 1 7)).

Lemma structure_events_coherent_witness :
  exists zz merged events trend,
    zigzag fx_reversal DefaultMarketConfig = Some zz /\
    mergeByValidPullback fx_reversal zz DefaultMarketConfig = Some merged /\
    scanBreaks fx_reversal merged DefaultMarketConfig = Some events /\ coherent fx_reversal merged events trend /\
    map ieKind events = ["BOS"; "CHoCH"] /\ forall swings hasRange, marketTrend swings events hasRange = trend.
Proof.
  destruct (structure_events_coherent fx_reversal DefaultMarketConfig)
    as (zz & merged & events & trend & Hz & Hm & Hs & Hc & Ht); [discriminate|vm_compute; discriminate|].
  assert (Hk : (z ← zigzag fx_reversal DefaultMarketConfig; m ← mergeByValidPullback fx_reversal z DefaultMarketConfig;
      e ← scanBreaks fx_reversal m DefaultMarketConfig; Some (map ieKind e, List.existsb is_confirmed e)) =
    Some (["BOS"; "CHoCH"], true)) by (vm_compute; reflexivity).
  rewrite Hz in Hk. cbn [mbind option_bind] in Hk. rewrite Hm in Hk. cbn [mbind option_bind] in Hk.
  rewrite Hs in Hk. cbn [mbind option_bind] in Hk. injection Hk as Hkind Hconf.
  exists zz, merged, events, trend. split_and!; [exact Hz|exact Hm|exact Hs|exact Hc|exact Hkind|exact (Ht Hconf)].
Defined.

(** Key levels are the prices of earlier swings, within the allowed distance
    of the last close and on the side of it that their name says, the most
    touched first, and at most [MaxLevels] of them. *)
Theorem key_levels_ranked `{Runtime} bars swings config :
  bars <> [] -> 0 <= LevelSwingLag config -> 0 <= MaxLevels config ->
  exists levels last, keyLevels bars swings config = Some levels /\ idx_last bars = Some last /\
    len levels <= MaxLevels config /\ Forall (level_ok config swings (bClose last)) levels /\
    StronglySorted (fun a b => plTouches b <= plTouches a) levels.
Proof. apply keyLevels_spec. Qed.

Lemma key_levels_ranked_witness :
  exists levels last, keyLevels fx_gap [] DefaultMarketConfig = Some levels /\ idx_last fx_gap = Some last /\
    len levels <= 5 /\ Forall (level_ok DefaultMarketConfig [] (bClose last)) levels /\
    StronglySorted (fun a b => plTouches b <= plTouches a) levels.
Proof.
  apply (key_levels_ranked fx_gap [] DefaultMarketConfig); [discriminate|vm_compute; discriminate..].
Defined.

(** ** The market reducer *)

(** C37: The transitions of a bar are exactly these: a zone that is new is
    created, one that is touched for the first time is touched, and one that
    disappears is expired when the bar misses it and otherwise touched (unless
    it was already) and then mitigated or, for a broken order block,
    invalidated. *)
Theorem zone_transitions_exact `{Runtime} previous current bar t :
  t ∈ zoneTransitions previous current bar <->
  (exists z, z ∈ allZones current /\
     t ∈ current_transitions (zone_map (allZones previous)) (bOpenTime bar) z) \/
  (exists id z, zone_map (allZones previous) !! id = Some z /\
     zone_map (allZones current) !! id = None /\ t ∈ gone_transitions bar z).
Proof. apply elem_of_zoneTransitions. Qed.

(** Whatever order the runtime ranges over the zones in, the transitions are
    the same up to their order. *)
Theorem zone_transitions_order_only (R1 R2 : Runtime) previous current bar :
  @zoneTransitions R1 previous current bar ≡ₚ @zoneTransitions R2 previous current bar.
Proof. apply zoneTransitions_perm. Qed.

Definition fx_zone (id : string) : PriceZone := mkZone id "fvg" "up" "" 0 0 (of_int 2) (of_int 1) "active".
Definition fx_zones (ids : list string) : MarketState :=
  mkMarketState "" (mkAlgorithm "" "" "") 0 "" [] [] [] [] (map fx_zone ids) [] [] [] [] [] [] None.

(** The order of the transitions of one bar is not determined: two runtimes
    list two expired zones in different orders. *)
Theorem zone_transitions_order_differs :
  @zoneTransitions reference_runtime (fx_zones ["a"; "b"]) (fx_zones []) (fx_bar 0) <>
  @zoneTransitions reverse_runtime (fx_zones ["a"; "b"]) (fx_zones []) (fx_bar 0).
Proof. vm_compute. discriminate. Qed.

(** C26: Seeding a fresh reducer and feeding it the same closed bars one by one,
    in executions that may range over maps in a different order at every bar,
    both return, and give reducers that no later bar can tell apart: same
    configuration, history, sample count and zones; and whatever order two
    executions then range over maps in, both reducers respond to the next bar
    with the same market state up to the order of its zone transitions, and
    stay indistinguishable. *)
Theorem market_seed_matches_live (R : Runtime) config limit m steps :
  config_ok config -> NewMarket config limit = Ok m -> len steps < 2 ^ 64 ->
  Forall (fun step => same_sort R step.1 /\ bClosed step.2 = true) steps ->
  exists seeded live, @Market_Seed R m (map snd steps) = Some (seeded, mkState seeded) /\
    run_each m steps = Some live /\ market_equiv seeded live /\
    forall R1 R2 bar, same_sort R R1 -> same_sort R R2 ->
      exists seeded' live', @Market_OnClosed R1 seeded bar = Some (seeded', mkState seeded') /\
        @Market_OnClosed R2 live bar = Some (live', mkState live') /\
        market_equiv seeded' live' /\ state_equiv (mkState seeded') (mkState live').
Proof.
  intros Hc Hn Hl Hb. pose proof (NewMarket_wf _ _ _ Hc Hn) as Hwf.
  apply Forall_and in Hb as [Hs Hb]. assert (Hb' : Forall (fun b => bClosed b = true) (map snd steps)) by (by apply Forall_map).
  clear Hb; rename Hb' into Hb.
  assert (Hlen : len (map snd steps) < 2 ^ 64) by (unfold len in *; by rewrite List.length_map).
  destruct (Market_Seed_ok m (map snd steps)) as (seeded & Hseed & Hwfs & _);
    [apply Hwf|by apply mw_limit_nonneg|done|apply Hwf|].
  destruct (run_market_ok m (map snd steps) Hwf Hb) as (live0 & Hr & _).
  assert (Hq : market_equiv seeded live0).
  { eapply Market_Seed_run; [exact Hwf| | |done..];
      unfold NewMarket in Hn; destruct (_ <? _); by simplify_eq. }
  destruct (run_each_market R steps m m live0 Hs (reflexivity _) Hr) as (live & He & Hq').
  exists seeded, live. split_and!; [done|done|by rewrite Hq|].
  intros R1 R2 bar Hs1 Hs2. destruct (@Market_OnClosed_ok R1 seeded bar) as (m1 & Ho1 & _); [exact (market_wf_sort R R1 _ Hs1 Hwfs)|].
  destruct (Market_OnClosed_sort R1 R2 seeded live bar m1 (mkState m1)) as (m2 & s2 & Ho2 & Hm & Hst);
    [intros A less l; by rewrite <-Hs1|by rewrite Hq|done|].
  assert (s2 = mkState m2) as ->.
  { unfold Market_OnClosed in Ho2. destruct (keep_last _ _); [|done]. cbn [mbind option_bind] in Ho2.
    destruct (EvaluateMarket _ _); [|done]. cbn [mbind option_bind] in Ho2. by injection Ho2 as <- <-. }
  by exists m1, m2.
Qed.

Lemma market_seed_matches_live_witness :
  let steps := [(reference_runtime, fx_bar 0); (reverse_runtime, fx_bar 1); (reference_runtime, fx_bar 2)] in
  let m := mkMarket DefaultMarketConfig 500 [] 0 zero_market_state in
  exists seeded live, @Market_Seed reference_runtime m (map snd steps) = Some (seeded, mkState seeded) /\
    run_each m steps = Some live /\ market_equiv seeded live /\
    forall bar, exists seeded' live',
      @Market_OnClosed reverse_runtime seeded bar = Some (seeded', mkState seeded') /\
      @Market_OnClosed reference_runtime live bar = Some (live', mkState live') /\
      market_equiv seeded' live' /\ state_equiv (mkState seeded') (mkState live').
Proof.
  intros steps m.
  destruct (market_seed_matches_live reference_runtime DefaultMarketConfig 500 m steps)
    as (seeded & live & H1 & H2 & H3 & H4).
  - split; vm_compute; discriminate.
  - vm_compute. reflexivity.
  - vm_compute. reflexivity.
  - repeat (apply Forall_cons; split; [done|]). apply Forall_nil_2.
  - exists seeded, live. split_and!; [exact H1|exact H2|exact H3|]. intros bar. by apply H4.
Defined.

(** C27: The history of a reducer stays bounded: after any closed bars it holds
    the last [historyLimit] of them, and a snapshot of it restores, into a
    fresh reducer, to one that no later bar can tell apart. *)
Theorem market_history_and_snapshot `{Runtime} config limit m bars :
  config_ok config -> NewMarket config limit = Ok m -> len bars < 2 ^ 64 ->
  Forall (fun b => bClosed b = true) bars -> Forall bar_encodable bars ->
  exists live data restored, run_market m bars = Some live /\
    mkBars live = last_n limit bars /\ len (mkBars live) <= limit /\ mkSamples live = len bars /\
    Market_Snapshot live = Ok data /\ Market_Restore m data = Ok restored /\ market_equiv live restored.
Proof.
  intros Hc Hn Hl Hb He. pose proof (NewMarket_wf _ _ _ Hc Hn) as Hwf.
  assert (Hm : mkConfig m = config /\ mkHistoryLimit m = limit /\ mkBars m = [] /\ mkSamples m = 0).
  { unfold NewMarket in Hn. destruct (_ <? _); by simplify_eq. }
  destruct Hm as (Em1 & Em2 & Em3 & Em4).
  destruct (run_market_ok m bars Hwf Hb) as (live & Hr & Hw & Ec & El & Eb & Es).
  rewrite Em2, Em3 in Eb. cbn in Eb.
  destruct (Market_Restore_Snapshot live m Hw) as (data & restored & Hs & Hre & Hq & _); [|congruence..|].
  { rewrite Eb. eapply suffix_Forall; [apply last_n_suffix|done]. }
  exists live, data, restored. split_and!; try done.
  - pose proof (mw_bars _ Hw). congruence.
  - rewrite Es; lia.
Qed.

Lemma market_history_and_snapshot_witness :
  exists live data restored,
    run_market (mkMarket DefaultMarketConfig 400 [] 0 zero_market_state) (map fx_bar (range 0 3)) = Some live /\
    mkBars live = last_n 400 (map fx_bar (range 0 3)) /\ len (mkBars live) <= 400 /\
    mkSamples live = len (map fx_bar (range 0 3)) /\
    Market_Snapshot live = Ok data /\
    Market_Restore (mkMarket DefaultMarketConfig 400 [] 0 zero_market_state) data = Ok restored /\
    market_equiv live restored.
Proof.
  apply (market_history_and_snapshot DefaultMarketConfig 400
    (mkMarket DefaultMarketConfig 400 [] 0 zero_market_state) (map fx_bar (range 0 3))).
  - split; vm_compute; discriminate.
  - vm_compute. reflexivity.
  - vm_compute. reflexivity.
  - repeat constructor.
  - repeat constructor; vm_compute; discriminate.
Defined.
