(* ===== verification/LaneTheorems.v ===== *)
(** * Theorems about the lane

    Safety, refinement, parity and recovery of one series, each with an
    application at concrete inputs. *)

From stdpp Require Import prelude gmap strings list sorting.
From Stdlib Require Import ZArith Lia SpecFloat String.
From S2P Require Import Prelude GoFloat GoText Sha256 Model Ema MarketZones MarketStructure.
From S2P Require Import ZonesProofs StructureProofs MarketReducer MarketProofs StoreSpec Memory.
From S2P Require Import MemoryProofs Lane LaneReducers LaneProofs LaneRefinement LaneRecovery.
From S2P Require Import LaneResume LaneHistory LaneAccept Contract ContractProofs Fixtures.

#[local] Open Scope string_scope.
#[local] Open Scope list_scope.
#[local] Open Scope Z_scope.

(** ** The state machine *)

(** C1: Whatever commands a lane runs, seeds that recover what an earlier lane
    of the series saved included, and whichever of them fail, it never panics:
    its state stays well formed and is that of one history of closed bars with
    strictly increasing times, and every command answers.  A command either
    appends bars it was given to that history, or replaces it by the history
    of its seed, or, as the first seed of a new lane whose series has a durable
    cursor, takes the lane to the history of the saved checkpoint, continued by
    bars of the seed up to a bar at the cursor's time with the cursor's hash
    and then by more bars of the seed.  Assumed of a store with a cursor, when
    such a first seed runs: its snapshots either miss a period of the lane, or
    those the lane reads are the checkpoint of one history, the market's
    included; the seed has no two closed bars of one time between checkpoint
    and cursor; and when the cursor is at the checkpoint, only the checkpoint's
    bar has the cursor's hash. *)
Theorem lane_state_is_a_history `{Runtime} {S} `{StoreLaws S} options (w w' : World S) cmd r :
  0 <= loSnapshotEvery options -> Forall (fun p => p < 2 ^ 63 - 1) (loPeriods options) ->
  reachable options w -> admissible w cmd -> run_command cmd w = (w', r) ->
  lane_wf (wLane w') /\ (exists err, r = Ok err) /\
  exists hist hist', lane_at w hist /\ lane_at w' hist' /\ (evolves hist cmd hist' \/ resumes w cmd hist').
Proof.
  intros Hse Hp Hreach Hadm Hrun. destruct (reachable_ok _ _ Hse Hp Hreach) as (Hwf & hist & Hat).
  destruct (admissible_step _ _ _ _ _ Hwf Hat Hadm Hrun) as ((err & -> & _) & Hwf' & hist' & Hat' & Hev). eauto 10.
Qed.

(** A lane that [NewLane] returns is well formed, has applied nothing, and
    holds the periods it was given, each once. *)
Theorem new_lane_ok `{Runtime} options l :
  NewLane options = Ok l -> 0 <= loSnapshotEvery options ->
  Forall (fun p => p < 2 ^ 63 - 1) (loPeriods options) ->
  lane_wf l /\ refines l [] /\ lKey l = loKey options /\ lPeriods l ≡ₚ loPeriods options /\
  1 <= lMailboxSize l.
Proof. apply NewLane_ok. Qed.

Lemma new_lane_ok_witness :
  lane_wf fx_lane /\ refines fx_lane [] /\ lKey fx_lane = fx_key /\ lPeriods fx_lane ≡ₚ [3; 2] /\
  1 <= lMailboxSize fx_lane.
Proof.
  apply (new_lane_ok fx_options fx_lane);
    [vm_compute; reflexivity|vm_compute; discriminate|repeat constructor].
Defined.

(** ** Closed bars *)

(** How a closed bar stands to the cursor decides what happens to it: the
    same bar again is ignored, another bar at or before the cursor is an
    error, a bar that does not follow at exactly one timeframe is a gap, and
    only the next bar goes on. *)
Theorem closed_bar_decision l bar lastBar step :
  lLastBar l = Some lastBar -> TimeframeDuration (kTimeframe (lKey l)) = Some step ->
  closed_guard l bar =
    if decide (bOpenTime bar = bOpenTime lastBar /\ barFingerprint bar = barFingerprint lastBar) then Ok true
    else if decide (bOpenTime bar <= bOpenTime lastBar) then Fail LaneBarOlder
    else if decide (bOpenTime bar = bOpenTime lastBar + step) then Ok false
    else Fail LaneBarGap.
Proof.
  intros Hl Hs. unfold closed_guard. rewrite Hl, Hs.
  destruct (Z.ltb_spec (bOpenTime lastBar) (bOpenTime bar)) as [Hlt|Hge]; cbn [negb].
  - rewrite decide_False by lia. rewrite decide_False by lia.
    destruct (Z.eqb_spec (bOpenTime bar) (bOpenTime lastBar + step)); cbn [negb];
      [by rewrite decide_True|by rewrite decide_False].
  - rewrite (decide_True (P := bOpenTime bar <= bOpenTime lastBar)) by done.
    destruct (Z.eqb_spec (bOpenTime bar) (bOpenTime lastBar)); cbn [andb];
      [|by rewrite decide_False by tauto].
    destruct (String.eqb_spec (barFingerprint bar) (barFingerprint lastBar));
      [by rewrite decide_True|by rewrite decide_False by tauto].
Qed.

Definition fx_one : World Memory := fst (applyClosed (fx_bar 0) fx_world).

Lemma fx_step1 : applyClosed (fx_bar 0) fx_world = (fx_one, Ok tt).
Proof. unfold fx_one. apply pair_of. vm_compute. reflexivity. Qed.

Lemma closed_bar_decision_witness :
  closed_guard (wLane fx_one) (fx_bar 2) =
    if decide (bOpenTime (fx_bar 2) = bOpenTime (fx_bar 0) /\
               barFingerprint (fx_bar 2) = barFingerprint (fx_bar 0)) then Ok true
    else if decide (bOpenTime (fx_bar 2) <= bOpenTime (fx_bar 0)) then Fail LaneBarOlder
    else if decide (bOpenTime (fx_bar 2) = bOpenTime (fx_bar 0) + minute) then Ok false
    else Fail LaneBarGap.
Proof. apply closed_bar_decision; vm_compute; reflexivity. Defined.

(** C22: A closed bar that fails leaves no trace: lane, store and publications
    are what they were, unless all that failed is marking the events, after
    they were committed and published. *)
Theorem closed_bar_failure_atomic `{Runtime} {S} `{StoreLaws S} bar (w w' : World S) e :
  applyClosed bar w = (w', Fail e) ->
  (wLane w' = wLane w /\ store_same (wStore w) (wStore w') /\ wOut w' = wOut w) \/
  exists reason s committed reducers market count events snapshots, e = LaneMark reason /\
    closed_plan (wLane w) bar = Ok (Some (reducers, market, count, events, snapshots)) /\
    CommitClosed (wStore w) (lKey (wLane w)) bar events snapshots = (s, Ok committed) /\
    lLastBar (wLane w') = Some bar /\
    wOut w' = wOut w ++ live_outputs (wLane w) committed ++ map Published committed.
Proof.
  rewrite applyClosed_run.
  destruct (closed_plan (wLane w) bar) as [[[[[[reducers market] count] events] snapshots]|]|e'|];
    [|done|intros [= <- <-]; by left|done].
  cbn zeta. destruct (CommitClosed _ _ _ _ _) as [s [committed|e'|]] eqn:Hc; [| |done].
  - destruct (_ && _); [|done]. destruct (MarkPublished _ _) as [s' [|e'|]]; [done| |done].
    intros [= <- <-]. right.
    exists e', s, committed, reducers, market, count, events, snapshots. cbn. by rewrite <-app_assoc.
  - intros [= <- <-]. left. by apply commit_atomic in Hc.
Qed.

Lemma closed_bar_failure_atomic_witness :
  (wLane (fst (applyClosed (fx_bar 0) fx_broken)) = wLane fx_broken /\
   store_same (wStore fx_broken) (wStore (fst (applyClosed (fx_bar 0) fx_broken))) /\
   wOut (fst (applyClosed (fx_bar 0) fx_broken)) = wOut fx_broken) \/
  exists reason s committed reducers market count events snapshots, LaneCommit "unavailable" = LaneMark reason /\
    closed_plan (wLane fx_broken) (fx_bar 0) = Ok (Some (reducers, market, count, events, snapshots)) /\
    CommitClosed (wStore fx_broken) (lKey (wLane fx_broken)) (fx_bar 0) events snapshots = (s, Ok committed) /\
    lLastBar (wLane (fst (applyClosed (fx_bar 0) fx_broken))) = Some (fx_bar 0) /\
    wOut (fst (applyClosed (fx_bar 0) fx_broken)) =
      wOut fx_broken ++ live_outputs (wLane fx_broken) committed ++ map Published committed.
Proof. apply closed_bar_failure_atomic. apply pair_of. vm_compute. reflexivity. Defined.

(** ** Concrete lanes *)

Lemma fx_lane_ok : lane_wf fx_lane /\ refines fx_lane [].
Proof.
  destruct (NewLane_ok fx_options fx_lane) as (Hwf & Hr & _);
    [vm_compute; reflexivity|vm_compute; discriminate|repeat constructor|done].
Qed.

Lemma fx_periods : lPeriods fx_lane = [2; 3].
Proof. vm_compute. reflexivity. Qed.

Lemma fx_encodable : encodable fx_lane [] (fx_bar 0).
Proof.
  split.
  - rewrite fx_periods. apply Forall_forall. repeat constructor; vm_compute; reflexivity.
  - rewrite fx_periods. apply Forall_forall. repeat constructor; vm_compute; reflexivity.
  - vm_compute. constructor.
  - split; vm_compute; try reflexivity. split; [discriminate|reflexivity].
Qed.

Lemma fx_extends : extends fx_lane (fx_bar 0).
Proof. split; [reflexivity|]. split; [vm_compute; reflexivity|]. intros lastBar Hl. vm_compute in Hl. discriminate. Qed.

Lemma fx_typed n : bar_typed (fx_bar n).
Proof. split; cbn; lia. Qed.

(** C6: On the in-memory store, the bar that follows the cursor goes through,
    when it, the bars kept and the averages can be written as JSON (finite
    values, years of four digits): it is committed, it becomes the cursor of the lane and of the
    store, every event gets a cursor, the market event goes out live, and all
    events go out through the publisher unless the outbox delivers them. *)
Theorem closed_bar_accepted `{Runtime} bar hist (w : World Memory) :
  lane_wf (wLane w) -> refines (wLane w) hist -> len hist < 2 ^ 64 - 1 -> bar_typed bar ->
  extends (wLane w) bar -> encodable (wLane w) hist bar ->
  memory_wf (wStore w) -> meNext (wStore w) + len (lPeriods (wLane w)) + 1 < 2 ^ 63 - 1 ->
  (forall current, meCursors (wStore w) !! SeriesKey_String (lKey (wLane w)) = Some current ->
     bOpenTime current < bOpenTime bar) ->
  exists w' reducers market count events snapshots committed,
    closed_plan (wLane w) bar = Ok (Some (reducers, market, count, events, snapshots)) /\
    applyClosed bar w = (w', Ok tt) /\
    refines (wLane w') (hist ++ [bar]) /\ lane_wf (wLane w') /\ memory_wf (wStore w') /\
    meCursors (wStore w') !! SeriesKey_String (lKey (wLane w)) = Some bar /\
    Forall2 (fun e e' => evEventID e' = evEventID e /\ 0 < evCursor e') events committed /\
    wOut w' = wOut w ++ live_outputs (wLane w) committed ++
      (if lPublisher (wLane w) && negb (lOutboxDelivery (wLane w)) then map Published committed else []).
Proof. apply applyClosed_memory. Qed.

Lemma closed_bar_accepted_witness :
  exists w' reducers market count events snapshots committed,
    closed_plan fx_lane (fx_bar 0) = Ok (Some (reducers, market, count, events, snapshots)) /\
    applyClosed (fx_bar 0) fx_world = (w', Ok tt) /\
    refines (wLane w') ([] ++ [fx_bar 0]) /\ lane_wf (wLane w') /\ memory_wf (wStore w') /\
    meCursors (wStore w') !! SeriesKey_String (lKey fx_lane) = Some (fx_bar 0) /\
    Forall2 (fun e e' => evEventID e' = evEventID e /\ 0 < evCursor e') events committed /\
    wOut w' = [] ++ live_outputs fx_lane committed ++
      (if lPublisher fx_lane && negb (lOutboxDelivery fx_lane) then map Published committed else []).
Proof.
  apply (closed_bar_accepted (fx_bar 0) [] fx_world).
  - apply fx_lane_ok.
  - apply fx_lane_ok.
  - reflexivity.
  - apply fx_typed.
  - apply fx_extends.
  - apply fx_encodable.
  - apply NewMemory_wf.
  - vm_compute. reflexivity.
  - intros current Hc. unfold fx_world, NewMemory in Hc. cbn [wStore meCursors] in Hc. by rewrite lookup_empty in Hc.
Defined.

(** Refinement: when [applyClosed] succeeds on a lane that has applied a
    history, either the bar was the last of that history and nothing changed,
    or it follows the history and the lane now holds exactly what the longer
    history determines: the reference averages, the last 500 bars, the cursor,
    the count and the revision. *)
Theorem closed_bar_refines_history `{Runtime} {S} `{StoreLaws S} bar hist (w w' : World S) :
  lane_wf (wLane w) -> refines (wLane w) hist -> len hist < 2 ^ 64 - 1 -> bar_typed bar ->
  applyClosed bar w = (w', Ok tt) ->
  (w' = w /\ already_applied (wLane w) bar) \/
  (refines (wLane w') (hist ++ [bar]) /\ extends (wLane w) bar).
Proof. apply applyClosed_refines. Qed.

Lemma closed_bar_refines_history_witness :
  (fx_one = fx_world /\ already_applied fx_lane (fx_bar 0)) \/
  (refines (wLane fx_one) ([] ++ [fx_bar 0]) /\ extends fx_lane (fx_bar 0)).
Proof.
  apply (closed_bar_refines_history (fx_bar 0) [] fx_world fx_one).
  - apply fx_lane_ok.
  - apply fx_lane_ok.
  - reflexivity.
  - apply fx_typed.
  - apply fx_step1.
Defined.

(** C21: Parity of live and recovered analysis: two lanes of one series that have
    applied the same history, however they came to it, in two executions of the
    program, which may range over maps in different orders, take the next bar
    alike: both accept it, with the same averages, the same count, and the same
    events and market state up to the order of the zone transitions. *)
Theorem lanes_at_one_history_agree (R1 R2 : Runtime) l1 l2 hist bar :
  same_sort R1 R2 -> lKey l1 = lKey l2 -> lPeriods l1 = lPeriods l2 -> @lane_wf R1 l1 -> @lane_wf R2 l2 ->
  refines l1 hist -> refines l2 hist -> len hist < 2 ^ 64 - 1 -> bar_typed bar ->
  extends l1 bar -> encodable l1 hist bar ->
  exists reducers count ev1 ev2 m1 sn1 m2 sn2,
    @closed_plan R1 l1 bar = Ok (Some (reducers, m1, count, ev1, sn1)) /\
    @closed_plan R2 l2 bar = Ok (Some (reducers, m2, count, ev2, sn2)) /\
    state_equiv (mkState m1) (mkState m2) /\ Forall2 event_equiv ev1 ev2.
Proof. apply lanes_agree. Qed.

(** A lane of the same series with other delivery options. *)
Definition fx_other_options : LaneOptions := mkLaneOptions fx_key [2; 3] 9 7 true false false true.
Definition fx_other : Lane := match NewLane fx_other_options with Ok l => l | _ => fx_lane end.

Lemma lanes_at_one_history_agree_witness :
  exists reducers count ev1 ev2 m1 sn1 m2 sn2,
    @closed_plan reference_runtime fx_lane (fx_bar 0) = Ok (Some (reducers, m1, count, ev1, sn1)) /\
    @closed_plan reverse_runtime fx_other (fx_bar 0) = Ok (Some (reducers, m2, count, ev2, sn2)) /\
    state_equiv (mkState m1) (mkState m2) /\ Forall2 event_equiv ev1 ev2.
Proof.
  destruct (@NewLane_ok reverse_runtime fx_other_options fx_other) as (Hwf & Hr & _);
    [vm_compute; reflexivity|vm_compute; discriminate|repeat constructor|].
  apply (lanes_at_one_history_agree reference_runtime reverse_runtime fx_lane fx_other []).
  - by intros A less l.
  - vm_compute. reflexivity.
  - vm_compute. reflexivity.
  - apply fx_lane_ok.
  - exact Hwf.
  - apply fx_lane_ok.
  - exact Hr.
  - reflexivity.
  - apply fx_typed.
  - apply fx_extends.
  - apply fx_encodable.
Defined.

(** ** Snapshots and live events *)

(** C19: A client that takes a snapshot sees what a client that was live saw:
    every event a closed bar gave rise to, indicator points and market state
    alike, has an event in the snapshot the lane serves after that bar that
    converts to the very same CloudEvent, identity included. *)
Theorem snapshot_matches_live_events `{Runtime} l hist bar reducers market count events snapshots :
  lane_wf l -> refines l hist -> len hist < 2 ^ 64 - 1 -> bar_typed bar ->
  closed_plan l bar = Ok (Some (reducers, market, count, events, snapshots)) ->
  exists s, Lane_Snapshot (set_canonical l reducers market (Some bar) (revisionForBar bar) count) = Some s /\
    forall e, e ∈ events -> exists e', e' ∈ snapshot_events s /\ forall t, toAnalysisEvent e' t = toAnalysisEvent e t.
Proof. apply plan_snapshot_wire. Qed.

Lemma snapshot_matches_live_events_witness :
  exists reducers market count events snapshots s,
    closed_plan fx_lane (fx_bar 0) = Ok (Some (reducers, market, count, events, snapshots)) /\
    Lane_Snapshot (set_canonical fx_lane reducers market (Some (fx_bar 0)) (revisionForBar (fx_bar 0)) count) = Some s /\
    forall e, e ∈ events -> exists e', e' ∈ snapshot_events s /\ forall t, toAnalysisEvent e' t = toAnalysisEvent e t.
Proof.
  destruct (closed_plan_total fx_lane (fx_bar 0) []) as (reducers & market & count & events & snapshots & Hplan & _);
    [apply fx_lane_ok|apply fx_lane_ok|reflexivity|apply fx_typed|apply fx_extends|apply fx_encodable|].
  destruct (snapshot_matches_live_events fx_lane [] (fx_bar 0) reducers market count events snapshots) as (s & Hs & He);
    [apply fx_lane_ok|apply fx_lane_ok|reflexivity|apply fx_typed|exact Hplan|].
  exists reducers, market, count, events, snapshots, s. split; [exact Hplan|]. split; [exact Hs|exact He].
Defined.

(** ** Forming bars *)

(** A forming bar never touches canonical state: whatever it returns, the
    reducers, the market, the cursor, the count and the store are untouched,
    and publications are only added. *)
Theorem forming_bar_is_provisional `{Runtime} {S} `{Store S} bar (w w' : World S) r :
  applyForming bar w = (w', r) ->
  same_canonical (wLane w) (wLane w') /\ wStore w' = wStore w /\ wOut w `prefix_of` wOut w'.
Proof. apply applyForming_frame. Qed.

Lemma forming_bar_is_provisional_witness :
  let w' := fst (applyForming (fx_forming 1) fx_one) in
  same_canonical (wLane fx_one) (wLane w') /\ wStore w' = wStore fx_one /\ wOut fx_one `prefix_of` wOut w'.
Proof.
  apply (forming_bar_is_provisional (fx_forming 1) fx_one _ (snd (applyForming (fx_forming 1) fx_one))).
  apply surjective_pairing.
Defined.

(** C36: The provisional value of each period is the reference average of the
    history with the forming bar as its last close, exactly when that many
    closes exist. *)
Theorem forming_bar_projects_close `{Runtime} {S} bar hist (w : World S) :
  lane_wf (wLane w) -> refines (wLane w) hist -> len hist < 2 ^ 64 - 1 ->
  bClosed bar = false -> validateBar (lKey (wLane w)) bar = Ok tt ->
  (forall lastBar, lLastBar (wLane w) = Some lastBar -> bOpenTime lastBar <= bOpenTime bar) ->
  (forall p, p ∈ lPeriods (wLane w) -> ema_encodable (ema_of hist p)) ->
  exists w', applyForming bar w = (w', Ok tt) /\ lFormingBar (wLane w') = Some bar /\
    forall p, p ∈ lPeriods (wLane w) ->
      lProvisional (wLane w') !! p = ema_reference p (map bClose (hist ++ [bar])).
Proof. apply applyForming_projects. Qed.

Lemma forming_bar_projects_close_witness :
  exists w', applyForming (fx_forming 0) fx_world = (w', Ok tt) /\ lFormingBar (wLane w') = Some (fx_forming 0) /\
    forall p, p ∈ lPeriods fx_lane ->
      lProvisional (wLane w') !! p = ema_reference p (map bClose ([] ++ [fx_forming 0])).
Proof.
  apply (forming_bar_projects_close (fx_forming 0) [] fx_world).
  - apply fx_lane_ok.
  - apply fx_lane_ok.
  - reflexivity.
  - reflexivity.
  - vm_compute. reflexivity.
  - intros lastBar Hl. vm_compute in Hl. discriminate.
  - apply fx_encodable.
Defined.

(** The snapshot a lane serves: one indicator per period with the reference
    average of the history, ready exactly when every period has enough closes,
    and a provisional entry exactly for the periods a forming bar projected. *)
Theorem snapshot_serves_history `{Runtime} l hist :
  periods_ok (lPeriods l) -> refines l hist ->
  exists snapshot, Lane_Snapshot l = Some snapshot /\ ssSeries snapshot = lKey l /\
    ssLastClosedBar snapshot = last hist /\
    ssReady snapshot = forallb (fun p => p <=? len hist) (lPeriods l) /\
    ssIndicators snapshot =
      map (fun p => indicator_state (lLastClosedRevision l) p (ema_of hist p)) (lPeriods l) /\
    ssProvisional snapshot = flat_map (projected_state l hist) (lPeriods l) /\
    ssMarket snapshot = Some (mkState (lMarket l)).
Proof. apply Lane_Snapshot_spec. Qed.

Lemma snapshot_serves_history_witness :
  exists snapshot, Lane_Snapshot fx_lane = Some snapshot /\ ssSeries snapshot = lKey fx_lane /\
    ssLastClosedBar snapshot = last [] /\
    ssReady snapshot = forallb (fun p => p <=? len (@nil Bar)) (lPeriods fx_lane) /\
    ssIndicators snapshot =
      map (fun p => indicator_state (lLastClosedRevision fx_lane) p (ema_of [] p)) (lPeriods fx_lane) /\
    ssProvisional snapshot = flat_map (projected_state fx_lane []) (lPeriods fx_lane) /\
    ssMarket snapshot = Some (mkState (lMarket fx_lane)).
Proof.
  apply (snapshot_serves_history fx_lane []); [|apply fx_lane_ok]. apply (lw_periods _ (proj1 fx_lane_ok)).
Defined.

(** ** Seeds *)

Definition fx_bars : list Bar := [fx_bar 0; fx_bar 1; fx_bar 2].

Lemma fx_series : series_bars fx_key fx_bars.
Proof.
  split.
  - repeat constructor.
  - repeat constructor; (vm_compute; reflexivity) || (vm_compute; discriminate).
Qed.

(** The world after the three bars were applied live, and its parts. *)
Definition fx_two : World Memory := fst (applyClosed (fx_bar 1) fx_one).
Definition fx_three : World Memory := fst (applyClosed (fx_bar 2) fx_two).

Lemma fx_step2 : applyClosed (fx_bar 1) fx_one = (fx_two, Ok tt).
Proof. unfold fx_two. apply pair_of. vm_compute. reflexivity. Qed.
Lemma fx_one_room : lClosedCount (wLane fx_one) < 2 ^ 64 - 1.
Proof. vm_compute. reflexivity. Qed.
Lemma fx_one_last : lLastBar (wLane fx_one) = Some (fx_bar 0).
Proof. vm_compute. reflexivity. Qed.

Lemma fx_two_ok : lane_wf (wLane fx_two) /\ refines (wLane fx_two) [fx_bar 0; fx_bar 1].
Proof.
  destruct fx_lane_ok as [Hwf Hr].
  pose proof (applyClosed_wf (fx_bar 0) fx_world fx_one _ Hwf eq_refl (fx_typed 0) fx_step1) as (_ & Hw1 & _).
  pose proof (applyClosed_wf (fx_bar 1) fx_one fx_two _ Hw1 fx_one_room (fx_typed 1) fx_step2) as (_ & Hw2 & _).
  split; [exact Hw2|].
  destruct (applyClosed_refines (fx_bar 0) [] fx_world fx_one Hwf Hr eq_refl (fx_typed 0) fx_step1)
    as [[_ (b & Hb & _)]|[Hr1 _]].
  { discriminate Hb. }
  destruct (applyClosed_refines (fx_bar 1) [fx_bar 0] fx_one fx_two Hw1 Hr1 eq_refl (fx_typed 1) fx_step2)
    as [[_ (b & Hb & Ht & _)]|[Hr2 _]]; [|exact Hr2].
  rewrite fx_one_last in Hb. injection Hb as <-. exfalso. clear -Ht. vm_compute in Ht. discriminate.
Qed.

Lemma fx_two_bars : lLastBar (wLane fx_two) = Some (fx_bar 1) /\ mkBars (lMarket (wLane fx_two)) = [fx_bar 0; fx_bar 1].
Proof. split; vm_compute; reflexivity. Qed.

(** A seed contradicts the applied history exactly when the two differ
    where they overlap: a closed bar of the seed that the history holds
    otherwise or not at all, or a bar of the history that the seed skips. *)
Theorem seed_conflict_decision `{Runtime} l lastBar oldest rest bars :
  lLastBar l = Some lastBar -> mkBars (lMarket l) = oldest :: rest ->
  increasing (oldest :: rest) -> Forall nano_ok (oldest :: rest) ->
  increasing bars -> Forall nano_ok bars ->
  seedConflictsWithHistory l bars = false <-> seed_agrees lastBar oldest (oldest :: rest) bars.
Proof. intros. by apply seedConflicts_spec. Qed.

Lemma seed_conflict_decision_witness :
  seedConflictsWithHistory (wLane fx_two) [fx_bar 1; fx_bar 2] = false <->
  seed_agrees (fx_bar 1) (fx_bar 0) [fx_bar 0; fx_bar 1] [fx_bar 1; fx_bar 2].
Proof.
  apply seed_conflict_decision.
  - apply fx_two_bars.
  - apply fx_two_bars.
  - repeat constructor.
  - repeat constructor; (vm_compute; reflexivity) || (vm_compute; discriminate).
  - repeat constructor.
  - repeat constructor; (vm_compute; reflexivity) || (vm_compute; discriminate).
Defined.

(** A rebuild that succeeds leaves the lane with exactly the history its
    seed denotes: the closed bars of the seed without repetitions. *)
Theorem rebuild_refines_seed `{Runtime} {S} `{StoreLaws S} bars publishReset (w w' : World S) :
  lane_wf (wLane w) -> len bars < 2 ^ 64 - 1 -> Forall bar_typed bars ->
  rebuildSeed bars publishReset w = (w', Ok tt) ->
  refines (wLane w') (seed_history [] bars).
Proof. apply rebuildSeed_refines. Qed.

Lemma rebuild_refines_seed_witness :
  refines (wLane (fst (rebuildSeed fx_bars false fx_world))) (seed_history [] fx_bars).
Proof.
  apply (rebuild_refines_seed fx_bars false fx_world).
  - apply fx_lane_ok.
  - reflexivity.
  - repeat constructor; (vm_compute; reflexivity) || (vm_compute; discriminate).
  - apply pair_of. vm_compute. reflexivity.
Defined.

(** C32: On the in-memory store a correct seed that replaces the history always
    goes through: the lane holds it, the store's cursor is its last bar, and
    one reset event is logged above every earlier cursor and goes out live with
    the market state at the last bar and the at most 500 bars before it. *)
Theorem rebuild_resets_consumers `{Runtime} bars lastBar (w : World Memory) :
  lane_wf (wLane w) -> series_bars (lKey (wLane w)) (bars ++ [lastBar]) -> len (bars ++ [lastBar]) < 2 ^ 64 - 1 ->
  Forall bar_encodable (bars ++ [lastBar]) ->
  (forall p, p ∈ lPeriods (wLane w) -> ema_encodable (ema_of (bars ++ [lastBar]) p)) ->
  memory_wf (wStore w) ->
  meNext (wStore w) + len (bars ++ [lastBar]) * len (lPeriods (wLane w)) + 1 < 2 ^ 63 - 1 ->
  (forall current, meCursors (wStore w) !! SeriesKey_String (lKey (wLane w)) = Some current ->
     bOpenTime current <= bOpenTime lastBar) ->
  exists w' event, rebuildSeed (bars ++ [lastBar]) true w = (w', Ok tt) /\
    refines (wLane w') (bars ++ [lastBar]) /\ memory_wf (wStore w') /\
    meCursors (wStore w') !! SeriesKey_String (lKey (wLane w)) = Some lastBar /\
    meEvents (wStore w') = meEvents (wStore w) ++ [event] /\ meNext (wStore w) < evCursor event /\
    wOut w' = wOut w ++ (if lLivePublisher (wLane w) then [LivePublished event] else []) /\
    evReset event = true /\ evResetHistory event = last_n marketHistoryLimit bars /\
    evSourceBar event = Some lastBar /\ evMarket event = Some (mkState (lMarket (wLane w'))).
Proof. apply rebuildSeed_memory. Qed.

Lemma fx_bars_encodable : Forall bar_encodable fx_bars.
Proof.
  repeat constructor; vm_compute; reflexivity || discriminate.
Qed.

Lemma fx_averages_encodable p : p ∈ lPeriods fx_lane -> ema_encodable (ema_of fx_bars p).
Proof. rewrite fx_periods. revert p. apply Forall_forall. repeat constructor; vm_compute; reflexivity. Qed.

Lemma rebuild_resets_consumers_witness :
  exists w' event, rebuildSeed ([fx_bar 0; fx_bar 1] ++ [fx_bar 2]) true fx_world = (w', Ok tt) /\
    refines (wLane w') ([fx_bar 0; fx_bar 1] ++ [fx_bar 2]) /\ memory_wf (wStore w') /\
    meCursors (wStore w') !! SeriesKey_String (lKey fx_lane) = Some (fx_bar 2) /\
    meEvents (wStore w') = [] ++ [event] /\ 0 < evCursor event /\
    wOut w' = [] ++ (if lLivePublisher fx_lane then [LivePublished event] else []) /\
    evReset event = true /\ evResetHistory event = last_n marketHistoryLimit [fx_bar 0; fx_bar 1] /\
    evSourceBar event = Some (fx_bar 2) /\ evMarket event = Some (mkState (lMarket (wLane w'))).
Proof.
  apply (rebuild_resets_consumers [fx_bar 0; fx_bar 1] (fx_bar 2) fx_world).
  - apply fx_lane_ok.
  - apply fx_series.
  - reflexivity.
  - apply fx_bars_encodable.
  - apply fx_averages_encodable.
  - apply NewMemory_wf.
  - vm_compute. reflexivity.
  - intros current Hc. unfold fx_world, NewMemory in Hc. cbn [wStore meCursors] in Hc. by rewrite lookup_empty in Hc.
Defined.

(** ** Recovery *)

(** C2: After a crash, a fresh lane recovers the whole history from the last
    checkpoint and a seed, in any order, that reaches from the checkpoint to
    the cursor; it publishes nothing and writes nothing. *)
Theorem recovery_resumes_history `{Runtime} {S} `{StoreLaws S} hist1 hist2 pre cp cur saved_market recovery seed
    (w : World S) :
  lane_wf (wLane w) -> lLastBar (wLane w) = None ->
  LoadRecovery (wStore w) (lKey (wLane w)) = Ok recovery -> srHasCursor recovery = true ->
  series_bars (lKey (wLane w)) (hist1 ++ hist2) -> len (hist1 ++ hist2) < 2 ^ 64 - 1 ->
  lane_market saved_market ->
  durable (lPeriods (wLane w)) hist1 hist2 recovery cp cur saved_market ->
  pre <> [] -> pre `suffix_of` hist1 -> seed ≡ₚ pre ++ hist2 ->
  exists w', applySeed seed w = (w', Ok tt) /\ refines (wLane w') (hist1 ++ hist2) /\
    wStore w' = wStore w /\ wOut w' = wOut w.
Proof. apply applySeed_recovers. Qed.

(** A fresh lane on the store of the three bars. *)
Definition fx_crashed : World Memory := mkWorld fx_lane (wStore fx_three) [].
Definition fx_recovery : SeriesRecovery :=
  match Memory_LoadRecovery (wStore fx_three) fx_key with Ok r => r | _ => mkRecovery [] 0 "" false end.

#[local] Opaque fx_one fx_two fx_three fx_recovery.

(** The checkpoint at the second bar, by period. *)
Definition fx_data : json := match Market_Snapshot (lMarket (wLane fx_two)) with Ok j => j | _ => JBool false end.
Definition fx_snapshot (p : Z) : ReducerSnapshot :=
  if p =? 0 then mkSnapshot (MarketAlgorithm DefaultMarketConfig) 0 (bOpenTime (fx_bar 1)) fx_data
  else mkSnapshot (emaAlgorithm p) p (bOpenTime (fx_bar 1))
         match EMA_Snapshot (ema_of [fx_bar 0; fx_bar 1] p) with Ok j => j | _ => JBool false end.

Lemma fx_snapshots : srSnapshots fx_recovery ≡ₚ map fx_snapshot [0; 2; 3].
Proof.
  assert (Hs : srSnapshots fx_recovery = map fx_snapshot (map rsPeriod (srSnapshots fx_recovery)))
    by (vm_compute; reflexivity).
  rewrite Hs. apply Permutation_map.
  assert (Ho : merge_sort Z.le (map rsPeriod (srSnapshots fx_recovery)) = [0; 2; 3]) by (vm_compute; reflexivity).
  rewrite <-Ho. symmetry. apply merge_sort_Permutation.
Qed.

Lemma fx_durable :
  durable (lPeriods fx_lane) [fx_bar 0; fx_bar 1] [fx_bar 2] fx_recovery (fx_bar 1) (fx_bar 2) (lMarket (wLane fx_two)).
Proof.
  split; [reflexivity|reflexivity|vm_compute; reflexivity..| |].
  - rewrite (proj2 fx_two_bars). pose proof fx_bars_encodable as Hb. unfold fx_bars in Hb.
    rewrite !Forall_cons in Hb. rewrite !Forall_cons. tauto.
  - exists fx_data. split; [vm_compute; reflexivity|]. rewrite fx_periods. split; rewrite fx_snapshots; [|reflexivity].
    assert (Hp : forall p, p ∈ [2; 3] -> saved (ema_of [fx_bar 0; fx_bar 1]) [2; 3] (bOpenTime (fx_bar 1)) fx_data (fx_snapshot p)).
    { apply Forall_forall. constructor; [|constructor; [|constructor]]; right; [exists 2|exists 3];
        eexists; (split; [set_solver|]); (split; [vm_compute; reflexivity|vm_compute; reflexivity]). }
    cbn [map]. constructor; [left; reflexivity|].
    constructor; [apply Hp; set_solver|]. constructor; [apply Hp; set_solver|constructor].
Qed.

Lemma recovery_resumes_history_witness :
  exists w', applySeed [fx_bar 2; fx_bar 1] fx_crashed = (w', Ok tt) /\
    refines (wLane w') ([fx_bar 0; fx_bar 1] ++ [fx_bar 2]) /\
    wStore w' = wStore fx_crashed /\ wOut w' = wOut fx_crashed.
Proof.
  apply (recovery_resumes_history [fx_bar 0; fx_bar 1] [fx_bar 2] [fx_bar 1] (fx_bar 1) (fx_bar 2)
    (lMarket (wLane fx_two)) fx_recovery [fx_bar 2; fx_bar 1] fx_crashed).
  - apply fx_lane_ok.
  - vm_compute. reflexivity.
  - vm_compute. reflexivity.
  - vm_compute. reflexivity.
  - apply fx_series.
  - reflexivity.
  - apply (lw_market _ (proj1 fx_two_ok)).
  - apply fx_durable.
  - discriminate.
  - exists [fx_bar 0]. reflexivity.
  - apply Permutation_swap.
Defined.

Lemma Ok_inj {E A} (a b : A) : @Ok E A a = Ok b -> a = b.
Proof. by intros [= ->]. Qed.

(** The same store for [lane_state_is_a_history]: the two saved bars, and the
    third and a fourth from the seed. *)
Lemma fx_left_by : left_by (lPeriods fx_lane) fx_recovery [fx_bar 0; fx_bar 1] (fx_bar 1).
Proof.
  destruct fx_durable as [_ _ _ _ Hb He (data & Hd & Hck)]. split; [|reflexivity|].
  - apply (increasing_app_inv [fx_bar 0; fx_bar 1] [fx_bar 2]). apply fx_series.
  - exists (lMarket (wLane fx_two)), data. split_and!; [apply (lw_market _ (proj1 fx_two_ok))|done..|].
    rewrite filter_all_true; [done|]. intros s Hs. rewrite fx_snapshots in Hs.
    assert (Hall : Forall (fun s => read_by (lPeriods fx_lane) s = true) (map fx_snapshot [0; 2; 3]))
      by (repeat constructor; vm_compute; reflexivity).
    rewrite Forall_forall in Hall. by apply Hall.
Qed.

Lemma fx_snapshots_small : Forall (snapshot_small 2) (srSnapshots fx_recovery).
Proof.
  rewrite fx_snapshots. apply Forall_forall. intros s Hs e He.
  assert (Hall : Forall (fun s => match unmarshal_EMASnapshot (rsState s) with
                                  | Some e => esSamples e <=? 2 | None => true end = true) (map fx_snapshot [0; 2; 3]))
    by (repeat constructor; vm_compute; reflexivity).
  rewrite Forall_forall in Hall. specialize (Hall s Hs). cbn beta in Hall. rewrite He in Hall. by apply Z.leb_le.
Qed.

#[local] Definition fx_seed : list Bar := [fx_bar 3; fx_bar 2; fx_bar 1].

Lemma fx_continues : continues fx_recovery (fx_bar 1) fx_seed.
Proof.
  assert (Ht : srCursorOpenTime fx_recovery = bOpenTime (fx_bar 2)) by (vm_compute; reflexivity). split.
  - assert (Hn : forall l : list Z, l = [bOpenTime (fx_bar 2)] -> NoDup l) by (intros l ->; apply NoDup_singleton).
    apply Hn. vm_compute. reflexivity.
  - intros b _ _ _ Hc _. exfalso. rewrite Ht in Hc. vm_compute in Hc. discriminate.
Qed.

Lemma lane_state_is_a_history_witness :
  let w' := fst (run_command (CommandSeed fx_seed) fx_crashed) in
  lane_wf (wLane w') /\ (exists err, @Ok LaneError (option LaneError) None = Ok err) /\
  exists hist hist', lane_at fx_crashed hist /\ lane_at w' hist' /\
    (evolves hist (CommandSeed fx_seed) hist' \/ resumes fx_crashed (CommandSeed fx_seed) hist').
Proof.
  apply (lane_state_is_a_history fx_options fx_crashed _ (CommandSeed fx_seed)).
  - vm_compute. discriminate.
  - repeat constructor.
  - apply reach_new. vm_compute. reflexivity.
  - exists 2. split; [lia|]. split; [vm_compute; reflexivity|]. split; [repeat constructor; vm_compute; discriminate|].
    intros bars recovery [= <-] _ Hload _. assert (recovery = fx_recovery) as ->.
    { assert (Hf : LoadRecovery (wStore fx_crashed) (lKey (wLane fx_crashed)) = Ok fx_recovery) by (vm_compute; reflexivity).
      rewrite Hf in Hload. exact (eq_sym (Ok_inj _ _ Hload)). }
    split.
    + apply fx_snapshots_small.
    + right. exists [fx_bar 0; fx_bar 1], (fx_bar 1). split_and!; [apply fx_left_by|vm_compute; discriminate|].
      apply fx_continues.
  - apply pair_of. vm_compute. reflexivity.
Defined.

(** A bar that the seed repeats after the checkpoint is replayed twice, where
    a rebuild from the same seed and a catch-up skip it: the assumption on
    repeated times in [continues] is needed. *)
Example seed_duplicate_replayed :
  lClosedCount (wLane (fst (applySeed [fx_bar 1; fx_bar 2; fx_bar 2] fx_crashed))) = 4 /\
  lClosedCount (wLane (fst (applySeed [fx_bar 1; fx_bar 2] fx_crashed))) = 3 /\
  lClosedCount (wLane (fst (applySeed [fx_bar 0; fx_bar 1; fx_bar 2; fx_bar 2] fx_world))) = 3.
Proof. split_and!; vm_compute; reflexivity. Qed.
