(* ===== verification/DeliveryTheorems.v ===== *)
(** * Theorems about delivery

    The in-memory store as an event log, the outbox dispatcher over it, and
    the hub that fans events out to subscribers, each with an application at
    concrete inputs. *)

From stdpp Require Import prelude gmap strings list sorting.
From Stdlib Require Import ZArith Lia SpecFloat String.
From S2P Require Import Prelude GoFloat GoText Sha256 Model Ema StoreSpec Memory MemoryProofs Lane.
From S2P Require Import LaneReducers LaneProofs LaneRefinement LaneRecovery LaneHistory LaneAccept.
From S2P Require Import Outbox Hub HubProofs Fixtures.

#[local] Open Scope string_scope.
#[local] Open Scope list_scope.
#[local] Open Scope Z_scope.

(** ** Concrete events *)

Definition fx_event (id : string) (cursor : Z) : SignalEvent :=
  {| evSchema := signalSchema; evCursor := cursor; evEventID := id; evEventType := "market.state";
     evDataset := "d"; evSymbol := "X"; evTimeframe := "1m"; evBarOpenTime := 0; evSourceBar := None;
     evBarRevision := 1; evAnalysisRevision := 1; evProvisional := false; evReset := false;
     evResetHistory := []; evAlgorithm := mkAlgorithm "a" "1" ""; evIndicator := None; evMarket := None;
     evIndicators := [] |}.

(** ** The event log *)

(** A commit ahead of the cursor succeeds: every event comes back under a
    cursor, the log stays strictly ordered by cursor, and the bar is the new
    cursor. *)
Theorem commit_numbers_events s key bar events snapshots :
  memory_wf s -> meNext s + len events < 2 ^ 63 - 1 ->
  (forall current, meCursors s !! SeriesKey_String key = Some current -> bOpenTime current < bOpenTime bar) ->
  exists s' committed, Memory_CommitClosed s key bar events snapshots = (s', Ok committed) /\
    memory_wf s' /\ meCursors s' !! SeriesKey_String key = Some bar /\
    Forall2 (fun e e' => evEventID e' = evEventID e /\ 0 < evCursor e') events committed.
Proof. apply Memory_CommitClosed_ok. Qed.

Lemma commit_numbers_events_witness :
  exists s' committed,
    Memory_CommitClosed NewMemory fx_key (fx_bar 0) [fx_event "a" 0; fx_event "b" 0] [] = (s', Ok committed) /\
    memory_wf s' /\ meCursors s' !! SeriesKey_String fx_key = Some (fx_bar 0) /\
    Forall2 (fun e e' => evEventID e' = evEventID e /\ 0 < evCursor e') [fx_event "a" 0; fx_event "b" 0] committed.
Proof.
  apply commit_numbers_events; [apply NewMemory_wf|reflexivity|].
  intros current Hc. unfold NewMemory in Hc. cbn [meCursors] in Hc. by rewrite lookup_empty in Hc.
Defined.

(** A commit at or behind the cursor never changes the store: the cursor's
    own bar is acknowledged with no events, anything else is refused. *)
Theorem commit_behind_cursor s key bar current events snapshots :
  meCursors s !! SeriesKey_String key = Some current -> bOpenTime bar <= bOpenTime current ->
  Memory_CommitClosed s key bar events snapshots =
    (s, if decide (bOpenTime bar = bOpenTime current /\ barHash bar = barHash current)
        then Ok [] else Fail "bar conflicts with memory cursor").
Proof.
  intros Hc Ht. unfold Memory_CommitClosed. rewrite Hc, (proj2 (Z.ltb_ge _ _)) by done. cbn [negb].
  destruct (Z.eqb_spec (bOpenTime bar) (bOpenTime current)); cbn [andb]; [|by rewrite decide_False by tauto].
  destruct (String.eqb_spec (barHash bar) (barHash current)); [by rewrite decide_True|by rewrite decide_False by tauto].
Qed.

Definition fx_committed : Memory :=
  fst (Memory_CommitClosed NewMemory fx_key (fx_bar 1) [fx_event "a" 0; fx_event "b" 0; fx_event "c" 0] []).

Lemma commit_behind_cursor_witness :
  Memory_CommitClosed fx_committed fx_key (fx_bar 0) [fx_event "d" 0] [] =
    (fx_committed, if decide (bOpenTime (fx_bar 0) = bOpenTime (fx_bar 1) /\ barHash (fx_bar 0) = barHash (fx_bar 1))
                   then Ok [] else Fail "bar conflicts with memory cursor").
Proof. apply commit_behind_cursor; [vm_compute; reflexivity|vm_compute; discriminate]. Defined.

Lemma fx_committed_wf : memory_wf fx_committed.
Proof.
  destruct (Memory_CommitClosed_ok NewMemory fx_key (fx_bar 1)
    [fx_event "a" 0; fx_event "b" 0; fx_event "c" 0] []) as (s' & committed & Hc & Hwf & _);
    [apply NewMemory_wf|reflexivity| |].
  - intros current Hcur. unfold NewMemory in Hcur. cbn [meCursors] in Hcur. by rewrite lookup_empty in Hcur.
  - unfold fx_committed. by rewrite Hc.
Qed.

(** ** The outbox *)

(** A flush over the in-memory store with a publisher that accepts
    everything terminates, publishes every pending event once and in cursor
    order, in batches of 250, and leaves nothing pending. *)
Theorem flush_publishes_everything fuel s log :
  memory_wf s -> (List.length (pending s) / 250 < fuel)%nat ->
  exists s', Flush fuel s (mkLog log []) = Some (s', mkLog (log ++ pending s) [], Ok tt) /\
    pending s' = [] /\ memory_wf s' /\ meEvents s' = meEvents s /\
    StronglySorted Z.lt (map evCursor (pending s)).
Proof.
  intros Hwf Hf. destruct (Flush_memory fuel s log Hwf Hf) as (s' & H1 & H2 & H3 & H4).
  exists s'. split_and!; try done. by apply pending_sorted.
Qed.

Lemma flush_publishes_everything_witness :
  exists s', Flush 1 fx_committed (mkLog [] []) = Some (s', mkLog ([] ++ pending fx_committed) [], Ok tt) /\
    pending s' = [] /\ memory_wf s' /\ meEvents s' = meEvents fx_committed /\
    StronglySorted Z.lt (map evCursor (pending fx_committed)).
Proof. apply flush_publishes_everything; [apply fx_committed_wf|vm_compute; apply le_n]. Defined.

(** A flush that fails loses nothing: what stays pending is a suffix of what
    was pending, and every event before that suffix was published, in order. *)
Theorem flush_failure_loses_nothing fuel s p s' p' e :
  memory_wf s -> Flush fuel s p = Some (s', p', Fail e) ->
  exists n sent, pending s' = drop n (pending s) /\ lgEvents p' = lgEvents p ++ sent /\
    take n (pending s) `prefix_of` sent /\ sent `prefix_of` pending s.
Proof. apply Flush_failure. Qed.

Lemma flush_failure_loses_nothing_witness :
  exists n sent, pending fx_committed = drop n (pending fx_committed) /\
    [fx_event "a" 1] = [] ++ sent /\
    take n (pending fx_committed) `prefix_of` sent /\ sent `prefix_of` pending fx_committed.
Proof.
  apply (flush_failure_loses_nothing 1 fx_committed (mkLog [] [false; true]) fx_committed
    (mkLog [fx_event "a" 1] []) "publish failed"); [apply fx_committed_wf|vm_compute; reflexivity].
Defined.

(** ** The hub *)

(** A subscriber's life, whatever the interleaving of publications, its
    activation, receipts and its close: no step panics, everything sent to it
    matches its filter, confirmed cursors arrive in order and no more often than
    they were published, and strictly increase when the published cursors are
    distinct. *)
Theorem subscriber_sees_ordered_events filter buffer ops :
  Forall op_ok ops ->
  exists c received, loop client_step ops (new_client filter buffer, []) = Some (c, received) /\
    Forall (fun e => matches filter e = true) (sent_log (c, received)) /\
    StronglySorted Z.le (confirmed (sent_log (c, received))) /\
    confirmed (sent_log (c, received)) ⊆+ confirmed (offered ops) /\
    (NoDup (confirmed (offered ops)) -> StronglySorted Z.lt (confirmed (sent_log (c, received)))).
Proof.
  intros Hops. destruct (client_run_inv ops _ (new_client_inv filter buffer) Hops) as ([c received] & Hrun & Hinv & Hf & Hsub).
  exists c, received. cbn [fst] in Hf.
  assert (Hsub' : confirmed (sent_log (c, received)) ⊆+ confirmed (offered ops)).
  { etrans; [|exact Hsub]. cbn [fst]. rewrite confirmed_app. by apply submseteq_inserts_r. }
  pose proof (ci_sorted _ Hinv) as Hs. split_and!; [done| |done|done|].
  - pose proof (ci_matches _ Hinv) as Hm. apply Forall_app in Hm as [Hm _]. cbn [fst] in Hm. by rewrite Hf in Hm.
  - intros Hnd. apply sorted_le_NoDup_lt; [done|]. apply submseteq_Permutation in Hsub' as [k Hk].
    rewrite Hk in Hnd. by apply NoDup_app in Hnd as [? _].
Qed.

Definition fx_all : Subscription := mkSubscription [] [] ∅ true true.
Definition fx_ops : list client_op :=
  [OpEnqueue (fx_event "b" 2); OpEnqueue (fx_event "a" 1); OpActivate 0; OpEnqueue (fx_event "c" 3); OpRecv].

Lemma subscriber_sees_ordered_events_witness :
  exists c received, loop client_step fx_ops (new_client fx_all 8, []) = Some (c, received) /\
    Forall (fun e => matches fx_all e = true) (sent_log (c, received)) /\
    StronglySorted Z.le (confirmed (sent_log (c, received))) /\
    confirmed (sent_log (c, received)) ⊆+ confirmed (offered fx_ops) /\
    (NoDup (confirmed (offered fx_ops)) -> StronglySorted Z.lt (confirmed (sent_log (c, received)))).
Proof. apply subscriber_sees_ordered_events. repeat constructor; vm_compute; discriminate. Defined.

(** Activation closes the replay barrier: the events that waited go out
    sorted by cursor, provisional ones after confirmed ones, without those the
    replay already covered, and the client counts as served up to the replay's
    cursor. *)
Theorem activation_releases_pending c received afterCursor :
  client_inv (c, received) -> hcActive c = false -> hcClosed c = false ->
  activate c afterCursor =
    Some (mkClient (hcFilter c)
            (mkChan (chCap (hcSend c)) (kept afterCursor (sort_stable cursor_less (hcPending c))) false) true []
            (Z.max afterCursor (foldl next_cursor 0 (kept afterCursor (sort_stable cursor_less (hcPending c)))))
            false).
Proof. apply activate_ok. Qed.

Definition fx_waiting : hubClient :=
  mkClient fx_all (mkChan 8 [] false) false [fx_event "b" 2; fx_event "a" 1] 0 false.

Lemma fx_waiting_ok : client_inv (fx_waiting, []).
Proof.
  destruct (client_run_inv [OpEnqueue (fx_event "b" 2); OpEnqueue (fx_event "a" 1)] _ (new_client_inv fx_all 8))
    as (st & Hrun & Hinv & _); [by repeat constructor|].
  assert (E : loop client_step [OpEnqueue (fx_event "b" 2); OpEnqueue (fx_event "a" 1)] (new_client fx_all 8, [])
              = Some (fx_waiting, [])) by (vm_compute; reflexivity).
  rewrite E in Hrun. by injection Hrun as <-.
Qed.

Lemma activation_releases_pending_witness :
  activate fx_waiting 1 =
    Some (mkClient fx_all (mkChan 8 (kept 1 (sort_stable cursor_less (hcPending fx_waiting))) false) true []
            (Z.max 1 (foldl next_cursor 0 (kept 1 (sort_stable cursor_less (hcPending fx_waiting))))) false).
Proof.
  apply (activation_releases_pending fx_waiting [] 1); [apply fx_waiting_ok|reflexivity|reflexivity].
Defined.

(** Publishing reaches every client of the hub exactly once, whatever the
    order in which the map of clients is visited: each ends as its own
    [enqueue] leaves it, and no step panics. *)
Theorem publish_reaches_every_client `{Runtime} h e :
  hub_ok h ->
  exists h', Hub_Publish h e = Some h' /\ hub_ok h' /\ forall id, h' !! id = h !! id ≫= fun c => enqueue c e.
Proof. apply Hub_Publish_ok. Qed.

Lemma publish_reaches_every_client_witness :
  exists h', Hub_Publish (<[1 := fx_waiting]> NewHub) (fx_event "c" 3) = Some h' /\ hub_ok h' /\
    forall id, h' !! id = (<[1 := fx_waiting]> NewHub : Hub) !! id ≫= fun c => enqueue c (fx_event "c" 3).
Proof.
  apply publish_reaches_every_client. intros id c Hc. unfold NewHub in Hc.
  apply lookup_insert_Some in Hc as [[_ <-]|[_ Hc]]; [exists []; apply fx_waiting_ok|apply (lookup_empty_Some (M := gmap Z)) in Hc as []].
Defined.
