(* ===== verification/StoreTheorems.v ===== *)
(** * Theorems about the Postgres store and the outbox

    Transactions, recovery, the queue of the outbox and migrations, each with
    an application at concrete inputs. *)

From stdpp Require Import prelude gmap strings list sorting.
From Stdlib Require Import ZArith Lia SpecFloat Ascii String.
From S2P Require Import Prelude GoFloat GoText Sha256 GoStrings Monitor Model Ema MarketZones StoreSpec.
From S2P Require Import Memory MemoryProofs Postgres PostgresProofs PostgresRuns PostgresEffects Outbox PostgresOutbox StoreMirror.
From S2P Require Import Lane LaneProofs LaneRefinement Migrations Fixtures.

#[local] Open Scope string_scope.
#[local] Open Scope list_scope.
#[local] Open Scope Z_scope.

(** ** Transactions *)

(** C8: A commit to Postgres is exactly once and all or nothing: it either
    fails, at whatever statement, and leaves every table as it was; or finds
    the very bar, by time and hash, at the cursor of the series, and returns no
    events and changes nothing; or the bar is newer than the cursor, and then
    the cursor is at the bar, the point and the market state of every event and
    every snapshot are in their rows, no other row of these tables has changed,
    and every event is in the outbox under the cursor it comes back with.  A
    bar behind the cursor, or another bar at it, is never accepted.  With a
    database that answers, the same bar again does succeed, and so does a newer
    one whose events and snapshots fit the columns and whose ids are new. *)
Theorem postgres_commit_exact `{Codec} p key bar events snapshots p' r :
  Postgres_CommitClosed p key bar events snapshots = (p', r) -> distinct_rows key events snapshots ->
  let t := pgTables p in
  let t' := pgTables p' in
  match r with
  | Ok committed =>
      (exists row, tbCursors t !! series_id key = Some row /\ bOpenTime bar = crLastOpenTime row /\
         barHash bar = crLastBarHash row /\ committed = [] /\ t' = t) \/
      ((forall row, tbCursors t !! series_id key = Some row -> crLastOpenTime row < bOpenTime bar) /\
       tbCursors t' = <[series_id key := mkCursorRow (timestamptz (bOpenTime bar)) (barHash bar)]> (tbCursors t) /\
       written_tables key events snapshots t t' /\ (exists rows, tbOutbox t' = tbOutbox t ++ rows) /\
       Forall2 (queued (tbOutbox t')) events committed)
  | Fail _ => t' = t
  | Panic => False
  end /\
  (forall row, pgFaults p = [] -> tbCursors t !! series_id key = Some row -> bOpenTime bar = crLastOpenTime row ->
     barHash bar = crLastBarHash row -> r = Ok []) /\
  (pgFaults p = [] -> (forall row, tbCursors t !! series_id key = Some row ->
     crLastOpenTime row < bOpenTime bar /\ crLastOpenTime row <= timestamptz (bOpenTime bar)) ->
   Forall event_storable events -> NoDup (map evEventID events) -> Forall (id_free t) events ->
   pgSequence p + len events < 2 ^ 63 -> Forall (fun s => fits_i32 (rsPeriod s) = true) snapshots -> is_ok r = true).
Proof.
  intros Hc Hd t t'. split_and!.
  - destruct r as [committed|e|].
    + destruct (commit_cases _ _ _ _ _ _ _ Hc) as [Hsame|Hnew]; [by left|right].
      destruct (commit_writes _ _ _ _ _ _ _ Hc Hnew Hd) as (Hw & Hcur & Ho & Hq). by split_and!.
    + exact (transaction_rolls_back _ _ _ _ Hc).
    + destruct (safe_commit key bar events snapshots p) as (Hp & _). by rewrite Hc in Hp.
  - intros row Hf Hrow Ht Hh. destruct (commit_again p key bar row events snapshots Hf Hrow Ht Hh) as [p1 H1].
    rewrite Hc in H1. by injection H1 as _ ->.
  - intros Hf Hcur Hst Hids Hfree Hroom Hs.
    destruct (commit_goes p key bar events snapshots Hf) as (p1 & committed & H1); try done.
    + intros row Hrow. by apply Hcur.
    + intros row Hrow. by apply Hcur.
    + rewrite Hc in H1. by injection H1 as _ ->.
Qed.

(** A database whose columns keep everything they are given. *)
#[global] Instance fx_codec : Codec := {|
  Payload := SignalEvent;
  marshal_event := Some;
  unmarshal_event := Some;
  payload_analysis e := Some (aName (evAlgorithm e));
  market_marshals _ := true;
  jsonb j := j;
  timestamptz t := t
|}.

Definition fx_point (id : string) (n : Z) : SignalEvent :=
  {| evSchema := signalSchema; evCursor := 0; evEventID := id; evEventType := "indicator.point";
     evDataset := "d"; evSymbol := "X"; evTimeframe := "1m"; evBarOpenTime := n; evSourceBar := None;
     evBarRevision := 1; evAnalysisRevision := 1; evProvisional := false; evReset := false;
     evResetHistory := []; evAlgorithm := mkAlgorithm "ema" "1" "h";
     evIndicator := Some (mkPayload 9 (of_int 100) 20 true); evMarket := None; evIndicators := [] |}.

Definition fx_snapshot (period : Z) : ReducerSnapshot :=
  mkSnapshot (mkAlgorithm "ema" "1" "h") period (bOpenTime (fx_bar 1)) (JInt period).

Definition fx_database (faults : list bool) : Postgres := mkPostgres empty_tables 0 faults.

Definition fx_commit : Postgres * outcome StoreError (list SignalEvent) :=
  Postgres_CommitClosed (fx_database []) fx_key (fx_bar 1) [fx_point "a" 1; fx_point "b" 2] [fx_snapshot 9; fx_snapshot 21].
Definition fx_commit_events : list SignalEvent := [set_cursor (fx_point "a" 1) 1; set_cursor (fx_point "b" 2) 2].

Lemma fx_distinct : distinct_rows fx_key [fx_point "a" 1; fx_point "b" 2] [fx_snapshot 9; fx_snapshot 21].
Proof. split; apply (bool_decide_unpack _); vm_compute; exact I. Qed.

Lemma fx_point_storable id n : event_storable (fx_point id n).
Proof.
  unfold event_storable. split_and!; [by eexists|reflexivity|reflexivity|].
  change (is_point (fx_point id n)) with true. cbv iota. eexists. split_and!; reflexivity.
Qed.

(** A commit whose first statement after an insert fails. *)
Example fx_failed_commit :
  let commit := Postgres_CommitClosed (fx_database (replicate 6 false ++ [true])) fx_key (fx_bar 1)
                  [fx_point "a" 1; fx_point "b" 2] [] in
  is_ok commit.2 = false /\ pgSequence commit.1 = 1.
Proof. vm_compute. by split. Qed.

Lemma postgres_commit_exact_witness :
  is_ok fx_commit.2 = true /\
  tbCursors (pgTables fx_commit.1) !! series_id fx_key =
    Some (mkCursorRow (bOpenTime (fx_bar 1)) (barHash (fx_bar 1))) /\
  rows_written point_id (fun _ row => row) (written_points [fx_point "a" 1; fx_point "b" 2]) ∅ (tbPoints (pgTables fx_commit.1)) /\
  List.length (written_points [fx_point "a" 1; fx_point "b" 2]) = 2%nat.
Proof.
  destruct (postgres_commit_exact (fx_database []) fx_key (fx_bar 1) [fx_point "a" 1; fx_point "b" 2]
    [fx_snapshot 9; fx_snapshot 21] fx_commit.1 fx_commit.2 (surjective_pairing _) fx_distinct) as (Hall & _ & Hgoes).
  assert (Hok : is_ok fx_commit.2 = true).
  { apply Hgoes; [reflexivity| | |apply (bool_decide_unpack _); vm_compute; exact I| |reflexivity|].
    4:{ by repeat (apply Forall_cons; split; [reflexivity|]). }
    - intros row Hrow. cbn in Hrow. by rewrite lookup_empty in Hrow.
    - by repeat (apply Forall_cons; split; [apply fx_point_storable|]).
    - repeat (apply Forall_cons; split; [split; apply map_Forall_empty|]). apply Forall_nil_2. }
  split; [exact Hok|]. destruct fx_commit.2 as [committed|e|]; [|done|done].
  destruct Hall as [(row & Hrow & _)|(_ & Hcur & [Hp _ _] & _)]; [cbn in Hrow; by rewrite lookup_empty in Hrow|].
  split_and!; [rewrite Hcur; apply lookup_insert_eq|apply Hp..|vm_compute; reflexivity].
Defined.




(** ** Recovery *)

(** C18: A recovery reads what the last commit wrote: after a commit of a newer
    bar succeeded, loading the recovery of the series gives the cursor and hash
    of that bar and every snapshot written with it, as the columns keep them;
    and the events come back as they were given, each with the cursor under
    which the outbox has it. *)
Theorem postgres_commit_recovers `{Codec} `{Runtime} p p' key bar events snapshots committed :
  Postgres_CommitClosed p key bar events snapshots = (p', Ok committed) -> newer (pgTables p) key bar ->
  NoDup (map (snapshot_id key) snapshots) -> Forall (eq false) (take 3 (pgFaults p')) ->
  (exists saved, Postgres_LoadRecovery p' key = Ok (mkRecovery saved (timestamptz (bOpenTime bar)) (barHash bar) true) /\
     forall s, s ∈ snapshots -> stored s ∈ saved) /\
  Forall2 (queued (tbOutbox (pgTables p'))) events committed.
Proof.
  intros Hc Hnew Hnd Hf. destruct (commit_runs _ _ _ _ _ _ _ Hc Hnew) as (t1 & t2 & n1 & n2 & u & H1 & H2 & H3).
  apply commit_events_runs in H1 as (new & rows & -> & _ & _ & _ & Hq & _).
  apply snapshots_run in H2 as (Hs2 & _ & Ho2 & _). apply upsertCursor_runs in H3 as (Hc3 & Hs3 & Ho3 & _). split.
  - eapply recovery_reads; [by rewrite Hc3, lookup_insert_eq|by rewrite Hs3, Hs2|done|done].
  - cbn [app]. by rewrite Ho3, Ho2.
Qed.

Lemma fx_commit_ok : fx_commit = (fx_commit.1, Ok fx_commit_events).
Proof. apply pair_of. vm_compute. reflexivity. Qed.

Lemma fx_newer : newer (pgTables (fx_database [])) fx_key (fx_bar 1).
Proof. intros row Hrow. cbn in Hrow. by rewrite lookup_empty in Hrow. Qed.

Lemma postgres_commit_recovers_witness :
  (exists saved, Postgres_LoadRecovery fx_commit.1 fx_key =
       Ok (mkRecovery saved (timestamptz (bOpenTime (fx_bar 1))) (barHash (fx_bar 1)) true) /\
     forall s, s ∈ [fx_snapshot 9; fx_snapshot 21] -> stored s ∈ saved) /\
  Forall2 (queued (tbOutbox (pgTables fx_commit.1))) [fx_point "a" 1; fx_point "b" 2] fx_commit_events.
Proof.
  apply (postgres_commit_recovers (fx_database []) fx_commit.1 fx_key (fx_bar 1)
    [fx_point "a" 1; fx_point "b" 2] [fx_snapshot 9; fx_snapshot 21] fx_commit_events);
    [exact fx_commit_ok|exact fx_newer| |vm_compute; apply Forall_nil_2].
  apply (bool_decide_unpack _). vm_compute. exact I.
Defined.

(** A commit of events the outbox does not know appends exactly them to
    the queue of the dispatcher, in their order and behind everything that is
    pending, as the payload column gives them back. *)
Theorem postgres_commit_queues `{Codec} p p' key bar events snapshots committed :
  Postgres_CommitClosed p key bar events snapshots = (p', Ok committed) -> newer (pgTables p) key bar ->
  NoDup (map evEventID events) -> Forall (fun e => evEventID e ∉ map orEventID (tbOutbox (pgTables p))) events ->
  Forall faithful events -> decodable p ->
  decodable p' /\ pg_queue p' = pg_queue p ++ committed.
Proof. apply commit_appends. Qed.

Lemma postgres_commit_queues_witness : decodable fx_commit.1 /\ pg_queue fx_commit.1 = [] ++ fx_commit_events.
Proof.
  apply (postgres_commit_queues (fx_database []) fx_commit.1 fx_key (fx_bar 1) [fx_point "a" 1; fx_point "b" 2]
    [fx_snapshot 9; fx_snapshot 21] fx_commit_events);
    [exact fx_commit_ok|exact fx_newer| | | |reflexivity].
  - apply (bool_decide_unpack _). vm_compute. exact I.
  - repeat constructor; set_solver.
  - repeat constructor; by intros payload [= <-].
Defined.

(** ** One contract for both stores *)

(** C9: The Postgres store simulates the in-memory store: while the outbox table
    mirrors the log, event queries and the dispatcher's batches return the same
    events from both; marking issued cursors keeps the mirror; and a commit of
    a newer bar with new event ids that Postgres accepts is accepted by the
    memory store with the same events and cursors, and keeps the mirror. *)
Theorem postgres_simulates_memory `{Codec} m p :
  mirrors m (pgTables p) (pgSequence p) -> pg_wf p ->
  (head (pgFaults p) <> Some true ->
   (forall filter, fits_i32 (efPeriod filter) = true -> Postgres_QueryEvents p filter = Ok (Memory_QueryEvents m filter)) /\
   (forall limit, limit <= 1000 -> Postgres_PendingEvents p limit = Ok (Memory_PendingEvents m limit))) /\
  (forall cursors p', Forall (fun c => c <= pgSequence p) cursors -> Postgres_MarkPublished p cursors = (p', Ok tt) ->
     mirrors (Memory_MarkPublished m cursors).1 (pgTables p') (pgSequence p')) /\
  (forall key bar events snapshots p' committed, newer (pgTables p) key bar ->
     (forall current, meCursors m !! SeriesKey_String key = Some current -> bOpenTime current < bOpenTime bar) ->
     NoDup (map evEventID events) -> (forall e, e ∈ events -> eventByID m (evEventID e) = None) -> Forall kept events ->
     Postgres_CommitClosed p key bar events snapshots = (p', Ok committed) ->
     exists m', Memory_CommitClosed m key bar events snapshots = (m', Ok committed) /\
       mirrors m' (pgTables p') (pgSequence p')).
Proof.
  intros Hm Hwf. split_and!.
  - intros Hf. split; intros; [by apply mirror_query|by apply mirror_pending].
  - intros cursors p' Hc. by apply mirror_mark.
  - intros key bar events snapshots p' committed. by apply mirror_commit.
Qed.

Lemma fx_mirror : mirrors NewMemory (pgTables (fx_database [])) (pgSequence (fx_database [])).
Proof. split; [constructor|done|done|]. intros c _. unfold is_published, NewMemory. cbn [mePublished]. by rewrite lookup_empty. Qed.

Lemma postgres_simulates_memory_witness :
  Postgres_PendingEvents (fx_database []) 250 = Ok (Memory_PendingEvents NewMemory 250) /\
  exists m', Memory_CommitClosed NewMemory fx_key (fx_bar 1) [fx_point "a" 1; fx_point "b" 2] [fx_snapshot 9; fx_snapshot 21]
      = (m', Ok fx_commit_events) /\
    mirrors m' (pgTables fx_commit.1) (pgSequence fx_commit.1).
Proof.
  destruct (postgres_simulates_memory NewMemory (fx_database []) fx_mirror (empty_wf [])) as (Hread & _ & Hcommit). split.
  - apply Hread; [discriminate|lia].
  - eapply Hcommit; [exact fx_newer| | | | |exact fx_commit_ok].
    + intros current Hcur. unfold NewMemory in Hcur. cbn [meCursors] in Hcur. by rewrite lookup_empty in Hcur.
    + apply (bool_decide_unpack _). vm_compute. exact I.
    + intros e He. rewrite !elem_of_cons in He. destruct He as [->|[->|He%elem_of_nil]]; [vm_compute; reflexivity..|done].
    + apply Forall_forall. intros e _ payload Hp. injection Hp as <-. by split.
Defined.

(** ** The dispatcher *)

(** C11: A flush ends and loses nothing, over any store that keeps the laws of
    an outbox and any publisher: with a batch of fuel for every 250 pending
    events it returns, having published the queue in cursor order up to the
    first failure; it takes only events off the queue that were published, and
    all of them when nothing failed. *)
Theorem flush_drains_outbox {S P} `{OutboxLaws S} `{OutboxPublisher P} fuel (s : S) (p : P) :
  ob_ready s -> (List.length (ob_queue s) / 250 < fuel)%nat ->
  exists s' p' r k, Flush fuel s p = Some (s', p', r) /\ publish_batch p (ob_queue s) = (p', r) /\
    ob_ready s' /\ ob_queue s' = drop k (ob_queue s) /\ (r = Ok tt -> ob_queue s' = []) /\
    is_ok (publish_batch p (take k (ob_queue s))).2 = true.
Proof. apply Flush_spec. Qed.

Lemma fx_commit_ready : ob_ready fx_commit.1.
Proof.
  assert (Hwf : pg_wf fx_commit.1).
  { apply (safe_commit fx_key (fx_bar 1) [fx_point "a" 1; fx_point "b" 2] [fx_snapshot 9; fx_snapshot 21] (fx_database [])).
    apply empty_wf. }
  split; [exact Hwf|]. split; vm_compute; reflexivity.
Qed.

(** The second publication fails. *)
Lemma flush_drains_outbox_witness :
  exists s' p' r k, Flush 1 fx_commit.1 (mkLog [] [false; true]) = Some (s', p', r) /\
    publish_batch (mkLog [] [false; true]) (ob_queue fx_commit.1) = (p', r) /\ ob_ready s' /\
    ob_queue s' = drop k (ob_queue fx_commit.1) /\ (r = Ok tt -> ob_queue s' = []) /\
    is_ok (publish_batch (mkLog [] [false; true]) (take k (ob_queue fx_commit.1))).2 = true.
Proof.
  apply (flush_drains_outbox 1 fx_commit.1 (mkLog [] [false; true])); [exact fx_commit_ready|vm_compute; apply le_n].
Defined.

(** ** Opening the database *)

(** C15: A database that opens is ready, and one that does not is left as it
    was, for migration files of distinct versions: when [OpenPostgres] succeeds
    the pool is open with the wanted settings, the ledger has gained exactly the
    versions of the migration files, and the database is what running the
    scripts of the versions the ledger did not have, each once and in the order
    of the files, made of it; opening it again runs nothing.  Whichever call
    fails, no pool stays open, and neither the ledger nor the database has
    changed. *)
Theorem open_postgres_ready {D} (exec : D -> string -> outcome StoreError D) ParseConfig entries (p p' : Pool D) url
    maxConnections r :
  NoDup (omap file_version entries) ->
  plConfig p = None -> OpenPostgres exec ParseConfig entries p url maxConnections = (p', r) ->
  match r with
  | Ok _ =>
      (exists config, ParseConfig url = Ok config /\ plConfig p' = Some (pool_settings config maxConnections)) /\
      (forall entry, entry ∈ entries -> is_migration entry = true -> is_Some (migration_version (mfName entry))) /\
      plLedger p' = plLedger p ∪ list_to_set (omap file_version entries) /\
      exec_all exec (plData p) (map mfSql (List.filter (missing (plLedger p)) entries)) = Ok (plData p') /\
      OpenPostgres exec ParseConfig entries (mkPool None (plLedger p') (plData p') []) url maxConnections =
        (mkPool (plConfig p') (plLedger p') (plData p') [], Ok tt)
  | _ => plConfig p' = None /\ plLedger p' = plLedger p /\ plData p' = plData p
  end.
Proof.
  intros Hnd Hp Hrun. apply Open_cases in Hrun; [|done]. destruct r as [[]|e|]; [|done|done].
  destruct Hrun as (config & f1 & f2 & Hcfg & Hset & Hm).
  destruct (migrate_entries_spec exec entries _ _ _ _ _ _ Hnd Hm) as (Hl & Hv & Ha & Hi).
  split_and!; [by eexists|done|done|done|]. rewrite Hset. apply Open_again; [done|by apply Hi].
Qed.

(** The migrations of the repository, on a database that records what it
    runs and whose ledger has the first. *)
Definition fx_migrations : list migrationFile :=
  [mkMigration "001_initial.sql" false "create"; mkMigration "002_algorithm_point_identity.sql" false "alter";
   mkMigration "003_market_states.sql" false "extend"; mkMigration "readme.md" false ""].
Definition fx_exec (d : list string) (sql : string) : outcome StoreError (list string) := Ok (d ++ [sql]).
Definition fx_parse (url : string) : outcome StoreError PoolConfig := Ok (mkPoolConfig 4 0 0 0 0 url).
Definition fx_pool : Pool (list string) := mkPool None {[1]} [] [].
Definition fx_opened : Pool (list string) := fst (OpenPostgres fx_exec fx_parse fx_migrations fx_pool "db" 8).

Example fx_opened_data : plData fx_opened = ["alter"; "extend"].
Proof. vm_compute. reflexivity. Qed.

(** The connection is lost while the ledger is written. *)
Example fx_open_fails :
  OpenPostgres fx_exec fx_parse fx_migrations (mkPool None {[1]} [] (replicate 10 false ++ [true])) "db" 8 =
  (mkPool None {[1]} [] [], Fail "record migration 2: connection lost").
Proof. vm_compute. reflexivity. Qed.

Lemma open_postgres_ready_witness :
  plLedger fx_opened = plLedger fx_pool ∪ list_to_set [1; 2; 3] /\
  exec_all fx_exec (plData fx_pool) ["alter"; "extend"] = Ok (plData fx_opened).
Proof.
  destruct (open_postgres_ready fx_exec fx_parse fx_migrations fx_pool fx_opened "db" 8 (Ok tt)) as (_ & _ & Hl & Hx & _);
    [vm_compute; apply (bool_decide_unpack _); vm_compute; exact I|reflexivity|apply pair_of; vm_compute; reflexivity|].
  split; [exact Hl|exact Hx].
Defined.
