(* ===== verification/ServiceTheorems.v ===== *)
(** * Theorems about the service

    The parts around the lanes: the registry, the input client, the
    server and its subscriptions, each with an application at concrete
    inputs. *)

From stdpp Require Import prelude gmap strings list sorting.
From Stdlib Require Import ZArith Lia SpecFloat Ascii String.
From S2P Require Import Prelude GoFloat GoText Sha256 GoStrings Monitor Model Ema MarketZones StoreSpec.
From S2P Require Import Memory MemoryProofs Lane Outbox Registry Input Contract Hub HubProofs Server.
From S2P Require Import Session SessionProofs Dispatch ServerProofs Fixtures.

#[local] Open Scope string_scope.
#[local] Open Scope list_scope.
#[local] Open Scope Z_scope.

(** ** Subscriptions *)

(** A subscriber misses nothing, whatever the interleaving of commits,
    publications, failed and repeated batches, replay pages, the activation and
    its receipts: while it stays connected it has been given every committed
    event that matches and was published, from its resume cursor on (or, when
    it does not resume, from its subscription on), nothing that does not
    match or lies at or before the cursor it resumed from, and in cursor
    order. *)
Theorem subscriber_misses_nothing filter after s published batch sent sv :
  dispatcher_inv s published batch sent -> 0 <= after ->
  service_reaches filter (mkService (opened filter after s published) batch sent) sv ->
  se_phase (sv_session sv) = Live -> hcClosed (se_client (sv_session sv)) = false ->
  (forall e, e ∈ meEvents (se_store (sv_session sv)) -> matches filter e = true ->
     evCursor e <= se_published (sv_session sv) ->
     (if 0 <? after then after else published) < evCursor e -> e ∈ delivered (sv_session sv)) /\
  (forall e, e ∈ delivered (sv_session sv) -> 0 < evCursor e ->
     e ∈ meEvents (se_store (sv_session sv)) /\ matches filter e = true /\ after < evCursor e) /\
  StronglySorted Z.le (confirmed (delivered (sv_session sv))).
Proof.
  intros Hd Ha Hr Hph Hcl. apply (live_delivery filter after published); [|done|done].
  assert (service_inv (mkService (opened filter after s published) batch sent)) as Hinv by exact Hd.
  destruct (service_refines filter _ sv Hinv Hr) as [_ Hreach]. eapply session_reaches_inv; [|exact Hreach].
  destruct Hd as [Hs [Hp Hl] _ _ _]. by apply opened_inv.
Qed.

Definition fx_market_event (id : string) : SignalEvent :=
  {| evSchema := signalSchema; evCursor := 0; evEventID := id; evEventType := "market.state";
     evDataset := "d"; evSymbol := "X"; evTimeframe := "1m"; evBarOpenTime := 0; evSourceBar := None;
     evBarRevision := 1; evAnalysisRevision := 1; evProvisional := false; evReset := false;
     evResetHistory := []; evAlgorithm := mkAlgorithm "a" "1" ""; evIndicator := None;
     evMarket := Some zero_market_state; evIndicators := [] |}.

(** Three committed events, none of them marked yet. *)
Definition fx_log : Memory :=
  fst (Memory_CommitClosed NewMemory fx_key (fx_bar 1)
         [fx_market_event "a"; fx_market_event "b"; fx_market_event "c"] []).

Lemma fx_log_wf : memory_wf fx_log.
Proof.
  destruct (Memory_CommitClosed_ok NewMemory fx_key (fx_bar 1)
    [fx_market_event "a"; fx_market_event "b"; fx_market_event "c"] []) as (s' & committed & Hc & Hwf & _);
    [apply NewMemory_wf|reflexivity| |].
  - intros current Hcur. unfold NewMemory in Hcur. cbn [meCursors] in Hcur. by rewrite lookup_empty in Hcur.
  - unfold fx_log. by rewrite Hc.
Qed.

Lemma fx_log_unmarked c : is_published fx_log c = false.
Proof. unfold is_published. change (mePublished fx_log) with (∅ : gmap Z bool). by rewrite lookup_empty. Qed.

Lemma fx_dispatcher : dispatcher_inv fx_log 3 [] [].
Proof.
  split; [apply fx_log_wf| | |constructor|by intros [|] ? ? [=]].
  - split; [done|right]. exists (set_cursor (fx_market_event "c") 3). split; [|reflexivity].
    change (meEvents fx_log) with [set_cursor (fx_market_event "a") 1; set_cursor (fx_market_event "b") 2;
      set_cursor (fx_market_event "c") 3]. set_solver.
  - intros c. by rewrite fx_log_unmarked.
Qed.

Definition fx_subscription : Subscription :=
  mkSubscription [mkSeriesSelector "" "X" "1m"] [] {[analysisEventType]} true false.

(** The subscriber resumes after the first event: one page, then it is live. *)
Definition fx_paged : service :=
  let page := Memory_QueryEvents fx_log (replay_filter 1) in
  mkService (mkSession fx_log 3 (new_client fx_subscription 2048) []
    (List.filter (matches fx_subscription) page) 3 CaughtUp) [] [].

Definition fx_live : service :=
  let se := sv_session fx_paged in
  mkService (mkSession fx_log 3 (default (se_client se) (activate (se_client se) 3)) []
    (se_replayed se) 3 Live) [] [].

Lemma fx_service_run : service_reaches fx_subscription (mkService (opened fx_subscription 1 fx_log 3) [] []) fx_live.
Proof.
  eapply svc_step; [eapply svc_step; [apply svc_refl|]|].
  - eapply (svc_page _ (mkService (opened fx_subscription 1 fx_log 3) [] [])); [reflexivity|].
    vm_compute. reflexivity.
  - eapply (svc_activate _ fx_paged); [reflexivity|]. vm_compute. reflexivity.
Qed.

Lemma subscriber_misses_nothing_witness :
  (forall e, e ∈ meEvents fx_log -> matches fx_subscription e = true -> evCursor e <= 3 ->
     (if 0 <? 1 then 1 else 3) < evCursor e -> e ∈ delivered (sv_session fx_live)) /\
  (forall e, e ∈ delivered (sv_session fx_live) -> 0 < evCursor e ->
     e ∈ meEvents fx_log /\ matches fx_subscription e = true /\ 1 < evCursor e) /\
  StronglySorted Z.le (confirmed (delivered (sv_session fx_live))).
Proof.
  apply (subscriber_misses_nothing fx_subscription 1 fx_log 3 [] [] fx_live);
    [apply fx_dispatcher|done|apply fx_service_run|reflexivity|reflexivity].
Defined.

(** The replay ends: with a page for every 5000 events above the resume
    cursor it returns, having sent exactly the matching events above that
    cursor, in log order, and with a cursor that no event of the log is
    above. *)
Theorem replay_terminates `{Runtime} fuel s filter subscriptionID now after :
  memory_wf s -> convertible filter subscriptionID now (meEvents s) ->
  (List.length (List.filter (above after) (meEvents s)) / 5000 < fuel)%nat ->
  exists messages cursor, replay fuel s filter subscriptionID now after = Some (messages, Some cursor) /\
    mapM (message_of subscriptionID now)
      (List.filter (fun e => matches filter e && above after e) (meEvents s)) = Some messages /\
    after <= cursor /\ forall e, e ∈ meEvents s -> evCursor e <= cursor.
Proof. apply replay_complete. Qed.

Lemma fx_convertible : convertible fx_subscription "s" 0 (meEvents fx_log).
Proof.
  change (meEvents fx_log) with [set_cursor (fx_market_event "a") 1; set_cursor (fx_market_event "b") 2;
    set_cursor (fx_market_event "c") 3].
  intros e He _. rewrite !elem_of_cons in He.
  destruct He as [->|[->|[->|He%elem_of_nil]]]; [eexists; vm_compute; reflexivity..|done].
Qed.

Lemma replay_terminates_witness :
  exists messages cursor, replay 1 fx_log fx_subscription "s" 0 1 = Some (messages, Some cursor) /\
    mapM (message_of "s" 0)
      (List.filter (fun e => matches fx_subscription e && above 1 e) (meEvents fx_log)) = Some messages /\
    1 <= cursor /\ forall e, e ∈ meEvents fx_log -> evCursor e <= cursor.
Proof.
  apply (replay_terminates 1 fx_log fx_subscription "s" 0 1);
    [apply fx_log_wf|apply fx_convertible|vm_compute; lia].
Defined.

(** ** The catalog *)

(** The selector a client builds from an entry of the catalog. *)
Definition pinned (entry : catalogEntry) : analysisSelector :=
  mkAnalysisSelector (ceName entry) (irConfigHash (ceImplementation entry)).

(** With the default periods, a selector pinned to the catalog's entry for
    market facts selects the market state of snapshots but none of the market
    events a lane commits or publishes: their hash is that of the facts. *)
Theorem catalog_pin_misses_market_events :
  let base := MarketAlgorithm DefaultMarketConfig in
  matchesAnalysis [pinned market_entry] base = true /\
  matchesAnalysis [pinned market_entry] (marketFactsAlgorithm base [9; 21; 50; 200]) = false.
Proof. vm_compute. by split. Qed.

Definition market_only : Subscription :=
  mkSubscription [] [mkAnalysisSelector (aName (MarketAlgorithm DefaultMarketConfig)) ""] ∅ true false.

(** A subscription to market facts by name is sent a snapshot under another
    hash than the live events: the filter removes the indicators the hash is
    made of before it is computed. *)
Theorem named_market_snapshot_renamed (s : SeriesSnapshot) m :
  ssMarket s = Some m -> msAlgorithm m = MarketAlgorithm DefaultMarketConfig ->
  Forall (fun state => aName (isAlgorithm state) = "ema") (ssIndicators s) ->
  sort_ints (map isPeriod (ssIndicators s)) = [9; 21; 50; 200] ->
  exists s', filter_snapshot market_only s = Some s' /\ ssMarket s' = Some m /\
    aConfigHash (evAlgorithm (snapshot_market_event s' m)) <> aConfigHash (evAlgorithm (snapshot_market_event s m)).
Proof.
  intros Hm Ha Hema Hper. eexists. split; [reflexivity|]. rewrite Hm, Ha.
  assert (Hnone : keep_analyses market_only (ssIndicators s) = []).
  { unfold keep_analyses. change (0 <? len (suAnalyses market_only)) with true. cbv iota.
    clear Hper. induction Hema as [|state states Hs _ IH]; [done|]. cbn [List.filter]. unfold matchesAnalysis at 1. cbn [existsb market_only suAnalyses asName].
    rewrite Hs. vm_compute (_ || _). exact IH. }
  split; [vm_compute; reflexivity|].
  unfold snapshot_market_event. cbn [evAlgorithm ssIndicators]. rewrite Hper, Ha.
  change (if other_types market_only || negb (suConfirmed market_only) then [] else keep_analyses market_only (ssIndicators s))
    with (keep_analyses market_only (ssIndicators s)).
  rewrite Hnone. vm_compute. discriminate.
Qed.

(** ** REST *)

(** C33: On the in-memory store, following the cursors of [GET /v1/events]
    misses nothing and repeats nothing: a page holds the first events that match, in cursor order and at
    most as many as asked for, and the request that resumes after the cursor
    it returned asks for exactly the rest. *)
Theorem rest_pages_follow `{Runtime} (b : Backend Memory) request headers filter converted :
  memory_wf (bkStore b) -> meNext (bkStore b) < 2 ^ 63 -> query_filter request = inr filter ->
  toAnalysisEvents (Memory_QueryEvents (bkStore b) filter) (bkNow b) = Ok converted ->
  exists cursor, signals b request headers =
      Some (writeJSON headers 200 (JSONBody (mkEnvelope protocolVersion "page" "" "" cursor (EventsData converted) None))) /\
    exists rest, query_filter (with_query request "resume_after" cursor) = inr rest /\
      wanted (bkStore b) filter = Memory_QueryEvents (bkStore b) filter ++ wanted (bkStore b) rest /\
      len (Memory_QueryEvents (bkStore b) filter) <= normalize_limit (efLimit filter) /\
      (Memory_QueryEvents (bkStore b) filter = [] -> wanted (bkStore b) filter = []).
Proof.
  intros Hs Hn Hq Hc. exists (next_page_cursor filter (Memory_QueryEvents (bkStore b) filter)). split.
  { unfold signals. rewrite Hq. cbn [es_QueryEvents memory_events]. by rewrite Hc. }
  destruct (query_page (bkStore b) filter Hs) as (Hpage & Hnil & Hlen).
  exists (next_filter filter (Memory_QueryEvents (bkStore b) filter)). split_and!; [|done..].
  pose proof (query_filter_after _ _ Hq) as Ha. unfold next_page_cursor, next_filter.
  destruct (last (Memory_QueryEvents (bkStore b) filter)) as [e|] eqn:El.
  - apply query_filter_resume; [done|]. assert (e ∈ meEvents (bkStore b)) as He.
    { apply last_Some_elem_of in El. eapply (wanted_above _ filter). rewrite Hpage. set_solver. }
    pose proof (me_range _ Hs) as Hr. rewrite Forall_forall in Hr. specialize (Hr e He). cbn in Hr. lia.
  - rewrite (query_filter_resume _ _ _ Hq Ha). by destruct filter.
Qed.

Definition fx_backend : Backend Memory := mkBackend (mkRegistry ∅ []) fx_log (NewMetrics 0) 0.

Definition fx_query (limit : string) : Request :=
  mkRequest "GET" "/v1/events"
    (fun name => if (name =? "limit")%string then limit else if (name =? "symbol")%string then "X" else "") (fun _ => "") [].

Lemma rest_pages_follow_witness :
  exists converted cursor, signals fx_backend (fx_query "2") ∅ =
      Some (writeJSON ∅ 200 (JSONBody (mkEnvelope protocolVersion "page" "" "" cursor (EventsData converted) None))) /\
    exists rest, query_filter (with_query (fx_query "2") "resume_after" cursor) = inr rest /\
      wanted fx_log (mkEventFilter 0 "" "X" "" 0 "" "" 2) =
        Memory_QueryEvents fx_log (mkEventFilter 0 "" "X" "" 0 "" "" 2) ++ wanted fx_log rest /\
      len (Memory_QueryEvents fx_log (mkEventFilter 0 "" "X" "" 0 "" "" 2)) <= normalize_limit 2 /\
      (Memory_QueryEvents fx_log (mkEventFilter 0 "" "X" "" 0 "" "" 2) = [] ->
       wanted fx_log (mkEventFilter 0 "" "X" "" 0 "" "" 2) = []).
Proof.
  eexists. eapply (rest_pages_follow fx_backend (fx_query "2") ∅ (mkEventFilter 0 "" "X" "" 0 "" "" 2));
    [apply fx_log_wf|reflexivity|reflexivity|vm_compute; reflexivity].
Defined.

(** C14: Without the token the routes of the API say nothing about the service:
    whatever the registry, the store (either of them) and the metrics hold, the
    answer is the same, and for the methods a route takes, GET and HEAD, it is
    the refusal. *)
Theorem unauthorized_learns_nothing `{Runtime} {S} `{EventStore S} upgrade unmatched server (b1 b2 : Backend S) request :
  soInsecureNoAuth (svOptions server) = false ->
  (requestCredentials request).1 <> soAuthToken (svOptions server) -> v1_path (rqPath request) ->
  serve upgrade unmatched server b1 request = serve upgrade unmatched server b2 request /\
  (rqMethod request = "GET" \/ rqMethod request = "HEAD" -> exists response, serve upgrade unmatched server b1 request = Some response /\
     rsStatus response = 401 /\ rsHeaders response !! "WWW-Authenticate" = Some "Bearer").
Proof.
  intros Hi Hc Hp. assert (authorized server request = false) as Ha.
  { rewrite authorized_spec, Hi. by apply String.eqb_neq. }
  unfold serve, security, cors. rewrite !mux_refused by done. split; [done|]. intros Hm.
  assert ((rqMethod request =? "OPTIONS")%string = false) as -> by (by destruct Hm as [->| ->]).
  assert ((rqMethod request =? "GET")%string || (rqMethod request =? "HEAD")%string = true) as -> by (by destruct Hm as [->| ->]).
  eexists. split; [done|]. split; [done|]. unfold refused, writeError, writeJSON. cbn [rsHeaders].
  rewrite lookup_insert_ne by done. apply lookup_insert_eq.
Qed.

Definition fx_server : Server :=
  mkServer (mkServerOptions ":1" "secret" false [] [2; 3] true second) ∅.

Lemma unauthorized_learns_nothing_witness :
  let upgrade := fun (_ : Request) (_ : bool) (_ : string) h => mkResponse 101 h EmptyBody in
  let unmatched := fun (_ : Request) h => mkResponse 404 h EmptyBody in
  let other := mkBackend (mkRegistry ∅ []) NewMemory (NewMetrics 5) 7 in
  serve upgrade unmatched fx_server fx_backend (fx_query "2") = serve upgrade unmatched fx_server other (fx_query "2") /\
  ("GET" = "GET" \/ "GET" = "HEAD" -> exists response, serve upgrade unmatched fx_server fx_backend (fx_query "2") = Some response /\
     rsStatus response = 401 /\ rsHeaders response !! "WWW-Authenticate" = Some "Bearer").
Proof.
  intros upgrade unmatched other. apply (unauthorized_learns_nothing upgrade unmatched fx_server fx_backend other (fx_query "2"));
    [reflexivity|vm_compute; discriminate|unfold v1_path, fx_query; cbn [rqPath]; set_solver].
Defined.

(** The token round-trips through a WebSocket subprotocol: whatever bytes it
    has and whatever other subprotocols are offered before it, a client that
    offers it in raw URL base64 is served as if it had sent the header. *)
Theorem subprotocol_token_roundtrip server request before token rest next headers :
  soAuthToken (svOptions server) = token ->
  strip_prefix "Bearer " (rqHeader request "Authorization") = None ->
  Forall (fun p => strip_prefix "bearer." p = None) before ->
  rqProtocols request = before ++ ("bearer." +:+ base64_url (bytes_of token)) :: rest ->
  requestCredentials request = (token, "bearer." +:+ base64_url (bytes_of token)) /\
  auth server next request headers = next request headers.
Proof.
  intros Ht Hh Hb Hp. assert (Hc : requestCredentials request = (token, "bearer." +:+ base64_url (bytes_of token))).
  { unfold requestCredentials. rewrite Hh, Hp. by apply protocol_credentials_token. }
  split; [done|]. unfold auth. rewrite authorized_spec, Hc, Ht. cbn [fst]. by rewrite String.eqb_refl, orb_true_r.
Qed.

Lemma subprotocol_token_roundtrip_witness :
  let request := mkRequest "GET" "/v1/ws" (fun _ => "") (fun _ => "") ["chat"; "bearer.c2VjcmV0"] in
  requestCredentials request = ("secret", "bearer." +:+ base64_url (bytes_of "secret")) /\
  auth fx_server health request ∅ = health request ∅.
Proof.
  intros request. apply (subprotocol_token_roundtrip fx_server request ["chat"] "secret" []);
    [reflexivity|reflexivity|repeat constructor|vm_compute; reflexivity].
Defined.

(** ** The input *)

(** A connection applies its messages in order and stops at the first one
    that fails: the sink has taken exactly the messages before it, the counters
    moved by exactly as many of each kind, and the error says why it ended. *)
Theorem input_applies_until_error {S E} `{Sink S E} frames (s s' : S) m m' r :
  0 <= mtSeed m -> 0 <= mtClosed m -> 0 <= mtForming m ->
  mtSeed m + len frames < 2 ^ 64 -> mtClosed m + len frames < 2 ^ 64 -> mtForming m + len frames < 2 ^ 64 ->
  run_messages s m frames = (s', m', r) ->
  exists taken rest s1, frames = map (fun '(now, message) => (now, Some message)) taken ++ rest /\
    applied s taken s1 /\
    mtSeed m' = mtSeed m + count_kind "seed" taken /\ mtClosed m' = mtClosed m + count_kind "closed" taken /\
    mtForming m' = mtForming m + count_kind "forming" taken /\
    match rest with
    | [] => s' = s1 /\ r = Fail InputRead
    | (_, None) :: _ => s' = s1 /\ r = Fail InputDecode
    | (_, Some message) :: _ => dispatch_sink s1 message = (s', r) /\ r <> Ok tt
    end.
Proof.
  intros H1 H2 H3 Hs Hc Hf Hrun. destruct (run_messages_spec _ _ _ _ _ _ Hrun) as (taken & rest & s1 & -> & Ha & -> & Hr).
  assert (len taken <= len (map (fun '(now, message) => (now, Some message)) taken ++ rest)) as Hle.
  { rewrite len_app. unfold len at 2. rewrite List.length_map. pose proof (len_nonneg rest). unfold len. lia. }
  destruct (recorded_counts m taken) as (E1 & E2 & E3); [lia..|].
  exists taken, rest, s1. by split_and!.
Qed.

(** A sink that refuses one symbol. *)
#[local] Instance fx_sink : Sink (list Bar) string := {|
  sink_Seed s _ _ bars := (s ++ bars, Ok tt);
  sink_Closed s bar := if (bSymbol bar =? "X")%string then (s ++ [bar], Ok tt) else (s, Fail "unknown series");
  sink_Forming s _ := (s, Ok tt)
|}.

Definition fx_other_bar : Bar := mkBar "Y" "1m" 0 f0 f0 f0 f0 f0 0 true.

Definition fx_frames : list (Z * option serverMessage) :=
  [(1, Some (mkMessage "closed" "" [] (Some (fx_bar 0)) "")); (2, Some (mkMessage "forming" "" [] (Some (fx_forming 1)) ""));
   (3, Some (mkMessage "closed" "" [] (Some fx_other_bar) "")); (4, Some (mkMessage "closed" "" [] (Some (fx_bar 1)) ""))].

Definition fx_refusal : outcome (InputError string) unit := Fail (InputClosed "unknown series").

Lemma input_applies_until_error_witness :
  exists taken rest s1, fx_frames = map (fun '(now, message) => (now, Some message)) taken ++ rest /\
    applied [] taken s1 /\
    0 = 0 + count_kind "seed" taken /\ 1 = 0 + count_kind "closed" taken /\ 1 = 0 + count_kind "forming" taken /\
    match rest with
    | [] => [fx_bar 0] = s1 /\ fx_refusal = Fail InputRead
    | (_, None) :: _ => [fx_bar 0] = s1 /\ fx_refusal = Fail InputDecode
    | (_, Some message) :: _ => dispatch_sink s1 message = ([fx_bar 0], fx_refusal) /\ fx_refusal <> Ok tt
    end.
Proof.
  apply (input_applies_until_error fx_frames [] [fx_bar 0] (NewMetrics 0)
    (mkMetrics 0 false false 2 0 1 1 0 0 0) fx_refusal);
    [cbn; lia..|reflexivity|reflexivity|reflexivity|vm_compute; reflexivity].
Defined.

(** C39: Reconnecting backs off exponentially, within bounds, when the minimum
    is positive and no more than the maximum, and the maximum is below 2^61
    nanoseconds: in any run of attempts one wait follows each: the minimum
    after the first attempt and after every one that connected, doubled for
    each failed attempt since and cut at the maximum, plus the jitter drawn for
    it; so no wait is shorter than the
    minimum or longer than the maximum plus a quarter. *)
Theorem reconnect_backoff_exact {S E} `{Sink S E} options (s s' : S) m m' attempts waits last :
  0 < ooMinBackoff options <= ooMaxBackoff options -> ooMaxBackoff options < 2 ^ 61 ->
  jitters_drawn options 0 attempts ->
  client_Run options s m attempts = (s', m', waits, last) ->
  List.length waits = List.length attempts /\
  forall k a jitter, attempts !! k = Some (a, jitter) -> exists base,
    waits !! k = Some (base + jitter) /\
    ((exists c b, (c <= k)%nat /\ attempts !! c = Some b /\ atDialed b.1 = true /\
        (forall i b', (c < i <= k)%nat -> attempts !! i = Some b' -> atDialed b'.1 = false) /\
        base = Z.min (ooMinBackoff options * 2 ^ Z.of_nat (k - c)) (ooMaxBackoff options)) \/
     ((forall i b', (i <= k)%nat -> attempts !! i = Some b' -> atDialed b'.1 = false) /\
      base = Z.min (ooMinBackoff options * 2 ^ Z.of_nat k) (ooMaxBackoff options))) /\
    ooMinBackoff options <= base + jitter <= 5 * ooMaxBackoff options / 4.
Proof.
  intros Hm Hx Hj Hrun. unfold client_Run in Hrun.
  replace (ooMinBackoff options) with (Z.min (ooMinBackoff options * 2 ^ Z.of_nat 0) (ooMaxBackoff options)) in Hrun
    by (cbn; lia).
  destruct (run_attempts_waits _ _ _ _ _ _ _ _ _ Hm Hx Hj Hrun) as [Hl Hall]. split; [exact Hl|].
  intros k a jitter Hk. destruct (Hall k a jitter Hk) as (base & Hb & Hw & Hbd). exists base. split_and!; try done; apply Hbd.
Qed.

Definition fx_ohlc : OHLCOptions := mkOHLCOptions "ws" [fx_key] 10 true second (4 * second) second.

(** Two attempts fail, one connects, and four fail. *)
Definition fx_attempts : list (attempt * Z) :=
  [(mkAttempt false 0 [], 5); (mkAttempt false 0 [], millisecond); (mkAttempt true 1 fx_frames, 0);
   (mkAttempt false 0 [], 0); (mkAttempt false 0 [], 0); (mkAttempt false 0 [], 0); (mkAttempt false 0 [], 7)].
Definition fx_waits : list Z := (client_Run fx_ohlc [] (NewMetrics 0) fx_attempts).1.2.

Example fx_waits_are :
  fx_waits = [second + 5; 2 * second + millisecond; second; 2 * second; 4 * second; 4 * second; 4 * second + 7].
Proof. vm_compute. reflexivity. Qed.

Lemma reconnect_backoff_exact_witness :
  List.length fx_waits = 7%nat /\
  exists base, fx_waits !! 6%nat = Some (base + 7) /\ second <= base + 7 <= 5 * (4 * second) / 4.
Proof.
  destruct (client_Run fx_ohlc [] (NewMetrics 0) fx_attempts) as [[[s' m'] waits] last] eqn:E.
  assert (fx_waits = waits) as -> by (unfold fx_waits; by rewrite E).
  destruct (reconnect_backoff_exact fx_ohlc [] s' (NewMetrics 0) m' fx_attempts waits last) as [Hl Hall];
    [vm_compute; split; [reflexivity|discriminate]|reflexivity| |exact E|].
  { apply jitters_small; [vm_compute; split; [reflexivity|discriminate]|]. repeat constructor; vm_compute; discriminate. }
  split; [exact Hl|]. destruct (Hall 6%nat _ _ eq_refl) as (base & Hw & _ & Hb). by exists base.
Defined.
