(* ===== verification/SocketTheorems.v ===== *)
(** * Theorems about WebSocket connections

    The request a client writes, the order of the messages of a connection and
    its end, and what a subscriber finds on its socket, each with an
    application at concrete inputs. *)

From stdpp Require Import prelude gmap strings list sorting.
From Stdlib Require Import ZArith Lia SpecFloat Ascii String.
From S2P Require Import Prelude GoFloat GoText Sha256 GoStrings Monitor Model Ema MarketZones.
From S2P Require Import StoreSpec Memory MemoryProofs Lane Registry Contract Hub HubProofs Server Session SessionProofs.
From S2P Require Import Dispatch Json JsonProofs WsRequest WebSocket WebSocketProofs WebSocketDelivery.
From S2P Require Import Fixtures ServiceTheorems.

#[local] Open Scope string_scope.
#[local] Open Scope list_scope.
#[local] Open Scope Z_scope.

(** ** The request *)

(** C17: The server reads the request a client wrote: a request written as JSON
    is read back field for field, and accepted exactly when nothing but white
    space follows it; with one more member under a name that is none of the
    request's, in any case, it is refused, though the fields are read. *)
Theorem request_read_as_written r after key value :
  writable r -> utf8_text key -> printable value -> depth value <= 3 -> unknown_name key = true ->
  readWSRequest (Some (mkWSMessage (print_json (request_json r) ++ after) true)) = (r, forallb is_space after) /\
  readWSRequest (Some (mkWSMessage (print_json (XObject (request_members r ++ [(key, value)])) ++ after) true)) =
    (r, false).
Proof.
  intros Hw Hk Hp Hd Hu. destruct (request_read r Hw) as (t & Ht & Hr). pose proof (members_shaped r Hw) as Hm. split.
  - unfold request_json in *. rewrite (read_written _ after t true Hm Ht). by rewrite Hr.
  - rewrite (read_written _ after t false), Hr; [done| |].
    + apply Forall_app. split; [done|]. apply Forall_singleton. done.
    + unfold into_struct in *. cbn [request_json] in Ht. rewrite foldl_app, Ht. cbn [foldl]. unfold into_member. cbn [fst snd].
      unfold unknown_name in Hu. by destruct (find_field request_fields key).
Qed.

Lemma fx_request_writable : writable fx_request.
Proof. split; repeat (constructor || (apply utf8_literal; reflexivity)); done. Qed.

Lemma request_read_as_written_witness :
  readWSRequest (Some (mkWSMessage (print_json (request_json fx_request) ++ [32]) true)) = (fx_request, true) /\
  readWSRequest (Some (mkWSMessage (print_json (XObject (request_members fx_request ++ [("colour", XNull)])) ++ [32]) true)) =
    (fx_request, false).
Proof.
  apply (request_read_as_written fx_request [32] "colour" XNull);
    [apply fx_request_writable|by apply utf8_literal|done|done|vm_compute; reflexivity].
Defined.

(** ** The connection *)

(** C12: Whatever the schedule, whatever the rest of the service does and
    whichever reads and writes fail, the messages of a connection follow the
    protocol: one acknowledgement of the request, snapshots, one history, then
    events, all under one subscription, or an error that ends them.  When the
    handler has returned, its client is no longer in the hub and the connection
    is closed; and when the writer has ended under a live handler, the handler
    returns by its next three steps. *)
Theorem connection_follows_protocol `{Runtime} {S} `{EventStore S} {K} `{SocketLaws K} id (k : K) hub registry (store : S)
    now moves st :
  so_written k = [] -> hub_ok hub -> hub !! id = None ->
  ws_run id (upgraded k hub registry store now) moves = Some st ->
  (exists requestID subscriptionID g,
     stage_after requestID subscriptionID Opening (so_written (wsConn st)) = Some g) /\
  (wsAt st = PhDone -> wsHub st !! id = None /\ so_closed (wsConn st) = true) /\
  (forall o r1 r2 r3, wsAt st = PhLive o -> wsWriting st = WriterEnded ->
     exists st', ws_run id st [MoveHandler r1; MoveHandler r2; MoveHandler r3] = Some st' /\ wsAt st' = PhDone).
Proof.
  intros Hk Hok Hid Hrun. assert (Hinv : ws_inv id st) by (eapply ws_run_inv; [by apply upgraded_inv|done]).
  split_and!; [apply Hinv| |].
  - intros Hat. split; [|by apply (wi_closed _ _ Hinv)]. apply eq_None_not_Some.
    rewrite (wi_member _ _ Hinv), Hat. done.
  - intros o r1 r2 r3 Hat Hw. by eapply closed_ends, (wi_ended _ _ Hinv).
Qed.

(** A request that resumes after the first of three events. *)
Definition fx_resume : wsRequest :=
  mkWSRequest "signals.v1" "subscribe" "r1" (mkSubscriptionData [mkSeriesSelector "" "X" "1m"] [] [] [] "1" 0).
Definition fx_socket (script : list bool) : ScriptSocket :=
  mkScriptSocket [mkWSMessage (print_json (request_json fx_resume)) true] script [] false.
Definition fx_upgraded (script : list bool) : wsState Memory ScriptSocket :=
  upgraded (fx_socket script) NewHub (mkRegistry ∅ []) fx_log 0.

Definition fx_random : option (list Z) := Some (repeat 171 16).
Definition fx_handler (n : nat) : list (wsMove Memory) := repeat (MoveHandler fx_random) n.

(** The state after some moves. *)
Definition fx_ran (script : list bool) (moves : list (wsMove Memory)) : wsState Memory ScriptSocket :=
  default (fx_upgraded script) (ws_run 1 (fx_upgraded script) moves).

(** A write that fails in the replay: the handler leaves, and the connection is
    over. *)
Definition fx_cut : wsState Memory ScriptSocket := fx_ran [true; true; true; false] (fx_handler 10).

Example fx_cut_types : map envType (so_written (wsConn fx_cut)) = ["subscribed"; "history"; "event"].
Proof. vm_compute. reflexivity. Qed.

Lemma connection_follows_protocol_witness :
  (exists requestID subscriptionID g,
     stage_after requestID subscriptionID Opening (so_written (wsConn fx_cut)) = Some g) /\
  (wsAt fx_cut = PhDone -> wsHub fx_cut !! 1 = None /\ so_closed (wsConn fx_cut) = true) /\
  (forall o r1 r2 r3, wsAt fx_cut = PhLive o -> wsWriting fx_cut = WriterEnded ->
     exists st', ws_run 1 fx_cut [MoveHandler r1; MoveHandler r2; MoveHandler r3] = Some st' /\ wsAt st' = PhDone).
Proof.
  apply (connection_follows_protocol 1 (fx_socket [true; true; true; false]) NewHub (mkRegistry ∅ []) fx_log 0 (fx_handler 10));
    [reflexivity|apply map_Forall_empty|reflexivity|vm_compute; reflexivity].
Defined.

Example fx_cut_done : wsAt fx_cut = PhDone.
Proof. vm_compute. reflexivity. Qed.

(** ** The subscriber *)

(** C3: What a subscriber finds on its socket, over the in-memory store,
    whatever the interleaving of the lanes' commits, the dispatcher's batches,
    failed and repeated ones included, other subscribers, and the handler and
    writer of its own connection: while it is live and not cut off, the event
    messages written to it show, as far as the events have a cursor (forming
    updates have none), in cursor order, only committed events that match its
    request and lie behind the cursor it resumed from; and every such event
    that was published (since it subscribed, when it does not resume) is among
    them or waits in its channel. *)
Theorem socket_misses_nothing `{Runtime} {K} `{SocketLaws K} id (k : K) hub registry s now published batch sent sv o client :
  so_written k = [] -> hub_ok hub -> hub !! id = None -> dispatcher_inv s published batch sent ->
  ws_service_run id (mkWsService (upgraded k hub registry s now) batch sent published published) sv ->
  wsAt (wvState sv) = PhLive o -> wsWriting (wvState sv) = WriterRunning o ->
  wsHub (wvState sv) !! id = Some client -> hcClosed client = false ->
  exists seen, Forall2 (shows (woSubscriptionID o)) seen (event_messages (wsConn (wvState sv))) /\
    let waiting := chBuf (hcSend client) in
    (forall e, e ∈ meEvents (wsStore (wvState sv)) -> matches (woFilter o) e = true -> evCursor e <= wvPublished sv ->
       (if 0 <? woAfter o then woAfter o else wvMark sv) < evCursor e -> e ∈ seen ++ waiting) /\
    (forall e, e ∈ seen ++ waiting -> 0 < evCursor e ->
       e ∈ meEvents (wsStore (wvState sv)) /\ matches (woFilter o) e = true /\ woAfter o < evCursor e) /\
    StronglySorted Z.le (confirmed (seen ++ waiting)).
Proof.
  intros Hk Hok Hid Hd Hrun Hat Hw Hc Hopen. eapply socket_delivery; [|done..].
  eapply ws_service_run_inv; [|exact Hrun]. split; [by apply upgraded_inv|done|done].
Qed.

(** Moves of the connection alone. *)
Lemma own_run `{Runtime} {K} `{SocketLaws K} id (st : wsState Memory K) batch sent published moves st' :
  forallb own_move moves = true -> ws_run id st moves = Some st' ->
  ws_service_run id (mkWsService st batch sent published published) (mkWsService st' batch sent published published).
Proof.
  intros Hown Hrun. assert (Hgen : forall sv, ws_service_run id sv (mkWsService st batch sent published published) ->
    ws_service_run id sv (mkWsService st' batch sent published published)).
  { revert st Hrun. induction moves as [|move moves IH]; intros st Hrun sv Hsv; cbn [ws_run forallb] in *.
    - by injection Hrun as <-.
    - apply andb_true_iff in Hown as [Hm Hown]. apply bind_Some in Hrun as (st1 & Hs & Hrun).
      apply (IH Hown st1 Hrun). eapply wsr_step; [exact Hsv|].
      pose proof (wss_own id (mkWsService st batch sent published published) move st1 Hm Hs) as Hstep.
      unfold mark_of in Hstep. cbn in Hstep. by destruct (wsAt st). }
  apply Hgen, wsr_refl.
Qed.

(** The handler up to the live connection; then a forming update and the
    writer. *)
Definition fx_on_air : wsState Memory ScriptSocket := fx_ran [] (fx_handler 10).
Definition fx_on_air_open : wsOpen :=
  mkOpen "r1" (hex_encode (repeat 171 16)) fx_subscription 1 500.
Definition fx_on_air_client : hubClient := default (new_client fx_subscription 0) (wsHub fx_on_air !! 1).

Example fx_on_air_types : map envType (so_written (wsConn fx_on_air)) = ["subscribed"; "history"; "event"; "event"].
Proof. vm_compute. reflexivity. Qed.

Lemma socket_misses_nothing_witness :
  exists seen, Forall2 (shows (woSubscriptionID fx_on_air_open)) seen (event_messages (wsConn fx_on_air)) /\
    let waiting := chBuf (hcSend fx_on_air_client) in
    (forall e, e ∈ meEvents (wsStore fx_on_air) -> matches (woFilter fx_on_air_open) e = true -> evCursor e <= 3 ->
       (if 0 <? woAfter fx_on_air_open then woAfter fx_on_air_open else 3) < evCursor e -> e ∈ seen ++ waiting) /\
    (forall e, e ∈ seen ++ waiting -> 0 < evCursor e ->
       e ∈ meEvents (wsStore fx_on_air) /\ matches (woFilter fx_on_air_open) e = true /\ woAfter fx_on_air_open < evCursor e) /\
    StronglySorted Z.le (confirmed (seen ++ waiting)).
Proof.
  apply (socket_misses_nothing 1 (fx_socket []) NewHub (mkRegistry ∅ []) fx_log 0 3 [] []
           (mkWsService fx_on_air [] [] 3 3) fx_on_air_open fx_on_air_client);
    [reflexivity|apply map_Forall_empty|reflexivity|apply fx_dispatcher| |vm_compute; reflexivity..].
  apply (own_run 1 (fx_upgraded []) [] [] 3 (fx_handler 10)); [reflexivity|vm_compute; reflexivity].
Defined.
