(* ===== verification/StreamTheorems.v ===== *)
(** * Theorems about the evaluation stream and the start of the service

    Coalescing and retrying of live frames, delivery of the outbox to the
    broker and the hub, and starting from a configuration, each with an
    application at concrete inputs. *)

From stdpp Require Import prelude gmap strings list sorting.
From Stdlib Require Import ZArith Lia SpecFloat Ascii String.
From S2P Require Import Prelude GoFloat GoText Sha256 GoStrings Monitor Model Ema MarketZones MarketReducer.
From S2P Require Import StoreSpec Memory MemoryProofs Lane Outbox Registry Config ConfigProofs Input Contract.
From S2P Require Import Broker BrokerOpen BrokerProofs Hub HubProofs Server Main MainProofs Fixtures.

#[local] Open Scope string_scope.
#[local] Open Scope list_scope.
#[local] Open Scope Z_scope.

(** ** Live frames *)

(** C13: Forming updates are coalesced and nothing else is held back, whatever
    the broker answers to each message: a forming frame is skipped without an
    error exactly when the last frame of its series that the broker
    acknowledged shows the same candle and colour and is from less than a
    second before; a frame goes out as a replaceable snapshot
    only a second or more after such a frame; and a frame that shows a new
    candle or colour goes out at once, as a message that is not rolled up. *)
Theorem forming_updates_coalesced {C} `{Connection C} (c : C) calls j trace before d after :
  evaluate_all (mkJetStream (mkRecorded c []) ∅) calls = (j, trace) -> trace = before ++ d :: after ->
  evEventType (edEvent d) = "market.state" -> evProvisional (edEvent d) = true -> is_Some (evSourceBar (edEvent d)) ->
  let prior := last_sent (liveKey (edEvent d)) before in
  ((edSent d = None /\ edResult d = Ok tt) <->
   exists p, prior = Some p /\ continues p d /\ edAt d - edAt p < second) /\
  (forall m, edSent d = Some m ->
     nmSubject m = evaluationSubject (edEvent d) (frame_kind (edEvent d) (nmRollup m)) /\
     if nmRollup m then exists p, prior = Some p /\ continues p d /\ second <= edAt d - edAt p
     else ~ exists p, prior = Some p /\ continues p d).
Proof.
  intros Hrun Hsplit Ht Hp [bar Hb] prior.
  assert (Hempty : live_inv (mkJetStream (mkRecorded c []) ∅) []) by (intros k; apply lookup_empty).
  destruct (evaluate_all_split calls _ j [] trace before d after Hempty Hrun Hsplit) as (j1 & j2 & Hinv & Hd).
  cbn [app] in Hinv.
  destruct (evaluate_cases j1 _ _ bar j2 d Ht Hb Hd) as (_ & _ & Hcases).
  rewrite (decision_forming j1 before (edEvent d) bar (edAt d) d Hinv Hp Hb eq_refl eq_refl) in Hcases.
  fold prior in Hcases.
  destruct prior as [p|]; [destruct (decide (continues p d)) as [Hc|Hc]; [case_bool_decide as Hgap|]|].
  2:{ destruct Hcases as (_ & -> & ->). split; [|by intros m [=]]. split; [intros _|done].
      exists p. split_and!; [done..|lia]. }
  all: destruct Hcases as [(m & Hs & _ & Hroll & Hsub & _)|(Hs & Hr & _)]; rewrite Hs.
  all: split; [split|].
  all: try (intros [? Hok]; by rewrite Hok in Hr).
  all: try (by intros [? _]).
  all: try (intros (q & Hq & ? & ?); simplify_eq; done || lia).
  all: intros m' Hm'; simplify_eq; rewrite Hroll; split; try done.
  - eauto.
  - by intros (q & Hq & ?); simplify_eq.
  - by intros (q & Hq & ?).
Qed.

(** A market frame of minute [n], forming or confirmed, that closes at
    [close]. *)
Definition fx_frame (id : string) (n close : Z) (provisional : bool) : SignalEvent :=
  let bar := mkBar "X" "1m" (1700000040 * second + n * minute)
    (of_int 100) (of_int 110) (of_int 90) (of_int close) (of_int 5) 7 (negb provisional) in
  {| evSchema := signalSchema; evCursor := 0; evEventID := id; evEventType := "market.state";
     evDataset := "d"; evSymbol := "X"; evTimeframe := "1m"; evBarOpenTime := bOpenTime bar;
     evSourceBar := Some bar; evBarRevision := 1; evAnalysisRevision := 1; evProvisional := provisional;
     evReset := false; evResetHistory := []; evAlgorithm := mkAlgorithm "market-facts" "1" "";
     evIndicator := None; evMarket := Some zero_market_state; evIndicators := [] |}.

(** Three updates of one green candle, half a second apart. *)
Definition fx_calls : list (SignalEvent * Z) :=
  [(fx_frame "a" 1 105 true, second); (fx_frame "b" 1 106 true, second + 500 * millisecond);
   (fx_frame "c" 1 107 true, 2 * second)].
(** A server that does what it is asked. *)
Definition fx_server : NatsServer := mkNats ∅ true [] [] 0.
Definition fx_trace : list evaluated := snd (evaluate_all (mkJetStream (mkRecorded fx_server []) ∅) fx_calls).
Definition fx_second : evaluated :=
  default (mkEvaluated (fx_frame "" 0 0 true) 0 None Panic) (fx_trace !! 1%nat).

Example fx_trace_sent : map (fun d => nmRollup <$> edSent d) fx_trace = [Some false; None; Some true].
Proof. vm_compute. reflexivity. Qed.

Lemma forming_updates_coalesced_witness :
  (edSent fx_second = None /\ edResult fx_second = Ok tt) /\
  exists p, last_sent (liveKey (edEvent fx_second)) (take 1 fx_trace) = Some p /\ continues p fx_second /\
    edAt fx_second - edAt p < second.
Proof.
  pose proof (forming_updates_coalesced fx_server fx_calls _ fx_trace (take 1 fx_trace) fx_second (drop 2 fx_trace)
    (surjective_pairing _) ltac:(vm_compute; reflexivity) eq_refl eq_refl ltac:(by eexists)) as [Hs _].
  assert (edSent fx_second = None /\ edResult fx_second = Ok tt) as H by (vm_compute; by split).
  split; [exact H|exact (proj1 Hs H)].
Defined.

(** C34: A frame that may not be dropped, a confirmed one or a forming one that
    shows a new candle or colour, is retried until it is delivered, whatever a
    broker does that keeps the documented behaviour of JetStream (an attempt
    that is not acknowledged may have been taken in all the same): every
    attempt sends the frame, under its id, on its subject of the evaluation
    stream, not rolled up; the publisher gives up only when no attempt is left
    and none was acknowledged; once one is, the stream has a message of that
    id, and exactly one message of the frame when it had none before and the
    attempts took less than the streams' window for duplicates. *)
Theorem lossless_frames_delivered {C} `{MessageLaws C} (c : C) live event bar attempts j r :
  evEventType event = "market.state" -> evSourceBar event = Some bar -> must_send live event ->
  (forall now, now ∈ attempts -> is_ok (EncodeAnalysisEvent event now) = true) ->
  live_publish_frame (mkJetStream (mkRecorded c []) live) event attempts = (j, r) ->
  let subject := evaluationSubject event
    (if evReset event then "reset" else if evProvisional event then "transition" else "confirmed") in
  let calls := stream_calls j in
  Forall2 (fun now call => carries_at (event, subject) now call.1) (take (List.length calls) attempts) calls /\
  ((r = LivePublishedFrame /\ exists refused m, calls = refused ++ [(m, Ok tt)] /\
      Forall (fun call => is_ok call.2 = false) refused) \/
   (r = LiveCancelled /\ List.length calls = List.length attempts /\ Forall (fun call => is_ok call.2 = false) calls)) /\
  (r = LivePublishedFrame -> Exists (frame_entry event) (stream_log j)) /\
  (r = LivePublishedFrame -> evEventID event <> "" -> ~ Exists (frame_entry event) (br_log c) ->
   br_now (jsConnection j) - br_now c < duplicate_window ->
   exists t now m, now ∈ attempts /\ carries_at (event, subject) now m /\ stream_log j = br_log c ++ [(t, m)]).
Proof.
  intros Ht Hb Hm Henc Hrun subject calls.
  destruct (live_publish_calls attempts c [] live event bar j r Ht Hb Hm Henc Hrun) as (_ & made & Hcalls & Hall & Hend).
  cbn [app] in Hcalls. unfold calls. rewrite Hcalls. split_and!; [exact Hall|exact Hend| |].
  - intros ->. by eapply live_publish_there.
  - intros Hr Hid Hnew Hwin.
    destruct (live_publish_once c attempts attempts c [] live event bar j r Ht Hb Hm Henc Hid Hnew ltac:(done) ltac:(done)
      ltac:(by left) Hrun Hwin Hr) as (t & now & m & Hin & _ & Hc & Hlog). by exists t, now, m.
Qed.

(** The answer to the first attempt is lost, the second is refused. *)
Definition fx_unsteady : NatsServer := mkNats ∅ true [AnswerLost; Refuses] [] 0.
Definition fx_retried : JetStream (Recorded NatsServer) * liveResult :=
  live_publish_frame (mkJetStream (mkRecorded fx_unsteady []) ∅) (fx_frame "d" 1 105 false)
    [second; 2 * second; 3 * second; 4 * second].

Lemma lossless_frames_delivered_witness :
  fx_retried.2 = LivePublishedFrame /\ List.length (stream_calls fx_retried.1) = 3%nat /\
  exists t now m, now ∈ [second; 2 * second; 3 * second; 4 * second] /\
    carries_at (fx_frame "d" 1 105 false, evaluationSubject (fx_frame "d" 1 105 false) "confirmed") now m /\
    stream_log fx_retried.1 = [] ++ [(t, m)].
Proof.
  destruct (lossless_frames_delivered fx_unsteady ∅ (fx_frame "d" 1 105 false)
    (default (fx_bar 1) (evSourceBar (fx_frame "d" 1 105 false))) [second; 2 * second; 3 * second; 4 * second]
    fx_retried.1 fx_retried.2)
    as (_ & _ & _ & Hone);
    [reflexivity|reflexivity|by intros [=]| |apply surjective_pairing|].
  { intros now Hin. rewrite !elem_of_cons in Hin.
    destruct Hin as [->|[->|[->|[->|Hin%elem_of_nil]]]]; [vm_compute; reflexivity..|done]. }
  split_and!; [vm_compute; reflexivity|vm_compute; reflexivity|].
  apply Hone; [vm_compute; reflexivity|done|by intros ?%Exists_nil|vm_compute; reflexivity].
Defined.

(** ** The outbox and its publishers *)

(** C10: What the outbox holds reaches the broker, whatever a broker does that
    keeps the documented behaviour of JetStream: after a flush that succeeds
    nothing is pending; for each confirmed market frame that was pending, in
    cursor order, an evaluation message and a fact message carrying it were
    published, and each was taken in by its stream unless the stream had a
    message of that id already, as it has when the live publisher was first;
    so every one of them is in its stream under the id of its event, and when
    the ids are distinct and new to the streams, the streams have gained
    exactly these messages; the hub was given every pending event in the same
    order. *)
Theorem outbox_reaches_stream {S C} `{OutboxLaws S} `{MessageLaws C} `{Runtime} fuel (s s' : S) (j : JetStream C) h clock turn p' :
  ob_ready s -> (List.length (ob_queue s) / 250 < fuel)%nat ->
  Flush fuel s (mkMulti [StreamPublisher j; HubPublisher h] clock turn) = Some (s', p', Ok tt) ->
  exists j' h' messages, mpPublishers p' = [StreamPublisher j'; HubPublisher h'] /\ ob_queue s' = [] /\
    StronglySorted Z.lt (map evCursor (ob_queue s)) /\
    Forall2 carries (flat_map durable_frames (ob_queue s)) messages /\
    taken_in (stream_log j) messages (stream_log j') /\
    Forall (fun m => Exists (fun e => nmMsgID e.2 = nmMsgID m /\
      subject_stream (nmSubject e.2) = subject_stream (nmSubject m)) (stream_log j')) messages /\
    (NoDup (map evEventID (ob_queue s)) ->
     Forall (fun e => Forall (fun entry => nmMsgID entry.2 <> evEventID e) (stream_log j)) (ob_queue s) ->
     exists sent, stream_log j' = stream_log j ++ sent /\ map snd sent = messages) /\
    loop Hub_Publish (ob_queue s) h = Some h'.
Proof.
  intros Hr Hf HF.
  destruct (Flush_spec fuel s (mkMulti [StreamPublisher j; HubPublisher h] clock turn) Hr Hf)
    as (s1 & p1 & r & k & HF1 & Hb & _ & _ & Hnil & _).
  rewrite HF in HF1. injection HF1 as <- <- <-.
  destruct (publish_batch_multi _ _ _ _ _ _ Hb) as (j' & h' & messages & Hp & Hc & Ht & Hh).
  exists j', h', messages. split_and!; try done; [by apply Hnil|by apply ob_queue_sorted|by eapply taken_in_all|].
  intros Hd Hnew. apply (taken_in_fresh _ _ _ Ht); [by eapply durable_unseen|by eapply durable_distinct].
Qed.

Definition fx_outbox : Memory :=
  fst (Memory_CommitClosed NewMemory fx_key (fx_bar 1)
         [fx_frame "a" 1 105 false; fx_frame "b" 2 95 false] []).

Lemma fx_outbox_wf : memory_wf fx_outbox.
Proof.
  destruct (Memory_CommitClosed_ok NewMemory fx_key (fx_bar 1) [fx_frame "a" 1 105 false; fx_frame "b" 2 95 false] [])
    as (s' & committed & Hc & Hwf & _); [apply NewMemory_wf|reflexivity| |].
  - intros current Hcur. unfold NewMemory in Hcur. cbn [meCursors] in Hcur. by rewrite lookup_empty in Hcur.
  - unfold fx_outbox. by rewrite Hc.
Qed.

Definition fx_publishers : multiPublisher NatsServer :=
  mkMulti [StreamPublisher (mkJetStream fx_server ∅); HubPublisher NewHub] (fun _ => second) 0.

(** A server that has the first of the two frames already, from the live
    publisher. *)
Definition fx_live_first : JetStream NatsServer :=
  fst (PublishEvaluation (mkJetStream fx_server ∅) (fx_frame "a" 1 105 false) second).
Definition fx_flush : option (Memory * multiPublisher NatsServer * outcome string unit) :=
  Flush 1 fx_outbox (mkMulti [StreamPublisher fx_live_first; HubPublisher NewHub] (fun _ => second) 0).
Definition fx_flushed : Memory * multiPublisher NatsServer :=
  match fx_flush with Some (sp, _) => sp | None => (fx_outbox, fx_publishers) end.

Lemma outbox_reaches_stream_witness :
  exists j' h' messages, mpPublishers fx_flushed.2 = [StreamPublisher j'; HubPublisher h'] /\
    ob_queue fx_flushed.1 = [] /\ Forall2 carries (flat_map durable_frames (ob_queue fx_outbox)) messages /\
    taken_in (stream_log fx_live_first) messages (stream_log j') /\
    List.length messages = 4%nat /\ List.length (stream_log fx_live_first) = 1%nat /\ List.length (stream_log j') = 4%nat /\
    loop Hub_Publish (ob_queue fx_outbox) NewHub = Some h'.
Proof.
  destruct (outbox_reaches_stream 1 fx_outbox fx_flushed.1 fx_live_first NewHub (fun _ => second) 0 fx_flushed.2)
    as (j' & h' & messages & Hp & Hq & _ & Hc & Ht & _ & _ & Hh);
    [apply fx_outbox_wf|vm_compute; apply le_n|vm_compute; reflexivity|].
  assert (Hlog : match mpPublishers fx_flushed.2 with
                 | StreamPublisher j :: _ => List.length (stream_log j) = 4%nat
                 | _ => False
                 end) by (vm_compute; reflexivity).
  exists j', h', messages. rewrite Hp in Hlog.
  split_and!; [exact Hp|exact Hq|exact Hc|exact Ht| |vm_compute; reflexivity|exact Hlog|exact Hh].
  rewrite <-(Forall2_length _ _ _ Hc). vm_compute. reflexivity.
Defined.

(** ** Starting *)

(** C35: Only what lies outside the program keeps it from starting: an
    environment that loads is valid, and with an upstream URL and an address
    to listen on, a store and a broker that open and an outbox that drains,
    the service starts, with a lane for every configured series, the client
    subscribed to those series, and the server serving the configured
    periods. *)
Theorem configuration_starts {S C} `{OutboxStore S} `{Connection C} `{Runtime} memory_store OpenPostgres Open
    fuel lookup clock c (s s' : S) publishers p' :
  load lookup = Ok c -> cfOHLCWebSocketURL c <> "" -> cfHTTPAddr c <> "" ->
  openStore memory_store OpenPostgres c = Ok s -> open_publishers (C := C) Open c = Ok publishers ->
  Flush fuel s (mkMulti (publishers ++ [HubPublisher NewHub]) clock 0) = Some (s', p', Ok tt) ->
  exists sv, start memory_store OpenPostgres Open fuel lookup clock = Some (Ok sv) /\
    config_valid (stSettings sv) /\ stSettings sv = c /\ stStore sv = s' /\ stPublishers sv = p' /\
    rgKeys (stRegistry sv) ≡ₚ cfSeries c /\
    (forall key, key ∈ cfSeries c -> is_ok (Registry_lane (stRegistry sv) (kSymbol key) (kTimeframe key)) = true) /\
    ooSeries (stUpstream sv) = cfSeries c /\ soPeriods (svOptions (stServer sv)) = cfPeriods c.
Proof. apply start_total. Qed.

Definition fx_env : lookupFunc := fun name =>
  if (name =? "SIGNALD_API_TOKEN")%string then Some " secret "
  else if (name =? "SIGNALD_DATABASE_URL")%string then Some ""
  else if (name =? "SIGNALD_ALLOW_MEMORY_STORE")%string then Some "true"
  else if (name =? "SIGNALD_SERIES")%string then Some "BTCUSDT:1m, ETHUSDT:5m"
  else if (name =? "SIGNALD_NATS_URL")%string then Some "nats://127.0.0.1:4222"
  else if (name =? "SIGNALD_NATS_TOKEN")%string then Some "0123456789abcdef0123456789abcdef"
  else None.

Definition fx_settings : Config :=
  match load fx_env with
  | Ok c => c
  | _ => mkConfig "" "" 0 false "" "" "" [] [] 0 0 0 "" false [] 0 0 "" "" 0 LevelInfo
  end.

Definition fx_no_database (url : string) (maxConns : Z) : outcome string Memory := Fail "refused".
Definition fx_connect (url token : string) (replicas : Z) : outcome string NatsServer := Ok fx_server.

Lemma configuration_starts_witness :
  exists sv, start NewMemory fx_no_database fx_connect 1 fx_env (fun _ => second) = Some (Ok sv) /\
    config_valid (stSettings sv) /\ stSettings sv = fx_settings /\ stStore sv = NewMemory /\
    stPublishers sv = fx_publishers /\ rgKeys (stRegistry sv) ≡ₚ cfSeries fx_settings /\
    (forall key, key ∈ cfSeries fx_settings ->
       is_ok (Registry_lane (stRegistry sv) (kSymbol key) (kTimeframe key)) = true) /\
    ooSeries (stUpstream sv) = cfSeries fx_settings /\ soPeriods (svOptions (stServer sv)) = cfPeriods fx_settings.
Proof.
  eapply (configuration_starts NewMemory fx_no_database fx_connect 1 fx_env (fun _ => second) fx_settings);
    [vm_compute; reflexivity|done|done|reflexivity|reflexivity|reflexivity].
Defined.
