(* ===== verification/ProcessTheorems.v ===== *)
(** * Theorems about the process as a whole

    The path of a confirmed bar to the broker and the subscribers, the streams
    the broker is opened with, the health the outbox reports, and what a run of
    the service opens, starts, closes and returns, each with an application at
    concrete inputs. *)

From stdpp Require Import prelude gmap strings list sorting.
From Stdlib Require Import ZArith Lia SpecFloat Ascii String.
From S2P Require Import Prelude GoFloat GoText Sha256 GoStrings Monitor Model Ema MarketZones MarketReducer.
From S2P Require Import StoreSpec Memory MemoryProofs Lane LaneReducers LaneProofs LaneRefinement LaneRecovery LaneAccept.
From S2P Require Import Outbox OutboxRun Registry Config Input Contract Broker BrokerOpen BrokerProofs Hub HubProofs Server.
From S2P Require Import Main MainProofs Run EndToEnd LaneHistory LaneCursor Engine Fixtures LaneTheorems StreamTheorems.

#[local] Open Scope string_scope.
#[local] Open Scope list_scope.
#[local] Open Scope Z_scope.

(** ** From the upstream to the lanes *)

(** C4: Over a fresh in-memory store, whatever the upstream sends over any
    number of connections, wherever they break, and whichever messages are
    refused: every configured series has its lane, whose state is that of one history of closed bars, with
    strictly increasing times, all of them received; the cursor the store keeps
    of the series is the last bar of that history; and no further message of
    such bars makes the service panic. *)
Theorem engine_follows_input `{Runtime} options registry client m attempts e m' waits last :
  NewRegistry options = Ok registry -> 0 <= roSnapshotEvery options ->
  Forall (fun p => p < 2 ^ 63 - 1) (roPeriods options) -> NoDup (map SeriesKey_String (roSeries options)) ->
  Forall bar_typed (run_bars attempts) -> 4 * len (run_bars attempts) < 2 ^ 64 - 1 ->
  client_Run client (mkEngine registry NewMemory []) m attempts = (e, m', waits, last) ->
  (forall key, key ∈ roSeries options -> exists lane hist,
     Registry_lane (enRegistry e) (kSymbol key) (kTimeframe key) = Ok lane /\ lKey lane = key /\ lane_wf lane /\
     refines lane hist /\ increasing hist /\
     Forall (fun b => b ∈ run_bars attempts /\ bClosed b = true) hist /\
     meCursors (enStore e) !! SeriesKey_String key = lLastBar lane) /\
  forall message, within (run_bars attempts) (message_bars message) -> (dispatch_sink e message).2 <> Panic.
Proof.
  intros Hnew Hse Hp Hn Ht Hroom Hrun.
  destruct (new_engine_inv options registry (run_bars attempts) Hnew Hse Hp) as [Hinv Hd].
  assert (Hinv' : engine_inv (roSeries options) (run_bars attempts) e).
  { eapply run_attempts_inv; [exact Hd|exact Hn|exact Ht|exact Hroom|exact Hinv| |exact Hrun].
    apply Forall_forall. intros a Ha. exact (within_flat_map (fun a => flat_map frame_bars (atFrames a.1)) attempts a Ha). }
  split.
  - intros key Hkey. destruct (ei_lane _ _ _ Hinv' key Hkey) as (lane & hist & Hl & Hrest). exists lane, hist.
    split; [|done]. unfold Registry_lane. unfold series_lookup in Hl. by rewrite Hl.
  - intros message Hw.
    destruct (dispatch_sink_inv _ _ Hd Hn Ht Hroom e message Hinv' Hw) as (e' & r & -> & Hnp & _). done.
Qed.

(** A seed of two bars, a third one, a break, and the fourth bar after a
    reconnect. *)
Definition fx_series_options : RegistryOptions := mkRegistryOptions [fx_key] [2] 4 2 true true true true.
Definition fx_registry : Registry := match NewRegistry fx_series_options with Ok r => r | _ => mkRegistry ∅ [] end.
Definition fx_attempts : list (attempt * Z) :=
  [(mkAttempt true 1 [(second, Some (mkMessage "seed" "" [fx_bar 0; fx_bar 1] None ""));
                      (2 * second, Some (mkMessage "closed" "" [] (Some (fx_bar 2)) ""));
                      (3 * second, None)], 0);
   (mkAttempt true 1 [(9 * second, Some (mkMessage "closed" "" [] (Some (fx_bar 3)) ""))], 0)].
Definition fx_run : Engine Memory * Metrics * list Z * Z :=
  client_Run (mkOHLCOptions "wss://x" [fx_key] 500 true second (30 * second) second)
    (mkEngine fx_registry NewMemory []) (NewMetrics 0) fx_attempts.
Definition fx_engine : Engine Memory := fx_run.1.1.1.

Example fx_engine_cursor : meCursors (enStore fx_engine) !! SeriesKey_String fx_key = Some (fx_bar 3).
Proof. vm_compute. reflexivity. Qed.

Lemma engine_follows_input_witness :
  exists lane hist, Registry_lane (enRegistry fx_engine) "X" "1m" = Ok lane /\ lKey lane = fx_key /\ lane_wf lane /\
    refines lane hist /\ increasing hist /\ Forall (fun b => b ∈ run_bars fx_attempts /\ bClosed b = true) hist /\
    meCursors (enStore fx_engine) !! SeriesKey_String fx_key = lLastBar lane.
Proof.
  destruct (engine_follows_input fx_series_options fx_registry
    (mkOHLCOptions "wss://x" [fx_key] 500 true second (30 * second) second) (NewMetrics 0) fx_attempts
    fx_engine fx_run.1.1.2 fx_run.1.2 fx_run.2) as [Hlanes _].
  - vm_compute. reflexivity.
  - discriminate.
  - repeat constructor.
  - apply NoDup_singleton.
  - repeat constructor; cbn; discriminate.
  - vm_compute. reflexivity.
  - unfold fx_engine. fold fx_run. by destruct fx_run as [[[? ?] ?] ?].
  - apply (Hlanes fx_key). by left.
Defined.

(** ** The path of a bar *)

(** C5: A closed bar reaches its subscribers, on the in-memory store: when a
    lane whose outbox delivers takes the next bar of its series, the turn ends
    without an error and exactly the events of the bar, numbered on from the
    last cursor, join what is pending; and a flush of the outbox that succeeds
    then has published the confirmed market frames of all that was pending,
    each taken in by its stream unless a message of that id was there already
    (all of them, when the ids are distinct and new to the streams), has left
    nothing pending, and has given every client of the hub that is being
    served, and has room, every pending event of its subscription, in cursor
    order after what it already held. *)
Theorem closed_bar_reaches_subscriber {C} `{MessageLaws C} `{Runtime} bar hist (w : World Memory) :
  takes_next w hist bar ->
  exists w' events, run_command (Lane_Closed bar) w = (w', Ok None) /\
    (exists reducers market count snapshots,
       closed_plan (wLane w) bar = Ok (Some (reducers, market, count, events, snapshots))) /\
    let waiting := pending (wStore w) ++ numbered (meNext (wStore w)) events in
    pending (wStore w') = waiting /\
    forall fuel (j : JetStream C) h clock turn s' p', (List.length waiting / 250 < fuel)%nat -> hub_ok h ->
      Flush fuel (wStore w') (mkMulti [StreamPublisher j; HubPublisher h] clock turn) = Some (s', p', Ok tt) ->
      exists j' h' messages, mpPublishers p' = [StreamPublisher j'; HubPublisher h'] /\ pending s' = [] /\
        Forall2 carries (flat_map durable_frames waiting) messages /\
        taken_in (stream_log j) messages (stream_log j') /\
        (NoDup (map evEventID waiting) ->
         Forall (fun e => Forall (fun entry => nmMsgID entry.2 <> evEventID e) (stream_log j)) waiting ->
         exists sent, stream_log j' = stream_log j ++ sent /\ map snd sent = messages) /\
        forall id c, h !! id = Some c -> listening c waiting ->
          exists c', h' !! id = Some c' /\
            chBuf (hcSend c') = chBuf (hcSend c) ++ List.filter (matches (hcFilter c)) waiting.
Proof.
  intros Ht. destruct (closed_joins_outbox bar hist w Ht)
    as (w' & reducers & market & count & events & snapshots & Hplan & Hrun & _ & Hwf & Hpend & _).
  exists w', events. split; [done|]. split; [eauto 10|]. cbn zeta. split; [done|].
  rewrite <-Hpend. intros fuel j h clock turn s' p' Hf Hok HF.
  destruct (Flush_spec (S := Memory) fuel (wStore w') (mkMulti [StreamPublisher j; HubPublisher h] clock turn))
    as (s1 & p1 & r & k & HF1 & Hb & _ & _ & Hnil & _); [exact Hwf|exact Hf|]. rewrite HF in HF1. injection HF1 as <- <- <-.
  destruct (publish_batch_multi _ _ _ _ _ _ Hb) as (j' & h' & messages & Hp & Hc & Htk & Hh).
  exists j', h', messages. split_and!; [done|by apply Hnil|done|done| |].
  { intros Hd Hnew. apply (taken_in_fresh _ _ _ Htk); [by eapply durable_unseen|by eapply durable_distinct]. }
  intros id c Hid Hli.
  eapply publish_listening; [exact Hok|by apply pending_sorted|done|done|exact Hh].
Qed.

(** A lane of the service: its outbox delivers. *)
Definition fx_outbox_options : LaneOptions := mkLaneOptions fx_key [3; 2] 0 2 true true true true.
Definition fx_outbox_lane : Lane := match NewLane fx_outbox_options with Ok l => l | _ => fx_lane end.
Definition fx_path : World Memory := mkWorld fx_outbox_lane NewMemory [].
Definition fx_planned : list SignalEvent :=
  match closed_plan fx_outbox_lane (fx_bar 0) with Ok (Some (_, _, _, events, _)) => events | _ => [] end.
Definition fx_taken : World Memory := fst (run_command (Lane_Closed (fx_bar 0)) fx_path).

(** One subscriber to every event of the series. *)
Definition fx_everything : Subscription := mkSubscription [] [] ∅ true true.
Definition fx_client : hubClient := mkClient fx_everything (mkChan 8 [] false) true [] 0 false.
Definition fx_served : Hub := {[ 7 := fx_client ]}.

Lemma fx_takes_next : takes_next fx_path [] (fx_bar 0).
Proof.
  destruct (NewLane_ok fx_outbox_options fx_outbox_lane) as (Hwf & Hr & _);
    [vm_compute; reflexivity|vm_compute; discriminate|repeat constructor|].
  assert (Hp : lPeriods fx_outbox_lane = [2; 3]) by (vm_compute; reflexivity).
  split; [exact Hwf|exact Hr|reflexivity|apply fx_typed| | |reflexivity|apply NewMemory_wf|vm_compute; reflexivity|done| |].
  - split; [reflexivity|]. split; [vm_compute; reflexivity|]. intros lastBar Hl. vm_compute in Hl. discriminate.
  - split.
    + cbn [fx_path wLane]. rewrite Hp. apply Forall_forall. repeat constructor; vm_compute; reflexivity.
    + cbn [fx_path wLane]. rewrite Hp. apply Forall_forall. repeat constructor; vm_compute; reflexivity.
    + vm_compute. constructor.
    + split; vm_compute; try reflexivity. split; [discriminate|reflexivity].
  - intros current Hc. cbn in Hc. by rewrite lookup_empty in Hc.
  - intros reducers market count events snapshots Hplan. assert (events = fx_planned) as ->.
    { unfold fx_planned. cbn [fx_path wLane] in Hplan. by rewrite Hplan. }
    assert (Hl : List.length fx_planned = 1%nat) by (vm_compute; reflexivity).
    destruct fx_planned as [|e [|? ?]]; [done| |done]. split; [apply NoDup_singleton|]. by repeat constructor.
Qed.

Lemma fx_served_ok : hub_ok fx_served.
Proof.
  intros id c Hc. unfold fx_served in Hc. apply (lookup_singleton_Some (M := gmap Z)) in Hc as [_ <-]. exists []. split; cbn; try done; constructor.
Qed.

Definition fx_waiting : list SignalEvent := numbered 0 fx_planned.

Lemma fx_listening : listening fx_client fx_waiting.
Proof.
  split; [reflexivity|reflexivity| |].
  - eapply Forall_impl; [apply numbered_range|]. cbn beta. intros e [He _]. exact He.
  - assert (len fx_waiting = 1) as -> by (vm_compute; reflexivity). discriminate.
Qed.

Definition fx_stream : JetStream NatsServer := mkJetStream fx_server ∅.
Definition fx_path_flush : option (Memory * multiPublisher NatsServer * outcome string unit) :=
  Flush 1 (wStore fx_taken) (mkMulti [StreamPublisher fx_stream; HubPublisher fx_served] (fun _ => second) 0).

Lemma closed_bar_reaches_subscriber_witness :
  exists s' p' j' h' messages c', fx_path_flush = Some (s', p', Ok tt) /\
    mpPublishers p' = [StreamPublisher j'; HubPublisher h'] /\ pending s' = [] /\
    taken_in [] messages (stream_log j') /\ List.length messages = 2%nat /\ h' !! 7 = Some c' /\
    chBuf (hcSend c') = [] ++ fx_waiting.
Proof.
  destruct (closed_bar_reaches_subscriber (fx_bar 0) [] fx_path fx_takes_next)
    as (w' & events & Hrun & (reducers & market & count & snapshots & Hplan) & _ & Hflush).
  assert (events = fx_planned) as -> by (unfold fx_planned; cbn [fx_path wLane] in Hplan; by rewrite Hplan).
  assert (w' = fx_taken) as -> by (unfold fx_taken; by rewrite Hrun).
  change (pending (wStore fx_path) ++ numbered (meNext (wStore fx_path)) fx_planned) with fx_waiting in Hflush.
  assert (HF : exists s' p', fx_path_flush = Some (s', p', Ok tt)).
  { destruct fx_path_flush as [[[s' p'] [[]|e|]]|] eqn:E; [eauto|vm_compute in E; discriminate..]. }
  destruct HF as (s' & p' & HF).
  destruct (Hflush 1%nat fx_stream fx_served (fun _ => second) 0%nat s' p') as (j' & h' & messages & Hp & Hnil & Hc & Htk & _ & Hcl);
    [vm_compute; apply le_n|apply fx_served_ok|exact HF|].
  destruct (Hcl 7 fx_client) as (c' & Hc' & Hbuf); [apply (lookup_singleton_eq (M := gmap Z))|apply fx_listening|].
  exists s', p', j', h', messages, c'. split_and!; [exact HF|exact Hp|exact Hnil|exact Htk| |exact Hc'|].
  - rewrite <-(Forall2_length _ _ _ Hc). vm_compute. reflexivity.
  - cbn [fx_client hcFilter hcSend chBuf] in Hbuf. rewrite Hbuf.
    assert (List.filter (matches fx_everything) fx_waiting = fx_waiting) as -> by (vm_compute; reflexivity). reflexivity.
Defined.

(** ** The streams of the broker *)

(** C16: Opening the broker reconciles its two streams, whatever a server that
    keeps the laws of the client library holds: no other stream is touched;
    when it succeeds, both are there, each as it was when it was right
    already, written with the wanted configuration when it was not, or, when
    its creation with the wanted configuration was answered with the name being
    in use by then, as another client has created it; when it fails, the connection is closed.
    Opening again over streams that are right writes nothing, and closing
    leaves the streams and ends the connection. *)
Theorem open_reconciles_streams {C} `{StreamLaws C} c url token replicas c' r :
  Open c url token replicas = (c', r) ->
  untouched [FactStream; EvaluationStream] (na_streams c) (na_streams c') /\
  match r with
  | inr j => jsConnection j = c' /\ jsLive j = ∅ /\ na_connected c' = true /\
      Forall (fun want => exists got, na_streams c' !! scName want = Some got /\ reconciled (na_streams c) want got)
        (stream_configs (Z.max 1 replicas)) /\
      na_streams (jsConnection (JetStream_Close j)) = na_streams c' /\
      na_connected (jsConnection (JetStream_Close j)) = false
  | inl _ => na_connected c' = false
  end /\
  ((forall want, want ∈ stream_configs (Z.max 1 replicas) -> na_streams c !! scName want = Some want) ->
   na_streams c' = na_streams c).
Proof.
  intros Hrun. destruct (Open_spec _ _ _ _ _ _ Hrun) as [Hu Hr]. split_and!; [done| |by intros Hw; eapply reopen_writes_nothing].
  destruct r as [e|j]; [done|]. destruct (JetStream_Close_spec j) as [Hs Hc]. destruct Hr as (Hj & Hl & Hcon & Hall).
  split_and!; try done. by rewrite Hs, Hj.
Qed.

(** A server whose fact stream has too few replicas and whose evaluation stream
    another client creates first. *)
Definition fx_rival : StreamConfig := stream_config EvaluationStream EvaluationSubjects 1 true.
Definition fx_nats : NatsServer :=
  mkNats {[ FactStream := stream_config FactStream FactSubjects 1 false ]} false
    [Works; Works; Works; Works; Works; Preempted fx_rival] [] 0.
Definition fx_reconciled : NatsServer := fst (Open fx_nats "nats://127.0.0.1:4222" "token" 3).

Lemma open_reconciles_streams_witness :
  na_streams fx_reconciled !! FactStream = Some (stream_config FactStream FactSubjects 3 false) /\
  na_streams fx_reconciled !! EvaluationStream = Some fx_rival /\ na_connected fx_reconciled = true.
Proof.
  assert (Hrun : Open fx_nats "nats://127.0.0.1:4222" "token" 3 = (fx_reconciled, inr (mkJetStream fx_reconciled ∅)))
    by (vm_compute; reflexivity).
  destruct (open_reconciles_streams _ _ _ _ _ _ Hrun) as (_ & (_ & _ & Hc & Hall & _) & _).
  apply Forall_cons in Hall as [(got & Hgot & Hrec) _]. cbn [scName stream_config] in Hgot.
  split_and!; [|vm_compute; reflexivity|done]. rewrite Hgot. destruct Hrec as [Hw ->|Hw ->|c1 c2 Hw _ _ _]; [done|done|].
  vm_compute in Hw. discriminate.
Defined.

(** ** The health of the outbox *)

(** C30: The health that is served is that of the last flush: the dispatcher's
    loop, with anything that keeps the store in order happening between its
    ticks, flushes at the start and at every tick; then the metrics say
    healthy exactly when the last flush succeeded, nothing was left pending by
    it if they do, and the error counter has grown by the number of flushes
    that failed. *)
Theorem outbox_health_truthful {S P} `{OutboxLaws S} `{OutboxPublisher P} growth fuel (s : S) (p : P) interval m ticks :
  (forall p e, (ob_publish (P := P) p e).2 <> Panic) -> ob_ready s -> Forall (tolerable growth) ticks ->
  ((List.length (ob_queue s) + Datatypes.S (List.length ticks) * growth) / 250 < fuel)%nat ->
  exists d' results r m', OutboxRun.Run fuel (New s p interval (Some m)) ticks = Some (d', results) /\
    List.length results = Datatypes.S (List.length ticks) /\ last results = Some r /\ r <> Panic /\
    dsMetrics d' = Some m' /\ OutboxHealthy m' = is_ok r /\ (is_ok r = true -> ob_queue (dsStore d') = []) /\
    (mtOutboxErrors m' = if failures results =? 0 then mtOutboxErrors m
                         else wrap_u64 (mtOutboxErrors m + failures results)).
Proof.
  intros Hpub Hr Ht Hf.
  destruct (run_ticks_spec Hpub growth fuel (id :: ticks) (New s p interval (Some m)) m)
    as (d' & results & m' & Hrun & Hlen & Hm' & _ & Herr & Hlast); [done|done| |done|].
  { constructor; [apply tolerable_id|done]. }
  destruct (last results) as [r|] eqn:El; [|by apply last_None in El as ->].
  destruct (Hlast r eq_refl) as (Hnp & [Hm Hh Hd]).
  exists d', results, r, m'. by split_and!.
Qed.

(** A publisher that refuses once: the first flush fails, the next drains. *)
Definition fx_refusing : LogPublisher := mkLog [] [true].

Lemma outbox_health_truthful_witness :
  exists d' results r m',
    OutboxRun.Run 1 (New fx_outbox fx_refusing 0 (Some (NewMetrics second))) [id] = Some (d', results) /\
    List.length results = 2%nat /\ last results = Some r /\ r <> Panic /\
    dsMetrics d' = Some m' /\ OutboxHealthy m' = is_ok r /\ (is_ok r = true -> ob_queue (dsStore d') = []) /\
    (mtOutboxErrors m' = if failures results =? 0 then 0 else wrap_u64 (0 + failures results)).
Proof.
  apply (outbox_health_truthful 0 1 fx_outbox fx_refusing 0 (NewMetrics second) [id]).
  - intros [events [|[] script]] e; done.
  - apply fx_outbox_wf.
  - apply Forall_singleton, tolerable_id.
  - vm_compute. apply le_n.
Defined.

(** ** A run of the service *)

(** C29: Whatever the environment, the database, the broker and the components
    do, a run that has begun to serve has opened the store and then, when one
    is configured, the broker, has started one lane for every configured
    series, has closed them again in the opposite order, and returns the first
    error of its components; a run that could not start returns why, has
    started no lane, and has closed whatever it had opened, the last first. *)
Theorem run_opens_and_closes {S C} `{OutboxStore S} `{Connection C} `{StreamAdmin C} `{Runtime} (memory_store : S)
    OpenPostgres (network : C) began fuel lookup clock ends :
  let result := run memory_store OpenPostgres network began fuel lookup clock ends in
  match start memory_store OpenPostgres (open_broker network) fuel lookup clock with
  | None => result = None
  | Some (Ok sv) => exists lanes,
      result = Some (full_run (enabled (cfNATSURL (stSettings sv))) lanes, group_result ends) /\
      lanes ≡ₚ cfSeries (stSettings sv) /\
      well_nested [] (full_run (enabled (cfNATSURL (stSettings sv))) lanes) = true
  | Some (Fail e) => exists effects, result = Some (effects, Fail (RunStart e)) /\
      well_nested [] effects = true /\ forallb (fun e => negb (is_lane e)) effects = true
  | Some Panic => exists effects, result = Some (effects, Panic) /\ well_nested [] effects = true
  end.
Proof.
  pose proof (run_spec memory_store OpenPostgres network began fuel lookup clock ends) as Hrun. unfold run_after in Hrun.
  cbn zeta. destruct (start _ _ _ _ _ _) as [[sv|e|]|] eqn:Hs; try done.
  apply start_registry in Hs. exists (Registry_Start (stRegistry sv)). split_and!; [done| |apply full_run_nested].
  by rewrite (Registry_Start_series _ _ Hs).
Qed.
